(* ===== verification/_CoqProject ===== *)
-Q . S2P
Prelude.v
Chain.v
BlockRules.v
Postgres.v
Kafka.v
ArchiveCore.v
VersionCache.v
Reference.v
BlockExecutor.v
Notifier.v
Demos.v
Ring.v
Steps.v
Pipeline.v
Interleaving.v
Recovery.v
Progress.v
Notifies.v
Client.v
Replay.v
ClientQueries.v
ClientTraits.v
ChangesTrie.v
CallExecutor.v
RuntimeMock.v
WasmArchive.v
WasmReplay.v
WasmMetadata.v
LightProofs.v
Network.v
Relay.v
Builder.v
NodeRuntime.v
Service.v
