(* ===== verification/Prelude.v ===== *)
(** * Verification of the sub-archive node

    sub-archive is a Substrate node that follows a chain and archives it: for
    every block it re-executes the block on its parent's state, collects the
    storage changes, and writes them with the block to PostgreSQL and Kafka.
    This library models the parts of the program that do this, translated from
    the Rust sources, and proves what they are for.

    ** The program

    - The program ([cli/src/command.rs]) reads its configuration and its chain
      specification, opens the database and starts a node ([cli/src/service.rs])
      from the parts of [client/service/src/builder.rs].
    - The node imports blocks with its own copy of Substrate's client
      ([client/service/src/client/]): [client.rs] checks, executes, commits and
      finalizes blocks under a lock, [block_rules.rs] refuses the blocks a chain
      specification excludes, [notifies.rs] announces the others,
      [call_executor.rs] and [wasm_override.rs] choose the code a runtime call
      runs, [genesis.rs] builds block 0.  A task ([client/service/src/lib.rs])
      tells the network what the client announced.
    - The runtime is called through an object of [archive/runtime/src/mock.rs]
      that forwards a few calls to the chain's wasm code, or through the node's
      own runtime ([runtime/src/]).
    - Four tasks form a loop of channels.  The initializer or the configuration
      gives a first number; the executor ([archive/executor]) takes a number,
      executes the block and sends the result to the archiver and the number to
      the comparer; the comparer ([archive/notifier/src/comparer.rs]) sends the
      next number back, or the same one after three seconds when the node has no
      later block; the archiver ([archive/notifier/src/notifier.rs]) writes to
      the database ([archive/postgres]) and to Kafka ([archive/kafka]).
    - The executor may read the node's database through a secondary RocksDB
      instance ([archive/traits]).

    ** The files

    - [Prelude.v]: results with panics, the state and failure monad with its
      laws, invariants of stateful calls, machine integers, lists.
    - [Chain.v]: blocks, errors and statuses; the interfaces of what is not in
      the repository: the backend, the runtime, the runtime API.
    - [BlockRules.v]: [block_rules.rs].
    - [Postgres.v]: models, schema, statements, calls and migrations of
      [archive/postgres].  A table is a finite map by its primary key; each
      statement checks the constraints of the migration.
    - [Kafka.v]: [archive/kafka]; the broker is a log of records.
    - [ArchiveCore.v]: [archive/traits]: the class the executor reads blocks
      through, its local instance, the secondary database.
    - [VersionCache.v]: [archive/executor/src/version_cache.rs].
    - [Reference.v]: a small concrete chain, database and broker, on which the
      witnesses of the theorems are evaluated; it models no code.
    - [BlockExecutor.v]: [archive/executor/src/lib.rs].
    - [Notifier.v]: [archive/notifier/src/notifier.rs].
    - [Demos.v]: the two example programs of [archive/postgres] and
      [archive/kafka].
    - [Ring.v]: the abstract specification of the four tasks: one number that
      goes round, and what is handed to the archiver; it models no code.
    - [Steps.v]: [archive] of the executor and of the archiver cut at their
      accesses to shared state, with a program counter ([executor_action],
      [archiver_action]); running the steps to the end is the function of
      [BlockExecutor.v] or [Notifier.v].
    - [Pipeline.v]: the comparer, the initializer, the configuration and the
      start of the tasks; the running tasks as a step relation on whole
      iterations ([pipeline_step] is one iteration of one task, [reachable]
      every order of them with the imports of the node).
    - [Interleaving.v]: the same tasks access by access ([access],
      [interleaved]): how this refines the iterations of [Pipeline.v] and the
      round of [Ring.v].
    - [Recovery.v]: sequences of sessions on one database and one log, each
      killed between any two accesses ([session]); it models no further code.
    - [Progress.v]: what every schedule of the accesses brings about; it models
      no further code.
    - [Notifies.v], [Client.v], [ClientQueries.v], [ClientTraits.v],
      [ChangesTrie.v], [LightProofs.v]: [notifies.rs] and [client.rs], by import
      and finality, construction and queries, the traits that forward, the
      changes tries, and the proofs for light clients.  A block import
      operation is the list of the calls made on it, which the backend receives
      when it is committed.
    - [Replay.v]: the import of a block and its archiving joined; it models no
      further code.
    - [CallExecutor.v]: [call_executor.rs] and [wasm_override.rs].
    - [RuntimeMock.v]: [mock.rs] and [Client::call_api_at]; [mock_runtime_api]
      is the instance of the runtime API interface of [Chain.v].
    - [WasmArchive.v], [WasmMetadata.v], [WasmReplay.v]: the executor, the
      archiver and the law that [Replay.v] asks for on the mock object and the
      call executor; they model no further code.
    - [Network.v]: [client/service/src/lib.rs]: the loop over the client's
      streams, as a step relation with the events around it ([net_step]); the
      branch that [select!] takes is any that is ready.
    - [Relay.v]: the client and the network task joined by their streams; it
      models no further code.
    - [Builder.v]: [builder.rs]: the client and its call executor from a
      configuration, the network's parameters and task.
    - [NodeRuntime.v]: [runtime/src/constants.rs] and [runtime/src/lib.rs]: the
      constants with their machine types, the limits, and the methods of the
      runtime API over the pallets' functions.
    - [Service.v]: [chain_spec.rs], [command.rs], [service.rs] and
      [archive/src/config.rs]: from the environment variables to the started
      node, with every failure on the way.

    A Rust function becomes a function of the same name where the name is free
    (otherwise with its component as prefix).  [Result] is [outcome], which
    keeps a panic apart from an error; a method that changes its object or a
    channel is in the monad [M], whose state survives errors and panics as it
    does in Rust.  A [u32] is a [Z] with its wrap-around written out
    ([u32_add]), a Rust map a [gmap], bytes are strings of octets.

    ** What the theorems show

    - The pipeline, end to end: under every interleaving of the accesses the
      numbers handed to the archiver are contiguous and in order
      ([pipeline_in_order]); while no block the archive can read or is reading is
      replaced, the interleaving of the accesses cannot be told from that of
      whole iterations ([interleaving_refines_iterations]), and when one is, a
      request may mix forks ([reorg_splits_request]).  Every schedule with so many
      accesses of the round hands over all blocks up to any number that the
      node's best one does not fall below, whatever fails
      ([every_schedule_hands_over]), and on services that do not fail none
      deadlocks and every one archives them ([every_schedule_archives]); if the
      best number falls, the one on its way is handed over again and again until
      the node has a later block ([fallen_best_stalls]).  One schedule reaches
      the best block with each block archived once ([pipeline_syncs], and from
      the command line on [node_archives_chain]), and at the tip the tasks repeat
      themselves ([tip_republishes]).
    - Across sessions and kills: without faults the stored numbers have no gap
      and a session catches up with what the one before left undone
      ([healthy_session_leaves_no_gap]), so every block is delivered at least
      once ([killed_sessions_deliver]); whatever fails, Kafka stays behind the
      database ([kafka_stays_behind_db]), and a row below the largest one is
      final ([settled_row_is_final]): neither a retracted block nor a gap that a
      fault left is ever corrected.
    - Storing: what an archived block leaves behind
      ([notifier_archive_reliable]); under any faults the tables stay well typed
      ([postgres_ops_preserve_wf]); what each query answers, round trips of the
      single-row operations, the records and their keys; and the two ways data
      is lost ([metadata_record_lost], [block_beyond_partitions_dropped]).
    - Executing: the published message is of the block asked for, with its
      changes ([executor_archive_publishes], [executor_main_changes]), which are
      those of one run of the chain's wasm code, or none if it fails
      ([archive_publishes_wasm_writes], [executor_publishes_failed_block]); a
      block of a new version is stored and published with the metadata that the
      code of its own state answers ([new_version_archived]); what is published
      for an imported block is what its import committed
      ([archive_replays_import], on the mock object by [mock_replays]); the
      version cache answers what no cache would ([version_cache_refines_fresh]).
    - Importing: an import is atomic ([lock_import_and_run_atomic]) and commits
      exactly the block with its changes ([import_block_commits]) after checking
      its state root ([prepare_checks_state_root]); finality commits the blocks
      from the last finalized one on ([finalize_block_spec]); which blocks are
      accepted ([check_block_accepts], [lookup_rule_refines_spec],
      [unsafe_revert_blacklists], [full_client_obeys_spec]); who is told
      ([notify_finalized_delivers]) and that the network hears of it, imports in
      order and finality merged to the latest ([network_relays_imports],
      [network_finality_latest], [network_hears_client]).
    - Queries: genesis, uncles, the changes trie configurations of a range,
      header and key changes proofs ([header_proof_spec],
      [key_changes_proof_spec]).
    - Runtime calls: which code runs ([calls_run_effective_code],
      [scrape_overrides_spec]), every call of the mock object as a transaction
      on the overlay, when it initializes a block and in which methods it panics.
    - Starting: what is running when the start succeeds ([node_started_spec]),
      that client and archive agree on the genesis ([node_genesis_agrees]), and
      what prevents it ([start_needs_archive_json], [new_full_parts_error]).
    - The runtime's arithmetic: deposits without overflow ([deposits_exact]),
      limits that fit together ([runtime_limits_consistent]).

    ** Assumptions, bounds and fuel

    What is outside the repository (Substrate's backend, runtime, state machine,
    consensus, network worker and codec, PostgreSQL's transport, the Kafka
    broker, RocksDB, the file system, file formats) is a class of operations
    that every definition takes as an argument; connections, statements and
    deliveries may fail at any call. Theorems that need more name it: a class of
    laws ([PgLaws], [TreeRouteLaws], [RocksLaws], [ChangesTrieLaws],
    [OverlayLaws], [ChtLaws], [WeightLaws], [ReplayLaws],
    [ContextLaws], [QuietServices]) or a hypothesis, each with a witness on
    concrete functions. The 64-bit hash of the version cache is a parameter, and
    that the code blobs of the chain do not collide under it a hypothesis
    ([no_collision]).

    Two definitions recur on fuel.  Each round of [require_loop] goes to a
    configuration that starts lower, so the height where the first one starts
    bounds the rounds ([require_fuel]); [require_changes_trie_covers] proves
    that they suffice.  [uncles_loop] recurs on the number of generations, as
    the source's [for] does.  The channel loops ([run]) are recursions on the
    messages received or steps of the pipeline, which has no fuel; its schedules
    are lists of steps, as are the rounds of the network's endless loop.

    An import leaves any two databases behind: a reorganisation, a fork choice or
    a finality that moves the best block, also to one with a lower number, and
    pruning are all imports.  The theorems that need more ask for it step by
    step: that the blocks at hand are kept ([keeps], [calm]), that no best number
    is below or above a bound ([imports_above], [imports_below]), or that the
    node has the metadata of the message the archiver is at and the tables can
    hold it ([answerable]).  [services_ok] is the rest of a run without faults:
    no request to PostgreSQL fails, every delivery is acknowledged, and what is
    sent can be serialized; the mock object has the metadata of the blocks of
    its chain and of no others ([mock_has_metadata], [mock_lacks_metadata]).

    The three seconds of the comparer are a separate step of a timer: nothing is
    assumed of when it happens.  The tasks share the channels, the databases and
    the node's backend.  What is atomic is one access: one message taken or
    sent, one call on the backend or the runtime, one statement, one delivery.
    The executor reads a block in three calls (header, body, justifications,
    each by the number), so an import may come between them.  The iterations of
    the comparer, of the initializer and of its timer read shared state once
    and stay whole.  A program counter has a rank that every access lowers, so
    the rank is fuel enough for the rest of an iteration ([rest]); a block takes
    the round twelve accesses at most, and the archiver seven, which are the
    bounds of [Progress.v].  A kill may come between any two accesses; it loses
    the channels and the counters and keeps the tables and the log.

    ** What is not modelled

    Telemetry, logs and metrics.  The inside of what the code passes on to
    Substrate: consensus and its import queue, the network worker and its
    request handlers, the pallets and the macros that instantiate them for the
    node's runtime with their type-level configuration, the native executor's
    macro, tries, hashing and codecs.  The declarations of the command line's
    arguments and the strings it describes itself with, the build script,
    re-exports, [PartialComponents] and the error type of [archive/src/error.rs],
    which nothing uses.  The commented-out code of the sources.  What is left of
    the files modelled is imports, trait bounds and derived instances. *)

From Stdlib Require Import ZArith Lia.
From stdpp Require Export base tactics list gmap strings numbers pretty relations.


(** ** Outcomes of Rust calls

    A Rust call that returns [Result<A, E>] ends in one of three ways: it
    returns [Ok], it returns [Err], or it panics ([assert!], [unwrap],
    [expect], [panic!], [unimplemented!]).  Panics are kept apart from errors
    because [?] and [map_err] never intercept them. *)

Inductive outcome (E A : Type) : Type :=
  | Ok (a : A)
  | Err (e : E)
  | Panic (msg : string).
Arguments Ok {E A} a.
Arguments Err {E A} e.
Arguments Panic {E A} msg.

Declare Scope archive_scope.
Delimit Scope archive_scope with archive.
Open Scope archive_scope.

Section outcome.
Context {E A B : Type}.

(** The [?] operator on a [Result]. *)
Definition obind (m : outcome E A) (k : A → outcome E B) : outcome E B :=
  match m with
  | Ok a => k a
  | Err e => Err e
  | Panic msg => Panic msg
  end.

(** [Result::map_err]. *)
Definition omap_err {F : Type} (f : E → F) (m : outcome E A) : outcome F A :=
  match m with
  | Ok a => Ok a
  | Err e => Err (f e)
  | Panic msg => Panic msg
  end.

(** [Result::map]. *)
Definition omap_ok (f : A → B) (m : outcome E A) : outcome E B :=
  match m with
  | Ok a => Ok (f a)
  | Err e => Err e
  | Panic msg => Panic msg
  end.

(** [Option::ok_or]. *)
Definition ok_or (o : option A) (e : E) : outcome E A :=
  match o with
  | Some a => Ok a
  | None => Err e
  end.

(** [Option::expect]. *)
Definition expect (o : option A) (msg : string) : outcome E A :=
  match o with
  | Some a => Ok a
  | None => Panic msg
  end.

(** [Result::unwrap]: an error becomes a panic. *)
Definition unwrap {F : Type} (m : outcome F A) (msg : string) : outcome E A :=
  match m with
  | Ok a => Ok a
  | Err _ => Panic msg
  | Panic p => Panic p
  end.

(** [assert!]. *)
Definition assert (b : bool) (msg : string) : outcome E unit :=
  if b then Ok () else Panic msg.
End outcome.

Notation "'let?' x ':=' m 'in' k" := (obind m (λ x, k))
  (at level 10, x pattern, m at level 100, k at level 200,
   format "'[v' let?  x  ':='  m  'in' '/' k ']'") : archive_scope.

Definition is_Ok {E A} (m : outcome E A) : Prop := ∃ a, m = Ok a.
Definition is_Panic {E A} (m : outcome E A) : Prop := ∃ s, m = Panic s.

Lemma is_Panic_dec {E A} (m : outcome E A) : {is_Panic m} + {¬ is_Panic m}.
Proof. destruct m as [a|e|p]; [right; by intros []|right; by intros []|left; by exists p]. Defined.

#[export] Instance outcome_eq_dec {E A} `{EqDecision E, EqDecision A} :
  EqDecision (outcome E A).
Proof. solve_decision. Defined.

(** ** State and failure

    A stateful call reads and writes a state of type [S]; the state survives
    an error or a panic (Rust keeps the mutations made before them). *)

Definition M (E S A : Type) : Type := S → outcome E A * S.

Section monad.
Context {E S : Type}.

Definition ret {A} (a : A) : M E S A := λ s, (Ok a, s).
Definition throw {A} (e : E) : M E S A := λ s, (Err e, s).
Definition panic {A} (msg : string) : M E S A := λ s, (Panic msg, s).
Definition lift {A} (m : outcome E A) : M E S A := λ s, (m, s).
Definition get : M E S S := λ s, (Ok s, s).
Definition put (s : S) : M E S unit := λ _, (Ok (), s).
Definition modify (f : S → S) : M E S unit := λ s, (Ok (), f s).
Definition gets {A} (f : S → A) : M E S A := λ s, (Ok (f s), s).
(** A query that reads the state and may fail. *)
Definition query {A} (f : S → outcome E A) : M E S A := λ s, (f s, s).

Definition bind {A B} (m : M E S A) (k : A → M E S B) : M E S B :=
  λ s, match m s with
       | (Ok a, s') => k a s'
       | (Err e, s') => (Err e, s')
       | (Panic msg, s') => (Panic msg, s')
       end.

(** [for x in l { f(x)?; }]. *)
Fixpoint for_each {A} (f : A → M E S unit) (l : list A) : M E S unit :=
  match l with
  | [] => ret ()
  | x :: l' => bind (f x) (λ _, for_each f l')
  end.
End monad.

Notation "'let!' x ':=' m 'in' k" := (bind m (λ x, k))
  (at level 10, x pattern, m at level 100, k at level 200,
   format "'[v' let!  x  ':='  m  'in' '/' k ']'") : archive_scope.
Notation "m ';;!' k" := (bind m (λ _, k))
  (at level 90, k at level 200, right associativity,
   format "'[v' m  ';;!' '/' k ']'") : archive_scope.

(** [Result::map_err] on a stateful call. *)
Definition catch_err {E F S A} (f : E → F) (m : M E S A) : M F S A :=
  λ s, let '(r, s') := m s in (omap_err f r, s').

(** Runs a call on a part of the state (a field of a record). *)
Definition zoom {E S T A} (proj : S → T) (set : T → S → S) (m : M E T A) :
    M E S A :=
  λ s, let '(r, t) := m (proj s) in (r, set t s).

(** ** Laws of the two monads *)

Section laws.
Context {E S : Type}.

Lemma obind_Ok {A B} (m : outcome E A) (k : A → outcome E B) b :
  obind m k = Ok b ↔ ∃ a, m = Ok a ∧ k a = Ok b.
Proof. destruct m; naive_solver. Qed.

Lemma bind_Ok {A B} (m : M E S A) (k : A → M E S B) s b s' :
  bind m k s = (Ok b, s') ↔ ∃ a s1, m s = (Ok a, s1) ∧ k a s1 = (Ok b, s').
Proof. unfold bind. destruct (m s) as [[]]; naive_solver. Qed.

Lemma bind_Err {A B} (m : M E S A) (k : A → M E S B) s e s' :
  bind m k s = (Err e, s') ↔
  m s = (Err e, s') ∨ ∃ a s1, m s = (Ok a, s1) ∧ k a s1 = (Err e, s').
Proof. unfold bind. destruct (m s) as [[]]; naive_solver. Qed.

Lemma bind_Panic {A B} (m : M E S A) (k : A → M E S B) s p s' :
  bind m k s = (Panic p, s') ↔
  m s = (Panic p, s') ∨ ∃ a s1, m s = (Ok a, s1) ∧ k a s1 = (Panic p, s').
Proof. unfold bind. destruct (m s) as [[]]; naive_solver. Qed.

Lemma bind_step {A B} (m : M E S A) (k : A → M E S B) s a s1 :
  m s = (Ok a, s1) → bind m k s = k a s1.
Proof. unfold bind. by intros ->. Qed.

Lemma bind_fail {A B} (m : M E S A) (k : A → M E S B) s e s1 :
  m s = (Err e, s1) → bind m k s = (Err e, s1).
Proof. unfold bind. by intros ->. Qed.

Lemma bind_ext {A B} (m1 m2 : M E S A) (k1 k2 : A → M E S B) s :
  m1 s = m2 s → (∀ a s', k1 a s' = k2 a s') → bind m1 k1 s = bind m2 k2 s.
Proof. unfold bind. intros -> Hk. by destruct (m2 s) as [[]]. Qed.

Lemma bind_assoc {A B C} (m : M E S A) (k1 : A → M E S B) (k2 : B → M E S C) s :
  bind (bind m k1) k2 s = bind m (λ a, bind (k1 a) k2) s.
Proof. unfold bind. by destruct (m s) as [[]]. Qed.

Lemma bind_lift_Ok {A B} (a : A) (k : A → M E S B) s : bind (lift (Ok a)) k s = k a s.
Proof. done. Qed.

Lemma bind_unit_r (m : M E S unit) s : bind m (λ _, ret ()) s = m s.
Proof. unfold bind. by destruct (m s) as [[[]| |] s']. Qed.

Lemma for_each_fmap {A B} (f : B → M E S unit) (g : A → B) l s :
  for_each (λ x, f (g x)) l s = for_each f (g <$> l) s.
Proof.
  revert s. induction l as [|x l IH]; intros s; simpl; [done|].
  unfold bind. destruct (f (g x) s) as [[]]; [apply IH|done..].
Qed.

Lemma for_each_app {A} (f : A → M E S unit) l1 l2 s :
  for_each f (l1 ++ l2) s = bind (for_each f l1) (λ _, for_each f l2) s.
Proof.
  revert s. induction l1 as [|x l1 IH]; intros s; simpl; [done|].
  unfold bind in *. destruct (f x s) as [[] s1]; simpl; [apply IH|done|done].
Qed.
End laws.

(** [preserves I m]: whatever the outcome, [m] keeps the invariant [I]. *)
Definition preserves {E S A} (I : S → Prop) (m : M E S A) : Prop :=
  ∀ s, I s → I (m s).2.

Section preserves.
Context {E S : Type} (I : S → Prop).

Lemma preserves_ret {A} (a : A) : preserves I (ret (E:=E) a).
Proof. by intros s. Qed.
Lemma preserves_throw {A} (e : E) : preserves I (throw (A:=A) e).
Proof. by intros s. Qed.
Lemma preserves_panic {A} p : preserves I (panic (E:=E) (A:=A) p).
Proof. by intros s. Qed.
Lemma preserves_lift {A} (m : outcome E A) : preserves I (lift m).
Proof. by intros s. Qed.
Lemma preserves_query {A} (f : S → outcome E A) : preserves I (query f).
Proof. by intros s. Qed.
Lemma preserves_gets {A} (f : S → A) : preserves I (gets (E:=E) f).
Proof. by intros s. Qed.
Lemma preserves_get : preserves I (get (E:=E)).
Proof. by intros s. Qed.
Lemma preserves_modify (f : S → S) :
  (∀ s, I s → I (f s)) → preserves I (modify (E:=E) f).
Proof. intros Hf s. apply Hf. Qed.

Lemma preserves_bind {A B} (m : M E S A) (k : A → M E S B) :
  preserves I m → (∀ a, preserves I (k a)) → preserves I (bind m k).
Proof.
  intros Hm Hk s Hs. specialize (Hm s Hs). unfold bind.
  destruct (m s) as [[a|e|p] s1]; simpl in *; [|done|done].
  by apply Hk.
Qed.

Lemma preserves_for_each {A} (f : A → M E S unit) l :
  (∀ x, preserves I (f x)) → preserves I (for_each f l).
Proof.
  intros Hf. induction l as [|x l IH]; simpl.
  - apply preserves_ret.
  - apply preserves_bind; [apply Hf|intros _; apply IH].
Qed.
End preserves.

Create HintDb archive discriminated.
Create Rewrite HintDb archive_rw.
#[export] Hint Resolve preserves_ret preserves_throw preserves_panic
  preserves_lift preserves_query preserves_gets preserves_get
  preserves_modify preserves_bind preserves_for_each : archive.

(** ** Tactics *)

(** Inverts one successful, failed or panicking bind in a hypothesis. *)
Ltac bind_inv_step :=
  match goal with
  | H : obind _ _ = Ok _ |- _ => apply obind_Ok in H as (? & ? & H)
  | H : bind _ _ _ = (Ok _, _) |- _ => apply bind_Ok in H as (? & ? & ? & H)
  | H : bind _ _ _ = (Err _, _) |- _ =>
      apply bind_Err in H as [H | (? & ? & ? & H)]
  | H : bind _ _ _ = (Panic _, _) |- _ =>
      apply bind_Panic in H as [H | (? & ? & ? & H)]
  | H : (ret _ _ = _) |- _ => unfold ret in H; simplify_eq
  | H : (throw _ _ = _) |- _ => unfold throw in H; simplify_eq
  | H : (panic _ _ = _) |- _ => unfold panic in H; simplify_eq
  | H : (modify _ _ = _) |- _ => unfold modify in H; simplify_eq
  | H : (gets _ _ = _) |- _ => unfold gets in H; simplify_eq
  | H : (get _ = _) |- _ => unfold get in H; simplify_eq
  end.
Ltac bind_inv := repeat (bind_inv_step; simplify_eq/=).

(** Splits the first [match] or [if] in a hypothesis. *)
Ltac case_in H :=
  match type of H with
  | context [match ?x with _ => _ end] =>
      lazymatch x with
      | context [match _ with _ => _ end] => fail
      | _ => let E := fresh "Hc" in destruct x eqn:E; simplify_eq/=
      end
  end.

(** ** Machine integers

    [u32] and [i32] are [Z] with their range; a cast wraps modulo [2^32]. *)

Definition u32_max : Z := 4294967295.
Definition is_u32 (z : Z) : Prop := (0 ≤ z ≤ u32_max)%Z.
Definition is_i32 (z : Z) : Prop := (-2147483648 ≤ z ≤ 2147483647)%Z.
(** [z as u32] *)
Definition as_u32 (z : Z) : Z := (z `mod` 4294967296)%Z.
(** [a + b] on [u32] in a release build, where overflow wraps. *)
Definition u32_add (a b : Z) : Z := as_u32 (a + b).

Lemma as_u32_id z : is_u32 z → as_u32 z = z.
Proof. unfold is_u32, u32_max, as_u32. intros. apply Z.mod_small. lia. Qed.

Lemma as_u32_range z : is_u32 (as_u32 z).
Proof.
  unfold is_u32, u32_max, as_u32.
  pose proof (Z.mod_pos_bound z 4294967296). lia.
Qed.

Lemma u32_add_exact a b :
  (0 ≤ a + b ≤ u32_max)%Z → u32_add a b = (a + b)%Z.
Proof. intros. by apply as_u32_id. Qed.

#[export] Hint Rewrite @u32_add_exact using (unfold u32_max in *; lia) : archive_rw.

(** Bytes ([Vec<u8>], [&[u8]]) and Rust strings are both lists of octets. *)
Abbreviation Bytes := string (only parsing).

Lemma elem_of_option_list {A} (x : A) o : x ∈ option_list o ↔ o = Some x.
Proof.
  destruct o; simpl; rewrite ?list_elem_of_singleton, ?elem_of_nil; naive_solver.
Qed.

(** Every element is related to the next one. *)
Definition adjacent {A} (R : A → A → Prop) (l : list A) : Prop :=
  ∀ i a b, l !! i = Some a → l !! S i = Some b → R a b.

Lemma adjacent_nil {A} (R : A → A → Prop) : adjacent R [].
Proof. intros i a b Ha. by rewrite lookup_nil in Ha. Qed.

Lemma adjacent_snoc {A} (R : A → A → Prop) l x :
  adjacent R l → (∀ a, last l = Some a → R a x) → adjacent R (l ++ [x]).
Proof.
  intros Hl Hx i a b Ha Hb. destruct (decide (S i < length l)) as [Hi|Hi].
  - rewrite lookup_app_l in Ha, Hb by lia. by apply (Hl i).
  - assert (S i < length (l ++ [x])) as Hi' by (by eapply lookup_lt_Some).
    rewrite length_app in Hi'; simpl in Hi'. assert (S i = length l) as Hil by lia.
    rewrite lookup_app_l in Ha by lia. rewrite lookup_app_r, Hil, Nat.sub_diag in Hb by lia.
    injection Hb as <-. apply Hx. by rewrite last_lookup, <- Hil.
Qed.

(** [Iterator::collect] into a [HashMap]: a later pair replaces an earlier one
    with the same key. *)
Definition collect_map {K V} `{Countable K} (l : list (K * V)) : gmap K V :=
  foldl (λ m kv, <[kv.1 := kv.2]> m) ∅ l.

Lemma collect_map_lookup {K V} `{Countable K} (l : list (K * V)) k :
  collect_map l !! k = snd <$> last (filter (λ kv, kv.1 = k) l).
Proof.
  unfold collect_map.
  induction l as [|[k' v] l IH] using rev_ind; [done|].
  rewrite foldl_snoc, filter_app; simpl.
  destruct (decide (k' = k)) as [->|Hne].
  - rewrite lookup_insert_eq, filter_cons_True by done.
    by rewrite filter_nil, last_snoc.
  - rewrite lookup_insert_ne, filter_cons_False by done.
    by rewrite filter_nil, app_nil_r.
Qed.

Lemma collect_map_NoDup {K V} `{Countable K} (l : list (K * V)) k v :
  NoDup l.*1 → (k, v) ∈ l → collect_map l !! k = Some v.
Proof.
  intros Hnd Hin. rewrite collect_map_lookup.
  apply list_elem_of_split in Hin as (l1 & l2 & ->).
  rewrite fmap_app, fmap_cons in Hnd. apply NoDup_app in Hnd as (_ & Hl1 & Hl2).
  apply NoDup_cons in Hl2 as [Hl2 _].
  assert (∀ l' : list (K * V), k ∉ l'.*1 → filter (λ kv, kv.1 = k) l' = []) as Hnil.
  { intros l' Hl'. induction l' as [|[k' v'] l' IH]; [done|].
    rewrite fmap_cons, not_elem_of_cons in Hl'. destruct Hl' as [? ?].
    rewrite filter_cons_False by (simpl in *; congruence). by apply IH. }
  rewrite filter_app, filter_cons_True by done.
  rewrite (Hnil l1), (Hnil l2); [done|done|].
  intros Hk. apply (Hl1 k Hk). simpl. by left.
Qed.
