(* ===== verification/Chain.v ===== *)
(** * Chain data types and the backend interface

    Data of [primitives/src/lib.rs] and of the Substrate traits the sources
    program against.  The Substrate crates are not part of the repository:
    hashes, extrinsics and digest items are abstract types ([ChainTypes]), and
    the database backend is a record of operations ([Backend]) that every
    definition which uses it takes as an argument. *)

From S2P Require Import Prelude.

(** ** Blocks *)

(** [generic::Header<BlockNumber, BlakeTwo256>] *)
Record header (H D : Type) := mk_header {
  h_number : Z;
  h_extrinsics_root : H;
  h_state_root : H;
  h_parent_hash : H;
  h_digest : list D;
}.
Arguments mk_header {H D}.
Arguments h_number {H D}.
Arguments h_extrinsics_root {H D}.
Arguments h_state_root {H D}.
Arguments h_parent_hash {H D}.
Arguments h_digest {H D}.

(** The types a runtime fixes, and the codec functions the sources call. *)
Class ChainTypes := {
  Hash : Type;
  Hash_eq_dec :: EqDecision Hash;
  Hash_countable :: Countable Hash;
  default_hash : Hash;                       (* [Default::default()] *)
  hash_bytes : Hash → Bytes;                 (* [as_ref().to_vec()] *)
  debug_hash : Hash → string;                (* [format!("{:?}")] *)
  Extrinsic : Type;
  encode_extrinsic : Extrinsic → Bytes;
  DigestItem : Type;
  as_changes_trie_root : DigestItem → option Hash;
  encode_digest : list DigestItem → Bytes;
  Justification : Type;
  encode_justification : Justification → Bytes;
  header_hash : header Hash DigestItem → Hash; (* [Header::hash] *)
  trie_root : list (Bytes * Bytes) → Hash;   (* [Hashing::trie_root] *)
}.

Abbreviation Header := (header Hash DigestItem).

(** [Header::new(number, extrinsics_root, state_root, parent_hash, digest)] *)
Definition new_header `{ChainTypes} (number : Z)
    (extrinsics_root state_root parent_hash : Hash) (digest : list DigestItem) :
    Header :=
  mk_header number extrinsics_root state_root parent_hash digest.

(** [generic::Block<Header, OpaqueExtrinsic>] *)
Record Block `{ChainTypes} := new_block { b_header : Header; b_extrinsics : list Extrinsic }.
Arguments new_block {_}.

(** [SignedBlock] *)
Record SignedBlock `{ChainTypes} := {
  sb_block : Block;
  sb_justifications : option (list Justification);
}.

(** [BlockId<Block>] *)
Inductive BlockId `{ChainTypes} :=
  | IdHash (h : Hash)
  | IdNumber (n : Z).

#[export] Instance BlockId_eq_dec `{ChainTypes} : EqDecision BlockId.
Proof. solve_decision. Defined.

(** ** Errors: the variants of [sp_blockchain::Error] the sources build *)

Inductive Error :=
  | Storage (s : string)
  | BackendError (s : string)
  | UnknownBlock (s : string)
  | NotInFinalizedChain
  | IncompletePipeline
  | InvalidStateRoot
  | ChangesTriesNotSupported
  | ChangesTrieAccessFailed (s : string)
  | Application (s : string)
  | VersionInvalid (s : string)
  | RuntimeCodeError (s : string)
  | RuntimeApiError (s : string)
  | StateError (s : string)
  | OtherError (s : string).

#[export] Instance Error_eq_dec : EqDecision Error.
Proof. solve_decision. Defined.

Abbreviation result := (outcome Error) (only parsing).

(** ** Statuses *)

(** [sp_consensus::BlockStatus] *)
Inductive BlockStatus :=
  | Queued | InChainWithState | InChainPruned | KnownBadStatus | UnknownStatus.
#[export] Instance BlockStatus_eq_dec : EqDecision BlockStatus.
Proof. solve_decision. Defined.

(** [sp_blockchain::BlockStatus] *)
Inductive ChainStatus := InChain | NotInChain.

(** [BlockOrigin] *)
Inductive BlockOrigin :=
  | OriginGenesis | NetworkInitialSync | NetworkBroadcast
  | ConsensusBroadcast | Own | File.
#[export] Instance BlockOrigin_eq_dec : EqDecision BlockOrigin.
Proof. solve_decision. Defined.

(** [ForkChoiceStrategy] *)
Inductive ForkChoiceStrategy := LongestChain | Custom (v : bool).

(** [NewBlockState] *)
Inductive NewBlockState := Normal | Best | Final.
#[export] Instance NewBlockState_eq_dec : EqDecision NewBlockState.
Proof. solve_decision. Defined.

(** [ImportResult]; [Imported] keeps the flag of [ImportedAux] that is set. *)
Inductive ImportResult :=
  | Imported (is_new_best : bool)
  | AlreadyInChain | KnownBad | UnknownParent | MissingState.
#[export] Instance ImportResult_eq_dec : EqDecision ImportResult.
Proof. solve_decision. Defined.

(** [sp_blockchain::Info] *)
Record Info `{ChainTypes} := {
  best_hash : Hash; best_number : Z; genesis_hash : Hash;
  finalized_hash : Hash; finalized_number : Z;
}.

(** [TreeRoute]: the blocks left, the block both ends descend from, and the
    blocks entered, in the order of the walk. *)
Record TreeRoute `{ChainTypes} := {
  retracted : list Hash;
  common_block : Hash;
  enacted : list Hash;
}.

(** ** The backend *)

(** A storage change list: a key and its new value, [None] for a deletion. *)
Abbreviation StorageCollection := (list (Bytes * option Bytes)) (only parsing).

(** The opaque payloads a block import hands from the runtime to the backend. *)
Class BackendTypes := {
  DB : Type;             (* what [Arc<B>] points to *)
  State : Type;          (* [B::State], the storage at one block *)
  Transaction : Type;
  OffchainChanges : Type;
  ChangesTrieTx : Type;
  TxIndex : Type;
  Cache : Type;          (* [HashMap<CacheKeyId, Vec<u8>>] *)
  GenesisStorage : Type; (* [sp_core::storage::Storage] *)
}.

(** [sp_state_machine::StorageChanges], in the order of [into_inner]. *)
Record StorageChanges `{ChainTypes, BackendTypes} := {
  main_storage_changes : StorageCollection;
  child_storage_changes : list (Bytes * StorageCollection);
  offchain_storage_changes : OffchainChanges;
  transaction : Transaction;
  transaction_storage_root : Hash;
  changes_trie_transaction : option ChangesTrieTx;
  transaction_index_changes : TxIndex;
}.

(** The calls the client makes on a [BlockImportOperation]. *)
Inductive OpCall `{ChainTypes, BackendTypes} :=
  | BeginStateOperation (at_ : BlockId)
  | ResetStorage (g : GenesisStorage)
  | UpdateCache (c : Cache)
  | UpdateOffchainStorage (o : OffchainChanges)
  | UpdateDbStorage (tx : Transaction)
  | UpdateStorage (main : StorageCollection)
      (child : list (Bytes * StorageCollection))
  | UpdateTransactionIndex (i : TxIndex)
  | UpdateChangesTrie (tx : ChangesTrieTx)
  | SetBlockData (h : Header) (body : option (list Extrinsic))
      (j : option (list Justification)) (s : NewBlockState)
  | InsertAux (aux : StorageCollection)
  | MarkFinalized (b : BlockId) (j : option Justification)
  | MarkHead (b : BlockId).

(** [sc_client_api::Backend] and its [Blockchain].  A
    [BlockImportOperation] is observed only through the answers of its
    methods, so it is the list of the calls accepted so far (oldest first) and
    [op_answer db calls c] is the answer to the next call. *)
Class Backend `{CT : ChainTypes, BT : BackendTypes} := {
  bc_header : DB → BlockId → result (option Header);
  bc_body : DB → BlockId → result (option (list Extrinsic));
  bc_justifications : DB → BlockId → result (option (list Justification));
  bc_info : DB → Info;
  bc_status : DB → BlockId → result ChainStatus;
  bc_number : DB → Hash → result (option Z);
  bc_hash : DB → Z → result (option Hash);
  bc_children : DB → Hash → result (list Hash);
  bc_last_finalized : DB → result Hash;
  bc_expect_header : DB → BlockId → result Header;
  bc_expect_block_number_from_id : DB → BlockId → result Z;
  bc_expect_block_hash_from_id : DB → BlockId → result Hash;
  tree_route : DB → Hash → Hash → result TreeRoute;
  state_at : DB → BlockId → result State;
  have_state_at : DB → Hash → Z → bool;
  begin_operation : DB → result unit;
  op_answer : DB → list OpCall → OpCall → result unit;
  (* the root [reset_storage] computes for a genesis storage *)
  genesis_root : DB → GenesisStorage → Hash;
  commit_operation : DB → list OpCall → result unit * DB;
  revert_blocks : DB → Z → bool → result (Z * list Hash) * DB;
}.

(** ** The runtime *)

(** [sp_version::RuntimeVersion], by the parts the sources read. *)
Class RuntimeTypes := {
  RuntimeVersion : Type;
  rv_spec_version : RuntimeVersion → Z;
  rv_has_api_with : RuntimeVersion → Bytes → (Z → bool) → bool;
  ChangesTrieState : Type;
}.

(** [ExecutionContext] *)
Inductive ExecutionContext :=
  | Importing | Syncing | BlockConstruction | OffchainCall.

(** [changes_tries_state_at_block] over the backend's changes trie storage. *)
Class ChangesTrieStorage `{CT : ChainTypes, BT : BackendTypes, RT : RuntimeTypes} := {
  changes_tries_state_at_block : DB → BlockId → result (option ChangesTrieState);
}.

(** A runtime API object: [client.runtime_api()] makes a fresh one, and its
    methods mutate it (the overlay of changes it collects). *)
Class RuntimeApi `{CT : ChainTypes, BT : BackendTypes, RT : RuntimeTypes} := {
  Api : Type;
  runtime_api : DB → Api;
  execute_block : Api → BlockId → Block → result unit * Api;
  execute_block_with_context :
    Api → BlockId → ExecutionContext → Block → result unit * Api;
  into_storage_changes :
    Api → State → option ChangesTrieState → Hash →
    outcome string StorageChanges * Api;
  runtime_metadata : Api → BlockId → result Bytes * Api;
  ra_changes_tries :: ChangesTrieStorage;
}.
