(* ===== verification/BlockRules.v ===== *)
(** * Block rules ([client/service/src/client/block_rules.rs])

    The chain specification's known bad blocks and known good forks. *)

From S2P Require Import Prelude Chain.

Section block_rules.
Context `{ChainTypes}.

(** [LookupResult] *)
Inductive LookupResult :=
  | NotSpecial
  | KnownBadBlock
  | Expected (h : Hash).

(** [BlockRules] *)
Record BlockRules := {
  bad : gset Hash;
  forks : gmap Z Hash;
}.

(** [BlockRules::new] *)
Definition block_rules_new (fork_blocks : option (list (Z * Hash)))
    (bad_blocks : option (gset Hash)) : BlockRules :=
  {| bad := default ∅ bad_blocks;
     forks := collect_map (default [] fork_blocks) |}.

(** [BlockRules::mark_bad] *)
Definition mark_bad (r : BlockRules) (h : Hash) : BlockRules :=
  {| bad := {[ h ]} ∪ bad r; forks := forks r |}.

(** [BlockRules::lookup] *)
Definition lookup_rule (r : BlockRules) (number : Z) (h : Hash) : LookupResult :=
  match forks r !! number with
  | Some hash_for_height =>
      if decide (hash_for_height = h) then
        if decide (h ∈ bad r) then KnownBadBlock else NotSpecial
      else Expected hash_for_height
  | None => if decide (h ∈ bad r) then KnownBadBlock else NotSpecial
  end.

(** ** Specification

    The fork rule for a height is the last entry the chain specification
    lists for it; a hash is bad when it was listed or marked. *)

Definition last_fork (l : list (Z * Hash)) (n : Z) : option Hash :=
  snd <$> last (filter (λ kv, kv.1 = n) l).

Definition rule_spec (l : list (Z * Hash)) (bads : gset Hash)
    (marked : list Hash) (n : Z) (h : Hash) : LookupResult :=
  let verdict :=
    if decide (h ∈ bads ∨ h ∈ marked) then KnownBadBlock else NotSpecial in
  match last_fork l n with
  | Some h' => if decide (h' = h) then verdict else Expected h'
  | None => verdict
  end.

Lemma marked_forks r marked : forks (foldl mark_bad r marked) = forks r.
Proof. revert r. induction marked as [|h l IH]; intros r; simpl; [done|]. by rewrite IH. Qed.

Lemma marked_bad r marked h :
  h ∈ bad (foldl mark_bad r marked) ↔ h ∈ bad r ∨ h ∈ marked.
Proof.
  revert r. induction marked as [|x l IH]; intros r; simpl.
  - set_solver.
  - rewrite IH. simpl. set_solver.
Qed.

(** [BlockRules::lookup] answers what the chain specification and the
    later [mark_bad] calls say: a fork rule for the height that names
    another hash wins over the bad list (and the last rule listed for a
    height is the one in force), then the bad list, then nothing. *)
Theorem lookup_rule_refines_spec l bads marked n h :
  lookup_rule (foldl mark_bad (block_rules_new (Some l) (Some bads)) marked) n h
  = rule_spec l bads marked n h.
Proof.
  unfold lookup_rule, rule_spec. rewrite marked_forks. simpl.
  rewrite collect_map_lookup. fold (last_fork l n).
  assert (∀ A (x y : A),
    (if decide (h ∈ bad (foldl mark_bad (block_rules_new (Some l) (Some bads)) marked))
     then x else y) = (if decide (h ∈ bads ∨ h ∈ marked) then x else y)) as Hif.
  { intros A x y. apply decide_ext. apply marked_bad. }
  by destruct (last_fork l n); rewrite ?Hif.
Qed.
End block_rules.
