(* ===== verification/Postgres.v ===== *)
(** * The Postgres archive ([archive/postgres])

    The three tables the migrations create, the SQL statements of
    [database/insert.rs], [database/update.rs] and [database/query.rs] as
    functions on those tables, and the methods of [PostgresDb].

    The server itself is a parameter ([PgService]): acquiring a connection can
    fail, and a statement can fail before or after it took effect.  The wire
    encoding of a [u32] into an [integer] parameter is a parameter too
    ([bind_u32]), with the part the code relies on as laws ([PgLaws]). *)

From S2P Require Import Prelude.

(** ** Models ([model.rs]) *)

(** [serde_json::Value] and the two ways the sources build one. *)
Class JsonTypes := {
  Json : Type;
  json_null : Json;
  json_of_changes : gmap Bytes (option Bytes) → Json;
}.

Record MetadataModel := {
  mm_spec_version : Z;
  mm_block_num : Z;
  mm_block_hash : Bytes;
  mm_meta : Bytes;
}.

Record BlockModel `{JsonTypes} := {
  bm_spec_version : Z;
  bm_block_num : Z;
  bm_block_hash : Bytes;
  bm_parent_hash : Bytes;
  bm_state_root : Bytes;
  bm_extrinsics_root : Bytes;
  bm_digest : Bytes;
  bm_extrinsics : list Bytes;
  bm_justifications : option (list Bytes);
  bm_main_changes : Json;
  bm_child_changes : Json;
}.

Record FinalizedBlockModel := {
  fm_block_num : Z;
  fm_block_hash : Bytes;
}.

#[export] Instance FinalizedBlockModel_eq_dec : EqDecision FinalizedBlockModel.
Proof. solve_decision. Defined.

(** ** Tables ([migrations/20210409032916_tables.sql])

    A row is the model with the [integer] values stored in its columns. *)

Record PgTables `{JsonTypes} := {
  metadatas : gmap Z MetadataModel;           (* PRIMARY KEY (spec_version) *)
  blocks : gmap Z BlockModel;                 (* PRIMARY KEY (block_num) *)
  finalized_row : option FinalizedBlockModel; (* only_one_row *)
}.

(** The partitions of [blocks]: [FROM (lo) TO (hi)], [hi] excluded. *)
Definition blocks_partitions : list (Z * Z) :=
  [(0, 1000000); (1000000, 2000000); (2000000, 3000000); (3000000, 4000000);
   (4000000, 5000000); (5000000, 6000000); (6000000, 7000000);
   (7000000, 8000000); (8000000, 9000000); (9000000, 10000000)]%Z.

Definition has_partition (n : Z) : bool :=
  existsb (λ p, (p.1 <=? n)%Z && (n <? p.2)%Z) blocks_partitions.

(** [CHECK (block_num >= 0 and block_num < 2147483647)] *)
Definition block_num_check (n : Z) : bool :=
  (0 <=? n)%Z && (n <? 2147483647)%Z.

(** ** Statements and their bound arguments *)

(** [sqlx::Error], as far as the sources tell its variants apart. *)
Inductive SqlxError :=
  | Database            (* a violated constraint or an ill-typed statement *)
  | Encode              (* a parameter that cannot be sent *)
  | PoolError (n : nat) (* no connection *)
  | IoError (n : nat).  (* the connection broke *)

Inductive Arg `{JsonTypes} :=
  | ArgU32 (v : Z)
  | ArgBool (b : bool)
  | ArgBytes (b : Bytes)
  | ArgByteArrays (l : list Bytes)
  | ArgOptByteArrays (o : option (list Bytes))
  | ArgJson (j : Json).

Inductive Sql :=
  | InsertMetadatas | InsertBlocks | InsertFinalizedBlock | UpdateBlocksSpec.

(** [sqlx::Query]: the statement and the arguments in [bind] order. *)
Record Query `{JsonTypes} := { q_sql : Sql; q_args : list Arg }.

(** [InsertModel]: what is inserted generates its query. *)
Class InsertModel `{JsonTypes} (A : Type) := gen_query : A → Query.

#[export] Instance gen_query_metadata `{JsonTypes} : InsertModel MetadataModel := λ m,
  {| q_sql := InsertMetadatas;
     q_args := [ArgU32 (mm_spec_version m); ArgU32 (mm_block_num m);
                ArgBytes (mm_block_hash m); ArgBytes (mm_meta m)] |}.

#[export] Instance gen_query_block `{JsonTypes} : InsertModel BlockModel := λ m,
  {| q_sql := InsertBlocks;
     q_args := [ArgU32 (bm_spec_version m); ArgU32 (bm_block_num m);
                ArgBytes (bm_block_hash m); ArgBytes (bm_parent_hash m);
                ArgBytes (bm_state_root m); ArgBytes (bm_extrinsics_root m);
                ArgBytes (bm_digest m); ArgByteArrays (bm_extrinsics m);
                ArgOptByteArrays (bm_justifications m);
                ArgJson (bm_main_changes m); ArgJson (bm_child_changes m)] |}.

#[export] Instance gen_query_finalized `{JsonTypes} : InsertModel FinalizedBlockModel := λ m,
  {| q_sql := InsertFinalizedBlock;
     q_args := [ArgBool true; ArgU32 (fm_block_num m); ArgBytes (fm_block_hash m)] |}.

(** The query of [update.rs]. *)
Definition update_spec_query `{JsonTypes} (spec_version block_num : Z) : Query :=
  {| q_sql := UpdateBlocksSpec;
     q_args := [ArgU32 spec_version; ArgU32 block_num] |}.

(** ** The service *)

(** How a statement fares on the connection. *)
Inductive Fault :=
  | NoFault
  | FaultBefore (e : SqlxError)  (* lost before it took effect *)
  | FaultAfter (e : SqlxError).  (* took effect, the answer was lost *)

(** The server, by the number of requests made so far. *)
Class PgService := {
  acquire_fault : nat → option SqlxError;
  stmt_fault : nat → Fault;
  bind_u32 : Z → option Z;  (* the [integer] a bound [u32] arrives as *)
}.

(** What the code relies on: a bound [u32] keeps its 32 bits, so a value that
    an [integer] can hold arrives as itself. *)
Class PgLaws `{PgService} : Prop := {
  bind_u32_small v : (0 ≤ v ≤ 2147483647)%Z → bind_u32 v = Some v;
  bind_u32_int v z : bind_u32 v = Some z → is_i32 z;
  bind_u32_bits v z : is_u32 v → bind_u32 v = Some z → as_u32 z = v;
}.

Section exec.
Context `{JT : JsonTypes, PG : PgService}.

Definition set_metadatas (x : gmap Z MetadataModel) (t : PgTables) : PgTables :=
  {| metadatas := x; blocks := blocks t; finalized_row := finalized_row t |}.
Definition set_blocks (x : gmap Z BlockModel) (t : PgTables) : PgTables :=
  {| metadatas := metadatas t; blocks := x; finalized_row := finalized_row t |}.
Definition set_finalized (x : option FinalizedBlockModel) (t : PgTables) : PgTables :=
  {| metadatas := metadatas t; blocks := blocks t; finalized_row := x |}.

(** [INSERT INTO metadatas VALUES ... ON CONFLICT (spec_version) DO UPDATE
    SET] every column: the row for the version becomes the new one. *)
Definition exec_insert_metadatas (args : list Arg) (t : PgTables) :
    outcome SqlxError (Z * PgTables) :=
  match args with
  | [ArgU32 sv; ArgU32 bn; ArgBytes hash; ArgBytes meta] =>
      let? sv := ok_or (bind_u32 sv) Encode in
      let? bn := ok_or (bind_u32 bn) Encode in
      if (0 <=? sv)%Z then
        Ok (1%Z, set_metadatas (<[sv := {| mm_spec_version := sv; mm_block_num := bn;
                                        mm_block_hash := hash; mm_meta := meta |}]>
                                  (metadatas t)) t)
      else Err Database
  | _ => Err Database
  end.

(** [INSERT INTO blocks VALUES ... ON CONFLICT (block_num) DO UPDATE SET]
    every column: the number must have a partition and pass the check, and
    the version must be in [metadatas]. *)
Definition exec_insert_blocks (args : list Arg) (t : PgTables) :
    outcome SqlxError (Z * PgTables) :=
  match args with
  | [ArgU32 sv; ArgU32 bn; ArgBytes hash; ArgBytes parent; ArgBytes state_root;
     ArgBytes ext_root; ArgBytes digest; ArgByteArrays exts; ArgOptByteArrays just;
     ArgJson main; ArgJson child] =>
      let? sv := ok_or (bind_u32 sv) Encode in
      let? bn := ok_or (bind_u32 bn) Encode in
      if has_partition bn && block_num_check bn
         && bool_decide (is_Some (metadatas t !! sv)) then
        Ok (1%Z, set_blocks (<[bn := {| bm_spec_version := sv; bm_block_num := bn;
                                     bm_block_hash := hash; bm_parent_hash := parent;
                                     bm_state_root := state_root;
                                     bm_extrinsics_root := ext_root;
                                     bm_digest := digest; bm_extrinsics := exts;
                                     bm_justifications := just;
                                     bm_main_changes := main;
                                     bm_child_changes := child |}]> (blocks t)) t)
      else Err Database
  | _ => Err Database
  end.

(** [INSERT INTO finalized_block VALUES ... ON CONFLICT (only_one) DO UPDATE
    SET (block_num, block_hash)]: [CHECK (only_one)] keeps a single row. *)
Definition exec_insert_finalized (args : list Arg) (t : PgTables) :
    outcome SqlxError (Z * PgTables) :=
  match args with
  | [ArgBool only_one; ArgU32 bn; ArgBytes hash] =>
      let? bn := ok_or (bind_u32 bn) Encode in
      if only_one && block_num_check bn then
        Ok (1%Z, set_finalized (Some {| fm_block_num := bn; fm_block_hash := hash |}) t)
      else Err Database
  | _ => Err Database
  end.

(** [update blocks set spec_version=$1 where block_num=$2] *)
Definition exec_update_spec (args : list Arg) (t : PgTables) :
    outcome SqlxError (Z * PgTables) :=
  match args with
  | [ArgU32 sv; ArgU32 bn] =>
      let? sv := ok_or (bind_u32 sv) Encode in
      let? bn := ok_or (bind_u32 bn) Encode in
      match blocks t !! bn with
      | None => Ok (0%Z, t)
      | Some row =>
          if bool_decide (is_Some (metadatas t !! sv)) then
            Ok (1%Z, set_blocks (<[bn := {| bm_spec_version := sv;
                     bm_block_num := bm_block_num row;
                     bm_block_hash := bm_block_hash row;
                     bm_parent_hash := bm_parent_hash row;
                     bm_state_root := bm_state_root row;
                     bm_extrinsics_root := bm_extrinsics_root row;
                     bm_digest := bm_digest row; bm_extrinsics := bm_extrinsics row;
                     bm_justifications := bm_justifications row;
                     bm_main_changes := bm_main_changes row;
                     bm_child_changes := bm_child_changes row |}]> (blocks t)) t)
          else Err Database
      end
  | _ => Err Database
  end.

Definition execute (q : Query) : PgTables → outcome SqlxError (Z * PgTables) :=
  match q_sql q with
  | InsertMetadatas => exec_insert_metadatas (q_args q)
  | InsertBlocks => exec_insert_blocks (q_args q)
  | InsertFinalizedBlock => exec_insert_finalized (q_args q)
  | UpdateBlocksSpec => exec_update_spec (q_args q)
  end.

(** [SELECT EXISTS(SELECT spec_version FROM metadatas WHERE spec_version = $1)] *)
Definition select_metadata_exists (spec_version : Z) (t : PgTables) :
    outcome SqlxError (option bool * PgTables) :=
  let? sv := ok_or (bind_u32 spec_version) Encode in
  Ok (Some (bool_decide (is_Some (metadatas t !! sv))), t).

(** [SELECT MAX(block_num) FROM blocks]: NULL on the empty table. *)
Definition select_max_block_num (t : PgTables) :
    outcome SqlxError (option Z * PgTables) :=
  Ok (map_fold (λ n _ acc, Some (from_option (Z.max n) n acc)) None (blocks t), t).

(** [SELECT block_num, block_hash FROM finalized_block] *)
Definition select_finalized_block (t : PgTables) :
    outcome SqlxError (option FinalizedBlockModel * PgTables) :=
  Ok (finalized_row t, t).
End exec.

(** ** [PostgresDb] ([database/mod.rs]) *)

Record PgState `{JsonTypes} := { pg_tables : PgTables; pg_clock : nat }.

Section postgres_db.
Context `{JT : JsonTypes, PG : PgService}.

(** [PostgresDb::conn] *)
Definition conn : M SqlxError PgState unit := λ s,
  let s' := {| pg_tables := pg_tables s; pg_clock := S (pg_clock s) |} in
  match acquire_fault (pg_clock s) with
  | Some e => (Err e, s')
  | None => (Ok (), s')
  end.

(** One statement sent on the connection. *)
Definition run_statement {A} (f : PgTables → outcome SqlxError (A * PgTables)) :
    M SqlxError PgState A := λ s,
  let done t := {| pg_tables := t; pg_clock := S (pg_clock s) |} in
  match stmt_fault (pg_clock s), f (pg_tables s) with
  | NoFault, Ok (a, t) => (Ok a, done t)
  | NoFault, Err e => (Err e, done (pg_tables s))
  | FaultAfter e, Ok (_, t) => (Err e, done t)
  | FaultBefore e, _ | FaultAfter e, _ => (Err e, done (pg_tables s))
  | NoFault, Panic p => (Panic p, done (pg_tables s))
  end.

(** [InsertModel::insert], then [PostgresDb::insert]: the affected rows. *)
Definition insert_model `{!InsertModel A} (m : A) : M SqlxError PgState Z :=
  run_statement (execute (gen_query m)).

Definition db_insert `{!InsertModel A} (m : A) : M SqlxError PgState Z :=
  let! _ := conn in
  let! rows_affected := insert_model m in
  ret rows_affected.

(** [PostgresDb::update_spec] *)
Definition update_spec (spec_version block_number : Z) : M SqlxError PgState Z :=
  let! _ := conn in
  let! rows_affected :=
    run_statement (execute (update_spec_query spec_version block_number)) in
  ret rows_affected.

(** [PostgresDb::check_if_metadata_exists]; [unwrap_or_default] on the
    optional boolean the row holds. *)
Definition check_if_metadata_exists (spec_version : Z) : M SqlxError PgState bool :=
  let! _ := conn in
  let! exists_ := run_statement (select_metadata_exists spec_version) in
  ret (default false exists_).

(** [PostgresDb::max_block_num]; [v as u32] on the [i32] of the row. *)
Definition max_block_num : M SqlxError PgState (option Z) :=
  let! _ := conn in
  let! max := run_statement select_max_block_num in
  ret (as_u32 <$> max).

(** [PostgresDb::finalized_block] *)
Definition finalized_block : M SqlxError PgState (option FinalizedBlockModel) :=
  let! _ := conn in
  let! row := run_statement select_finalized_block in
  ret ((λ b, {| fm_block_num := as_u32 (fm_block_num b);
                fm_block_hash := fm_block_hash b |}) <$> row).
End postgres_db.

(** ** Well-formed tables

    The types and constraints of the migrations: the integers are of their
    columns' types and ranges, keys agree with their rows, block numbers lie in
    a partition, and every block's version has metadata. *)

Section wf.
Context `{JT : JsonTypes, PG : PgService}.

Record wf_tables (t : PgTables) : Prop := {
  wf_metadatas v m : metadatas t !! v = Some m →
    mm_spec_version m = v ∧ (0 ≤ v ≤ 2147483647)%Z ∧ is_i32 (mm_block_num m);
  wf_blocks n b : blocks t !! n = Some b →
    bm_block_num b = n ∧ (0 ≤ n < 10000000)%Z ∧
    is_Some (metadatas t !! bm_spec_version b);
  wf_finalized f : finalized_row t = Some f →
    (0 ≤ fm_block_num f < 2147483647)%Z;
}.

Definition pg_wf (s : PgState) : Prop := wf_tables (pg_tables s).

Definition empty_tables : PgTables :=
  {| metadatas := ∅; blocks := ∅; finalized_row := None |}.

Lemma empty_tables_wf : wf_tables empty_tables.
Proof. split; simpl; intros; try rewrite lookup_empty in *; done. Qed.

Lemma has_partition_range n : has_partition n = true ↔ (0 ≤ n < 10000000)%Z.
Proof.
  unfold has_partition, blocks_partitions; simpl.
  rewrite !orb_true_iff, !andb_true_iff, !Z.leb_le, !Z.ltb_lt. lia.
Qed.

Lemma block_num_check_range n :
  block_num_check n = true ↔ (0 ≤ n < 2147483647)%Z.
Proof. unfold block_num_check. rewrite andb_true_iff, Z.leb_le, Z.ltb_lt. lia. Qed.

(** Adding or replacing a metadata row never removes a version. *)
Lemma metadatas_mono (mt : gmap Z MetadataModel) v m w :
  is_Some (mt !! w) → is_Some (<[v := m]> mt !! w).
Proof. intros. rewrite lookup_insert_is_Some'. by right. Qed.

Ltac exec_inv H :=
  repeat (case_in H || bind_inv_step);
  repeat match goal with
  | H : _ && _ = true |- _ => apply andb_true_iff in H as [? ?]
  | H : has_partition _ = true |- _ => apply has_partition_range in H
  | H : block_num_check _ = true |- _ => apply block_num_check_range in H
  | H : (_ <=? _)%Z = true |- _ => apply Z.leb_le in H
  | H : bool_decide _ = true |- _ => apply bool_decide_eq_true in H
  end; simplify_eq/=.

Context {PL : PgLaws}.

Lemma bound_u32_int v z :
  ok_or (bind_u32 v) Encode = Ok z → is_i32 z.
Proof. destruct (bind_u32 v) eqn:E; simpl; intros; simplify_eq. by eapply bind_u32_int. Qed.

Lemma exec_insert_metadatas_wf args t r t' :
  wf_tables t → exec_insert_metadatas args t = Ok (r, t') → wf_tables t'.
Proof.
  intros [Hm Hb Hf] H. unfold exec_insert_metadatas in H. exec_inv H.
  split; simpl; [| |done].
  - intros w m. rewrite lookup_insert_Some. intros [[<- <-]|[_ ?]]; auto.
    repeat match goal with H : ok_or _ _ = Ok _ |- _ => apply bound_u32_int in H end.
    unfold is_i32 in *. simpl. split; [done|]. lia.
  - intros k row Hk. destruct (Hb k row Hk) as (?&?&?).
    auto using metadatas_mono.
Qed.

Lemma exec_insert_blocks_wf args t r t' :
  wf_tables t → exec_insert_blocks args t = Ok (r, t') → wf_tables t'.
Proof.
  intros [Hm Hb Hf] H. unfold exec_insert_blocks in H. exec_inv H.
  split; simpl; [done| |done].
  intros k row. rewrite lookup_insert_Some. intros [[<- <-]|[_ ?]]; auto.
Qed.

Lemma exec_insert_finalized_wf args t r t' :
  wf_tables t → exec_insert_finalized args t = Ok (r, t') → wf_tables t'.
Proof.
  intros [Hm Hb Hf] H. unfold exec_insert_finalized in H. exec_inv H.
  split; simpl; [done|done|]. intros f [= <-]. simpl. lia.
Qed.

Lemma exec_update_spec_wf args t r t' :
  wf_tables t → exec_update_spec args t = Ok (r, t') → wf_tables t'.
Proof.
  intros [Hm Hb Hf] H. unfold exec_update_spec in H. exec_inv H; [|by split..].
  split; simpl; [done| |done].
  intros k row. rewrite lookup_insert_Some. intros [[<- <-]|[_ ?]]; [|auto].
  simpl. edestruct Hb as (?&?&_); eauto.
Qed.

Lemma execute_wf q t r t' :
  wf_tables t → execute q t = Ok (r, t') → wf_tables t'.
Proof.
  unfold execute. destruct (q_sql q);
    eauto using exec_insert_metadatas_wf, exec_insert_blocks_wf,
      exec_insert_finalized_wf, exec_update_spec_wf.
Qed.

(** Rows are never deleted. *)
Definition grows (t t' : PgTables) : Prop :=
  (∀ v, is_Some (metadatas t !! v) → is_Some (metadatas t' !! v)) ∧
  (∀ n, is_Some (blocks t !! n) → is_Some (blocks t' !! n)).

#[export] Instance grows_preorder : PreOrder grows.
Proof. split; [by intros t|]. intros t1 t2 t3 [] []. split; eauto. Qed.

Lemma execute_grows q t r t' : execute q t = Ok (r, t') → grows t t'.
Proof.
  unfold execute. destruct (q_sql q); simpl;
    unfold exec_insert_metadatas, exec_insert_blocks, exec_insert_finalized,
      exec_update_spec; intros H; exec_inv H; (split; simpl; [|]); try done;
    intros; rewrite lookup_insert_is_Some'; by right.
Qed.

Lemma preserves_conn (I : PgTables → Prop) :
  preserves (λ s, I (pg_tables s)) conn.
Proof. intros s Hs. unfold conn. by destruct (acquire_fault _). Qed.

Lemma preserves_run_statement {A} (I : PgTables → Prop) (f : PgTables → _) :
  (∀ t (a : A) t', I t → f t = Ok (a, t') → I t') →
  preserves (λ s, I (pg_tables s)) (run_statement f).
Proof.
  intros Hf s Hs. unfold run_statement.
  destruct (f (pg_tables s)) as [[a t]|e|p] eqn:E, (stmt_fault _); simpl; eauto.
Qed.
End wf.

#[export] Hint Resolve preserves_conn preserves_run_statement execute_wf : archive.

(** ** [migrate] ([lib.rs]) *)

Section migrate.
Context `{JT : JsonTypes, PG : PgService}.

(** The tables of a database, [None] before they are created.  Every statement
    of the first migration is a [CREATE TABLE IF NOT EXISTS]; the two others,
    a function and its trigger, are commented out. *)
Definition create_tables (db : option PgTables) : option PgTables :=
  Some (default empty_tables db).
Definition insert_new_block_fn (db : option PgTables) : option PgTables := db.
Definition blocks_trigger (db : option PgTables) : option PgTables := db.
Definition migrations : list (option PgTables → option PgTables) :=
  [create_tables; insert_new_block_fn; blocks_trigger].

(** sqlx: a single connection, and [Migrator::run] on it, which may fail. *)
Context (pg_connect : string → outcome SqlxError unit).
Context (migrator_run : list (option PgTables → option PgTables) →
  M SqlxError (option PgTables) unit).

(** [migrate] *)
Definition migrate (url : string) : M SqlxError (option PgTables) unit :=
  let! _ := lift (pg_connect url) in
  migrator_run migrations.

(** What the code relies on: the migrator runs in order the migrations that are
    not recorded in the database yet, all of them on a new database. *)
Context (migrator_runs : ∀ ms db db', migrator_run ms db = (Ok (), db') →
  ∃ ms', sublist ms' ms ∧ db' = foldl (λ db m, m db) db ms' ∧ (db = None → ms' = ms)).

(** A migrated database is well formed, and migrating again loses no row. *)
Lemma migrate_wf url db db' :
  migrate url db = (Ok (), db') → (∀ t, db = Some t → wf_tables t) →
  ∃ t, db' = Some t ∧ wf_tables t ∧ t = default empty_tables db.
Proof.
  intros H Hwf. unfold migrate in H. apply bind_Ok in H as (u & s & Hc & H).
  injection Hc as _ <-. apply migrator_runs in H as (ms' & Hsub & -> & Hnew).
  destruct db as [t|]; [|by rewrite (Hnew eq_refl); exists empty_tables;
    eauto using empty_tables_wf].
  exists t. split; [|auto]. clear Hnew.
  assert (Forall (λ m : option PgTables → option PgTables, m (Some t) = Some t) migrations) as Hm
    by (repeat constructor).
  assert (Forall (λ m : option PgTables → option PgTables, m (Some t) = Some t) ms') as Hm'.
  { rewrite Forall_forall in Hm. apply Forall_forall. eauto using elem_of_sublist. }
  clear Hsub Hm. induction Hm' as [|m ms' Hm _ IH]; simpl; [done|]. by rewrite Hm.
Qed.
End migrate.

(** ** Every operation, under any behaviour of the server *)

Section operations.
Context `{JT : JsonTypes, PG : PgService, PL : !PgLaws}.

(** One call of a [PostgresDb] method. *)
Inductive PgOp :=
  | PgInsertMetadata (m : MetadataModel)
  | PgInsertBlock (m : BlockModel)
  | PgInsertFinalized (m : FinalizedBlockModel)
  | PgUpdateSpec (spec_version block_number : Z)
  | PgCheckMetadata (spec_version : Z)
  | PgMaxBlockNum
  | PgFinalizedBlock.

Definition run_pg_op (op : PgOp) (s : PgState) : PgState :=
  match op with
  | PgInsertMetadata m => (db_insert m s).2
  | PgInsertBlock m => (db_insert m s).2
  | PgInsertFinalized m => (db_insert m s).2
  | PgUpdateSpec v n => (update_spec v n s).2
  | PgCheckMetadata v => (check_if_metadata_exists v s).2
  | PgMaxBlockNum => (max_block_num s).2
  | PgFinalizedBlock => (finalized_block s).2
  end.

Lemma select_metadata_exists_pure v t a t' :
  select_metadata_exists v t = Ok (a, t') → t' = t.
Proof. unfold select_metadata_exists. intros H. bind_inv. done. Qed.

(** Any property of the tables that the four statements keep is kept by
    every method. *)
Lemma run_pg_op_preserves (I : PgTables → Prop) op s :
  (∀ q t r t', I t → execute q t = Ok (r, t') → I t') →
  I (pg_tables s) → I (pg_tables (run_pg_op op s)).
Proof.
  intros Hex Hs.
  assert (∀ A (m : M SqlxError PgState A),
    preserves (λ s, I (pg_tables s)) m → I (pg_tables (m s).2)) as Hp
    by (intros A m Hm; by apply Hm).
  destruct op; simpl; apply Hp; unfold db_insert, update_spec,
    check_if_metadata_exists, max_block_num, finalized_block, insert_model;
    (apply preserves_bind; [apply (preserves_conn I)|intros []];
     apply preserves_bind; [|intros ?; apply preserves_ret];
     apply (preserves_run_statement I)); eauto.
  - intros t a t' Ht H%select_metadata_exists_pure. by subst.
  - intros t a t' Ht [= <- <-]. done.
  - intros t a t' Ht [= <- <-]. done.
Qed.

Lemma run_pg_op_grows op s : grows (pg_tables s) (pg_tables (run_pg_op op s)).
Proof.
  apply (run_pg_op_preserves (grows (pg_tables s))); [|done].
  intros q t r t' H1 H2%execute_grows. by etransitivity.
Qed.

Lemma run_pg_op_wf op s : pg_wf s → pg_wf (run_pg_op op s).
Proof. apply (run_pg_op_preserves wf_tables). eauto using execute_wf. Qed.

(** C19. Whatever connections and statements fail, and whenever, every
    sequence of [PostgresDb] calls keeps the tables well typed: the integers
    stay in the ranges of their columns, rows sit under their own key, block
    numbers stay in a partition, and no block names a version without
    metadata. *)
Theorem postgres_ops_preserve_wf (ops : list PgOp) (s : PgState) :
  pg_wf s → pg_wf (foldl (flip run_pg_op) s ops).
Proof.
  revert s. induction ops as [|op ops IH]; intros s Hs; simpl; [done|].
  apply IH. apply (run_pg_op_preserves wf_tables); eauto using execute_wf.
Qed.
End operations.

(** ** What a reliable server answers *)

Section reliable.
Context `{JT : JsonTypes, PG : PgService}.

Definition reliable : Prop :=
  ∀ n, acquire_fault n = None ∧ stmt_fault n = NoFault.

(** A reliable server answers each method from the tables alone. *)
Definition ticked (t : PgTables) (s : PgState) : PgState :=
  {| pg_tables := t; pg_clock := S (S (pg_clock s)) |}.

Lemma reliable_request {A B} (f : PgTables → outcome SqlxError (A * PgTables))
    (g : A → B) s :
  reliable →
  (let! _ := conn in let! a := run_statement f in ret (g a)) s =
  match f (pg_tables s) with
  | Ok (a, t) => (Ok (g a), ticked t s)
  | Err e => (Err e, ticked (pg_tables s) s)
  | Panic p => (Panic p, ticked (pg_tables s) s)
  end.
Proof.
  intros Hr. unfold bind, conn, run_statement, ret; simpl.
  destruct (Hr (pg_clock s)) as [-> _]; simpl.
  destruct (Hr (S (pg_clock s))) as [_ ->].
  by destruct (f (pg_tables s)) as [[]| |].
Qed.

(** When a block row can be stored. *)
Definition storable (t : PgTables) (m : BlockModel) : Prop :=
  (0 ≤ bm_block_num m < 10000000)%Z ∧ is_Some (metadatas t !! bm_spec_version m).

Context {PL : PgLaws}.

Lemma bind_u32_neg v z :
  is_u32 v → bind_u32 v = Some z → (0 ≤ z)%Z → z = v.
Proof.
  intros Hv Hz H0. pose proof (bind_u32_int v z Hz) as Hr.
  pose proof (bind_u32_bits v z Hv Hz) as Hm.
  rewrite as_u32_id in Hm; [done|]. unfold is_i32, is_u32, u32_max in *. lia.
Qed.

Lemma BlockModel_eta (m : BlockModel) sv bn :
  sv = bm_spec_version m → bn = bm_block_num m →
  {| bm_spec_version := sv; bm_block_num := bn;
     bm_block_hash := bm_block_hash m; bm_parent_hash := bm_parent_hash m;
     bm_state_root := bm_state_root m; bm_extrinsics_root := bm_extrinsics_root m;
     bm_digest := bm_digest m; bm_extrinsics := bm_extrinsics m;
     bm_justifications := bm_justifications m;
     bm_main_changes := bm_main_changes m;
     bm_child_changes := bm_child_changes m |} = m.
Proof. intros -> ->. by destruct m. Qed.

Lemma storable_int t m :
  wf_tables t → storable t m → (bm_spec_version m ≤ 2147483647)%Z.
Proof. intros Hwf [_ [mm Hmm]]. apply (wf_metadatas _ Hwf) in Hmm as [_ ?]. lia. Qed.

Lemma execute_insert_block (t : PgTables) (m : BlockModel) :
  wf_tables t → is_u32 (bm_spec_version m) → is_u32 (bm_block_num m) →
  (storable t m ∧ execute (gen_query m) t =
     Ok (1%Z, set_blocks (<[bm_block_num m := m]> (blocks t)) t)) ∨
  (¬ storable t m ∧ ∃ e, execute (gen_query m) t = Err e).
Proof.
  intros Hwf Hsv Hbn. pose proof (storable_int t m Hwf) as Hsmall. unfold execute; simpl.
  destruct (bind_u32 (bm_spec_version m)) as [sv|] eqn:Esv;
    destruct (bind_u32 (bm_block_num m)) as [bn|] eqn:Ebn; simpl.
  2-4: right; split; [|by eexists]; intros Hst; specialize (Hsmall Hst);
    destruct Hst as [? ?]; rewrite bind_u32_small in *;
    unfold is_u32 in *; try done; lia.
  destruct (has_partition bn && block_num_check bn &&
    bool_decide (is_Some (metadatas t !! sv))) eqn:E.
  - left. apply andb_true_iff in E as [[E1%has_partition_range _]%andb_true_iff E2].
    apply bool_decide_eq_true in E2.
    pose proof (bind_u32_neg _ _ Hbn Ebn ltac:(lia)) as ->.
    assert (sv = bm_spec_version m) as ->.
    { destruct E2 as [mm Hmm]. apply (wf_metadatas _ Hwf) in Hmm as [_ ?].
      apply bind_u32_neg; [done..|lia]. }
    split; [done|]. by rewrite BlockModel_eta.
  - right. split; [|by eexists]. intros Hst. specialize (Hsmall Hst).
    destruct Hst as [Hr Hm].
    rewrite bind_u32_small in Esv, Ebn by (unfold is_u32 in *; lia). simplify_eq.
    rewrite (proj2 (has_partition_range _)) in E by done.
    rewrite (proj2 (block_num_check_range _)) in E by lia.
    by rewrite bool_decide_true in E.
Qed.

(** A statement that succeeds took effect. *)
Lemma db_insert_Ok `{!InsertModel A} (m : A) s r s' :
  db_insert m s = (Ok r, s') →
  execute (gen_query m) (pg_tables s) = Ok (r, pg_tables s').
Proof.
  unfold db_insert, insert_model. intros H. bind_inv.
  unfold conn, run_statement in *.
  repeat (case_match; simplify_eq/=).
  match goal with H : execute _ _ = _ |- _ => exact H end.
Qed.

Lemma insert_block_Ok (m : BlockModel) s r s' :
  pg_wf s → is_u32 (bm_spec_version m) → is_u32 (bm_block_num m) →
  db_insert m s = (Ok r, s') → is_Some (blocks (pg_tables s') !! bm_block_num m).
Proof.
  intros Hwf Hv Hn H%db_insert_Ok.
  destruct (execute_insert_block (pg_tables s) m Hwf Hv Hn) as [[_ Hx]|[_ [e Hx]]];
    rewrite Hx in H; simplify_eq.
  match goal with H : set_blocks _ _ = _ |- _ => rewrite <- H end. simpl.
  rewrite lookup_insert_eq. by eexists.
Qed.

Lemma insert_metadata_Ok (m : MetadataModel) s r s' :
  is_u32 (mm_spec_version m) →
  db_insert m s = (Ok r, s') → is_Some (metadatas (pg_tables s') !! mm_spec_version m).
Proof.
  intros Hv H%db_insert_Ok. unfold execute in H; simpl in H.
  destruct (bind_u32 (mm_spec_version m)) as [sv|] eqn:Hsv; simpl in H; [|done].
  destruct (bind_u32 (mm_block_num m)) as [bn|]; simpl in H; [|done].
  destruct (0 <=? sv)%Z eqn:H0; [apply Z.leb_le in H0|done].
  rewrite (bind_u32_neg _ _ Hv Hsv H0) in H. simplify_eq.
  match goal with H : set_metadatas _ _ = _ |- _ => rewrite <- H end. simpl.
  rewrite lookup_insert_eq. by eexists.
Qed.
End reliable.

(** ** A concrete service

    Used by the witnesses: an [integer] parameter keeps the 32 bits of the
    [u32] ([pg_bind_bits]); the server of [pg_reference] never fails, the one
    of [pg_faulty] fails as told. *)

Definition pg_bind_bits (v : Z) : option Z :=
  if ((0 <=? v) && (v <=? 2147483647))%Z then Some v
  else if ((0 <=? v) && (v <=? u32_max))%Z then Some (v - 4294967296)%Z else None.

Definition pg_faulty (acq : nat → option SqlxError) (stmt : nat → Fault) : PgService :=
  {| acquire_fault := acq; stmt_fault := stmt; bind_u32 := pg_bind_bits |}.

Definition pg_reference : PgService := pg_faulty (λ _, None) (λ _, NoFault).

Lemma pg_faulty_laws acq stmt : @PgLaws (pg_faulty acq stmt).
Proof.
  split; simpl; intros v; unfold pg_bind_bits, is_u32, is_i32, u32_max in *.
  - intros ?. by rewrite (proj2 (andb_true_iff _ _)) by (rewrite !Z.leb_le; lia).
  - intros z. repeat case_match; intros; simplify_eq;
      rewrite ?andb_true_iff, ?andb_false_iff, ?Z.leb_le, ?Z.leb_gt in *; lia.
  - intros z Hv. repeat case_match; intros; simplify_eq;
      rewrite ?andb_true_iff, ?andb_false_iff, ?Z.leb_le, ?Z.leb_gt in *.
    + apply as_u32_id. unfold is_u32, u32_max. lia.
    + unfold as_u32. rewrite <- (Z.mod_add _ 1) by lia.
      rewrite Z.mul_1_l, Z.sub_add. apply Z.mod_small. lia.
Qed.

Definition json_reference : JsonTypes :=
  {| Json := gmap Bytes (option Bytes); json_null := ∅; json_of_changes := id |}.

Definition pg_start `{JsonTypes} (t : PgTables) : PgState :=
  {| pg_tables := t; pg_clock := 0 |}.

Section reliable_methods.
Context `{JT : JsonTypes, PG : PgService, PL : !PgLaws}.

(** On a reliable server, [PostgresDb::insert] of a block succeeds
    exactly when its number has a partition (below ten million) and its
    version has metadata; then the row for the number is the block, every
    other row and table is unchanged, and one row is reported.  Otherwise
    it returns an error and changes nothing. *)
Theorem db_insert_block_spec (m : BlockModel) (s : PgState) :
  reliable → pg_wf s → is_u32 (bm_spec_version m) → is_u32 (bm_block_num m) →
  (storable (pg_tables s) m ∧
   db_insert m s = (Ok 1%Z,
     ticked (set_blocks (<[bm_block_num m := m]> (blocks (pg_tables s)))
               (pg_tables s)) s)) ∨
  (¬ storable (pg_tables s) m ∧
   ∃ e, db_insert m s = (Err e, ticked (pg_tables s) s)).
Proof.
  intros Hr Hwf Hsv Hbn. unfold db_insert, insert_model.
  rewrite (reliable_request _ (λ x, x)) by done.
  destruct (execute_insert_block (pg_tables s) m Hwf Hsv Hbn)
    as [[Hst ->]|[Hst [e ->]]]; eauto.
Qed.

Lemma fold_max_spec (bs : gmap Z BlockModel) :
  match map_fold (λ n _ acc, Some (from_option (Z.max n) n acc)) None bs with
  | None => bs = ∅
  | Some k => is_Some (bs !! k) ∧ ∀ n, is_Some (bs !! n) → (n ≤ k)%Z
  end.
Proof.
  apply (map_fold_weak_ind (λ r bs, match r with
    | None => bs = ∅
    | Some k => is_Some (bs !! k) ∧ ∀ n, is_Some (bs !! n) → (n ≤ k)%Z
    end)); [done|].
  intros n b bs' [k|] Hn; simpl.
  - intros [Hk Hmax]. split.
    + rewrite lookup_insert_is_Some'.
      destruct (Z.max_spec n k) as [[_ ->]|[_ ->]]; auto.
    + intros j. rewrite lookup_insert_is_Some'. intros [->|?%Hmax]; lia.
  - intros ->. split; [by rewrite lookup_insert_eq|].
    intros j. rewrite lookup_insert_is_Some', lookup_empty.
    intros [->|[? ?]]; [lia|done].
Qed.

(** On a reliable server, [max_block_num] answers [None] exactly when no
    block is stored, and otherwise the largest stored number; the cast from
    the signed column to [u32] changes nothing. *)
Theorem max_block_num_spec (s : PgState) :
  reliable → pg_wf s →
  ∃ r, max_block_num s = (Ok r, ticked (pg_tables s) s) ∧
    match r with
    | None => blocks (pg_tables s) = ∅
    | Some k => is_Some (blocks (pg_tables s) !! k) ∧
                ∀ n, is_Some (blocks (pg_tables s) !! n) → (n ≤ k)%Z
    end.
Proof.
  intros Hr Hwf. unfold max_block_num.
  rewrite reliable_request by done. simpl. eexists; split; [done|].
  pose proof (fold_max_spec (blocks (pg_tables s))) as H.
  destruct (map_fold _ _ _) as [k|]; simpl; [|done].
  destruct H as [Hk Hmax]. rewrite as_u32_id; [done|].
  destruct Hk as [b Hb]. apply (wf_blocks _ Hwf) in Hb as (_&?&_).
  unfold is_u32, u32_max. lia.
Qed.

(** Metadata round trip: after [insert] of the metadata of a version
    below [2^31] on a reliable server, [check_if_metadata_exists] answers
    [true] for that version, and for every other version what it answered
    before. *)
Theorem metadata_insert_exists (m : MetadataModel) (s : PgState) (v : Z) :
  reliable → (0 ≤ mm_spec_version m ≤ 2147483647)%Z →
  (0 ≤ mm_block_num m ≤ 2147483647)%Z → (0 ≤ v ≤ 2147483647)%Z →
  ∃ s', db_insert m s = (Ok 1%Z, s') ∧
    (check_if_metadata_exists v s').1 =
    if decide (v = mm_spec_version m) then Ok true
    else (check_if_metadata_exists v s).1.
Proof.
  intros Hr Hsv Hbn Hv. unfold db_insert, insert_model, check_if_metadata_exists.
  rewrite (reliable_request _ (λ x, x)) by done. unfold execute; simpl.
  rewrite !bind_u32_small by done. simpl.
  rewrite (proj2 (Z.leb_le _ _)) by lia. eexists; split; [done|].
  rewrite !reliable_request by done. unfold select_metadata_exists; simpl.
  rewrite bind_u32_small by done. simpl.
  case_decide as Hd; simpl; do 2 f_equal.
  - subst. by rewrite bool_decide_true by (by rewrite lookup_insert_eq).
  - by rewrite lookup_insert_ne.
Qed.

(** C39. [finalized_block] keeps a single row: on a reliable server it
    answers the model inserted last, whatever was there before. *)
Theorem finalized_block_roundtrip (m1 m2 : FinalizedBlockModel) (s : PgState) :
  reliable → (0 ≤ fm_block_num m2 < 2147483647)%Z →
  (finalized_block (db_insert m2 (db_insert m1 s).2).2).1 = Ok (Some m2).
Proof.
  intros Hr Hbn. set (s1 := (db_insert m1 s).2).
  unfold db_insert, insert_model, finalized_block.
  rewrite (reliable_request _ (λ x, x)) by done. unfold execute; simpl.
  rewrite bind_u32_small by lia. simpl.
  rewrite (proj2 (block_num_check_range _)) by lia. simpl.
  rewrite reliable_request by done. simpl.
  rewrite as_u32_id by (unfold is_u32, u32_max; lia). by destruct m2.
Qed.
End reliable_methods.

(** ** Witnesses *)

Section witnesses.
#[local] Existing Instance json_reference.
#[local] Existing Instance pg_reference.
#[local] Instance reference_laws : PgLaws := pg_faulty_laws _ _.

Definition sample_metadata : MetadataModel :=
  {| mm_spec_version := 7; mm_block_num := 0; mm_block_hash := "h0"; mm_meta := "m" |}.
Definition sample_block (n : Z) : BlockModel :=
  {| bm_spec_version := 7; bm_block_num := n; bm_block_hash := "h";
     bm_parent_hash := "p"; bm_state_root := "s"; bm_extrinsics_root := "e";
     bm_digest := "d"; bm_extrinsics := ["x"]; bm_justifications := None;
     bm_main_changes := ∅; bm_child_changes := ∅ |}.
Definition sample_tables : PgTables :=
  {| metadatas := {[ 7%Z := sample_metadata ]}; blocks := {[ 3%Z := sample_block 3 ]};
     finalized_row := None |}.

Lemma sample_tables_wf : wf_tables sample_tables.
Proof.
  split; simpl; [..|done].
  - intros v m [<- <-]%lookup_singleton_Some. unfold is_i32. simpl. lia.
  - intros n b [<- <-]%lookup_singleton_Some. simpl.
    rewrite lookup_singleton_eq. split_and!; [done|lia|lia|done].
Qed.

Lemma reference_reliable : reliable.
Proof. by intros n. Qed.

Lemma postgres_ops_preserve_wf_witness :
  pg_wf (foldl (flip run_pg_op) (pg_start empty_tables)
           [PgInsertMetadata sample_metadata; PgInsertBlock (sample_block 3)]).
Proof. apply postgres_ops_preserve_wf. apply empty_tables_wf. Defined.

Lemma db_insert_block_spec_witness :
  storable sample_tables (sample_block 4) ∧
  db_insert (sample_block 4) (pg_start sample_tables) =
    (Ok 1%Z, ticked (set_blocks (<[4%Z := sample_block 4]> (blocks sample_tables))
                       sample_tables) (pg_start sample_tables)).
Proof.
  destruct (db_insert_block_spec (sample_block 4) (pg_start sample_tables))
    as [[? ?]|[Hn _]]; [apply reference_reliable|apply sample_tables_wf|..].
  - unfold is_u32, u32_max; simpl; lia.
  - unfold is_u32, u32_max; simpl; lia.
  - split; assumption.
  - exfalso. apply Hn. split; simpl; [lia|]. by rewrite lookup_singleton_eq.
Defined.

Lemma max_block_num_spec_witness :
  ∃ r, max_block_num (pg_start sample_tables) =
         (Ok r, ticked sample_tables (pg_start sample_tables)) ∧ r ≠ None.
Proof.
  destruct (max_block_num_spec (pg_start sample_tables)) as (r & Hr & H).
  - apply reference_reliable.
  - apply sample_tables_wf.
  - exists r. split; [exact Hr|]. intros ->. apply (f_equal (λ m, m !! 3%Z)) in H.
    discriminate H.
Defined.

Lemma metadata_insert_exists_witness :
  ∃ s', db_insert sample_metadata (pg_start empty_tables) = (Ok 1%Z, s') ∧
    (check_if_metadata_exists 7 s').1 = Ok true.
Proof.
  destruct (metadata_insert_exists sample_metadata (pg_start empty_tables) 7)
    as (s' & H1 & H2); [apply reference_reliable|simpl; lia..|].
  exists s'. split; [exact H1|exact H2].
Defined.

Lemma finalized_block_roundtrip_witness :
  (finalized_block (db_insert {| fm_block_num := 9; fm_block_hash := "b" |}
     (db_insert {| fm_block_num := 8; fm_block_hash := "a" |}
        (pg_start empty_tables)).2).2).1
  = Ok (Some {| fm_block_num := 9; fm_block_hash := "b" |}).
Proof.
  apply finalized_block_roundtrip; [apply reference_reliable|simpl; lia].
Defined.
End witnesses.
