(* ===== verification/Kafka.v ===== *)
(** * The Kafka publisher ([archive/kafka])

    The configuration ([config.rs]), the payloads ([payload.rs]) and the
    producer ([producer.rs]).  The broker client ([rdkafka]) and the JSON
    serializer are parameters: [KafkaService] says which deliveries fail and
    whether the record reached the topic, [PayloadJson] turns payloads into
    text. *)

From S2P Require Import Prelude Chain.

(** ** Configuration ([config.rs]) *)

Record KafkaTopicConfig := {
  topic_metadata : string;
  topic_block : string;
  topic_finalized_block : string;
}.

Record KafkaConfig := {
  queue_timeout : Z; (* seconds *)
  kafka_topic : KafkaTopicConfig;
  rdkafka : gmap string string;
}.

(** [KafkaProducer::check_kafka_config] *)
Definition check_kafka_config (config : KafkaConfig) : bool :=
  (bool_decide (is_Some (rdkafka config !! "metadata.broker.list"))
   || bool_decide (is_Some (rdkafka config !! "bootstrap.servers")))
  && negb (bool_decide (topic_metadata (kafka_topic config) = ""))
  && negb (bool_decide (topic_block (kafka_topic config) = "")).

(** ** Payloads ([payload.rs]) *)

Section payloads.
Context `{ChainTypes}.

Record MetadataPayload := {
  mp_spec_version : Z;
  mp_block_num : Z;
  mp_block_hash : Hash;
  mp_meta : Bytes;
}.

Record BlockPayload := {
  bp_spec_version : Z;
  bp_block_num : Z;
  bp_block_hash : Hash;
  bp_parent_hash : Hash;
  bp_state_root : Hash;
  bp_extrinsics_root : Hash;
  bp_digest : list DigestItem;
  bp_extrinsics : list Extrinsic;
  bp_justifications : option (list Justification);
  bp_main_changes : gmap Bytes (option Bytes);
  bp_child_changes : gmap Bytes (gmap Bytes (option Bytes));
}.

Record FinalizedBlockPayload := {
  fp_block_num : Z;
  fp_block_hash : Hash;
}.

Record MetadataPayloadForDemo := {
  mpd_spec_version : Z;
  mpd_block_num : Z;
  mpd_block_hash : string;
  mpd_meta : Bytes;
}.

Record BlockPayloadForDemo := {
  bpd_spec_version : Z;
  bpd_block_num : Z;
  bpd_block_hash : string;
  bpd_parent_hash : string;
  bpd_state_root : string;
  bpd_extrinsics_root : string;
  bpd_digest : string;
  bpd_extrinsics : list string;
  bpd_justifications : option (list Justification);
  bpd_main_changes : gmap Bytes (option Bytes);
  bpd_child_changes : gmap Bytes (gmap Bytes (option Bytes));
}.

Record FinalizedBlockPayloadDemo := {
  fpd_block_num : Z;
  fpd_block_hash : string;
}.
End payloads.

(** [serde_json::to_string], [None] when it returns an error. *)
Class PayloadJson `{ChainTypes} := {
  json_metadata_payload : MetadataPayload → option string;
  json_block_payload : BlockPayload → option string;
  json_finalized_payload : FinalizedBlockPayload → option string;
  json_metadata_demo : MetadataPayloadForDemo → option string;
  json_block_demo : BlockPayloadForDemo → option string;
  json_finalized_demo : FinalizedBlockPayloadDemo → option string;
}.

(** ** The broker client *)

Inductive KafkaError := ClientCreation (n : nat) | Delivery (n : nat).

(** [FutureRecord] *)
Record FutureRecord := {
  r_topic : string;
  r_payload : string;
  r_key : option string;
}.

(** How one delivery fares: it can time out although the broker has it. *)
Inductive DeliveryFault :=
  | Delivered
  | NotDelivered (e : KafkaError)
  | DeliveredUnacked (e : KafkaError).

Class KafkaService := {
  create_producer : gmap string string → option KafkaError;
  delivery_fault : nat → DeliveryFault;
}.

(** The records the topics hold, oldest first, and the sends made so far. *)
Record KafkaState := { k_log : list FutureRecord; k_clock : nat }.

(** ** The producer ([producer.rs]) *)

Record KafkaProducer := { producer_config : KafkaConfig }.

(** [Self { config, producer }] in [KafkaProducer::new]: the assertion on the
    configuration comes before the client is created. *)
Definition kafka_producer_new `{KafkaService} (config : KafkaConfig) :
    outcome KafkaError KafkaProducer :=
  let? _ := assert (check_kafka_config config)
              "Invalid kafka producer configuration" in
  match create_producer (rdkafka config) with
  | Some e => Err e
  | None => Ok {| producer_config := config |}
  end.

Section producer.
Context `{KS : KafkaService}.

(** [self.producer.send(record, queue_timeout).await] *)
Definition producer_send (record : FutureRecord) : M KafkaError KafkaState unit := λ s,
  let tick log := {| k_log := log; k_clock := S (k_clock s) |} in
  match delivery_fault (k_clock s) with
  | Delivered => (Ok (), tick (k_log s ++ [record]))
  | NotDelivered e => (Err e, tick (k_log s))
  | DeliveredUnacked e => (Err e, tick (k_log s ++ [record]))
  end.

(** [KafkaProducer::send_inner] *)
Definition send_inner (topic payload : string) (key : option string) :
    M KafkaError KafkaState unit :=
  let record := match key with
    | Some key => {| r_topic := topic; r_payload := payload; r_key := Some key |}
    | None => {| r_topic := topic; r_payload := payload; r_key := None |}
    end in
  producer_send record.

(** [SendPayload]: what is published picks its topic, text and key. *)
Class SendPayload (A : Type) :=
  send_payload : KafkaProducer → A → M KafkaError KafkaState unit.

(** [KafkaProducer::send] *)
Definition kafka_send `{!SendPayload A} (producer : KafkaProducer) (payload : A) :
    M KafkaError KafkaState unit :=
  send_payload producer payload.

Context `{CT : ChainTypes, PJ : !PayloadJson}.

#[export] Instance send_metadata_payload : SendPayload MetadataPayload := λ producer self,
  let topic := topic_metadata (kafka_topic (producer_config producer)) in
  let! payload := lift (expect (json_metadata_payload self)
    "Serialize metadata payload shouldn't be fail; qed") in
  let key := pretty (mp_spec_version self) in
  send_inner topic payload (Some key).

#[export] Instance send_block_payload : SendPayload BlockPayload := λ producer self,
  let topic := topic_block (kafka_topic (producer_config producer)) in
  let! payload := lift (expect (json_block_payload self)
    "Serialize best block payload shouldn't be fail; qed") in
  let key := pretty (bp_block_num self) in
  send_inner topic payload (Some key).

#[export] Instance send_finalized_payload : SendPayload FinalizedBlockPayload := λ producer self,
  let topic := topic_finalized_block (kafka_topic (producer_config producer)) in
  let! payload := lift (expect (json_finalized_payload self)
    "Serialize finalized block payload shouldn't be fail; qed") in
  send_inner topic payload None.

#[export] Instance send_metadata_demo : SendPayload MetadataPayloadForDemo := λ producer self,
  let topic := topic_metadata (kafka_topic (producer_config producer)) in
  let! payload := lift (expect (json_metadata_demo self)
    "Serialize metadata payload shouldn't be fail; qed") in
  let key := pretty (mpd_spec_version self) in
  send_inner topic payload (Some key).

#[export] Instance send_block_demo : SendPayload BlockPayloadForDemo := λ producer self,
  let topic := topic_block (kafka_topic (producer_config producer)) in
  let! payload := lift (expect (json_block_demo self)
    "Serialize best block payload shouldn't be fail; qed") in
  let key := pretty (bpd_block_num self) in
  send_inner topic payload (Some key).

#[export] Instance send_finalized_demo : SendPayload FinalizedBlockPayloadDemo := λ producer self,
  let topic := topic_finalized_block (kafka_topic (producer_config producer)) in
  let! payload := lift (expect (json_finalized_demo self)
    "Serialize finalized block payload shouldn't be fail; qed") in
  send_inner topic payload None.

(** ** Properties *)

(** The record a block payload is published as. *)
Definition block_record (producer : KafkaProducer) (text : string) (n : Z) : FutureRecord :=
  {| r_topic := topic_block (kafka_topic (producer_config producer));
     r_payload := text; r_key := Some (pretty n) |}.

Definition metadata_record (producer : KafkaProducer) (text : string) (v : Z) : FutureRecord :=
  {| r_topic := topic_metadata (kafka_topic (producer_config producer));
     r_payload := text; r_key := Some (pretty v) |}.

(** A send appends its record or nothing, and reports success only when the
    record is on the topic. *)
Lemma producer_send_spec record s :
  let '(r, s') := producer_send record s in
  k_clock s' = S (k_clock s) ∧
  match r with
  | Ok _ => k_log s' = k_log s ++ [record]
  | Err _ => k_log s' = k_log s ∨ k_log s' = k_log s ++ [record]
  | Panic _ => False
  end.
Proof. unfold producer_send. destruct (delivery_fault _); simpl; auto. Qed.

Lemma producer_send_log record s :
  k_log (producer_send record s).2 = k_log s ∨
  k_log (producer_send record s).2 = k_log s ++ [record].
Proof. unfold producer_send. destruct (delivery_fault _); simpl; auto. Qed.

Lemma send_block_run producer p text s :
  json_block_payload p = Some text →
  kafka_send producer p s = producer_send (block_record producer text (bp_block_num p)) s.
Proof. intros Hj. unfold kafka_send, send_payload, send_block_payload, bind, lift.
  by rewrite Hj. Qed.

Lemma send_metadata_run producer p text s :
  json_metadata_payload p = Some text →
  kafka_send producer p s =
  producer_send (metadata_record producer text (mp_spec_version p)) s.
Proof. intros Hj. unfold kafka_send, send_payload, send_metadata_payload, bind, lift.
  by rewrite Hj. Qed.

(** Publishing a block appends to the log at most one record: on the block
    topic, with the serialized payload, keyed by the decimal block number, so
    that two block payloads share a key (hence a partition) exactly when they
    carry the same number.  Success means the record is on the topic, and an
    error never leaves another record behind. *)
Theorem kafka_send_block_record (producer : KafkaProducer) (p q : BlockPayload)
    (text : string) (s : KafkaState) :
  json_block_payload p = Some text →
  (let record := {| r_topic := topic_block (kafka_topic (producer_config producer));
                    r_payload := text; r_key := Some (pretty (bp_block_num p)) |} in
   match kafka_send producer p s with
   | (Ok _, s') => k_log s' = k_log s ++ [record]
   | (Err _, s') => k_log s' = k_log s ∨ k_log s' = k_log s ++ [record]
   | (Panic _, _) => False
   end) ∧
  ((pretty (bp_block_num p) : string) = pretty (bp_block_num q) ↔
   bp_block_num p = bp_block_num q).
Proof.
  intros Hj. split; [|split; [apply (inj _)|by intros ->]].
  simpl. rewrite (send_block_run _ _ text) by done.
  pose proof (producer_send_spec (block_record producer text (bp_block_num p)) s) as H.
  destruct (producer_send _ s) as [[]]; by destruct H.
Qed.

(** [KafkaProducer::new] panics exactly on a configuration without a broker
    list or with an empty metadata or block topic; otherwise it answers what
    creating the client answers.  The finalized-block topic is not checked. *)
Theorem kafka_producer_new_spec (config : KafkaConfig) :
  let valid :=
    (is_Some (rdkafka config !! "metadata.broker.list") ∨
     is_Some (rdkafka config !! "bootstrap.servers")) ∧
    topic_metadata (kafka_topic config) ≠ "" ∧ topic_block (kafka_topic config) ≠ "" in
  (is_Panic (kafka_producer_new config) ↔ ¬ valid) ∧
  (valid → kafka_producer_new config =
     match create_producer (rdkafka config) with
     | Some e => Err e
     | None => Ok {| producer_config := config |}
     end).
Proof.
  intros valid.
  assert (check_kafka_config config = true ↔ valid) as Hc.
  { unfold check_kafka_config, valid.
    rewrite !andb_true_iff, orb_true_iff, !negb_true_iff, !bool_decide_eq_true,
      !bool_decide_eq_false. tauto. }
  unfold kafka_producer_new. destruct (check_kafka_config config); simpl.
  - split; [|done]. split; [|intros Hn; exfalso; apply Hn; by apply Hc].
    intros [p Hp]. by destruct (create_producer _).
  - split; [|intros Hv%Hc; done]. split; [by intros _ Hv%Hc|]. by intros _; eexists.
Qed.
End producer.
