(* ===== verification/ArchiveCore.v ===== *)
(** * The archive's access to the chain ([archive/traits])

    The trait [ArchiveCore] ([lib.rs]), its implementation on the local
    backend ([local_db.rs]) and the read-only secondary database
    ([readonly/rocksdb.rs]). *)

From Stdlib Require Import SpecFloat.
From S2P Require Import Prelude Chain.

(** ** The trait *)

Class ArchiveCore `{ChainTypes, BackendTypes} (C : Type) := {
  get_block : C → Z → outcome Error (option SignedBlock);
  get_storages : C → outcome Error StorageChanges;
  get_state : C → BlockId → outcome Error State;
  get_code : C → outcome Error unit;
  ac_execute_block : C → outcome Error unit;
}.

(** ** The local backend ([local_db.rs]) *)

Record LocalBackendCore `{BackendTypes} := { lb_backend : DB }.

Section local.
Context `{CT : ChainTypes, BT : BackendTypes, BE : !Backend}.

(** [LocalBackendCore::get_block]: the three queries run in this order and an
    error of any of them is unwrapped. *)
Definition local_get_block (self : LocalBackendCore) (block_number : Z) :
    outcome Error (option SignedBlock) :=
  let block_num := IdNumber block_number in
  let? header := unwrap (bc_header (lb_backend self) block_num) "header" in
  let? body := unwrap (bc_body (lb_backend self) block_num) "body" in
  let? justifications :=
    unwrap (bc_justifications (lb_backend self) block_num) "justifications" in
  match header, body with
  | Some header, Some body =>
      Ok (Some {| sb_block := new_block header body;
                  sb_justifications := justifications |})
  | _, _ => Ok None
  end.

(** [LocalBackendCore::get_state] *)
Definition local_get_state (self : LocalBackendCore) (block : BlockId) :
    outcome Error State :=
  state_at (lb_backend self) block.

#[export] Instance local_backend_core : ArchiveCore LocalBackendCore := {|
  get_block := local_get_block;
  get_storages _ := Panic "not implemented";
  get_state := local_get_state;
  get_code _ := Panic "not implemented";
  ac_execute_block _ := Panic "not implemented";
|}.
End local.

(** ** The read-only database ([readonly/rocksdb.rs]) *)

Definition NUM_COLUMNS : Z := 12.
(** [columns::STATE] *)
Definition COLUMN_STATE : Z := 1.

(** [f64]: IEEE 754 binary64, as executable integers. *)
Definition f64_of_Z (z : Z) : spec_float := binary_normalize 53 1024 z 0 false.
(** The literal [0.9]. *)
Definition f64_0_9 : spec_float := S754_finite false 8106479329266893 (-53).
(** [x as usize]: truncation, saturating at the ends of [u64]. *)
Definition f64_as_usize (x : spec_float) : Z :=
  match x with
  | S754_finite false m e =>
      Z.min (if (0 <=? e)%Z then Z.shiftl (Zpos m) e else Z.shiftr (Zpos m) (- e))
        18446744073709551615
  | S754_infinity false => 18446744073709551615
  | _ => 0
  end.

(** [(cache_size as f64 * 0.9) as usize] in [SecondaryRocksDb::open] *)
Definition state_col_budget (cache_size : Z) : Z :=
  f64_as_usize (SFmul 53 1024 (f64_of_Z cache_size) f64_0_9).

(** [(cache_size - state_col_budget) / (NUM_COLUMNS as usize - 1)] *)
Definition other_col_budget (cache_size : Z) : Z :=
  (cache_size - state_col_budget cache_size) / (NUM_COLUMNS - 1).

(** The loop of [SecondaryRocksDb::open] that fills [memory_budget]. *)
Definition memory_budget (cache_size : Z) : gmap Z Z :=
  foldl (λ memory_budget i,
           if (i =? COLUMN_STATE)%Z
           then <[i := state_col_budget cache_size]> memory_budget
           else <[i := other_col_budget cache_size]> memory_budget)
    ∅ (seqZ 0 NUM_COLUMNS).

(** [RocksDbConfig]; a path is what its [to_str] answers, nothing when it is
    not Unicode. *)
Record RocksDbConfig := {
  rocks_path : option string;
  cache_size : Z;
  secondary_db_path : option string;
}.

(** [kvdb_rocksdb::DatabaseConfig], the fields that are set. *)
Record DatabaseConfig := {
  dc_columns : Z;
  dc_secondary : option string;
  dc_memory_budget : gmap Z Z;
}.

(** [kvdb_rocksdb::Database] opened as a secondary instance. *)
Class RocksDb := {
  Rocks : Type;
  rocks_open : DatabaseConfig → string → string + Rocks;
  rocks_get : Rocks → Z → Bytes → string + option Bytes;
  (* [try_catch_up_with_primary]: [Some] error or success *)
  rocks_catch_up : Rocks → option string * Rocks;
}.

Section rocksdb.
Context `{RD : RocksDb}.

(** [SecondaryRocksDb::open] *)
Definition secondary_open (config : RocksDbConfig) : outcome string Rocks :=
  let? path := expect (rocks_path config) "Cannot find primary rocksdb" in
  let? secondary_db_path :=
    expect (secondary_db_path config) "Cannot create secondary rocksdb db" in
  let db_config := {| dc_columns := NUM_COLUMNS; dc_secondary := Some secondary_db_path;
                      dc_memory_budget := memory_budget (cache_size config) |} in
  match rocks_open db_config path with
  | inl err => Err err
  | inr db =>
      match rocks_catch_up db with
      | (Some err, _) => Err err
      | (None, db) => Ok db
      end
  end.

(** [SecondaryRocksDb::get]: a miss catches up with the primary but still
    answers [None]; an error catches up and reads once more. *)
Definition secondary_get (col : Z) (key : Bytes) (db : Rocks) : option Bytes * Rocks :=
  match rocks_get db col key with
  | inr (Some value) => (Some value, db)
  | inr None =>
      let '(r, db) := rocks_catch_up db in
      match r with
      | Some _ => (None, db)
      | None => (None, db)
      end
  | inl _ =>
      let '(r, db) := rocks_catch_up db in
      match r with
      | Some _ => (None, db)
      | None =>
          match rocks_get db col key with
          | inr value => (value, db)
          | inl _ => (None, db)
          end
      end
  end.

(** [Database::commit] and [Database::get] of [SecondaryRocksDb]. *)
Definition secondary_commit (db : Rocks) : outcome string unit :=
  Panic "Read-only database don't support commit transaction".
Definition secondary_database_get (col : Z) (key : Bytes) (db : Rocks) :
    option Bytes * Rocks := secondary_get col key db.

(** ** Properties *)

(** What the primary holds now, and what catching up does: on success the
    secondary reads exactly the primary's contents. *)
Class RocksLaws (primary : Z → Bytes → option Bytes) : Prop := {
  catch_up_reads db db' col key :
    rocks_catch_up db = (None, db') → rocks_get db' col key = inr (primary col key);
}.

(** A get through the secondary database never answers a value the
    database did not hold, and one catch-up is enough: if the first get
    answers [None] although no catch-up fails, the next get of the same key
    (the primary unchanged) answers what the primary holds. *)
Theorem secondary_get_twice (primary : Z → Bytes → option Bytes)
    (col : Z) (key : Bytes) (db : Rocks) :
  RocksLaws primary → (∀ d, (rocks_catch_up d).1 = None) →
  let '(r1, db1) := secondary_get col key db in
  (r1 = None → (secondary_get col key db1).1 = primary col key) ∧
  (∀ v, r1 = Some v →
     rocks_get db col key = inr (Some v) ∨ primary col key = Some v).
Proof.
  intros L Hc. unfold secondary_get.
  pose proof (Hc db) as Hdb. pose proof (catch_up_reads db) as Hread.
  destruct (rocks_catch_up db) as [r db'] eqn:Hup; simpl in Hdb; subst r.
  destruct (rocks_get db col key) as [e|[v|]] eqn:Hget.
  - rewrite (Hread db' col key) by done. simpl.
    split; [|by right]. intros Hp. rewrite (Hread db' col key), Hp by done.
    by destruct (rocks_catch_up db') as [[]].
  - split; [done|]. intros w [= ->]. by left.
  - split; [|done]. intros _. rewrite (Hread db' col key) by done.
    destruct (primary col key); [done|]. by destruct (rocks_catch_up db') as [[]].
Qed.

(** Opening the secondary database panics exactly on a path that is not
    Unicode; when it succeeds, the files were opened with twelve columns, the
    configured secondary path and the budgets of [memory_budget], and a get of
    any key answers what the primary held when it was opened. *)
Theorem secondary_open_reads (primary : Z → Bytes → option Bytes) (config : RocksDbConfig) :
  RocksLaws primary →
  (is_Panic (secondary_open config) ↔
     rocks_path config = None ∨ secondary_db_path config = None) ∧
  ∀ db, secondary_open config = Ok db →
    (∃ path opened, rocks_path config = Some path ∧
       rocks_open {| dc_columns := NUM_COLUMNS; dc_secondary := secondary_db_path config;
                     dc_memory_budget := memory_budget (cache_size config) |} path
         = inr opened) ∧
    ∀ col key, (secondary_get col key db).1 = primary col key.
Proof.
  intros L. unfold secondary_open.
  destruct (rocks_path config) as [path|], (secondary_db_path config) as [sec|]; simpl;
    [|split; [split; [auto|intros _; by eexists]|done]..].
  destruct (rocks_open _ path) as [err|opened] eqn:Hopen;
    [split; [split; [by intros []|by intros [[=]|[=]]]|done]|].
  destruct (rocks_catch_up opened) as [[err|] db'] eqn:Hup; simpl;
    (split; [split; [by intros []|by intros [[=]|[=]]]|]); [done|].
  intros db [= <-]. split; [by exists path, opened|]. intros col key. unfold secondary_get.
  rewrite (catch_up_reads _ _ col key Hup). destruct (primary col key); [done|].
  by destruct (rocks_catch_up db') as [[]].
Qed.
End rocksdb.

Lemma memory_budget_lookup cache_size i :
  memory_budget cache_size !! i =
  if bool_decide (0 ≤ i < 12)%Z
  then Some (if (i =? 1)%Z then state_col_budget cache_size
             else other_col_budget cache_size)
  else None.
Proof.
  unfold memory_budget, NUM_COLUMNS, COLUMN_STATE.
  generalize (state_col_budget cache_size) (other_col_budget cache_size).
  intros a b. case_bool_decide as Hi.
  - assert (i ∈ seqZ 0 12) as Hin by (apply elem_of_seqZ; lia).
    vm_compute in Hin. repeat (apply elem_of_cons in Hin as [->|Hin]; [reflexivity|]).
    by apply elem_of_nil in Hin.
  - change (seqZ 0 12) with [0;1;2;3;4;5;6;7;8;9;10;11]%Z. simpl.
    rewrite !lookup_insert_ne by lia. apply lookup_empty.
Qed.

(** The budgets of [n] consecutive cache sizes, checked by evaluation. *)
Fixpoint budgets_ok (n : nat) (z : Z) : bool :=
  match n with
  | O => true
  | S n => (state_col_budget z =? 9 * z / 10)%Z && budgets_ok n (z + 1)
  end.

Lemma budgets_ok_spec n z w :
  budgets_ok n z = true → (z ≤ w < z + Z.of_nat n)%Z →
  state_col_budget w = (9 * w / 10)%Z.
Proof.
  revert z. induction n as [|n IH]; intros z; [lia|].
  cbn [budgets_ok]. intros [Hz Hn]%andb_true_iff Hw.
  destruct (decide (w = z)) as [->|]; [by apply Z.eqb_eq|].
  apply (IH (z + 1)%Z); [done|lia].
Qed.

Lemma budgets_ok_16384 : budgets_ok (Z.to_nat 16384) 0 = true.
Proof. vm_compute. reflexivity. Qed.

(** For every cache size below 16384 (MiB) the binary64 computation of
    [SecondaryRocksDb::open] gives the state column exactly nine tenths of
    the cache rounded down, never underflows the subtraction, gives each of
    the eleven other columns an equal share, and the twelve budgets together
    never exceed the cache. *)
Theorem memory_budget_spec (cache_size : Z) :
  (0 ≤ cache_size < 16384)%Z →
  memory_budget cache_size !! COLUMN_STATE = Some (9 * cache_size / 10)%Z ∧
  (∀ i, (0 ≤ i < NUM_COLUMNS)%Z → i ≠ COLUMN_STATE →
     memory_budget cache_size !! i =
       Some ((cache_size - 9 * cache_size / 10) / 11)%Z) ∧
  (∀ i, ¬ (0 ≤ i < NUM_COLUMNS)%Z → memory_budget cache_size !! i = None) ∧
  (0 ≤ cache_size - state_col_budget cache_size)%Z ∧
  (map_fold (λ _ v acc, v + acc) 0 (memory_budget cache_size) ≤ cache_size)%Z.
Proof.
  intros Hc.
  assert (state_col_budget cache_size = 9 * cache_size / 10)%Z as Hs.
  { apply (budgets_ok_spec _ _ _ budgets_ok_16384). rewrite Z2Nat.id; lia. }
  assert (0 ≤ cache_size - 9 * cache_size / 10)%Z as Hle.
  { pose proof (Z.mul_div_le (9 * cache_size) 10). lia. }
  unfold NUM_COLUMNS, COLUMN_STATE. split_and!.
  - rewrite memory_budget_lookup. simpl. by rewrite Hs.
  - intros i Hi Hne. rewrite memory_budget_lookup, bool_decide_true by done.
    rewrite (proj2 (Z.eqb_neq _ _)) by done. unfold other_col_budget. by rewrite Hs.
  - intros i Hi. by rewrite memory_budget_lookup, bool_decide_false.
  - by rewrite Hs.
  - assert (memory_budget cache_size =
      list_to_map ((λ i, (i, if (i =? 1)%Z then state_col_budget cache_size
        else other_col_budget cache_size)) <$> seqZ 0 12)) as ->.
    { apply map_eq. intros i. rewrite memory_budget_lookup. case_bool_decide as Hi.
      - symmetry. apply elem_of_list_to_map.
        + rewrite <- list_fmap_compose.
          rewrite list_fmap_id. apply NoDup_seqZ.
        + apply list_elem_of_fmap. exists i. split; [done|]. apply elem_of_seqZ. lia.
      - symmetry. apply not_elem_of_list_to_map. rewrite <- list_fmap_compose.
        rewrite list_fmap_id, elem_of_seqZ. lia. }
    unfold other_col_budget, NUM_COLUMNS. rewrite Hs.
    change (seqZ 0 12) with [0;1;2;3;4;5;6;7;8;9;10;11]%Z. simpl.
    set (st := (9 * cache_size / 10)%Z) in *.
    repeat (rewrite map_fold_insert_L;
      [|intros; lia|rewrite ?lookup_insert_ne by lia; apply lookup_empty]).
    rewrite map_fold_empty.
    change (12 - 1)%Z with 11%Z.
    pose proof (Z.mul_div_le (cache_size - st) 11). lia.
Qed.

(** ** Witnesses *)

(** A primary with one key, written after the secondary was opened: the
    secondary holds nothing until it catches up. *)
Definition sample_primary (col : Z) (key : Bytes) : option Bytes :=
  if decide (key = "k") then Some "v" else None.

#[local] Instance sample_rocks : RocksDb := {|
  Rocks := bool;
  rocks_open _ _ := inr false;
  rocks_get caught_up col key :=
    inr (if (caught_up : bool) then sample_primary col key else None);
  rocks_catch_up _ := (None, true);
|}.

Lemma secondary_get_twice_witness :
  secondary_get 1 "k" false = (None, true) ∧
  (secondary_get 1 "k" (secondary_get 1 "k" false).2).1 = Some "v".
Proof.
  split; [reflexivity|].
  pose proof (secondary_get_twice sample_primary 1 "k" false) as H.
  destruct H as [H _].
  - split. intros db db' col key [= <-]. reflexivity.
  - intros d. reflexivity.
  - apply H. reflexivity.
Defined.

Lemma secondary_open_reads_witness :
  secondary_open {| rocks_path := Some "db"; cache_size := 128;
                    secondary_db_path := Some "db2" |} = Ok true ∧
  (secondary_get 1 "k" true).1 = Some "v".
Proof.
  split; [vm_compute; reflexivity|].
  destruct (secondary_open_reads sample_primary {| rocks_path := Some "db";
    cache_size := 128; secondary_db_path := Some "db2" |}) as [_ H].
  - split. intros db db' col key [= <-]. reflexivity.
  - apply (H true). vm_compute. reflexivity.
Defined.

Lemma memory_budget_spec_witness :
  memory_budget 128 !! 1%Z = Some 115%Z ∧ memory_budget 128 !! 0%Z = Some 1%Z.
Proof.
  destruct (memory_budget_spec 128) as (H1 & H2 & _); [lia|].
  split; [exact H1|]. apply (H2 0%Z); [unfold NUM_COLUMNS; lia|discriminate].
Defined.
