(* ===== verification/VersionCache.v ===== *)
(** * The runtime version cache ([archive/executor/src/version_cache.rs])

    A map from the hash of a wasm blob to the runtime version it declares.
    The hasher, the wasm call that reads a blob's version and the SCALE
    decoders are parameters ([VersionApi]). *)

From S2P Require Import Prelude Chain.

(** [sc_service::error::Error], as far as this file builds it. *)
Inductive ServiceError :=
  | FromClient (e : Error)
  | Other (s : string).

Class VersionApi `{BackendTypes, RuntimeTypes} := {
  (* [StateBackend::storage]; the error text on failure *)
  state_storage : State → Bytes → outcome string (option Bytes);
  (* [DefaultHasher] on the optional code *)
  make_hash : option Bytes → Z;
  (* [sp_io::misc::runtime_version] *)
  wasm_runtime_version : Bytes → option Bytes;
  (* [sp_api::OldRuntimeVersion::decode] and its conversion *)
  decode_old_version : Bytes → option RuntimeVersion;
  (* [sp_api::RuntimeVersion::decode] *)
  decode_new_version : Bytes → option RuntimeVersion;
  (* [blake2_64(b"Core")] *)
  core_api_id : Bytes;
}.

(** [well_known_keys::CODE] *)
Definition CODE : Bytes := ":code".

Section version_cache.
Context `{CT : ChainTypes, BT : BackendTypes, BE : !Backend, RT : RuntimeTypes,
  VA : !VersionApi}.

(** [RuntimeVersionCache]; [vc_calls] records, newest first, the blobs whose
    version was read by running wasm. *)
Record VersionCache := {
  versions : gmap Z RuntimeVersion;
  vc_calls : list Bytes;
}.

(** [RuntimeVersionCache::new] *)
Definition version_cache_new : VersionCache := {| versions := ∅; vc_calls := [] |}.

(** [decode_version] *)
Definition decode_version (version : Bytes) : outcome ServiceError RuntimeVersion :=
  let? v := ok_or (decode_old_version version) (Other "decode error") in
  if rv_has_api_with v core_api_id (λ v, (3 <=? v)%Z)
  then ok_or (decode_new_version version) (Other "decode error")
  else Ok v.

(** The closure run in the externalities: the wasm call, then the decoder. *)
Definition read_version (code : Bytes) : outcome ServiceError RuntimeVersion :=
  let? ver := ok_or (wasm_runtime_version code) (Other "wasm runtime") in
  decode_version ver.

(** The code stored at a block: an error of the state is a panic. *)
Definition code_at_block (db : DB) (id : BlockId) :
    outcome ServiceError (option Bytes) :=
  let? state := omap_err FromClient (state_at db id) in
  unwrap (state_storage state CODE) "No storage found".

(** [RuntimeVersionCache::get_by_id] *)
Definition get_by_id (db : DB) (id : BlockId) :
    M ServiceError VersionCache (option RuntimeVersion) :=
  let! code := lift (code_at_block db id) in
  let code_hash := make_hash code in
  let! cache := get in
  match versions cache !! code_hash with
  | Some version => ret (Some version)
  | None =>
      let! code := lift (expect code "called `Option::unwrap()` on a `None` value") in
      let! _ := modify (λ c, {| versions := versions c; vc_calls := code :: vc_calls c |}) in
      let! version := lift (read_version code) in
      let! _ := modify (λ c, {| versions := <[code_hash := version]> (versions c);
                                vc_calls := vc_calls c |}) in
      ret (Some version)
  end.

(** [RuntimeVersionCache::get] *)
Definition get_version (db : DB) (hash : Hash) :
    M ServiceError VersionCache (option RuntimeVersion) :=
  get_by_id db (IdHash hash).

(** ** Specification: no cache *)

(** What a cache-less implementation answers. *)
Definition fresh_version (db : DB) (id : BlockId) :
    outcome ServiceError (option RuntimeVersion) :=
  let? code := code_at_block db id in
  let? code := expect code "called `Option::unwrap()` on a `None` value" in
  let? version := read_version code in
  Ok (Some version).

(** The blobs of the chain hash apart (the cache keys are 64-bit hashes). *)
Definition no_collision (db : DB) : Prop :=
  ∀ id1 id2 c1 c2, code_at_block db id1 = Ok c1 → code_at_block db id2 = Ok c2 →
    make_hash c1 = make_hash c2 → c1 = c2.

(** Every entry is the version of a blob of the chain that was run, and every
    run that gave a version left its entry. *)
Record cache_inv (db : DB) (c : VersionCache) : Prop := {
  cache_entries k v : versions c !! k = Some v →
    ∃ id code, code_at_block db id = Ok (Some code) ∧
      make_hash (Some code) = k ∧ read_version code = Ok v;
  cache_calls code v : code ∈ vc_calls c → read_version code = Ok v →
    is_Some (versions c !! make_hash (Some code));
  cache_once code v1 : read_version code = Ok v1 →
    length (filter (λ b, b = code) (vc_calls c)) ≤ 1;
}.

Lemma version_cache_new_inv db : cache_inv db version_cache_new.
Proof.
  split; simpl; intros; [|by apply elem_of_nil in H|lia].
  by rewrite lookup_empty in H.
Qed.

Lemma read_version_in db id code : code_at_block db id = Ok (Some code) →
  fresh_version db id = omap_ok Some (read_version code).
Proof. intros Hc. unfold fresh_version. rewrite Hc. simpl. by destruct (read_version code). Qed.

(** Running a blob that is not cached: it was not run to a version before. *)
Lemma cache_miss_fresh db c code :
  cache_inv db c → versions c !! make_hash (Some code) = None →
  ∀ v, read_version code = Ok v → code ∉ vc_calls c.
Proof. intros I Hn v Hv Hin. destruct (cache_calls _ _ I code v Hin Hv). congruence. Qed.

Lemma filter_nil_not_elem (l : list Bytes) code : code ∉ l → filter (λ b, b = code) l = [].
Proof.
  induction l as [|x l IH]; [done|]. rewrite not_elem_of_cons. intros [? ?].
  rewrite filter_cons_False by congruence. by apply IH.
Qed.

(** Recording a run and, when it gave a version, its entry. *)
Lemma cache_inv_run db c id code :
  cache_inv db c → code_at_block db id = Ok (Some code) →
  versions c !! make_hash (Some code) = None →
  cache_inv db {|
    versions := match read_version code with
                | Ok v => <[make_hash (Some code) := v]> (versions c)
                | _ => versions c
                end;
    vc_calls := code :: vc_calls c |}.
Proof.
  intros I Hc Hn. split; simpl.
  - intros k v Hk. destruct (read_version code) as [v'|e|p] eqn:Hr;
      [|by eapply cache_entries..].
    apply lookup_insert_Some in Hk as [[<- <-]|[_ ?]]; [|by eapply cache_entries].
    by exists id, code.
  - intros code' v [->|Hin]%elem_of_cons Hv.
    + rewrite Hv, lookup_insert_eq. by eexists.
    + pose proof (cache_calls _ _ I code' v Hin Hv).
      destruct (read_version code); [|done..].
      rewrite lookup_insert_is_Some'. by right.
  - intros code' v Hv. destruct (decide (code = code')) as [<-|Hne].
    + rewrite filter_cons_True by done. simpl.
      rewrite filter_nil_not_elem; [done|]. by eapply cache_miss_fresh.
    + rewrite filter_cons_False by done. by eapply cache_once.
Qed.

(** One request: the answer of the cache-less specification, and the
    invariant again. *)
Lemma get_by_id_spec db id c :
  cache_inv db c → no_collision db →
  (get_by_id db id c).1 = fresh_version db id ∧ cache_inv db (get_by_id db id c).2.
Proof.
  intros I Hcol. unfold get_by_id, bind, lift, get, modify, ret.
  destruct (code_at_block db id) as [code|e|p] eqn:Hcode; simpl;
    [|by unfold fresh_version; rewrite Hcode..].
  destruct (versions c !! make_hash code) as [v|] eqn:Hk; simpl.
  - split; [|done]. destruct (cache_entries _ _ I _ _ Hk) as (id' & code' & Hc' & Hh & Hv).
    rewrite <- (Hcol id' id (Some code') code Hc' Hcode Hh) in Hcode.
    by rewrite (read_version_in _ _ _ Hcode), Hv.
  - destruct code as [code|]; simpl; [|by unfold fresh_version; rewrite Hcode].
    rewrite (read_version_in _ _ _ Hcode).
    pose proof (cache_inv_run db c id code I Hcode Hk) as I'.
    by destruct (read_version code); simpl in *.
Qed.

(** A run of requests on one cache, answers oldest first. *)
Fixpoint get_all (db : DB) (ids : list BlockId) (c : VersionCache) :
    list (outcome ServiceError (option RuntimeVersion)) * VersionCache :=
  match ids with
  | [] => ([], c)
  | id :: ids =>
      let '(r, c) := get_by_id db id c in
      let '(rs, c) := get_all db ids c in (r :: rs, c)
  end.

(** C23. When the blobs of the chain do not collide under the 64-bit hash, a run
    of requests through the cache answers exactly what decoding the code of
    each block afresh would (errors and panics included), and wasm is run at
    most once for every blob that declares a version ("Will only call the
    [runtime_version] function once per wasm blob"). *)
Theorem version_cache_refines_fresh (db : DB) (ids : list BlockId) :
  no_collision db →
  let '(rs, c) := get_all db ids version_cache_new in
  rs = map (fresh_version db) ids ∧
  ∀ code v, read_version code = Ok v →
    length (filter (λ b, b = code) (vc_calls c)) ≤ 1.
Proof.
  intros Hcol.
  assert (∀ c, cache_inv db c →
    (get_all db ids c).1 = map (fresh_version db) ids ∧
    cache_inv db (get_all db ids c).2) as H.
  { induction ids as [|id ids IH]; intros c I; simpl; [done|].
    destruct (get_by_id_spec db id c I Hcol) as [Hr I'].
    destruct (get_by_id db id c) as [r c']; simpl in *. destruct (IH c' I') as [Hrs I''].
    destruct (get_all db ids c') as [rs c'']; simpl in *. by subst. }
  destruct (H version_cache_new (version_cache_new_inv db)) as [Hr I].
  destruct (get_all _ _ _) as [rs c]; simpl in *. split; [done|].
  intros code v. by eapply cache_once.
Qed.
End version_cache.
