(* ===== verification/Reference.v ===== *)
(** * A small concrete chain

    Concrete functions for every parameter of the development, used by the
    witnesses only: hashes are numbers, a block's state is the list of the
    extrinsics executed up to it, the database is a map of blocks with the
    best and the finalized one, and walking the tree follows parent hashes. *)

From S2P Require Import Prelude Chain Postgres Kafka VersionCache.

#[local] Instance ref_chain : ChainTypes := {|
  Hash := Z;
  default_hash := 0%Z;
  hash_bytes h := pretty h;
  debug_hash h := pretty h;
  Extrinsic := string;
  encode_extrinsic e := e;
  DigestItem := string;
  as_changes_trie_root _ := None;
  encode_digest l := String.concat "," l;
  Justification := string;
  encode_justification j := j;
  (* two siblings differ by their state root *)
  header_hash h := (100 * h_number h + h_state_root h)%Z;
  trie_root l := Z.of_nat (length l);
|}.

(** What the database keeps of a block. *)
Record ref_block := {
  rb_header : Header;
  rb_body : option (list Extrinsic);
  rb_justifications : option (list Justification);
}.

Record ref_db := {
  db_blocks : gmap Z ref_block;  (* by hash *)
  db_best : Z;
  db_finalized : Z;
  db_genesis : Z;
  db_aux : gmap Bytes Bytes;
}.

#[local] Instance ref_types : BackendTypes := {|
  DB := ref_db;
  State := list string;
  Transaction := list string;
  OffchainChanges := unit;
  ChangesTrieTx := unit;
  TxIndex := unit;
  Cache := unit;
  GenesisStorage := list (Bytes * Bytes);
|}.

Section ref.



Definition ref_number (db : ref_db) (h : Z) : option Z :=
  h_number ∘ rb_header <$> db_blocks db !! h.

(** The hashes from [h] down to the genesis, [h] first. *)
Fixpoint ref_ancestors (fuel : nat) (db : ref_db) (h : Z) : list Z :=
  match fuel with
  | O => []
  | S fuel =>
      match db_blocks db !! h with
      | None => []
      | Some b => h :: (if decide (h_number (rb_header b) = 0)%Z then []
                        else ref_ancestors fuel db (h_parent_hash (rb_header b)))
      end
  end.

Definition ref_chain_of (db : ref_db) (h : Z) : list Z :=
  ref_ancestors (S (size (db_blocks db))) db h.

(** The block number [n] on the best chain. *)
Definition ref_hash (db : ref_db) (n : Z) : option Z :=
  head (filter (λ h, ref_number db h = Some n) (ref_chain_of db (db_best db))).

Definition ref_resolve (db : ref_db) (id : BlockId) : option Z :=
  match id with
  | IdHash h => Some h
  | IdNumber n => ref_hash db n
  end.

Definition ref_lookup (db : ref_db) (id : BlockId) : option ref_block :=
  h ← ref_resolve db id; db_blocks db !! h.

(** The elements before the first one in [stop], and that one. *)
Fixpoint ref_until (stop : list Z) (l : list Z) : list Z * option Z :=
  match l with
  | [] => ([], None)
  | h :: l =>
      if decide (h ∈ stop) then ([], Some h)
      else let '(p, c) := ref_until stop l in (h :: p, c)
  end.

Definition ref_tree_route (db : ref_db) (from to : Z) : result TreeRoute :=
  let '(lft, c) := ref_until (ref_chain_of db to) (ref_chain_of db from) in
  let '(entered, _) := ref_until (ref_chain_of db from) (ref_chain_of db to) in
  match c with
  | Some c =>
      (* no route through a cycle *)
      if decide (lft = [] ∧ last (reverse entered) ≠ Some to ∧ from ≠ to)
      then Err (UnknownBlock "tree_route")
      else Ok {| retracted := lft; common_block := c; enacted := reverse entered |}
  | None => Err (UnknownBlock "tree_route")
  end.

Definition ref_apply (db : ref_db) (c : OpCall) : ref_db :=
  match c with
  | SetBlockData h body j s =>
      let hash := header_hash h in
      {| db_blocks := <[hash := {| rb_header := h; rb_body := body;
                                   rb_justifications := j |}]> (db_blocks db);
         db_best := if decide (s = Normal) then db_best db else hash;
         db_finalized := if decide (s = Final) then hash else db_finalized db;
         db_genesis := if decide (h_number h = 0)%Z then hash else db_genesis db;
         db_aux := db_aux db |}
  | MarkFinalized b _ =>
      {| db_blocks := db_blocks db; db_best := db_best db;
         db_finalized := default (db_finalized db) (ref_resolve db b);
         db_genesis := db_genesis db; db_aux := db_aux db |}
  | MarkHead b =>
      {| db_blocks := db_blocks db;
         db_best := default (db_best db) (ref_resolve db b);
         db_finalized := db_finalized db;
         db_genesis := db_genesis db; db_aux := db_aux db |}
  | InsertAux l =>
      {| db_blocks := db_blocks db; db_best := db_best db;
         db_finalized := db_finalized db; db_genesis := db_genesis db;
         db_aux := foldl (λ m kv, match kv.2 with
                            | Some v => <[kv.1 := v]> m
                            | None => delete kv.1 m
                            end) (db_aux db) l |}
  | _ => db
  end.
End ref.

#[local] Instance ref_backend : Backend := {|
  bc_header db id := Ok (rb_header <$> ref_lookup db id);
  bc_body db id := Ok (ref_lookup db id ≫= rb_body);
  bc_justifications db id := Ok (ref_lookup db id ≫= rb_justifications);
  bc_info db := {| best_hash := db_best db;
                   best_number := as_u32 (default 0%Z (ref_number db (db_best db)));
                   genesis_hash := db_genesis db;
                   finalized_hash := db_finalized db;
                   finalized_number := default 0%Z (ref_number db (db_finalized db)) |};
  bc_status db id := Ok (match ref_lookup db id with Some _ => InChain | None => NotInChain end);
  bc_number db h := Ok (ref_number db h);
  bc_hash db n := Ok (ref_hash db n);
  bc_children db h :=
    Ok (fst <$> filter (λ p, h_parent_hash (rb_header p.2) = h ∧ h_number (rb_header p.2) ≠ 0%Z)
                  (map_to_list (db_blocks db)));
  bc_last_finalized db := Ok (db_finalized db);
  bc_expect_header db id :=
    ok_or (rb_header <$> ref_lookup db id) (UnknownBlock "header");
  bc_expect_block_number_from_id db id :=
    ok_or (ref_resolve db id ≫= ref_number db) (UnknownBlock "number");
  bc_expect_block_hash_from_id db id := ok_or (ref_resolve db id) (UnknownBlock "hash");
  tree_route := ref_tree_route;
  state_at db id :=
    ok_or (b ← ref_lookup db id; rb_body b) (UnknownBlock "state");
  have_state_at db h n := bool_decide (is_Some (db_blocks db !! h));
  begin_operation db := Ok ();
  op_answer db calls c := Ok ();
  genesis_root db g := Z.of_nat (length g);
  commit_operation db calls := (Ok (), foldl ref_apply db calls);
  revert_blocks db n b := (Ok (0%Z, []), db);
|}.

#[local] Instance ref_runtime_types : RuntimeTypes := {|
  RuntimeVersion := Z;
  rv_spec_version v := match v with 1 => 1 | 2 => 2 | _ => 0 end%Z;
  rv_has_api_with _ _ _ := false;
  ChangesTrieState := unit;
|}.

(** Executing a block logs its extrinsics; one of them is refused. *)
#[local] Instance ref_runtime_api : RuntimeApi := {|
  Api := list string;
  runtime_api db := [];
  execute_block api id b :=
    if decide ("bad" ∈ b_extrinsics b) then (Err (RuntimeApiError "bad"), api)
    else (Ok (), api ++ b_extrinsics b);
  execute_block_with_context api id ctx b :=
    if decide ("bad" ∈ b_extrinsics b) then (Err (RuntimeApiError "bad"), api)
    else (Ok (), api ++ b_extrinsics b);
  into_storage_changes api state _ _ :=
    (Ok {| main_storage_changes := (λ e, (e, Some e)) <$> api;
           child_storage_changes := []; offchain_storage_changes := ();
           transaction := api; transaction_storage_root := Z.of_nat (length api);
           changes_trie_transaction := None; transaction_index_changes := () |}, []);
  runtime_metadata api id := (Ok "meta", api);
  ra_changes_tries := {| changes_tries_state_at_block db id := Ok None |};
|}.

(** The code of a state is "v2" once an extrinsic upgraded it. *)
#[local] Instance ref_version_api : VersionApi := {|
  state_storage s key :=
    Ok (if decide (key = CODE)
        then Some (if decide ("upgrade" ∈ s) then "v2" else "v1") else None);
  make_hash code := Zpos (encode code);
  wasm_runtime_version code := Some code;
  decode_old_version s :=
    if decide (s = "v1") then Some 1%Z
    else if decide (s = "v2") then Some 2%Z else None;
  decode_new_version s := None;
  core_api_id := "core";
|}.

#[local] Instance ref_json : JsonTypes := json_reference.

#[local] Instance ref_payload_json : PayloadJson := {|
  json_metadata_payload p := Some (String.append "metadata " (pretty (mp_spec_version p)));
  json_block_payload p := Some (String.append "block " (pretty (bp_block_num p)));
  json_finalized_payload p := Some "finalized";
  json_metadata_demo p := Some "metadata";
  json_block_demo p := Some "block";
  json_finalized_demo p := Some "finalized";
|}.

(** ** Sample blocks: a chain 0 - 1 - 2 and a sibling of block 2 *)

Definition sample_header (n root parent : Z) : Header :=
  new_header n 0%Z root parent ["seal"].

Definition sample_ref_block (n root parent : Z) (ext : list string) : ref_block :=
  {| rb_header := sample_header n root parent; rb_body := Some ext;
     rb_justifications := None |}.

Definition sample_db : ref_db := {|
  db_blocks := {[ 0%Z := sample_ref_block 0 0 0 [];
                  101%Z := sample_ref_block 1 1 0 ["a"];
                  202%Z := sample_ref_block 2 2 101 ["upgrade"];
                  203%Z := sample_ref_block 2 3 101 ["b"] ]};
  db_best := 202; db_finalized := 0; db_genesis := 0; db_aux := ∅ |}%Z.

Example sample_best : best_number (bc_info sample_db) = 2%Z.
Proof. vm_compute. reflexivity. Qed.

Example sample_route : tree_route sample_db 203%Z 202%Z =
  Ok {| retracted := [203%Z]; common_block := 101%Z; enacted := [202%Z] |}.
Proof. vm_compute. reflexivity. Qed.

(** ** Witnesses of the components above *)

Lemma version_cache_refines_fresh_witness :
  no_collision sample_db ∧
  (get_all sample_db [IdNumber 1; IdNumber 2; IdNumber 1] version_cache_new).1 =
    [Ok (Some 1); Ok (Some 2); Ok (Some 1)]%Z.
Proof.
  assert (no_collision sample_db) as Hc.
  { intros id1 id2 c1 c2 _ _ Hh. simpl in Hh. injection Hh. apply (inj encode). }
  split; [done|].
  pose proof (version_cache_refines_fresh sample_db [IdNumber 1; IdNumber 2; IdNumber 1] Hc)
    as H.
  destruct (get_all _ _ _) as [rs c]. destruct H as [-> _]. vm_compute. reflexivity.
Defined.

(** A broker that acknowledges everything. *)
#[local] Instance kafka_reference : KafkaService :=
  {| create_producer _ := None; delivery_fault _ := Delivered |}.

Definition sample_kafka_config : KafkaConfig := {|
  queue_timeout := 0;
  kafka_topic := {| topic_metadata := "metadata"; topic_block := "block";
                    topic_finalized_block := "finalized" |};
  rdkafka := {[ "bootstrap.servers" := "localhost:9092" ]} |}.

Definition sample_producer : KafkaProducer := {| producer_config := sample_kafka_config |}.

Definition sample_payload (n : Z) : BlockPayload := {|
  bp_spec_version := 1; bp_block_num := n; bp_block_hash := 101; bp_parent_hash := 0;
  bp_state_root := 1; bp_extrinsics_root := 0; bp_digest := ["seal"];
  bp_extrinsics := ["a"]; bp_justifications := None;
  bp_main_changes := {["a" := Some "a"]}; bp_child_changes := ∅ |}%Z.

Definition kafka_start : KafkaState := {| k_log := []; k_clock := 0 |}.

Lemma kafka_send_block_record_witness :
  let '(r, s) := kafka_send sample_producer (sample_payload 1) kafka_start in
  r = Ok () ∧ k_log s = [{| r_topic := "block"; r_payload := "block 1"; r_key := Some "1" |}].
Proof.
  destruct (kafka_send_block_record sample_producer
    (sample_payload 1) (sample_payload 2) "block 1" kafka_start) as [H _];
    [reflexivity|].
  destruct (kafka_send _ _ _) as [[r|e|p] s] eqn:E;
    [|exfalso; vm_compute in E; discriminate..].
  destruct r. split; [reflexivity|exact H].
Defined.
