(* ===== verification/BlockExecutor.v ===== *)
(** * The block executor ([archive/executor/src/lib.rs])

    Takes a block number, re-executes the block on its parent's state, and
    sends the block with its storage changes to the archiver and the number
    to the comparer.  The channels are unbounded queues; the receivers'
    sides are in [Pipeline.v]. *)

From S2P Require Import Prelude Chain Postgres Kafka ArchiveCore VersionCache Reference.

(** [ArchiveSendMsg<Block>] *)
Definition ArchiveSendMsg `{ChainTypes, JsonTypes} : Type := BlockModel * BlockPayload.

Section executor.
Context `{CT : ChainTypes, BT : BackendTypes, BE : !Backend, RT : RuntimeTypes,
  RA : !RuntimeApi, VA : !VersionApi, JT : JsonTypes}.
Context {C : Type} {AC : ArchiveCore C}.

(** [BlockExecutor]: the parts that do not change.  The client works on the
    main database, the version cache on the one the archive reads (they differ
    when a read-only backend is configured); [genesis_top] is
    [genesis_storage.top]. *)
Record BlockExecutor := {
  ex_client : DB;
  vc_backend : DB;
  archive_core : C;
  genesis_top : gmap Bytes Bytes;
}.

(** The parts that do: the cache and the sending ends of the channels. *)
Record ExecutorState := {
  ex_cache : VersionCache;
  archiver_send : list ArchiveSendMsg;
  comparer_send : list Z;
}.

Definition send_archiver (msg : ArchiveSendMsg) : M Error ExecutorState unit :=
  modify (λ s, {| ex_cache := ex_cache s; archiver_send := archiver_send s ++ [msg];
                  comparer_send := comparer_send s |}).
Definition send_comparer (number : Z) : M Error ExecutorState unit :=
  modify (λ s, {| ex_cache := ex_cache s; archiver_send := archiver_send s;
                  comparer_send := comparer_send s ++ [number] |}).

(** [header.digest_mut().pop()] *)
Definition pop_digest (h : Header) : Header :=
  mk_header (h_number h) (h_extrinsics_root h) (h_state_root h) (h_parent_hash h)
    (removelast (h_digest h)).

(** [BlockExecutor::execute_block_and_into_storage_changes].  The result of
    executing the block is dropped ([let _ = ...]); only a panic escapes. *)
Definition execute_block_and_into_storage_changes (self : BlockExecutor)
    (block_number : Z) : result (option (StorageChanges * SignedBlock)) :=
  let? signed_block := get_block (archive_core self) block_number in
  match signed_block with
  | None => Ok None
  | Some signed_block =>
      let block_origin := sb_block signed_block in
      let parent_hash := h_parent_hash (b_header block_origin) in
      let parent_block_id := IdHash parent_hash in
      match get_state (archive_core self) parent_block_id with
      | Panic p => Panic p
      | Err _ => Ok None
      | Ok state =>
          let header := pop_digest (b_header block_origin) in
          let block_execute := new_block header (b_extrinsics block_origin) in
          let api := runtime_api (ex_client self) in
          let '(r, api) := execute_block api parent_block_id block_execute in
          match r with
          | Panic p => Panic p
          | _ =>
              match (into_storage_changes api state None parent_hash).1 with
              | Panic p => Panic p
              | Err _ => Ok None
              | Ok storages => Ok (Some (storages, signed_block))
              end
          end
      end
  end.

(** [storages_map]: the genesis storage for block 0, the main storage changes
    otherwise, collected into a map. *)
Definition storages_map (self : BlockExecutor) (number : Z)
    (main_sc : list (Bytes * option Bytes)) : gmap Bytes (option Bytes) :=
  if decide (number = 0)%Z
  then collect_map ((λ kv, (kv.1, Some kv.2)) <$> map_to_list (genesis_top self))
  else collect_map main_sc.

(** [BlockModel { .. }] *)
Definition block_model (number spec_version : Z) (sb : SignedBlock)
    (changes : gmap Bytes (option Bytes)) : BlockModel :=
  let header := b_header (sb_block sb) in
  {| bm_spec_version := spec_version;
     bm_block_num := number;
     bm_block_hash := hash_bytes (header_hash header);
     bm_parent_hash := hash_bytes (h_parent_hash header);
     bm_state_root := hash_bytes (h_state_root header);
     bm_extrinsics_root := hash_bytes (h_extrinsics_root header);
     bm_digest := encode_digest (h_digest header);
     bm_extrinsics := map encode_extrinsic (b_extrinsics (sb_block sb));
     bm_justifications := option_map (map encode_justification) (sb_justifications sb);
     bm_main_changes := json_of_changes changes;
     bm_child_changes := json_null |}.

(** [BlockPayload { .. }] *)
Definition block_payload (spec_version : Z) (sb : SignedBlock)
    (changes : gmap Bytes (option Bytes)) : BlockPayload :=
  let header := b_header (sb_block sb) in
  {| bp_spec_version := spec_version;
     bp_block_num := h_number header;
     bp_block_hash := header_hash header;
     bp_parent_hash := h_parent_hash header;
     bp_state_root := h_state_root header;
     bp_extrinsics_root := h_extrinsics_root header;
     bp_digest := h_digest header;
     bp_extrinsics := b_extrinsics (sb_block sb);
     bp_justifications := sb_justifications sb;
     bp_main_changes := changes;
     bp_child_changes := ∅ |}.

(** [self.version_cache.get_by_id(block_number)]; an error or a missing
    version is a panic of [archive]. *)
Definition block_spec_version (self : BlockExecutor) (number : Z) :
    M Error ExecutorState Z := λ s,
  let '(r, c) := get_by_id (vc_backend self) (IdNumber number) (ex_cache s) in
  let s := {| ex_cache := c; archiver_send := archiver_send s;
              comparer_send := comparer_send s |} in
  match r with
  | Ok (Some version) => (Ok (rv_spec_version version), s)
  | Ok None => (Panic "get runtime version none from block", s)
  | Err _ => (Panic "get runtime version error", s)
  | Panic p => (Panic p, s)
  end.

(** [BlockExecutor::archive] *)
Definition executor_archive (self : BlockExecutor) (number : Z) :
    M Error ExecutorState unit :=
  let! storages := lift (execute_block_and_into_storage_changes self number) in
  match storages with
  | None =>
      if decide (number = 0)%Z then send_comparer number
      else panic "executor >> SYNC get storages is none"
  | Some (storages, signed_block) =>
      let main_sc := main_storage_changes storages in
      let storages_map := storages_map self number main_sc in
      let! spec_version := block_spec_version self number in
      let block_model := block_model number spec_version signed_block storages_map in
      let block_payload := block_payload spec_version signed_block storages_map in
      let! _ := send_archiver (block_model, block_payload) in
      send_comparer number
  end.

(** ** Specification *)

(** What one request publishes: nothing but its number (block 0 without
    storage changes), or one message and its number. *)
Definition executor_answer (self : BlockExecutor) (number : Z) :
    outcome Error (option ArchiveSendMsg) :=
  let? storages := execute_block_and_into_storage_changes self number in
  match storages with
  | None =>
      if decide (number = 0)%Z then Ok None
      else Panic "executor >> SYNC get storages is none"
  | Some (storages, sb) =>
      match fresh_version (vc_backend self) (IdNumber number) with
      | Ok (Some v) =>
          let m := storages_map self number (main_storage_changes storages) in
          Ok (Some (block_model number (rv_spec_version v) sb m,
                    block_payload (rv_spec_version v) sb m))
      | Ok None => Panic "get runtime version none from block"
      | Err _ => Panic "get runtime version error"
      | Panic p => Panic p
      end
  end.

Definition publish (number : Z) (msg : option ArchiveSendMsg) (s : ExecutorState) :
    list ArchiveSendMsg * list Z :=
  (archiver_send s ++ option_list msg, comparer_send s ++ [number]).

(** [archive] refines [executor_answer] on any cache that satisfies its
    invariant. *)
Lemma executor_archive_refines self number s :
  cache_inv (vc_backend self) (ex_cache s) → no_collision (vc_backend self) →
  let '(r, s') := executor_archive self number s in
  cache_inv (vc_backend self) (ex_cache s') ∧
  match executor_answer self number with
  | Ok msg => r = Ok () ∧ (archiver_send s', comparer_send s') = publish number msg s
  | Err e => r = Err e ∧ (archiver_send s', comparer_send s') = (archiver_send s, comparer_send s)
  | Panic p => r = Panic p ∧
      (archiver_send s', comparer_send s') = (archiver_send s, comparer_send s)
  end.
Proof.
  intros I Hcol. unfold executor_archive, executor_answer, publish, lift, bind.
  destruct (execute_block_and_into_storage_changes self number)
    as [[[st sb]|]|e|p]; simpl; [|by case_decide; simpl; rewrite ?app_nil_r|done|done].
  unfold block_spec_version.
  destruct (get_by_id_spec _ (IdNumber number) _ I Hcol) as [<- I'].
  by destruct (get_by_id _ _ _) as [[[v|]| |] c]; simpl in *.
Qed.

(** A message sent by a request is its answer. *)
Lemma executor_archive_sent self number s msg :
  cache_inv (vc_backend self) (ex_cache s) → no_collision (vc_backend self) →
  archiver_send (executor_archive self number s).2 = archiver_send s ++ [msg] →
  executor_answer self number = Ok (Some msg).
Proof.
  intros I Hcol Hs. pose proof (executor_archive_refines self number s I Hcol) as H.
  destruct (executor_archive self number s) as [r s']. destruct H as [_ H]. simpl in Hs.
  destruct (executor_answer self number) as [[m|]|e|p]; destruct H as [_ [= H _]];
    rewrite Hs in H; [by apply app_inj_tail in H as [_ ->]| | |];
    apply (f_equal length) in H; rewrite ?app_nil_r, length_app in H; simpl in H; lia.
Qed.

(** The messages of one request, whatever the state of the cache. *)
Lemma executor_archive_shape self number s :
  let '(r, s') := executor_archive self number s in
  match r with
  | Ok _ => comparer_send s' = comparer_send s ++ [number] ∧
      ((number = 0%Z ∧ archiver_send s' = archiver_send s) ∨
       ∃ msg, archiver_send s' = archiver_send s ++ [msg] ∧ bm_block_num msg.1 = number)
  | _ => archiver_send s' = archiver_send s ∧ comparer_send s' = comparer_send s
  end.
Proof.
  unfold executor_archive, lift, bind.
  destruct (execute_block_and_into_storage_changes self number) as [[[st sb]|]|e|p];
    simpl; [|by case_decide; simpl; auto|done|done].
  unfold block_spec_version.
  destruct (get_by_id _ _ _) as [[[v|]| |] c]; simpl; [|done..].
  split; [done|]. right. by eexists.
Qed.

(** An answered message comes from a block of the core, executed without its
    last digest item on its parent's state. *)
Lemma executor_answer_Some self number msg :
  executor_answer self number = Ok (Some msg) ↔
  ∃ sb st ch v, get_block (archive_core self) number = Ok (Some sb) ∧
    let parent := h_parent_hash (b_header (sb_block sb)) in
    let '(r, api) := execute_block (runtime_api (ex_client self)) (IdHash parent)
      (new_block (pop_digest (b_header (sb_block sb))) (b_extrinsics (sb_block sb))) in
    get_state (archive_core self) (IdHash parent) = Ok st ∧
    ¬ is_Panic r ∧
    (into_storage_changes api st None parent).1 = Ok ch ∧
    fresh_version (vc_backend self) (IdNumber number) = Ok (Some v) ∧
    let m := storages_map self number (main_storage_changes ch) in
    msg = (block_model number (rv_spec_version v) sb m,
           block_payload (rv_spec_version v) sb m).
Proof.
  unfold executor_answer, execute_block_and_into_storage_changes. split.
  - intros H. destruct (get_block _ number) as [[sb|]| |] eqn:Hb; simpl in *;
      [|by case_decide|done..].
    destruct (get_state _ _) as [st| |] eqn:Hst; simpl in *; [|by case_decide|done].
    destruct (execute_block _ _ _) as [r api] eqn:Hx.
    destruct (is_Panic_dec r) as [[p ->]|Hr]; [done|].
    destruct (into_storage_changes api st _ _).1 as [ch| |] eqn:Hch; simpl in *;
      [|by case_match; simpl in *; try case_decide..].
    exists sb, st, ch. rewrite Hx, Hst, Hch.
    destruct (fresh_version _ _) as [[v|]| |]; [|by case_match; simpl in *..].
    exists v. case_match; simpl in *; simplify_eq; split_and!; try done.
  - intros (sb & st & ch & v & Hb & H). rewrite Hb. simpl.
    destruct (execute_block _ _ _) as [r api] eqn:Hx.
    destruct H as (Hst & Hr & Hch & Hv & ->). rewrite Hst. simpl. rewrite ?Hx, ?Hch, ?Hv.
    destruct r; simpl; [done|done|]. destruct Hr. by eexists.
Qed.

(** ** Properties *)

(** The row of a block: every column, of the block [sb] with the changes
    [changes]. *)
Record row_of (number version : Z) (sb : SignedBlock) (changes : gmap Bytes (option Bytes))
    (m : BlockModel) : Prop := {
  row_spec_version : bm_spec_version m = version;
  row_block_num : bm_block_num m = number;
  row_block_hash : bm_block_hash m = hash_bytes (header_hash (b_header (sb_block sb)));
  row_parent_hash : bm_parent_hash m = hash_bytes (h_parent_hash (b_header (sb_block sb)));
  row_state_root : bm_state_root m = hash_bytes (h_state_root (b_header (sb_block sb)));
  row_extrinsics_root :
    bm_extrinsics_root m = hash_bytes (h_extrinsics_root (b_header (sb_block sb)));
  row_digest : bm_digest m = encode_digest (h_digest (b_header (sb_block sb)));
  row_extrinsics : bm_extrinsics m = map encode_extrinsic (b_extrinsics (sb_block sb));
  row_justifications :
    bm_justifications m = option_map (map encode_justification) (sb_justifications sb);
  row_main_changes : bm_main_changes m = json_of_changes changes;
  row_child_changes : bm_child_changes m = json_null;
}.

(** The record of a block: every field. *)
Record record_of (version : Z) (sb : SignedBlock) (changes : gmap Bytes (option Bytes))
    (q : BlockPayload) : Prop := {
  rec_spec_version : bp_spec_version q = version;
  rec_block_num : bp_block_num q = h_number (b_header (sb_block sb));
  rec_block_hash : bp_block_hash q = header_hash (b_header (sb_block sb));
  rec_parent_hash : bp_parent_hash q = h_parent_hash (b_header (sb_block sb));
  rec_state_root : bp_state_root q = h_state_root (b_header (sb_block sb));
  rec_extrinsics_root : bp_extrinsics_root q = h_extrinsics_root (b_header (sb_block sb));
  rec_digest : bp_digest q = h_digest (b_header (sb_block sb));
  rec_extrinsics : bp_extrinsics q = b_extrinsics (sb_block sb);
  rec_justifications : bp_justifications q = sb_justifications sb;
  rec_main_changes : bp_main_changes q = changes;
  rec_child_changes : bp_child_changes q = ∅;
}.

(** C12. Whatever the block, a request of the executor sends at most one message
    to the archiver and, unless it fails, exactly the requested number to the
    comparer.  The message is a database row and a Kafka payload whose every
    field is that of the block [sb] stored under the requested number: its
    hash, parent hash, state root, extrinsics root and full digest (although
    it is executed without its seal), its extrinsics and justifications,
    encoded in the row, the version the chain declares at the number, the same
    main changes (for block 0 the genesis storage, otherwise those of executing
    the block) and no child changes; the row is stored under the requested
    number, the payload carries the number of the block's header.  Only block
    0 may go unpublished, and a request that fails or panics sends nothing. *)
Theorem executor_archive_publishes (self : BlockExecutor) (number : Z)
    (s : ExecutorState) :
  cache_inv (vc_backend self) (ex_cache s) → no_collision (vc_backend self) →
  let '(r, s') := executor_archive self number s in
  cache_inv (vc_backend self) (ex_cache s') ∧
  match r with
  | Ok _ => comparer_send s' = comparer_send s ++ [number] ∧
      ((number = 0%Z ∧ archiver_send s' = archiver_send s) ∨
       ∃ model payload sb st ch v, archiver_send s' = archiver_send s ++ [(model, payload)] ∧
         get_block (archive_core self) number = Ok (Some sb) ∧
         fresh_version (vc_backend self) (IdNumber number) = Ok (Some v) ∧
         get_state (archive_core self) (IdHash (h_parent_hash (b_header (sb_block sb)))) = Ok st ∧
         (into_storage_changes
            (execute_block (runtime_api (ex_client self))
               (IdHash (h_parent_hash (b_header (sb_block sb))))
               (new_block (pop_digest (b_header (sb_block sb))) (b_extrinsics (sb_block sb)))).2
            st None (h_parent_hash (b_header (sb_block sb)))).1 = Ok ch ∧
         let changes :=
           if decide (number = 0)%Z
           then collect_map ((λ kv, (kv.1, Some kv.2)) <$> map_to_list (genesis_top self))
           else collect_map (main_storage_changes ch) in
         row_of number (rv_spec_version v) sb changes model ∧
         record_of (rv_spec_version v) sb changes payload)
  | _ => archiver_send s' = archiver_send s ∧ comparer_send s' = comparer_send s
  end.
Proof.
  intros I Hcol. pose proof (executor_archive_refines self number s I Hcol) as H.
  destruct (executor_archive self number s) as [r s']. destruct H as [I' H].
  split; [done|].
  destruct (executor_answer self number) as [[msg|]|e|p] eqn:Ha.
  - destruct H as [-> [= Hs ->]]. split; [done|]. right.
    apply executor_answer_Some in Ha as (sb & st & ch & v & Hb & H).
    cbv zeta in H. destruct (execute_block _ _ _) as [r api] eqn:Hx.
    destruct H as (Hst & _ & Hch & Hv & ->).
    eexists _, _, sb, st, ch, v. rewrite Hx. by split_and!.
  - destruct H as [-> [= Hs ->]]. split; [done|]. left.
    rewrite app_nil_r in Hs. split; [|done]. unfold executor_answer in Ha.
    destruct (execute_block_and_into_storage_changes _ _) as [[[]|]| |]; simpl in Ha;
      [by destruct (fresh_version _ _) as [[]| |]|by case_decide|done|done].
  - by destruct H as [-> [= -> ->]].
  - by destruct H as [-> [= -> ->]].
Qed.

(** C21. What is published as the main changes: for block 0 exactly the genesis
    storage; for any other block, under each key, the last write to that key
    among the main storage changes that executing the block (without its last
    digest item, on its parent's state) leaves in the runtime API object. *)
Theorem executor_main_changes (self : BlockExecutor) (number : Z) (s : ExecutorState)
    (model : BlockModel) (payload : BlockPayload) (k : Bytes) :
  cache_inv (vc_backend self) (ex_cache s) → no_collision (vc_backend self) →
  archiver_send (executor_archive self number s).2 = archiver_send s ++ [(model, payload)] →
  if decide (number = 0)%Z
  then bp_main_changes payload !! k = Some <$> genesis_top self !! k
  else ∃ sb st ch, get_block (archive_core self) number = Ok (Some sb) ∧
    let parent := h_parent_hash (b_header (sb_block sb)) in
    get_state (archive_core self) (IdHash parent) = Ok st ∧
    let unsealed := new_block
      (new_header (h_number (b_header (sb_block sb))) (h_extrinsics_root (b_header (sb_block sb)))
         (h_state_root (b_header (sb_block sb))) parent
         (removelast (h_digest (b_header (sb_block sb))))) (b_extrinsics (sb_block sb)) in
    (into_storage_changes
       (execute_block (runtime_api (ex_client self)) (IdHash parent) unsealed).2
       st None parent).1 = Ok ch ∧
    bp_main_changes payload !! k =
      snd <$> last (filter (λ kv, kv.1 = k) (main_storage_changes ch)).
Proof.
  intros I Hcol Hs. apply (executor_archive_sent _ _ _ _ I Hcol) in Hs.
  apply executor_answer_Some in Hs as (sb & st & ch & v & Hb & H).
  cbv zeta in H. destruct (execute_block _ _ _) as [r api] eqn:Hx.
  destruct H as (Hst & _ & Hch & _ & [= -> ->]). simpl.
  unfold storages_map. case_decide as Hn.
  - destruct (genesis_top self !! k) as [v'|] eqn:Hk; simpl.
    + apply collect_map_NoDup.
      * rewrite <- list_fmap_compose. apply NoDup_fst_map_to_list.
      * apply list_elem_of_fmap. exists (k, v'). by rewrite elem_of_map_to_list.
    + rewrite collect_map_lookup. apply fmap_None, last_None.
      destruct (filter _ _) as [|[k' o] l] eqn:Hf; [done|].
      assert ((k', o) ∈ filter (λ kv : Bytes * option Bytes, kv.1 = k)
        ((λ kv : Bytes * Bytes, (kv.1, Some kv.2)) <$> map_to_list (genesis_top self))) as Hin
        by (rewrite Hf; by left).
      apply list_elem_of_filter in Hin as [<- Hin].
      apply list_elem_of_fmap in Hin as ([k'' v''] & [= -> ->] & Hin).
      apply elem_of_map_to_list in Hin. simpl in *. congruence.
  - exists sb, st, ch. unfold pop_digest in Hx. unfold new_header. rewrite Hx.
    by rewrite collect_map_lookup.
Qed.

(** A block whose execution returns an error is published all the same,
    with the changes collected up to the error: the result of executing the
    block is dropped. *)
Theorem executor_publishes_failed_block (self : BlockExecutor) (number : Z)
    (sb : SignedBlock) (st : State) (e : Error) (api : Api) (ch : StorageChanges)
    (v : RuntimeVersion) (s : ExecutorState) :
  let parent := h_parent_hash (b_header (sb_block sb)) in
  cache_inv (vc_backend self) (ex_cache s) → no_collision (vc_backend self) →
  get_block (archive_core self) number = Ok (Some sb) →
  get_state (archive_core self) (IdHash parent) = Ok st →
  execute_block (runtime_api (ex_client self)) (IdHash parent)
    (new_block (pop_digest (b_header (sb_block sb))) (b_extrinsics (sb_block sb))) =
    (Err e, api) →
  (into_storage_changes api st None parent).1 = Ok ch →
  fresh_version (vc_backend self) (IdNumber number) = Ok (Some v) →
  let '(r, s') := executor_archive self number s in
  r = Ok () ∧ comparer_send s' = comparer_send s ++ [number] ∧
  ∃ msg, archiver_send s' = archiver_send s ++ [msg] ∧
    bp_main_changes msg.2 = storages_map self number (main_storage_changes ch).
Proof.
  intros parent I Hcol Hb Hst Hx Hch Hv.
  pose proof (executor_archive_refines self number s I Hcol) as H.
  destruct (executor_archive self number s) as [r s']. destruct H as [_ H].
  set (m := storages_map self number (main_storage_changes ch)).
  assert (executor_answer self number =
    Ok (Some (block_model number (rv_spec_version v) sb m,
              block_payload (rv_spec_version v) sb m))) as Ha.
  { apply executor_answer_Some. exists sb, st, ch, v. split; [done|].
    cbv zeta. fold parent. rewrite Hx. split_and!; try done. by intros [p ?]. }
  rewrite Ha in H.
  destruct H as [-> [= -> ->]]. split_and!; [done..|]. by eexists.
Qed.
End executor.

(** ** Witnesses: the chain of [Reference.v] *)

#[local] Existing Instance ref_chain.
#[local] Existing Instance ref_types.
#[local] Existing Instance ref_backend.
#[local] Existing Instance ref_runtime_types.
#[local] Existing Instance ref_runtime_api.
#[local] Existing Instance ref_version_api.
#[local] Existing Instance ref_json.

Definition sample_executor : BlockExecutor := {|
  ex_client := sample_db; vc_backend := sample_db; archive_core := {| lb_backend := sample_db |};
  genesis_top := {["g" := "1"]} |}.
Definition sample_executor_state : ExecutorState := {|
  ex_cache := version_cache_new; archiver_send := []; comparer_send := [] |}.

Lemma sample_no_collision db : no_collision db.
Proof. intros id1 id2 c1 c2 _ _ Hh. simpl in Hh. injection Hh. apply (inj encode). Qed.

Definition sample_signed : SignedBlock :=
  {| sb_block := new_block (sample_header 0 0 0) []; sb_justifications := None |}.
Definition executed (n : Z) : outcome Error unit * ExecutorState :=
  executor_archive sample_executor n sample_executor_state.
Definition executed_1 := Eval vm_compute in executed 1.
Definition executed_2 := Eval vm_compute in executed 2.

Lemma executor_archive_publishes_witness :
  executed 1 = executed_1 ∧
  executed_1.1 = Ok () ∧ comparer_send executed_1.2 = [1%Z] ∧
  (bp_main_changes ∘ snd <$> archiver_send executed_1.2) = [{["a" := Some "a"]}].
Proof.
  assert (executed 1 = executed_1) as E by (vm_compute; reflexivity).
  pose proof (executor_archive_publishes sample_executor 1 sample_executor_state
    (version_cache_new_inv _) (sample_no_collision _)) as H.
  change (executor_archive _ _ _) with (executed 1) in H. rewrite E in H.
  split; [exact E|]. split; [reflexivity|].
  split; [exact (proj1 (proj2 H))|]. vm_compute. reflexivity.
Defined.

Definition message_2 : ArchiveSendMsg := Eval vm_compute in
  default (block_model 0 0 sample_signed ∅, block_payload 0 sample_signed ∅)
    (head (archiver_send executed_2.2)).

Lemma executor_main_changes_witness :
  archiver_send (executed 2).2 = [message_2] ∧
  bp_main_changes message_2.2 !! "upgrade" = Some (Some "upgrade") ∧
  ∃ ch, bp_main_changes message_2.2 !! "upgrade" =
    snd <$> last (filter (λ kv, kv.1 = "upgrade") (main_storage_changes ch)).
Proof.
  assert (archiver_send (executed 2).2 = [message_2]) as E by (vm_compute; reflexivity).
  split; [exact E|]. split; [vm_compute; reflexivity|].
  destruct (executor_main_changes sample_executor 2 sample_executor_state
    message_2.1 message_2.2 "upgrade" (version_cache_new_inv _) (sample_no_collision _) E)
    as (sb & st & ch & _ & _ & _ & Hk).
  exists ch. exact Hk.
Defined.

(** A chain whose block 1 has a refused extrinsic. *)
Definition bad_db : ref_db := {|
  db_blocks := {[ 0%Z := sample_ref_block 0 0 0 [];
                  101%Z := sample_ref_block 1 1 0 ["bad"] ]};
  db_best := 101; db_finalized := 0; db_genesis := 0; db_aux := ∅ |}%Z.
Definition bad_executor : BlockExecutor := {|
  ex_client := bad_db; vc_backend := bad_db; archive_core := {| lb_backend := bad_db |}; genesis_top := ∅ |}.

Lemma executor_publishes_failed_block_witness :
  let '(r, s') := executor_archive bad_executor 1 sample_executor_state in
  r = Ok () ∧ comparer_send s' = [1%Z] ∧
  ∃ msg, archiver_send s' = [msg] ∧ bp_main_changes msg.2 = ∅.
Proof.
  pose proof (executor_publishes_failed_block bad_executor 1
    {| sb_block := new_block (sample_header 1 1 0) ["bad"]; sb_justifications := None |}
    [] (RuntimeApiError "bad") [] _ 1%Z sample_executor_state
    (version_cache_new_inv _) (sample_no_collision _)
    eq_refl eq_refl eq_refl eq_refl eq_refl) as H.
  destruct (executor_archive _ _ _) as [r s']. exact H.
Defined.
