(* ===== verification/Notifier.v ===== *)
(** * The archiver ([archive/notifier/src/notifier.rs])

    Receives the executor's messages and writes each block, preceded by the
    metadata of a version seen for the first time, to Postgres and then to
    Kafka.  Errors end the message they occur in and are dropped by [run]. *)

From S2P Require Import Prelude Chain Postgres Kafka VersionCache Reference BlockExecutor.

(** [to_string] of the two error types, and connecting the pool
    ([PostgresDb::new]). *)
Class ArchiveErrors := {
  sqlx_text : SqlxError → string;
  kafka_text : KafkaError → string;
}.

(** [PostgresConfig] ([postgres/src/config.rs]) *)
Record PostgresConfig := {
  pg_uri : string;
  min_connections : Z;
  max_connections : Z;
  connect_timeout : Z;
  idle_timeout : option Z;
  max_lifetime : option Z;
}.

(** [PgConnectOptions::from_str] and [connect_with]. *)
Class PgConnect := {
  parse_uri : string → option SqlxError;
  connect_with : PostgresConfig → option SqlxError;
}.

(** [PostgresDb::new] *)
Definition postgres_db_new `{PgConnect} (config : PostgresConfig) :
    outcome SqlxError PostgresConfig :=
  match parse_uri (pg_uri config) with
  | Some e => Err e
  | None =>
      match connect_with config with
      | Some e => Err e
      | None => Ok config
      end
  end.

Section notifier.
Context `{CT : ChainTypes, BT : BackendTypes, RT : RuntimeTypes, RA : !RuntimeApi,
  JT : JsonTypes, PG : PgService, KS : KafkaService, PJ : !PayloadJson,
  AE : ArchiveErrors}.

(** [Notifier], the parts that do not change. *)
Record Notifier := { nt_client : DB; nt_producer : KafkaProducer; nt_config : PostgresConfig }.

(** [Notifier::new]: the producer first, then the database. *)
Definition notifier_new `{PgConnect} (postgres : PostgresConfig) (kafka : KafkaConfig)
    (client : DB) : result Notifier :=
  let? producer := omap_err (λ e, Storage (kafka_text e)) (kafka_producer_new kafka) in
  let? postgres := omap_err (λ e, Storage (sqlx_text e)) (postgres_db_new postgres) in
  Ok {| nt_client := client; nt_producer := producer; nt_config := postgres |}.

(** What [archive] writes to. *)
Record NotifierState := { nt_db : PgState; nt_kafka : KafkaState }.

Definition with_db {A} (m : M SqlxError PgState A) : M SqlxError NotifierState A :=
  zoom nt_db (λ d s, {| nt_db := d; nt_kafka := nt_kafka s |}) m.
Definition with_kafka {A} (m : M KafkaError KafkaState A) : M KafkaError NotifierState A :=
  zoom nt_kafka (λ k s, {| nt_db := nt_db s; nt_kafka := k |}) m.

Definition storage_of_sqlx (e : SqlxError) : Error := Storage (sqlx_text e).
Definition storage_of_kafka (e : KafkaError) : Error := Storage (kafka_text e).

(** The call of the metadata API; an error panics. *)
Definition fetch_metadata (self : Notifier) (number : Z) : M Error NotifierState Bytes :=
  lift (unwrap (runtime_metadata (runtime_api (nt_client self)) (IdNumber number)).1
          "get metadata error").

(** The branch of [archive] taken when the version has no metadata. *)
Definition archive_metadata (self : Notifier) (block_model : BlockModel)
    (block_payload : BlockPayload) : M Error NotifierState unit :=
  let spec_version := bm_spec_version block_model in
  let number := bm_block_num block_model in
  let hash := bp_block_hash block_payload in
  let! metadata := fetch_metadata self number in
  let metadata_model := {| mm_spec_version := spec_version; mm_block_num := number;
                           mm_block_hash := hash_bytes hash; mm_meta := metadata |} in
  let metadata_payload := {| mp_spec_version := spec_version;
                             mp_block_num := bp_block_num block_payload;
                             mp_block_hash := hash; mp_meta := metadata |} in
  let! _ := catch_err storage_of_sqlx (with_db (db_insert metadata_model)) in
  catch_err storage_of_kafka (with_kafka (kafka_send (nt_producer self) metadata_payload)).

(** [Notifier::archive] *)
Definition notifier_archive (self : Notifier) (block_model : BlockModel)
    (block_payload : BlockPayload) : M Error NotifierState unit :=
  let spec_version := bm_spec_version block_model in
  let! exist_ := catch_err (λ _, BackendError "db")
    (with_db (check_if_metadata_exists spec_version)) in
  let! _ := if (exist_ : bool) then ret ()
            else archive_metadata self block_model block_payload in
  let! _ := catch_err storage_of_sqlx (with_db (db_insert block_model)) in
  catch_err storage_of_kafka (with_kafka (kafka_send (nt_producer self) block_payload)).

(** [Notifier::run] on the messages received: an error is dropped, a panic
    ends the task. *)
Fixpoint notifier_run (self : Notifier) (msgs : list ArchiveSendMsg) :
    M Error NotifierState unit :=
  match msgs with
  | [] => ret ()
  | (block_model, block_payload) :: msgs => λ s,
      match notifier_archive self block_model block_payload s with
      | (Panic p, s) => (Panic p, s)
      | (_, s) => notifier_run self msgs s
      end
  end.

(** A message whose two halves are of one block. *)
Definition wf_msg (m : ArchiveSendMsg) : Prop :=
  bm_block_num m.1 = bp_block_num m.2 ∧ bm_spec_version m.1 = bp_spec_version m.2 ∧
  is_u32 (bm_block_num m.1) ∧ is_u32 (bm_spec_version m.1).

(** ** The reliable case *)

Definition brokers_ack : Prop := ∀ n, delivery_fault n = Delivered.

(** The version and the number fit the tables. *)
Definition archivable (m : BlockModel) : Prop :=
  (0 ≤ bm_spec_version m ≤ 2147483647)%Z ∧ (0 ≤ bm_block_num m < 10000000)%Z.

#[export] Instance archivable_dec m : Decision (archivable m).
Proof. unfold archivable. apply _. Defined.

(** The metadata row [archive] inserts. *)
Definition metadata_model (model : BlockModel) (payload : BlockPayload) (meta : Bytes) :
    MetadataModel :=
  {| mm_spec_version := bm_spec_version model; mm_block_num := bm_block_num model;
     mm_block_hash := hash_bytes (bp_block_hash payload); mm_meta := meta |}.
Definition metadata_payload (model : BlockModel) (payload : BlockPayload) (meta : Bytes) :
    MetadataPayload :=
  {| mp_spec_version := bm_spec_version model; mp_block_num := bp_block_num payload;
     mp_block_hash := bp_block_hash payload; mp_meta := meta |}.

(** The abstract effect of one message on the tables. *)
Definition archived_tables (model : BlockModel) (payload : BlockPayload) (meta : Bytes)
    (t : PgTables) : PgTables :=
  let t := if decide (is_Some (metadatas t !! bm_spec_version model)) then t
           else set_metadatas (<[bm_spec_version model := metadata_model model payload meta]>
                                 (metadatas t)) t in
  set_blocks (<[bm_block_num model := model]> (blocks t)) t.

Lemma with_db_run {A} (m : M SqlxError PgState A) (f : SqlxError → Error) s :
  catch_err f (with_db m) s =
  (omap_err f (m (nt_db s)).1, {| nt_db := (m (nt_db s)).2; nt_kafka := nt_kafka s |}).
Proof. unfold catch_err, with_db, zoom. by destruct (m (nt_db s)). Qed.

Lemma with_kafka_run {A} (m : M KafkaError KafkaState A) (f : KafkaError → Error) s :
  catch_err f (with_kafka m) s =
  (omap_err f (m (nt_kafka s)).1, {| nt_db := nt_db s; nt_kafka := (m (nt_kafka s)).2 |}).
Proof. unfold catch_err, with_kafka, zoom. by destruct (m (nt_kafka s)). Qed.

Lemma with_db_step {A B} (m : M SqlxError PgState A) f (k : A → M Error NotifierState B)
    s a d :
  m (nt_db s) = (Ok a, d) →
  bind (catch_err f (with_db m)) k s = k a {| nt_db := d; nt_kafka := nt_kafka s |}.
Proof. intros Hm. unfold bind. by rewrite with_db_run, Hm. Qed.

Lemma with_kafka_step {A B} (m : M KafkaError KafkaState A) f
    (k : A → M Error NotifierState B) s a d :
  m (nt_kafka s) = (Ok a, d) →
  bind (catch_err f (with_kafka m)) k s = k a {| nt_db := nt_db s; nt_kafka := d |}.
Proof. intros Hm. unfold bind. by rewrite with_kafka_run, Hm. Qed.

Context {PL : PgLaws}.

Lemma check_exists_reliable v s :
  reliable → (0 ≤ v ≤ 2147483647)%Z →
  check_if_metadata_exists v s =
  (Ok (bool_decide (is_Some (metadatas (pg_tables s) !! v))), ticked (pg_tables s) s).
Proof.
  intros Hr Hv. unfold check_if_metadata_exists. rewrite reliable_request by done.
  unfold select_metadata_exists. by rewrite bind_u32_small.
Qed.

Lemma insert_metadata_reliable m s :
  reliable → (0 ≤ mm_spec_version m ≤ 2147483647)%Z →
  (0 ≤ mm_block_num m ≤ 2147483647)%Z →
  db_insert m s = (Ok 1%Z,
    ticked (set_metadatas (<[mm_spec_version m := m]> (metadatas (pg_tables s)))
              (pg_tables s)) s).
Proof.
  intros Hr Hv Hn. unfold db_insert, insert_model.
  rewrite (reliable_request _ (λ x, x)) by done. unfold execute; simpl.
  rewrite !bind_u32_small by done. simpl. rewrite (proj2 (Z.leb_le _ _)) by lia.
  by destruct m.
Qed.

Lemma insert_block_reliable m s :
  reliable → (0 ≤ bm_spec_version m ≤ 2147483647)%Z →
  (0 ≤ bm_block_num m < 10000000)%Z →
  is_Some (metadatas (pg_tables s) !! bm_spec_version m) →
  db_insert m s = (Ok 1%Z,
    ticked (set_blocks (<[bm_block_num m := m]> (blocks (pg_tables s))) (pg_tables s)) s).
Proof.
  intros Hr Hv Hn Hm. unfold db_insert, insert_model.
  rewrite (reliable_request _ (λ x, x)) by done. unfold execute; simpl.
  rewrite !bind_u32_small by lia. simpl.
  rewrite (proj2 (has_partition_range _)), (proj2 (block_num_check_range _)) by lia.
  rewrite bool_decide_true by done. simpl. by rewrite BlockModel_eta.
Qed.

Lemma producer_send_ack record s :
  brokers_ack → producer_send record s =
  (Ok (), {| k_log := k_log s ++ [record]; k_clock := S (k_clock s) |}).
Proof. intros Hk. unfold producer_send. by rewrite Hk. Qed.

(** The metadata branch when nothing fails. *)
Lemma archive_metadata_run (self : Notifier) (model : BlockModel) (payload : BlockPayload)
    (meta mtext : string) (s : NotifierState) :
  reliable → brokers_ack → archivable model →
  (runtime_metadata (runtime_api (nt_client self)) (IdNumber (bm_block_num model))).1 = Ok meta →
  json_metadata_payload (metadata_payload model payload meta) = Some mtext →
  ∃ s', archive_metadata self model payload s = (Ok (), s') ∧
    pg_tables (nt_db s') =
      set_metadatas (<[bm_spec_version model := metadata_model model payload meta]>
        (metadatas (pg_tables (nt_db s)))) (pg_tables (nt_db s)) ∧
    k_log (nt_kafka s') = k_log (nt_kafka s) ++
      [metadata_record (nt_producer self) mtext (bm_spec_version model)].
Proof.
  intros Hr Hk [Hv Hn] Hmeta Hmj. unfold archive_metadata, fetch_metadata.
  rewrite Hmeta. unfold unwrap. erewrite bind_step by done.
  erewrite with_db_step by (apply insert_metadata_reliable; [done|simpl; lia..]).
  rewrite with_kafka_run, (send_metadata_run _ _ mtext), producer_send_ack by done.
  eexists. split; [done|]. by simpl.
Qed.

(** What one archivable message does when nothing fails. *)
Lemma notifier_archive_run (self : Notifier) (model : BlockModel) (payload : BlockPayload)
    (meta mtext btext : string) (s : NotifierState) :
  reliable → brokers_ack → archivable model →
  (runtime_metadata (runtime_api (nt_client self)) (IdNumber (bm_block_num model))).1 = Ok meta →
  json_metadata_payload (metadata_payload model payload meta) = Some mtext →
  json_block_payload payload = Some btext →
  ∃ s', notifier_archive self model payload s = (Ok (), s') ∧
    pg_tables (nt_db s') = archived_tables model payload meta (pg_tables (nt_db s)) ∧
    k_log (nt_kafka s') = k_log (nt_kafka s) ++
      (if decide (is_Some (metadatas (pg_tables (nt_db s)) !! bm_spec_version model)) then []
       else [metadata_record (nt_producer self) mtext (bm_spec_version model)]) ++
      [block_record (nt_producer self) btext (bp_block_num payload)].
Proof.
  intros Hr Hk Ha Hmeta Hmj Hbj. pose proof Ha as [Hv Hn].
  unfold notifier_archive, archived_tables.
  erewrite with_db_step by (by apply check_exists_reliable).
  set (s1 := {| nt_db := _; nt_kafka := _ |}).
  assert (∃ s2, (if bool_decide (is_Some (metadatas (pg_tables (nt_db s)) !! bm_spec_version model))
      then ret () else archive_metadata self model payload) s1 = (Ok (), s2) ∧
    pg_tables (nt_db s2) =
      (if decide (is_Some (metadatas (pg_tables (nt_db s)) !! bm_spec_version model))
       then pg_tables (nt_db s)
       else set_metadatas (<[bm_spec_version model := metadata_model model payload meta]>
         (metadatas (pg_tables (nt_db s)))) (pg_tables (nt_db s))) ∧
    k_log (nt_kafka s2) = k_log (nt_kafka s) ++
      (if decide (is_Some (metadatas (pg_tables (nt_db s)) !! bm_spec_version model)) then []
       else [metadata_record (nt_producer self) mtext (bm_spec_version model)]) ∧
    is_Some (metadatas (pg_tables (nt_db s2)) !! bm_spec_version model))
    as (s2 & Hs2 & Ht2 & Hl2 & Hsome).
  { case_bool_decide as Hd; [rewrite !decide_True by done|rewrite !decide_False by done].
    - exists s1. rewrite app_nil_r. done.
    - destruct (archive_metadata_run self model payload meta mtext s1)
        as (s2 & -> & Ht & Hl); [done..|].
      exists s2. split_and!; [done..|]. rewrite Ht. simpl.
      rewrite lookup_insert_eq. by eexists. }
  rewrite (bind_step _ _ _ _ _ Hs2).
  erewrite with_db_step by (by apply insert_block_reliable).
  rewrite with_kafka_run, (send_block_run _ _ btext), producer_send_ack by done.
  eexists. split; [done|]. simpl. rewrite Ht2, Hl2, <- app_assoc.
  split; [|done]. by case_decide.
Qed.

(** ** Any behaviour of the two services *)

(** A record of the log that a row of the tables accounts for. *)
Definition supported (p : KafkaProducer) (t : PgTables) (r : FutureRecord) : Prop :=
  (∃ text v, r = metadata_record p text v ∧ is_Some (metadatas t !! v)) ∨
  (∃ text n, r = block_record p text n ∧ is_Some (blocks t !! n)).

Lemma supported_grows p t t' r : grows t t' → supported p t r → supported p t' r.
Proof. unfold supported. intros [H1 H2]. naive_solver. Qed.

(** The invariant: well-formed tables, and every record is an old one or
    supported. *)
Definition log_inv (p : KafkaProducer) (log : list FutureRecord) (s : NotifierState) : Prop :=
  pg_wf (nt_db s) ∧
  ∀ r, r ∈ k_log (nt_kafka s) → r ∈ log ∨ supported p (pg_tables (nt_db s)) r.

Lemma log_inv_db p log op s :
  log_inv p log s →
  log_inv p log {| nt_db := run_pg_op op (nt_db s); nt_kafka := nt_kafka s |}.
Proof.
  intros [Hwf Hl]. split; [by apply run_pg_op_wf|]. intros r Hr.
  destruct (Hl r Hr); [by left|right]. eapply supported_grows; [|done].
  apply run_pg_op_grows.
Qed.

Lemma log_inv_send p log record s :
  log_inv p log s → supported p (pg_tables (nt_db s)) record →
  log_inv p log {| nt_db := nt_db s; nt_kafka := (producer_send record (nt_kafka s)).2 |}.
Proof.
  intros [Hwf Hl] Hs. split; [done|]. simpl. intros r Hr.
  destruct (producer_send_log record (nt_kafka s)) as [Hp|Hp]; rewrite Hp in Hr; auto.
  apply elem_of_app in Hr as [Hr|Hr%list_elem_of_singleton]; subst; auto.
Qed.

(** Sending a payload: at most its record is sent. *)
Lemma send_metadata_cases producer p s :
  (∃ msg, kafka_send producer p s = (Panic msg, s)) ∨
  (∃ text, kafka_send producer p s =
    producer_send (metadata_record producer text (mp_spec_version p)) s).
Proof.
  destruct (json_metadata_payload p) as [text|] eqn:Hj.
  - right. exists text. by apply send_metadata_run.
  - left. unfold kafka_send, send_payload, send_metadata_payload, bind, lift.
    rewrite Hj. by eexists.
Qed.

Lemma send_block_cases producer p s :
  (∃ msg, kafka_send producer p s = (Panic msg, s)) ∨
  (∃ text, kafka_send producer p s =
    producer_send (block_record producer text (bp_block_num p)) s).
Proof.
  destruct (json_block_payload p) as [text|] eqn:Hj.
  - right. exists text. by apply send_block_run.
  - left. unfold kafka_send, send_payload, send_block_payload, bind, lift.
    rewrite Hj. by eexists.
Qed.

(** ** Invariants of [archive] and [run]

    An invariant [I] that the database calls keep, and the Kafka sends keep
    once the row they announce is stored, is kept by [archive] and [run]. *)
Section invariant.
Context (self : Notifier) (I : NotifierState → Prop).
Context (I_wf : ∀ s, I s → pg_wf (nt_db s)).
Context (I_db : ∀ op s, I s →
  I {| nt_db := run_pg_op op (nt_db s); nt_kafka := nt_kafka s |}).
Context (I_block : ∀ text n s, I s → is_Some (blocks (pg_tables (nt_db s)) !! n) →
  I {| nt_db := nt_db s;
       nt_kafka := (producer_send (block_record (nt_producer self) text n) (nt_kafka s)).2 |}).
Context (model : BlockModel) (payload : BlockPayload) (Hmsg : wf_msg (model, payload)).
Definition keeps_metadata : Prop := ∀ text s, I s →
  is_Some (metadatas (pg_tables (nt_db s)) !! bm_spec_version model) →
  I {| nt_db := nt_db s;
       nt_kafka := (producer_send
         (metadata_record (nt_producer self) text (bm_spec_version model)) (nt_kafka s)).2 |}.
Context (I_metadata : ∀ s d, I s →
  check_if_metadata_exists (bm_spec_version model) (nt_db s) = (Ok false, d) →
  keeps_metadata).

Lemma archive_metadata_keeps s : keeps_metadata → I s → I (archive_metadata self model payload s).2.
Proof.
  intros Hkeep Hs. unfold archive_metadata, fetch_metadata.
  destruct (runtime_metadata _ _) as [[meta|e|p] api]; [|done..].
  cbn [unwrap fst]. erewrite bind_step by done.
  unfold bind. rewrite with_db_run.
  set (m := Build_MetadataModel _ _ _ _).
  pose proof (I_db (PgInsertMetadata m) s Hs) as H1. cbn [run_pg_op] in H1.
  destruct (db_insert m (nt_db s)) as [[r|e|p] d] eqn:Hi; cbn [omap_err fst snd] in *;
    [|done..].
  rewrite with_kafka_run. cbn [nt_kafka nt_db].
  destruct (send_metadata_cases (nt_producer self)
    (Build_MetadataPayload (bm_spec_version model) (bp_block_num payload)
       (bp_block_hash payload) meta) (nt_kafka s)) as [[msg ->]|[text ->]]; [done|].
  apply (Hkeep text _ H1). cbn [nt_db].
  apply (insert_metadata_Ok m (nt_db s) r d); [|done]. by destruct Hmsg as (_&_&_&?).
Qed.

Lemma notifier_archive_keeps s : I s → I (notifier_archive self model payload s).2.
Proof.
  intros Hs. unfold notifier_archive, bind at 1. rewrite with_db_run.
  pose proof (I_db (PgCheckMetadata (bm_spec_version model)) s Hs) as H1.
  cbn [run_pg_op] in H1.
  destruct (check_if_metadata_exists _ _) as [[ex|e|p] d] eqn:Hc; cbn [omap_err fst snd] in *;
    [|done..].
  unfold bind at 1.
  assert (I ((if ex then ret () else archive_metadata self model payload)
    {| nt_db := d; nt_kafka := nt_kafka s |}).2) as H2
    by (destruct ex; [done|apply archive_metadata_keeps; eauto]).
  destruct ((if ex then ret () else _) _) as [[[]|e|p] s2]; [|done..]. cbn [snd] in H2.
  unfold bind. rewrite with_db_run.
  pose proof (I_db (PgInsertBlock model) s2 H2) as H3. cbn [run_pg_op] in H3.
  destruct (db_insert model (nt_db s2)) as [[r|e|p] d2] eqn:Hi; cbn [omap_err fst snd] in *;
    [|done..].
  rewrite with_kafka_run. cbn [nt_kafka nt_db].
  destruct (send_block_cases (nt_producer self) payload (nt_kafka s2))
    as [[msg ->]|[text ->]]; [done|].
  apply (I_block text _ _ H3). cbn [nt_db].
  destruct Hmsg as (Hn&_&?&?). cbn [fst snd] in *. rewrite <- Hn.
  apply (insert_block_Ok model (nt_db s2) r d2); auto.
Qed.
End invariant.

(** [run] keeps what [archive] keeps. *)
Lemma notifier_run_keeps (self : Notifier) (I : NotifierState → Prop) msgs s :
  (∀ model payload s, (model, payload) ∈ msgs → I s →
     I (notifier_archive self model payload s).2) →
  I s → I (notifier_run self msgs s).2.
Proof.
  revert s. induction msgs as [|[model payload] msgs IH]; intros s Hk Hs; simpl; [done|].
  assert (I (notifier_archive self model payload s).2) as H1 by (apply Hk; [by left|done]).
  destruct (notifier_archive self model payload s) as [[u|e|p] s1]; simpl in *;
    try done; apply IH; auto; intros m q s' Hin; apply Hk; by right.
Qed.

Lemma notifier_archive_log_inv self log model payload s :
  wf_msg (model, payload) → log_inv (nt_producer self) log s →
  log_inv (nt_producer self) log (notifier_archive self model payload s).2.
Proof.
  intros Hmsg. apply notifier_archive_keeps; try done.
  - by intros s' [].
  - intros op s'. apply log_inv_db.
  - intros text n s' Hs Hn. apply log_inv_send; [done|]. right. eauto.
  - intros _ _ _ _ text s' Hs Hv. apply log_inv_send; [done|]. left. eauto.
Qed.

(** Once a version has metadata, no record announces it again. *)
Definition silent (p : KafkaProducer) (v : Z) (log : list FutureRecord)
    (s : NotifierState) : Prop :=
  pg_wf (nt_db s) ∧ is_Some (metadatas (pg_tables (nt_db s)) !! v) ∧
  ∀ text, metadata_record p text v ∈ k_log (nt_kafka s) → metadata_record p text v ∈ log.

Lemma silent_send p v log record s :
  silent p v log s → (∀ text, record ≠ metadata_record p text v) →
  silent p v log
    {| nt_db := nt_db s; nt_kafka := (producer_send record (nt_kafka s)).2 |}.
Proof.
  intros (Hwf & Hv & Hl) Hr. split_and!; [done..|]. simpl. intros text Ht.
  destruct (producer_send_log record (nt_kafka s)) as [Hp|Hp]; rewrite Hp in Ht; auto.
  apply elem_of_app in Ht as [Ht|Ht%list_elem_of_singleton]; auto. by destruct (Hr text).
Qed.

Lemma notifier_archive_silent self v log model payload s :
  reliable → wf_msg (model, payload) → (0 ≤ v ≤ 2147483647)%Z →
  topic_metadata (kafka_topic (producer_config (nt_producer self))) ≠
    topic_block (kafka_topic (producer_config (nt_producer self))) →
  silent (nt_producer self) v log s →
  silent (nt_producer self) v log (notifier_archive self model payload s).2.
Proof.
  intros Hr Hmsg Hrange Htop. apply notifier_archive_keeps; try done.
  - by intros s' [].
  - intros op s' (Hwf & Hv & Hl). split_and!; [by apply run_pg_op_wf| |done].
    by apply (run_pg_op_grows op (nt_db s')).
  - intros text n s' Hs _. apply silent_send; [done|].
    intros text' [= Ht _ _]. congruence.
  - intros s' d (_ & Hv & _) Hc text s'' Hs _.
    destruct (decide (bm_spec_version model = v)) as [<-|Hne].
    + rewrite check_exists_reliable in Hc by done.
      rewrite bool_decide_true in Hc by done. done.
    + apply silent_send; [done|]. intros text' [= _ Hp]. by apply (inj pretty) in Hp.
Qed.

(** An insert changes the tables as its statement does, or not at all. *)
Lemma db_insert_preserves `{!InsertModel A} (I : PgTables → Prop) (m : A) s :
  (∀ r t', execute (gen_query m) (pg_tables s) = Ok (r, t') → I t') →
  I (pg_tables s) → I (pg_tables (db_insert m s).2).
Proof.
  intros Hex Hs. unfold db_insert, insert_model, bind, conn, run_statement, ret.
  destruct (acquire_fault _); [done|]. simpl.
  destruct (execute (gen_query m) (pg_tables s)) as [[r t]| |], (stmt_fault _);
    simpl; eauto.
Qed.

Lemma check_exists_tables v s : pg_tables (check_if_metadata_exists v s).2 = pg_tables s.
Proof.
  unfold check_if_metadata_exists, bind, conn, run_statement, ret.
  destruct (acquire_fault _); [done|]. simpl.
  destruct (select_metadata_exists v (pg_tables s)) as [[r t]| |] eqn:Hx, (stmt_fault _);
    simpl; try done; by apply select_metadata_exists_pure in Hx.
Qed.

Lemma insert_block_dropped (m : BlockModel) s :
  pg_wf s → is_u32 (bm_spec_version m) → is_u32 (bm_block_num m) →
  (10000000 ≤ bm_block_num m)%Z →
  (∀ r, (db_insert m s).1 ≠ Ok r) ∧ pg_tables (db_insert m s).2 = pg_tables s.
Proof.
  intros Hwf Hv Hn Hbig.
  destruct (execute_insert_block (pg_tables s) m Hwf Hv Hn) as [[[? _] _]|[_ [e Hx]]]; [lia|].
  split.
  - intros r Hr. destruct (db_insert m s) as [r' s'] eqn:Hi. simpl in Hr. subst.
    apply db_insert_Ok in Hi. congruence.
  - apply (db_insert_preserves (λ t, t = pg_tables s)); [|done]. congruence.
Qed.

Lemma archive_metadata_effect self model payload s :
  pg_wf (nt_db s) →
  let '(r, s') := archive_metadata self model payload s in
  pg_wf (nt_db s') ∧ blocks (pg_tables (nt_db s')) = blocks (pg_tables (nt_db s)) ∧
  (k_log (nt_kafka s') = k_log (nt_kafka s) ∨
   ∃ text, k_log (nt_kafka s') = k_log (nt_kafka s) ++
     [metadata_record (nt_producer self) text (bm_spec_version model)]).
Proof.
  intros Hwf. unfold archive_metadata, fetch_metadata.
  destruct (runtime_metadata _ _) as [[meta|e|p] api]; [|by simpl; auto..].
  cbn [unwrap fst]. erewrite bind_step by done. unfold bind. rewrite with_db_run.
  set (m := Build_MetadataModel _ _ _ _).
  pose proof (run_pg_op_wf (PgInsertMetadata m) _ Hwf) as Hwf'. cbn [run_pg_op] in Hwf'.
  assert (blocks (pg_tables (db_insert m (nt_db s)).2) = blocks (pg_tables (nt_db s))) as Hb.
  { apply (db_insert_preserves (λ t, blocks t = blocks (pg_tables (nt_db s)))); [|done].
    intros r t'. unfold execute; simpl.
    destruct (bind_u32 _), (bind_u32 _); simpl; try done. case_match; [|done].
    by intros [= _ <-]. }
  destruct (db_insert m (nt_db s)) as [[r|e|p] d]; cbn [omap_err fst snd] in *;
    [|by simpl; auto..].
  rewrite with_kafka_run. cbn [nt_kafka nt_db].
  destruct (send_metadata_cases (nt_producer self)
    (Build_MetadataPayload (bm_spec_version model) (bp_block_num payload)
       (bp_block_hash payload) meta) (nt_kafka s)) as [[msg ->]|[text ->]]; [by auto|].
  split_and!; [done..|]. cbn [nt_kafka snd].
  destruct (producer_send_log (metadata_record (nt_producer self) text
    (bm_spec_version model)) (nt_kafka s)); eauto.
Qed.

(** ** Properties *)

(** C8. When neither service fails, archiving a block of a number below ten
    million stores its row (replacing an earlier one for the number) and leaves
    every other block alone; the version has metadata afterwards, the row it
    had before if it had one; and Kafka receives, in this order, the metadata
    record only if the version had no metadata, then the block record.
    Archiving the same message again changes no table and repeats only the
    block record. *)
Theorem notifier_archive_reliable (self : Notifier) (model : BlockModel)
    (payload : BlockPayload) (meta mtext btext : string) (s : NotifierState) :
  reliable → brokers_ack → archivable model →
  (runtime_metadata (runtime_api (nt_client self)) (IdNumber (bm_block_num model))).1 = Ok meta →
  json_metadata_payload (metadata_payload model payload meta) = Some mtext →
  json_block_payload payload = Some btext →
  let tables s := pg_tables (nt_db s) in
  let log s := k_log (nt_kafka s) in
  let block := block_record (nt_producer self) btext (bp_block_num payload) in
  let v := bm_spec_version model in
  ∃ s1 s2, notifier_archive self model payload s = (Ok (), s1) ∧
    notifier_archive self model payload s1 = (Ok (), s2) ∧
    blocks (tables s1) = <[bm_block_num model := model]> (blocks (tables s)) ∧
    (∀ w, metadatas (tables s1) !! w =
       if decide (w = v ∧ metadatas (tables s) !! w = None)
       then Some (metadata_model model payload meta) else metadatas (tables s) !! w) ∧
    finalized_row (tables s1) = finalized_row (tables s) ∧
    log s1 = log s ++
      (if decide (metadatas (tables s) !! v = None)
       then [metadata_record (nt_producer self) mtext v; block] else [block]) ∧
    tables s2 = tables s1 ∧ log s2 = log s1 ++ [block].
Proof.
  cbv zeta. intros Hr Hk Ha Hmeta Hmj Hbj.
  destruct (notifier_archive_run self model payload meta mtext btext s)
    as (s1 & H1 & Ht1 & Hl1); [done..|].
  destruct (notifier_archive_run self model payload meta mtext btext s1)
    as (s2 & H2 & Ht2 & Hl2); [done..|].
  exists s1, s2. split_and!; [done|done|..].
  - rewrite Ht1. unfold archived_tables. by destruct (decide _).
  - intros w. rewrite Ht1. unfold archived_tables.
    destruct (decide (is_Some _)) as [[m Hm]|Hn%eq_None_not_Some]; simpl.
    + by rewrite decide_False by (intros [-> ?]; congruence).
    + destruct (decide (w = bm_spec_version model)) as [->|Hne].
      * rewrite decide_True by done. by rewrite lookup_insert_eq.
      * rewrite decide_False by tauto. by rewrite lookup_insert_ne.
  - rewrite Ht1. unfold archived_tables. by destruct (decide _).
  - rewrite Hl1.
    destruct (decide (is_Some _)) as [[m Hm]|Hn%eq_None_not_Some].
    + by rewrite decide_False by congruence.
    + by rewrite decide_True.
  - rewrite Ht2, Ht1. unfold archived_tables.
    rewrite (decide_True (P := is_Some (metadatas (set_blocks _ _) !! _))).
    + unfold set_blocks; simpl. by rewrite insert_insert_eq.
    + destruct (decide _); [done|]. simpl. rewrite lookup_insert_eq. by eexists.
  - rewrite Hl2, Ht1. unfold archived_tables.
    rewrite decide_True; [done|]. destruct (decide _); [done|]. simpl.
    rewrite lookup_insert_eq. by eexists.
Qed.

(** Database before Kafka, under any faults: whatever connections,
    statements and deliveries fail during a run (and wherever it panics),
    every record that the run adds to the topics is the record of a block
    whose row is in [blocks] at the end, or of a version whose row is in
    [metadatas]. *)
Theorem kafka_never_ahead_of_db (self : Notifier) (msgs : list ArchiveSendMsg)
    (s : NotifierState) (r : FutureRecord) :
  pg_wf (nt_db s) → Forall wf_msg msgs →
  let s' := (notifier_run self msgs s).2 in
  r ∈ k_log (nt_kafka s') →
  r ∈ k_log (nt_kafka s) ∨
  (∃ text v, r = metadata_record (nt_producer self) text v ∧
     is_Some (metadatas (pg_tables (nt_db s')) !! v)) ∨
  (∃ text n, r = block_record (nt_producer self) text n ∧
     is_Some (blocks (pg_tables (nt_db s')) !! n)).
Proof.
  intros Hwf Hm s' Hr.
  assert (log_inv (nt_producer self) (k_log (nt_kafka s)) s') as [_ Hl];
    [|by apply Hl].
  apply notifier_run_keeps.
  - intros model payload s0 Hin. apply notifier_archive_log_inv.
    by rewrite Forall_forall in Hm; apply (Hm (model, payload)).
  - split; [done|]. auto.
Qed.

(** C37. A delivery failure loses a version's metadata for good: if the metadata
    row is stored but the broker never takes its record, the block at hand is
    not archived at all, and no later run, however long, publishes metadata
    for that version again (the next [check_if_metadata_exists] answers
    [true]). *)
Theorem metadata_record_lost (self : Notifier) (model : BlockModel)
    (payload : BlockPayload) (meta mtext : string) (e : KafkaError) (s : NotifierState)
    (msgs : list ArchiveSendMsg) :
  let v := bm_spec_version model in
  reliable → pg_wf (nt_db s) → archivable model → Forall wf_msg msgs →
  topic_metadata (kafka_topic (producer_config (nt_producer self))) ≠
    topic_block (kafka_topic (producer_config (nt_producer self))) →
  metadatas (pg_tables (nt_db s)) !! v = None →
  (runtime_metadata (runtime_api (nt_client self)) (IdNumber (bm_block_num model))).1 = Ok meta →
  json_metadata_payload (metadata_payload model payload meta) = Some mtext →
  delivery_fault (k_clock (nt_kafka s)) = NotDelivered e →
  let '(r, s1) := notifier_archive self model payload s in
  r = Err (Storage (kafka_text e)) ∧
  blocks (pg_tables (nt_db s1)) = blocks (pg_tables (nt_db s)) ∧
  k_log (nt_kafka s1) = k_log (nt_kafka s) ∧
  ∀ text, metadata_record (nt_producer self) text v ∈
      k_log (nt_kafka (notifier_run self msgs s1).2) →
    metadata_record (nt_producer self) text v ∈ k_log (nt_kafka s).
Proof.
  intros v Hr Hwf [Hv Hn] Hm Htop Habs Hmeta Hmj Hk. unfold notifier_archive.
  erewrite with_db_step by (by apply check_exists_reliable).
  rewrite bool_decide_false by (fold v; rewrite Habs; by intros []).
  unfold archive_metadata, fetch_metadata. rewrite Hmeta. unfold unwrap.
  unfold bind at 1. erewrite bind_step by done.
  erewrite with_db_step by (apply insert_metadata_reliable; [done|simpl; lia..]).
  rewrite with_kafka_run, (send_metadata_run _ _ mtext) by done.
  unfold producer_send. cbn [nt_kafka nt_db]. rewrite Hk. cbn [omap_err fst snd].
  split_and!; [done..|]. intros text.
  set (s1 := {| nt_db := _; nt_kafka := _ |}).
  assert (silent (nt_producer self) v (k_log (nt_kafka s)) (notifier_run self msgs s1).2)
    as (_ & _ & Hl); [|apply Hl].
  apply notifier_run_keeps.
  - intros m p s0 Hin. apply notifier_archive_silent; try done.
    by rewrite Forall_forall in Hm; apply (Hm (m, p)).
  - split_and!; simpl; [|rewrite lookup_insert_eq; by eexists|done].
    pose proof (run_pg_op_wf (PgInsertMetadata (metadata_model model payload meta)) (nt_db s) Hwf)
      as H. cbn [run_pg_op] in H.
    rewrite insert_metadata_reliable in H by (simpl; done || lia). exact H.
Qed.

(** C38. A block of number ten million or above is never archived: whatever the
    services do, its message ends in an error or a panic, no block row
    changes, and no record but one of its version's metadata is added.  The
    error is dropped by [run], while the executor has already asked for the
    next block. *)
Theorem block_beyond_partitions_dropped (self : Notifier) (model : BlockModel)
    (payload : BlockPayload) (s : NotifierState) :
  pg_wf (nt_db s) → wf_msg (model, payload) → (10000000 ≤ bm_block_num model)%Z →
  let '(r, s') := notifier_archive self model payload s in
  r ≠ Ok () ∧ blocks (pg_tables (nt_db s')) = blocks (pg_tables (nt_db s)) ∧
  (k_log (nt_kafka s') = k_log (nt_kafka s) ∨
   ∃ text, k_log (nt_kafka s') = k_log (nt_kafka s) ++
     [metadata_record (nt_producer self) text (bm_spec_version model)]).
Proof.
  intros Hwf (_ & _ & Hn & Hv) Hbig. cbn [fst] in *. unfold notifier_archive, bind at 1.
  rewrite with_db_run. pose proof (check_exists_tables (bm_spec_version model) (nt_db s)) as Ht.
  destruct (check_if_metadata_exists _ _) as [[ex|e|p] d]; cbn [omap_err fst snd] in *;
    [|by simpl; rewrite Ht; auto..].
  set (s1 := {| nt_db := d; nt_kafka := nt_kafka s |}).
  assert (pg_wf (nt_db s1)) as Hwf1 by (unfold pg_wf; simpl; by rewrite Ht).
  pose proof (archive_metadata_effect self model payload s1 Hwf1) as Hmeta.
  unfold bind at 1. destruct ((if ex then ret () else _) s1) as [r s2] eqn:Hr.
  assert (pg_wf (nt_db s2) ∧ blocks (pg_tables (nt_db s2)) = blocks (pg_tables (nt_db s)) ∧
    (k_log (nt_kafka s2) = k_log (nt_kafka s) ∨
     ∃ text, k_log (nt_kafka s2) = k_log (nt_kafka s) ++
       [metadata_record (nt_producer self) text (bm_spec_version model)]))
    as (Hwf2 & Hb2 & Hl2).
  { destruct ex; [injection Hr as <- <-; simpl; rewrite Ht; by auto|].
    rewrite Hr in Hmeta. cbn [s1 nt_db nt_kafka] in Hmeta. by rewrite <- Ht. }
  destruct r as [[]|e|p]; [|by simpl; auto..].
  unfold bind. rewrite with_db_run.
  destruct (insert_block_dropped model (nt_db s2) Hwf2 Hv Hn Hbig) as [Hno Htab].
  destruct (db_insert model (nt_db s2)) as [[r|e|p] d2]; cbn [omap_err fst snd] in *;
    [by destruct (Hno r)|..]; cbn [nt_db nt_kafka]; by rewrite Htab.
Qed.
End notifier.

(** ** Witnesses *)

#[local] Existing Instance ref_chain.
#[local] Existing Instance ref_types.
#[local] Existing Instance ref_backend.
#[local] Existing Instance ref_runtime_types.
#[local] Existing Instance ref_runtime_api.
#[local] Existing Instance ref_json.
#[local] Existing Instance ref_payload_json.

Definition errors_reference : ArchiveErrors :=
  {| sqlx_text _ := "sqlx"; kafka_text _ := "kafka" |}.
#[local] Existing Instance errors_reference.
#[local] Existing Instance pg_reference.

Definition sample_notifier : Notifier := {|
  nt_client := sample_db; nt_producer := sample_producer;
  nt_config := {| pg_uri := "postgres://"; min_connections := 1; max_connections := 2;
                  connect_timeout := 30; idle_timeout := None; max_lifetime := None |} |}.

Definition sample_model (n : Z) : BlockModel := {|
  bm_spec_version := 1; bm_block_num := n; bm_block_hash := "101"; bm_parent_hash := "0";
  bm_state_root := "1"; bm_extrinsics_root := "0"; bm_digest := "seal";
  bm_extrinsics := ["a"]; bm_justifications := None;
  bm_main_changes := {["a" := Some "a"]}; bm_child_changes := ∅ |}.

Definition notifier_start : NotifierState :=
  {| nt_db := pg_start empty_tables; nt_kafka := kafka_start |}.

(** A broker that refuses the first delivery only. *)
Definition kafka_first_fails : KafkaService :=
  {| create_producer _ := None;
     delivery_fault n := if decide (n = 0) then NotDelivered (Delivery 0) else Delivered |}.

Lemma sample_wf_msg n : is_u32 n → wf_msg (sample_model n, sample_payload n).
Proof. intros Hn. split_and!; try done. Defined.

Lemma notifier_archive_reliable_witness :
  ∃ s1, notifier_archive (KS := kafka_reference) sample_notifier (sample_model 1)
      (sample_payload 1) notifier_start = (Ok (), s1) ∧
    (r_payload <$> k_log (nt_kafka s1)) = ["metadata 1"; "block 1"].
Proof.
  destruct (notifier_archive_reliable (KS := kafka_reference) (PL := reference_laws)
    sample_notifier (sample_model 1) (sample_payload 1) "meta" "metadata 1" "block 1"
    notifier_start reference_reliable (λ n, eq_refl)) as (s1 & s2 & H1 & _ & _ & _ & _ & Hl & _).
  - split; simpl; lia.
  - reflexivity.
  - reflexivity.
  - reflexivity.
  - exists s1. split; [exact H1|]. rewrite Hl. reflexivity.
Defined.

Lemma kafka_never_ahead_of_db_witness :
  let s' := (notifier_run (KS := kafka_first_fails) sample_notifier
    [(sample_model 1, sample_payload 1); (sample_model 2, sample_payload 2)]
    notifier_start).2 in
  (r_payload <$> k_log (nt_kafka s')) = ["block 2"] ∧
  is_Some (blocks (pg_tables (nt_db s')) !! 2%Z).
Proof.
  intros s'.
  assert (k_log (nt_kafka s') = [block_record sample_producer "block 2" 2]) as Hl
    by (vm_compute; reflexivity).
  split; [by rewrite Hl|].
  destruct (kafka_never_ahead_of_db (KS := kafka_first_fails) (PL := reference_laws)
    sample_notifier [(sample_model 1, sample_payload 1); (sample_model 2, sample_payload 2)]
    notifier_start (block_record sample_producer "block 2" 2))
    as [H|[(text & v & [=] & _)|(text & n & H & Hn)]].
  - apply empty_tables_wf.
  - repeat constructor; try (unfold is_u32, u32_max; simpl; lia).
  - fold s'. rewrite Hl. by left.
  - by apply elem_of_nil in H.
  - injection H as Ht Hp. apply (inj pretty 2%Z n) in Hp. subst n. exact Hn.
Defined.

Lemma metadata_record_lost_witness :
  let '(r, s1) := notifier_archive (KS := kafka_first_fails) sample_notifier
    (sample_model 1) (sample_payload 1) notifier_start in
  r = Err (Storage "kafka") ∧ k_log (nt_kafka s1) = [] ∧
  ∀ text, metadata_record sample_producer text 1 ∉
    k_log (nt_kafka (notifier_run (KS := kafka_first_fails) sample_notifier
      [(sample_model 2, sample_payload 2)] s1).2).
Proof.
  pose proof (metadata_record_lost (KS := kafka_first_fails) (PL := reference_laws)
    sample_notifier (sample_model 1) (sample_payload 1) "meta" "metadata 1" (Delivery 0)
    notifier_start [(sample_model 2, sample_payload 2)] reference_reliable) as H.
  destruct (notifier_archive _ _ _ _) as [r s1].
  destruct H as (Hr & _ & Hl & H); try reflexivity.
  - apply empty_tables_wf.
  - split; simpl; lia.
  - repeat constructor; try (unfold is_u32, u32_max; simpl; lia).
  - discriminate.
  - split_and!; [exact Hr|exact Hl|]. intros text Ht%H. by apply elem_of_nil in Ht.
Defined.

Lemma block_beyond_partitions_dropped_witness :
  let '(r, s') := notifier_archive (KS := kafka_reference) sample_notifier
    (sample_model 10000000) (sample_payload 10000000) notifier_start in
  r ≠ Ok () ∧ blocks (pg_tables (nt_db s')) = ∅.
Proof.
  pose proof (block_beyond_partitions_dropped (KS := kafka_reference)
    (PL := reference_laws) sample_notifier (sample_model 10000000)
    (sample_payload 10000000) notifier_start) as H.
  destruct (notifier_archive _ _ _ _) as [r s'].
  destruct H as (Hr & Hb & _).
  - apply empty_tables_wf.
  - split_and!; try done.
  - simpl; lia.
  - split; [exact Hr|exact Hb].
Defined.
