(* ===== verification/Ring.v ===== *)
(** * The round of the block number

    What the archive's tasks promise to one another, without their data: one
    number goes round from the initializer to the executor, the comparer and
    its timer, and every number the executor answers is handed to the archiver.
    [Interleaving.v] proves that the tasks of [Pipeline.v] refine this, at
    every interleaving of their accesses; it models no code by itself. *)

From S2P Require Import Prelude.

(** Each number is its predecessor or the next one. *)
Definition contiguous (l : list Z) : Prop :=
  adjacent (λ a b, b = a ∨ b = (a + 1)%Z) l.

(** A contiguous list holds every number from its first one to any other. *)
Lemma contiguous_covers l h : contiguous l → head l = Some h →
  ∀ i x, l !! i = Some x → (h ≤ x)%Z ∧ ∀ k, (h ≤ k ≤ x)%Z → k ∈ l.
Proof.
  intros Hc Hh. induction i as [|i IH]; intros x Hx.
  - rewrite head_lookup in Hh. assert (x = h) as -> by congruence. split; [lia|].
    intros k Hk. assert (k = h) as -> by lia. by eapply list_elem_of_lookup_2.
  - destruct (l !! i) as [y|] eqn:Hy;
      [|apply lookup_ge_None in Hy; apply lookup_lt_Some in Hx; lia].
    destruct (IH y eq_refl) as [Hle Hall]. pose proof (Hc i y x Hy Hx) as Hyx. simpl in Hyx. split; [lia|].
    intros k Hk. destruct (decide (k ≤ y)%Z); [apply Hall; lia|].
    assert (k = x) as -> by lia. by eapply list_elem_of_lookup_2.
Qed.

Lemma contiguous_app_l l1 l2 : contiguous (l1 ++ l2) → contiguous l1.
Proof. intros H i a b Ha Hb. apply (H i a b); by apply lookup_app_l_Some. Qed.

Lemma contiguous_app_r l1 l2 : contiguous (l1 ++ l2) → contiguous l2.
Proof.
  intros H i a b Ha Hb.
  apply (H (length l1 + i) a b); rewrite lookup_app_r by lia.
  - by replace (length l1 + i - length l1) with i by lia.
  - by replace (S (length l1 + i) - length l1) with (S i) by lia.
Qed.

(** In a contiguous list no number is above the last one. *)
Lemma contiguous_last l n : contiguous (l ++ [n]) → ∀ k, k ∈ l ++ [n] → (k ≤ n)%Z.
Proof.
  intros Hc k [Hk|Hk%list_elem_of_singleton]%elem_of_app; [|lia].
  apply list_elem_of_split in Hk as (l1 & l2 & ->).
  rewrite <- app_assoc in Hc. apply contiguous_app_r in Hc.
  destruct (contiguous_covers _ k Hc eq_refl (length (k :: l2)) n) as [? _]; [|done].
  by rewrite list_lookup_middle.
Qed.

(** ** The specification *)

(** Where the number is; [Lost] when the task that held it ended. *)
Inductive Place :=
  | AtInitializer
  | AtExecutor (n : Z)
  | AtComparer (n : Z)
  | AtTimer (n : Z)
  | Lost.

#[export] Instance place_eq_dec : EqDecision Place.
Proof. solve_decision. Defined.

(** The number, the numbers handed to the archiver and those of them it has not
    finished. *)
Record Ring := mk_ring {
  rg_place : Place;
  rg_published : list Z;
  rg_waiting : list Z;
}.

(** The best number of the node, which goes up with a new block and down with a
    reorganisation or a fork choice, is between [lo] and [hi] all the while;
    [first] says which numbers the initializer may hand over.  What the node
    imports is no step of the round. *)
Inductive ring_step (lo hi : Z) (first : Z → Prop) : Ring → Ring → Prop :=
  | ring_hand_over n p w : first n →
      ring_step lo hi first (mk_ring AtInitializer p w) (mk_ring (AtExecutor n) p w)
  | ring_publish n p w :
      ring_step lo hi first (mk_ring (AtExecutor n) p w)
        (mk_ring (AtComparer n) (p ++ [n]) (w ++ [n]))
  | ring_pass_over p w :
      ring_step lo hi first (mk_ring (AtExecutor 0) p w) (mk_ring (AtComparer 0) p w)
  | ring_next n p w : (n + 1 ≤ hi)%Z →
      ring_step lo hi first (mk_ring (AtComparer n) p w) (mk_ring (AtExecutor (n + 1)) p w)
  | ring_delay n p w : (lo ≤ n)%Z →
      ring_step lo hi first (mk_ring (AtComparer n) p w) (mk_ring (AtTimer n) p w)
  | ring_wake n p w :
      ring_step lo hi first (mk_ring (AtTimer n) p w) (mk_ring (AtExecutor n) p w)
  | ring_lose pl p w :
      ring_step lo hi first (mk_ring pl p w) (mk_ring Lost p w)
  | ring_archived k pl p w :
      ring_step lo hi first (mk_ring pl p (k :: w)) (mk_ring pl p w).

(** ** Its invariant *)

Section ring.
Context (lo hi : Z) (first : Z → Prop) (first_nonneg : ∀ n, first n → (0 ≤ n)%Z).

(** A number that may be on its way or handed over: not below a first one, and
    a first one or one the node has had; once something is handed over only its
    first number need not be one the node has had. *)
Record admissible (p : list Z) (n : Z) : Prop := {
  adm_above : ∃ f, first f ∧ (f ≤ n)%Z;
  adm_known : first n ∨ (n ≤ hi)%Z;
  adm_head : p = [] ∨ head p = Some n ∨ (n ≤ hi)%Z;
}.

Definition first_or_one (n : Z) : Prop := first n ∨ first 0%Z ∧ n = 1%Z.

(** What is known of the number at its place. *)
Definition place_inv (r : Ring) : Prop :=
  match rg_place r with
  | AtInitializer => rg_published r = []
  | AtExecutor n => admissible (rg_published r) n ∧
      match last (rg_published r) with
      | None => first_or_one n
      | Some a => n = a ∨ n = (a + 1)%Z
      end
  | AtComparer n | AtTimer n => admissible (rg_published r) n ∧
      match last (rg_published r) with
      | None => first 0%Z ∧ n = 0%Z
      | Some a => n = a
      end
  | Lost => True
  end.

Record ring_inv (r : Ring) : Prop := {
  ri_contiguous : contiguous (rg_published r);
  ri_waiting : ∃ taken, rg_published r = taken ++ rg_waiting r;
  ri_place : place_inv r;
  ri_published n : n ∈ rg_published r → admissible (rg_published r) n;
  ri_head h : head (rg_published r) = Some h → first_or_one h;
}.

Lemma ring_start_initializer : ring_inv (mk_ring AtInitializer [] []).
Proof.
  split; simpl; try done; [by exists []|].
  intros n Hn. by apply elem_of_nil in Hn.
Qed.

Lemma ring_start_executor n : first n → ring_inv (mk_ring (AtExecutor n) [] []).
Proof.
  intros Hn. split; simpl; try done; [by exists []| |].
  - split; [|by left]. split; simpl; eauto. exists n. split; [done|lia].
  - intros k Hk. by apply elem_of_nil in Hk.
Qed.

Lemma ring_start_lost : ring_inv (mk_ring Lost [] []).
Proof.
  split; simpl; try done; [by exists []|].
  intros n Hn. by apply elem_of_nil in Hn.
Qed.

Lemma admissible_publish p k n :
  admissible p n → n ∈ p ∨ n = k → admissible (p ++ [k]) n.
Proof.
  intros [? ? Hh] Hn. split; simpl in *; [done..|]. right.
  destruct p as [|x p]; simpl in *.
  - left. destruct Hn as [Hn| ->]; [by apply elem_of_nil in Hn|done].
  - destruct Hh as [?|?]; [done|auto].
Qed.

Lemma ring_inv_publish n p w :
  ring_inv (mk_ring (AtExecutor n) p w) →
  ring_inv (mk_ring (AtComparer n) (p ++ [n]) (w ++ [n])).
Proof.
  intros [Hc [tk Hw] [Hn Hl] Hp Hh]. simpl in *. split; simpl.
  - apply adjacent_snoc; [done|]. intros a Ha. by rewrite Ha in Hl.
  - exists tk. by rewrite Hw, app_assoc.
  - unfold place_inv. simpl. rewrite last_snoc. split; [|done].
    eapply admissible_publish; eauto.
  - intros k [Hk|Hk%list_elem_of_singleton]%elem_of_app; eapply admissible_publish; eauto.
    by subst.
  - intros h. destruct p as [|x p]; simpl in *; [|by apply Hh]. by intros [= <-].
Qed.

(** The number moves on: only [place_inv] is to be shown. *)
Lemma ring_inv_move pl pl' p w :
  ring_inv (mk_ring pl p w) → place_inv (mk_ring pl' p w) → ring_inv (mk_ring pl' p w).
Proof. intros [Hc Hw _ Hp Hh] Hpl. by split. Qed.

Lemma ring_step_inv r r' : ring_inv r → ring_step lo hi first r r' → ring_inv r'.
Proof.
  intros I Hs. pose proof (ri_place _ I) as Hpl.
  destruct Hs as [n p w Hn|n p w|p w|n p w Hb|n p w Hb|n p w|pl p w|k pl p w];
    unfold place_inv in Hpl; simpl in Hpl;
    try (eapply ring_inv_move; [done|]; unfold place_inv; simpl).
  - subst p. split; [|by left]. split; simpl; eauto. exists n. split; [done|lia].
  - by apply ring_inv_publish.
  - destruct Hpl as [Ha Hl]. split; [done|]. destruct (last p) as [a|] eqn:Hlast.
    + destruct (ri_published _ I a) as [(f & Hf & Hfa) _ _]; [by apply last_Some_elem_of|].
      apply first_nonneg in Hf. lia.
    + destruct Hl as [?|[_ ?]]; [done|lia].
  - destruct Hpl as [[(f & Hf & ?) ? ?] Hl]. split.
    + split; simpl; [exists f; split; [done|lia]|by right|by right; right].
    + destruct (last p); [right; by subst|]. destruct Hl as [? ->]. right. split; [done|lia].
  - done.
  - destruct Hpl as [Ha Hl]. split; [done|]. destruct (last p); [by left|].
    destruct Hl as [? ->]. by left.
  - done.
  - destruct I as [Hc [tk Hw] _ Hp Hh]. split; try done. simpl in *.
    exists (tk ++ [k]). by rewrite Hw, <- app_assoc.
Qed.

(** The numbers on their way. *)
Definition rg_numbers (r : Ring) : list Z :=
  match rg_place r with
  | AtExecutor n | AtComparer n | AtTimer n => [n]
  | _ => []
  end.

Lemma ring_admissible r n : ring_inv r → n ∈ rg_numbers r ∨ n ∈ rg_published r →
  admissible (rg_published r) n.
Proof.
  intros I [Hn|Hn]; [|by apply (ri_published _ I)]. pose proof (ri_place _ I) as Hpl.
  unfold place_inv, rg_numbers in *.
  destruct (rg_place r); try (by apply elem_of_nil in Hn);
    apply list_elem_of_singleton in Hn as ->; by destruct Hpl.
Qed.

(** Every number handed over is between the first one handed over and any later
    one: the list covers an interval. *)
Lemma ring_published_covers r h n k : ring_inv r → head (rg_published r) = Some h →
  n ∈ rg_published r → (h ≤ k ≤ n)%Z → k ∈ rg_published r.
Proof.
  intros I Hh [i Hi]%list_elem_of_lookup_1 Hk.
  by apply (contiguous_covers _ h (ri_contiguous _ I) Hh i n).
Qed.

(** While a number is at the executor, all numbers from the first one up to it
    were handed over, and at the comparer it was too; block 0 may be left
    out. *)
Lemma ring_covers r n k : ring_inv r →
  match rg_place r with
  | AtExecutor m => n = (m - 1)%Z
  | AtComparer m | AtTimer m => n = m
  | _ => False
  end →
  (∀ f, first f → (f ≤ k)%Z) → (0 < k ≤ n)%Z → k ∈ rg_published r.
Proof.
  intros I Hn Hf Hk. pose proof (ri_place _ I) as Hpl. unfold place_inv in Hpl.
  assert (last (rg_published r) = Some n ∨ last (rg_published r) = Some (n + 1)%Z) as Hlast.
  { destruct (rg_place r); try done; destruct Hpl as [_ Hl]; subst n;
      destruct (last (rg_published r)) as [a|].
    - destruct Hl as [->| ->]; [right|left]; f_equal; lia.
    - exfalso. destruct Hl as [Hl|[Hl ->]]; [apply Hf in Hl; lia|lia].
    - left. congruence.
    - destruct Hl as [Hl ->]. lia.
    - left. congruence.
    - destruct Hl as [Hl ->]. lia. }
  destruct (head (rg_published r)) as [h|] eqn:Hh;
    [|destruct (rg_published r); [by destruct Hlast|done]].
  assert (h ≤ k)%Z as Hhk by (destruct (ri_head _ I h Hh) as [Hh1|[Hh1 ->]]; [by apply Hf|lia]).
  destruct Hlast as [Hl|Hl]; apply last_Some_elem_of in Hl;
    (eapply ring_published_covers; [done|done|exact Hl|lia]).
Qed.
End ring.

(** ** Repetitions

    A number goes round again only when the node has no later block. *)
Section repetitions.
Context (lo hi : Z) (first : Z → Prop).

Definition increasing (l : list Z) : Prop := adjacent (λ a b, b = (a + 1)%Z ∨ (lo ≤ a)%Z) l.

Record ring_strict (r : Ring) : Prop := {
  rs_published : increasing (rg_published r);
  rs_place : match rg_place r with
    | AtExecutor n => ∀ a, last (rg_published r) = Some a → n = (a + 1)%Z ∨ (lo ≤ a)%Z
    | AtTimer n => (lo ≤ n)%Z
    | _ => True
    end;
}.

Lemma ring_step_strict r r' :
  ring_inv hi first r → ring_strict r → ring_step lo hi first r r' → ring_strict r'.
Proof.
  intros I [Hp Hpl] Hs. pose proof (ri_place _ _ _ I) as Hpi. unfold place_inv in Hpi.
  destruct Hs as [n p w Hn|n p w|p w|n p w Hle|n p w Hle|n p w|pl p w|k pl p w];
    simpl in *; split; simpl in *; auto; try lia.
  - intros a Ha. by rewrite Hpi in Ha.
  - by apply adjacent_snoc.
  - intros a Ha. destruct Hpi as [_ Hl]. rewrite Ha in Hl. subst. by left.
  - intros a Ha. destruct Hpi as [_ Hl]. rewrite Ha in Hl. subst. by right.
Qed.

(** So the numbers up to [lo] are handed over one after the other. *)
Lemma increasing_lookup l h : increasing l → head l = Some h →
  ∀ i, i < length l → (h + Z.of_nat i ≤ lo)%Z → l !! i = Some (h + Z.of_nat i)%Z.
Proof.
  intros Hl Hh. induction i as [|i IH]; intros Hi Hle.
  - rewrite <- head_lookup, Hh. f_equal. lia.
  - destruct (lookup_lt_is_Some_2 l (S i) Hi) as [b Hb].
    rewrite Hb. f_equal. destruct (Hl i _ b (IH ltac:(lia) ltac:(lia)) Hb); lia.
Qed.
End repetitions.
