(* ===== verification/Steps.v ===== *)
(** * The accesses of the tasks

    [archive] of the executor and of the archiver, cut at every access to a
    state shared with others: a call on the node's database, a request to
    PostgreSQL, a delivery to Kafka, a send on a channel.  Between two of them
    another task may run, the node may import a block, or the program may be
    killed.  A program counter says what is done and what the task holds;
    running its steps to the end is the function of [BlockExecutor.v] or
    [Notifier.v] ([executor_steps_archive], [archiver_steps_archive]). *)

From S2P Require Import Prelude Chain Postgres Kafka ArchiveCore VersionCache.
From S2P Require Import BlockExecutor Notifier.

(** ** Running steps to the end *)

Section stepwise.
Context {E St Pc : Type} (rank : Pc → nat) (action : Pc → M E St Pc).

(** A counter of rank 0 has nothing left to do. *)
Fixpoint finish (fuel : nat) (pc : Pc) : M E St unit :=
  match fuel with
  | O => ret ()
  | S fuel =>
      if decide (rank pc = 0) then ret ()
      else let! pc := action pc in finish fuel pc
  end.

(** What is left of the iteration. *)
Definition rest (pc : Pc) : M E St unit := finish (rank pc) pc.

Context (action_rank : ∀ pc s pc' s',
  rank pc ≠ 0 → action pc s = (Ok pc', s') → rank pc' < rank pc).

(** The rank is fuel enough. *)
Lemma finish_enough : ∀ fuel pc s, rank pc ≤ fuel → finish fuel pc s = rest pc s.
Proof.
  assert (∀ k1 k2 pc s, rank pc ≤ k1 → rank pc ≤ k2 → finish k1 pc s = finish k2 pc s) as H.
  { induction k1 as [|k1 IH]; intros [|k2] pc s H1 H2; simpl; try done;
      case_decide as Hz; try done; try lia.
    unfold bind. destruct (action pc s) as [[pc'|e|m] s'] eqn:Ha; [|done..].
    pose proof (action_rank _ _ _ _ Hz Ha). apply IH; lia. }
  intros fuel pc s Hf. by apply H.
Qed.

Lemma rest_done pc s : rank pc = 0 → rest pc s = (Ok (), s).
Proof. unfold rest. by intros ->. Qed.

Lemma rest_step pc s : rank pc ≠ 0 → rest pc s = bind (action pc) rest s.
Proof.
  intros Hz. unfold rest at 1. destruct (rank pc) as [|k] eqn:Hr; [done|].
  simpl. rewrite decide_False by lia. unfold bind.
  destruct (action pc s) as [[pc'|e|m] s'] eqn:Ha; [|done..].
  pose proof (action_rank pc s pc' s' ltac:(lia) Ha). apply finish_enough. lia.
Qed.
End stepwise.

(** ** The archiver *)

Section archiver.
Context `{CT : ChainTypes, BT : BackendTypes, RT : RuntimeTypes, RA : !RuntimeApi,
  JT : JsonTypes, PG : PgService, KS : KafkaService, PJ : !PayloadJson,
  AE : ArchiveErrors}.

(** The next access of [Notifier::archive], with what it is about. *)
Inductive ArchiverPc :=
  | ArIdle
  | ArCheckMetadata (m : BlockModel) (q : BlockPayload)
  | ArFetchMetadata (m : BlockModel) (q : BlockPayload)
  | ArInsertMetadata (m : BlockModel) (q : BlockPayload) (metadata : Bytes)
  | ArSendMetadata (m : BlockModel) (q : BlockPayload) (metadata : Bytes)
  | ArInsertBlock (m : BlockModel) (q : BlockPayload)
  | ArSendBlock (m : BlockModel) (q : BlockPayload).

Definition archiver_rank (pc : ArchiverPc) : nat :=
  match pc with
  | ArIdle => 0
  | ArSendBlock _ _ => 1
  | ArInsertBlock _ _ => 2
  | ArSendMetadata _ _ _ => 3
  | ArInsertMetadata _ _ _ => 4
  | ArFetchMetadata _ _ => 5
  | ArCheckMetadata _ _ => 6
  end.

(** The message a counter is about. *)
Definition archiver_message (pc : ArchiverPc) : option ArchiveSendMsg :=
  match pc with
  | ArIdle => None
  | ArCheckMetadata m q | ArFetchMetadata m q | ArInsertMetadata m q _
  | ArSendMetadata m q _ | ArInsertBlock m q | ArSendBlock m q => Some (m, q)
  end.

(** One access and the local code up to the next one. *)
Definition archiver_action (self : Notifier) (pc : ArchiverPc) : M Error NotifierState ArchiverPc :=
  match pc with
  | ArIdle => ret ArIdle
  | ArCheckMetadata m q =>
      let! exist_ := catch_err (λ _, BackendError "db")
        (with_db (check_if_metadata_exists (bm_spec_version m))) in
      ret (if (exist_ : bool) then ArInsertBlock m q else ArFetchMetadata m q)
  | ArFetchMetadata m q =>
      let! metadata := fetch_metadata self (bm_block_num m) in
      ret (ArInsertMetadata m q metadata)
  | ArInsertMetadata m q metadata =>
      let! _ := catch_err storage_of_sqlx
        (with_db (db_insert {| mm_spec_version := bm_spec_version m;
                               mm_block_num := bm_block_num m;
                               mm_block_hash := hash_bytes (bp_block_hash q);
                               mm_meta := metadata |})) in
      ret (ArSendMetadata m q metadata)
  | ArSendMetadata m q metadata =>
      let! _ := catch_err storage_of_kafka
        (with_kafka (kafka_send (nt_producer self)
           {| mp_spec_version := bm_spec_version m; mp_block_num := bp_block_num q;
              mp_block_hash := bp_block_hash q; mp_meta := metadata |})) in
      ret (ArInsertBlock m q)
  | ArInsertBlock m q =>
      let! _ := catch_err storage_of_sqlx (with_db (db_insert m)) in
      ret (ArSendBlock m q)
  | ArSendBlock m q =>
      let! _ := catch_err storage_of_kafka (with_kafka (kafka_send (nt_producer self) q)) in
      ret ArIdle
  end.

Definition archiver_rest (self : Notifier) : ArchiverPc → M Error NotifierState unit :=
  rest archiver_rank (archiver_action self).

(** Each access either ends the message or goes on with it, further down. *)
Lemma archiver_action_next self pc s pc' s' :
  archiver_rank pc ≠ 0 → archiver_action self pc s = (Ok pc', s') →
  archiver_rank pc' < archiver_rank pc ∧
  (archiver_message pc' = archiver_message pc ∨ pc' = ArIdle ∧ archiver_rank pc = 1).
Proof.
  intros Hz Ha. destruct pc; [done|..]; apply bind_Ok in Ha as (a & s1 & _ & Ha);
    unfold ret in Ha; injection Ha as <- _; simpl; 
    try (split; [lia|first [by left|by right]]).
  destruct a; (split; [simpl; lia|by left]).
Qed.

Lemma archiver_rest_step self pc s : archiver_rank pc ≠ 0 →
  archiver_rest self pc s = bind (archiver_action self pc) (archiver_rest self) s.
Proof. apply rest_step. intros pc1 s1 pc2 s2 Hz Ha. by eapply archiver_action_next. Qed.

Lemma archiver_rest_idle self s : archiver_rest self ArIdle s = (Ok (), s).
Proof. done. Qed.

(** Both sides start with the access of the counter at hand. *)
Ltac archiver_unfold :=
  match goal with
  | |- archiver_rest ?self ?pc ?s = _ => rewrite (archiver_rest_step self pc s) by done
  | |- bind (ret ?pc) (archiver_rest ?self) ?s = _ =>
      change (bind (ret pc) (archiver_rest self) s) with (archiver_rest self pc s);
      rewrite (archiver_rest_step self pc s) by done
  end; cbn [archiver_action]; rewrite bind_assoc; apply bind_ext; [done|].

(** The steps of a message, run to the end, are [Notifier::archive]. *)
Lemma archiver_steps_archive self m q s :
  archiver_rest self (ArCheckMetadata m q) s = notifier_archive self m q s.
Proof.
  assert (∀ s, archiver_rest self (ArInsertBlock m q) s =
    (let! _ := catch_err storage_of_sqlx (with_db (db_insert m)) in
     catch_err storage_of_kafka (with_kafka (kafka_send (nt_producer self) q))) s) as Hb.
  { intros s1. archiver_unfold. intros _ s2.
    change (archiver_rest self (ArSendBlock m q) s2 =
      catch_err storage_of_kafka (with_kafka (kafka_send (nt_producer self) q)) s2).
    rewrite archiver_rest_step by done. cbn [archiver_action]. rewrite bind_assoc.
    apply bind_unit_r. }
  unfold notifier_archive, archive_metadata. archiver_unfold. intros ex s1.
  change (archiver_rest self (if ex then ArInsertBlock m q else ArFetchMetadata m q) s1 =
    bind (if ex then ret () else archive_metadata self m q) (λ _,
      let! _ := catch_err storage_of_sqlx (with_db (db_insert m)) in
      catch_err storage_of_kafka (with_kafka (kafka_send (nt_producer self) q))) s1).
  destruct ex; [apply Hb|]. unfold archive_metadata. rewrite bind_assoc.
  archiver_unfold. intros meta s2. rewrite bind_assoc.
  archiver_unfold. intros r s3. archiver_unfold. intros [] s4. apply Hb.
Qed.
End archiver.

(** ** The executor *)

Section executor.
Context `{CT : ChainTypes, BT : BackendTypes, BE : !Backend, RT : RuntimeTypes,
  RA : !RuntimeApi, VA : !VersionApi, JT : JsonTypes}.

(** The executor reads blocks through the local backend ([local_db.rs]), which
    makes three calls for one. *)
Abbreviation Executor := (BlockExecutor (C := LocalBackendCore)).

(** The next access of [BlockExecutor::archive], with what it has read. *)
Inductive ExecutorPc :=
  | ExIdle
  | ExGetHeader (n : Z)
  | ExGetBody (n : Z) (header : option Header)
  | ExGetJustifications (n : Z) (header : option Header) (body : option (list Extrinsic))
  | ExGetState (n : Z) (sb : SignedBlock)
  | ExExecuteBlock (n : Z) (sb : SignedBlock) (st : State)
  | ExStorageChanges (n : Z) (sb : SignedBlock) (st : State) (api : Api)
  | ExGetVersion (n : Z) (sb : SignedBlock) (storages : StorageChanges)
  | ExSendArchiver (n : Z) (msg : ArchiveSendMsg)
  | ExSendComparer (n : Z).

Definition executor_rank (pc : ExecutorPc) : nat :=
  match pc with
  | ExIdle => 0
  | ExSendComparer _ => 1
  | ExSendArchiver _ _ => 2
  | ExGetVersion _ _ _ => 3
  | ExStorageChanges _ _ _ _ => 4
  | ExExecuteBlock _ _ _ => 5
  | ExGetState _ _ => 6
  | ExGetJustifications _ _ _ => 7
  | ExGetBody _ _ => 8
  | ExGetHeader _ => 9
  end.

(** [archive] when the storage changes are [None]. *)
Definition no_storages (n : Z) : M Error ExecutorState ExecutorPc :=
  if decide (n = 0)%Z then ret (ExSendComparer n)
  else panic "executor >> SYNC get storages is none".

Definition parent_of (sb : SignedBlock) : Hash := h_parent_hash (b_header (sb_block sb)).

(** The block as it is executed: without the last digest item. *)
Definition unsealed (sb : SignedBlock) : Block :=
  new_block (pop_digest (b_header (sb_block sb))) (b_extrinsics (sb_block sb)).

(** One access and the local code up to the next one. *)
Definition executor_action (self : Executor) (pc : ExecutorPc) :
    M Error ExecutorState ExecutorPc :=
  match pc with
  | ExIdle => ret ExIdle
  | ExGetHeader n =>
      let! header := lift (unwrap (bc_header (lb_backend (archive_core self)) (IdNumber n)) "header") in
      ret (ExGetBody n header)
  | ExGetBody n header =>
      let! body := lift (unwrap (bc_body (lb_backend (archive_core self)) (IdNumber n)) "body") in
      ret (ExGetJustifications n header body)
  | ExGetJustifications n header body =>
      let! justifications := lift (unwrap
        (bc_justifications (lb_backend (archive_core self)) (IdNumber n)) "justifications") in
      match header, body with
      | Some header, Some body =>
          ret (ExGetState n {| sb_block := new_block header body;
                               sb_justifications := justifications |})
      | _, _ => no_storages n
      end
  | ExGetState n sb =>
      match get_state (archive_core self) (IdHash (parent_of sb)) with
      | Panic p => panic p
      | Err _ => no_storages n
      | Ok st => ret (ExExecuteBlock n sb st)
      end
  | ExExecuteBlock n sb st =>
      let '(r, api) := execute_block (runtime_api (ex_client self)) (IdHash (parent_of sb))
        (unsealed sb) in
      match r with
      | Panic p => panic p
      | _ => ret (ExStorageChanges n sb st api)
      end
  | ExStorageChanges n sb st api =>
      match (into_storage_changes api st None (parent_of sb)).1 with
      | Panic p => panic p
      | Err _ => no_storages n
      | Ok storages => ret (ExGetVersion n sb storages)
      end
  | ExGetVersion n sb storages =>
      let storages_map := storages_map self n (main_storage_changes storages) in
      let! spec_version := block_spec_version self n in
      ret (ExSendArchiver n (block_model n spec_version sb storages_map,
                             block_payload spec_version sb storages_map))
  | ExSendArchiver n msg =>
      let! _ := send_archiver msg in
      ret (ExSendComparer n)
  | ExSendComparer n =>
      let! _ := send_comparer n in
      ret ExIdle
  end.

Definition executor_rest (self : Executor) : ExecutorPc → M Error ExecutorState unit :=
  rest executor_rank (executor_action self).

Lemma no_storages_cases n s :
  no_storages n s = (Ok (ExSendComparer n), s) ∧ n = 0%Z ∨
  ∃ p, no_storages n s = (Panic p, s).
Proof. unfold no_storages. case_decide; [by left|right; by eexists]. Qed.

(** The number and the block an iteration is about. *)
Definition executor_number (pc : ExecutorPc) : option Z :=
  match pc with
  | ExIdle => None
  | ExGetHeader n | ExGetBody n _ | ExGetJustifications n _ _
  | ExGetState n _ | ExExecuteBlock n _ _ | ExStorageChanges n _ _ _
  | ExGetVersion n _ _ | ExSendArchiver n _ | ExSendComparer n => Some n
  end.

Definition executor_block (pc : ExecutorPc) : option (Z * SignedBlock) :=
  match pc with
  | ExGetState n sb | ExExecuteBlock n sb _ | ExStorageChanges n sb _ _
  | ExGetVersion n sb _ => Some (n, sb)
  | _ => None
  end.

(** The header it has read. *)
Definition executor_header (pc : ExecutorPc) : option (Z * Header) :=
  match pc with
  | ExGetBody n (Some header) | ExGetJustifications n (Some header) _ => Some (n, header)
  | _ => prod_map id (b_header ∘ sb_block) <$> executor_block pc
  end.

(** The states of an access: only [ExSendArchiver] and [ExSendComparer] send,
    only [ExGetVersion] changes the cache. *)
Inductive executor_moves (self : Executor) (s : ExecutorState) :
    ExecutorPc → ExecutorPc → ExecutorState → Prop :=
  | moves_header n h : bc_header (lb_backend (archive_core self)) (IdNumber n) = Ok h →
      executor_moves self s (ExGetHeader n) (ExGetBody n h) s
  | moves_body n h b : bc_body (lb_backend (archive_core self)) (IdNumber n) = Ok b →
      executor_moves self s (ExGetBody n h) (ExGetJustifications n h b) s
  | moves_justifications n h b j :
      bc_justifications (lb_backend (archive_core self)) (IdNumber n) = Ok j →
      executor_moves self s (ExGetJustifications n (Some h) (Some b))
        (ExGetState n {| sb_block := new_block h b; sb_justifications := j |}) s
  | moves_pass_over pc : executor_number pc = Some 0%Z →
      1 < executor_rank pc → executor_rank pc ≠ 2 →
      executor_moves self s pc (ExSendComparer 0) s
  | moves_get_state n sb st :
      executor_moves self s (ExGetState n sb) (ExExecuteBlock n sb st) s
  | moves_execute n sb st api :
      executor_moves self s (ExExecuteBlock n sb st) (ExStorageChanges n sb st api) s
  | moves_changes n sb st api storages :
      executor_moves self s (ExStorageChanges n sb st api) (ExGetVersion n sb storages) s
  | moves_version n sb storages v c :
      get_by_id (vc_backend self) (IdNumber n) (ex_cache s) = (Ok (Some v), c) →
      let m := storages_map self n (main_storage_changes storages) in
      executor_moves self s (ExGetVersion n sb storages)
        (ExSendArchiver n (block_model n (rv_spec_version v) sb m,
                           block_payload (rv_spec_version v) sb m))
        {| ex_cache := c; archiver_send := archiver_send s; comparer_send := comparer_send s |}
  | moves_send_archiver n msg :
      executor_moves self s (ExSendArchiver n msg) (ExSendComparer n)
        {| ex_cache := ex_cache s; archiver_send := archiver_send s ++ [msg];
           comparer_send := comparer_send s |}
  | moves_send_comparer n :
      executor_moves self s (ExSendComparer n) ExIdle
        {| ex_cache := ex_cache s; archiver_send := archiver_send s;
           comparer_send := comparer_send s ++ [n] |}.

(** An access moves on, or it panics and sends nothing; no error escapes. *)
Lemma executor_action_cases self pc s : executor_rank pc ≠ 0 →
  let '(r, s') := executor_action self pc s in
  match r with
  | Ok pc' => executor_moves self s pc pc' s'
  | Err _ => archiver_send s' = archiver_send s ∧ comparer_send s' = comparer_send s
  | Panic _ => archiver_send s' = archiver_send s ∧ comparer_send s' = comparer_send s
  end.
Proof.
  intros Hz. destruct pc; simpl in *; [done|..].
  - unfold bind, lift. destruct (bc_header _ _) as [h|e|p] eqn:Hb; [|done..]. by apply moves_header.
  - unfold bind, lift. destruct (bc_body _ _) as [b|e|p] eqn:Hb; [|done..]. by apply moves_body.
  - unfold bind, lift. destruct (bc_justifications _ _) as [j|e|p] eqn:Hj; [|done..]. simpl.
    assert (let '(r, s') := no_storages n s in match r with
      | Ok pc' => executor_moves self s (ExGetJustifications n header body) pc' s'
      | _ => archiver_send s' = archiver_send s ∧ comparer_send s' = comparer_send s end) as Hno.
    { destruct (no_storages_cases n s) as [[-> ->]|[p ->]]; [|done].
      apply moves_pass_over; simpl; [done|lia..]. }
    destruct header as [h|], body as [b|]; [|exact Hno..]. by apply moves_justifications.
  - destruct (local_get_state _ _) as [st|e|p]; [by apply moves_get_state| |done].
    destruct (no_storages_cases n s) as [[-> ->]|[p ->]]; [|done].
    apply moves_pass_over; simpl; [done|lia..].
  - destruct (execute_block _ _ _) as [[u|e|p] api]; [by apply moves_execute..|done].
  - destruct (into_storage_changes _ _ _ _).1 as [ch|e|p]; [by apply moves_changes| |done].
    destruct (no_storages_cases n s) as [[-> ->]|[p ->]]; [|done].
    apply moves_pass_over; simpl; [done|lia..].
  - unfold bind, block_spec_version.
    destruct (get_by_id _ _ _) as [[[v|]|e|p] c] eqn:Hv; simpl; try done.
    by apply moves_version.
  - apply moves_send_archiver.
  - apply moves_send_comparer.
Qed.

Lemma executor_moves_rank self s pc pc' s' :
  executor_moves self s pc pc' s' → executor_rank pc' < executor_rank pc.
Proof. intros H. destruct H; simpl; lia. Qed.

Lemma executor_rest_step self pc s : executor_rank pc ≠ 0 →
  executor_rest self pc s = bind (executor_action self pc) (executor_rest self) s.
Proof.
  apply rest_step. intros pc1 s1 pc2 s2 Hz Ha.
  pose proof (executor_action_cases self pc1 s1 Hz) as H. rewrite Ha in H.
  by eapply executor_moves_rank.
Qed.

Lemma executor_rest_idle self s : executor_rest self ExIdle s = (Ok (), s).
Proof. done. Qed.

(** The two ways an iteration goes on without storage changes. *)
Lemma rest_no_storages self n s :
  bind (no_storages n) (executor_rest self) s =
  (if decide (n = 0)%Z then send_comparer n
   else panic "executor >> SYNC get storages is none") s.
Proof.
  unfold no_storages. case_decide; [|done].
  change (executor_rest self (ExSendComparer n) s = send_comparer n s).
  by rewrite executor_rest_step.
Qed.

(** The end of an iteration that has storage changes. *)
Lemma rest_version self n sb storages s :
  executor_rest self (ExGetVersion n sb storages) s =
  (let m := storages_map self n (main_storage_changes storages) in
   let! spec_version := block_spec_version self n in
   let! _ := send_archiver (block_model n spec_version sb m, block_payload spec_version sb m) in
   send_comparer n) s.
Proof.
  rewrite executor_rest_step by done. cbn [executor_action]. rewrite bind_assoc.
  apply bind_ext; [done|]. intros v s1.
  change (executor_rest self (ExSendArchiver n (block_model n v sb
    (storages_map self n (main_storage_changes storages)), block_payload v sb
    (storages_map self n (main_storage_changes storages)))) s1 =
    bind (send_archiver (block_model n v sb
    (storages_map self n (main_storage_changes storages)), block_payload v sb
    (storages_map self n (main_storage_changes storages)))) (λ _, send_comparer n) s1).
  rewrite executor_rest_step by done. cbn [executor_action]. rewrite bind_assoc.
  apply bind_ext; [done|]. intros _ s2.
  change (executor_rest self (ExSendComparer n) s2 = send_comparer n s2).
  by rewrite executor_rest_step.
Qed.

(** An access that only reads. *)
Lemma rest_read {A} self pc (r : outcome Error A) (k : A → ExecutorPc) s :
  executor_rank pc ≠ 0 → executor_action self pc = (let! a := lift r in ret (k a)) →
  executor_rest self pc s =
  match r with
  | Ok a => executor_rest self (k a) s
  | Err e => (Err e, s)
  | Panic p => (Panic p, s)
  end.
Proof.
  intros Hz Ha. rewrite executor_rest_step by done. rewrite Ha, bind_assoc. by destruct r.
Qed.

(** The three reads are [LocalBackendCore::get_block]. *)
Lemma rest_get_block self n s :
  executor_rest self (ExGetHeader n) s =
  match local_get_block (archive_core self) n with
  | Ok (Some sb) => executor_rest self (ExGetState n sb) s
  | Ok None => bind (no_storages n) (executor_rest self) s
  | Err e => (Err e, s)
  | Panic p => (Panic p, s)
  end.
Proof.
  unfold local_get_block. rewrite (rest_read _ (ExGetHeader n) _ _ _ ltac:(done) eq_refl).
  destruct (unwrap (bc_header _ _) _) as [h|e|p]; [|done..]. cbn [obind].
  rewrite (rest_read _ (ExGetBody n h) _ _ _ ltac:(done) eq_refl).
  destruct (unwrap (bc_body _ _) _) as [b|e|p]; [|done..]. cbn [obind].
  rewrite executor_rest_step by done. cbn [executor_action]. rewrite bind_assoc.
  destruct (unwrap (bc_justifications _ _) _) as [j|e|p]; [|done..]. by destruct h, b.
Qed.

(** The steps of a request, run to the end, are [BlockExecutor::archive]. *)
Lemma executor_steps_archive self n s :
  executor_rest self (ExGetHeader n) s = executor_archive self n s.
Proof.
  rewrite rest_get_block. unfold executor_archive, execute_block_and_into_storage_changes.
  change (get_block (archive_core self) n) with (local_get_block (archive_core self) n).
  destruct (local_get_block _ _) as [[sb|]|e|p]; [|apply rest_no_storages|done..].
  cbn [obind].
  rewrite executor_rest_step by done. cbn [executor_action]. fold (parent_of sb).
  destruct (get_state _ _) as [st|e|p]; [|apply rest_no_storages|done].
  change (bind (ret (ExExecuteBlock n sb st)) (executor_rest self) s) with
    (executor_rest self (ExExecuteBlock n sb st) s).
  rewrite executor_rest_step by done. cbn [executor_action]. fold (unsealed sb).
  destruct (execute_block _ _ _) as [r api].
  assert (executor_rest self (ExStorageChanges n sb st api) s =
    (let! storages := lift match (into_storage_changes api st None (parent_of sb)).1 with
       | Panic p => Panic p
       | Err _ => Ok None
       | Ok storages => Ok (Some (storages, sb))
       end in
     match storages with
     | None => if decide (n = 0)%Z then send_comparer n
               else panic "executor >> SYNC get storages is none"
     | Some (storages, sb) =>
         let m := storages_map self n (main_storage_changes storages) in
         let! spec_version := block_spec_version self n in
         let! _ := send_archiver (block_model n spec_version sb m,
                                  block_payload spec_version sb m) in
         send_comparer n
     end) s) as H.
  { rewrite executor_rest_step by done. cbn [executor_action].
    destruct (into_storage_changes _ _ _ _).1 as [ch|e|p]; [|apply rest_no_storages|done].
    apply rest_version. }
  destruct r as [u|e|p]; [exact H|exact H|done].
Qed.

(** ** What is sent does not depend on what waits in the channels *)

(** The state of the executor behind messages already sent. *)
Definition behind (msgs : list ArchiveSendMsg) (nums : list Z) (s : ExecutorState) :
    ExecutorState :=
  {| ex_cache := ex_cache s; archiver_send := msgs ++ archiver_send s;
     comparer_send := nums ++ comparer_send s |}.

Lemma executor_action_behind self pc msgs nums s :
  executor_action self pc (behind msgs nums s) =
  ((executor_action self pc s).1, behind msgs nums (executor_action self pc s).2).
Proof.
  assert (∀ n, no_storages n (behind msgs nums s) =
    ((no_storages n s).1, behind msgs nums (no_storages n s).2)) as Hn
    by (intros n; unfold no_storages; by case_decide).
  destruct pc; simpl; try done.
  - unfold bind, lift. by destruct (bc_header _ _).
  - unfold bind, lift. by destruct (bc_body _ _).
  - unfold bind, lift. destruct (bc_justifications _ _); simpl; [|done..].
    destruct header, body; [done|apply Hn..].
  - destruct (local_get_state _ _) as [st|e|p]; [done|apply Hn|done].
  - by destruct (execute_block _ _ _) as [[u|e|p] api].
  - destruct (into_storage_changes _ _ _ _).1 as [ch|e|p]; [done|apply Hn|done].
  - unfold bind, block_spec_version. simpl.
    by destruct (get_by_id _ _ _) as [[[v|]|e|p] c].
  - unfold behind. simpl. unfold bind, send_archiver, modify, ret. simpl. by rewrite app_assoc.
  - unfold behind. simpl. unfold bind, send_comparer, modify, ret. simpl. by rewrite app_assoc.
Qed.

Lemma executor_rest_behind self pc msgs nums s :
  executor_rest self pc (behind msgs nums s) =
  ((executor_rest self pc s).1, behind msgs nums (executor_rest self pc s).2).
Proof.
  unfold executor_rest, rest. generalize (executor_rank pc) as fuel.
  intros fuel. revert pc s. induction fuel as [|fuel IH]; intros pc s; simpl; [done|].
  case_decide; [done|]. unfold bind. rewrite executor_action_behind.
  destruct (executor_action self pc s) as [[pc'|e|p] s']; simpl; [apply IH|done..].
Qed.

Lemma executor_archive_behind self n msgs nums s :
  executor_archive self n (behind msgs nums s) =
  ((executor_archive self n s).1, behind msgs nums (executor_archive self n s).2).
Proof. rewrite <- !executor_steps_archive. apply executor_rest_behind. Qed.
End executor.
