(* ===== verification/Pipeline.v ===== *)
(** * The archive pipeline ([archive/notifier], [cli/src/service.rs])

    The comparer, the initializer, and the four tasks [new_full_base] spawns
    around the channels "executor", "comparer" and "archiver", as a step
    relation on whole iterations: any task whose channel has a message may run
    next, and the node may import blocks between two of them.
    [Interleaving.v] cuts the iterations at their accesses. *)

From S2P Require Import Prelude Chain Postgres Kafka ArchiveCore VersionCache.
From S2P Require Import Reference BlockExecutor Notifier.

(** ** Configuration ([archive/src/config.rs]) *)

Inductive Strategy := LocalBackend | ReadonlyBackend | RemoteDb | Rpc | NoStrategy.
Inductive RuntimeChoice := UseRuntimeApi | UseMockRuntimeApi.

Record CliConfig := {
  cli_block_num : Z;
  reset_force : bool;
  strategy : Strategy;
  runtime_choice : RuntimeChoice;
}.

Record ArchiveConfig := {
  rocksdb_config : RocksDbConfig;
  cli : CliConfig;
  postgres_config : PostgresConfig;
  kafka_config : option KafkaConfig;
}.

Section pipeline.
Context `{CT : ChainTypes, BT : BackendTypes, BE : !Backend, RT : RuntimeTypes,
  RA : !RuntimeApi, VA : !VersionApi, JT : JsonTypes, PG : PgService,
  KS : KafkaService, PJ : !PayloadJson, AE : ArchiveErrors}.

(** ** The comparer ([comparer.rs]) *)

(** [Comparer::compare]: the number sent to the executor, and whether it is
    sent after the timer. *)
Inductive Compared := SendNow (num : Z) | SendDelayed (num : Z).

Definition compare (backend : DB) (block_number : Z) : Compared :=
  let best_num := best_number (bc_info backend) in
  if (block_number <? best_num)%Z
  then let num := u32_add block_number 1 in SendNow num
  else SendDelayed block_number.

(** ** The initializer ([initializer.rs]) *)

(** [Initializer::run]: the number sent to the executor. *)
Definition initializer_run : M Error PgState Z := λ s,
  match max_block_num s with
  | (Ok max_block_number, s) =>
      let block_number := 0%Z in
      (Ok (match max_block_number with Some n => n | None => block_number end), s)
  | (Err _, s) => (Panic "initializer || get block number from db error", s)
  | (Panic p, s) => (Panic p, s)
  end.

(** ** The state of the running tasks *)

Record PipelineState := {
  p_main : DB;                            (* [backend] *)
  p_readonly : DB;                        (* [readonly_backend] *)
  p_executor_chan : list Z;
  p_comparer_chan : list Z;
  p_archiver_chan : list ArchiveSendMsg;
  p_cache : VersionCache;
  p_timer : option Z;                     (* the comparer waits to resend *)
  p_initializer : bool;                   (* the initializer has not run *)
  p_executor_alive : bool;
  p_archiver_alive : bool;
  p_store : NotifierState;
  p_published : list Z;                   (* numbers sent to the archiver *)
}.

(** What the tasks hold that never changes. *)
Record PipelineParts := {
  pp_producer : KafkaProducer;
  pp_postgres : PostgresConfig;
  pp_genesis : gmap Bytes Bytes;
}.

Definition executor_of (p : PipelineParts) (s : PipelineState) :
    BlockExecutor (C := LocalBackendCore) :=
  {| ex_client := p_main s; vc_backend := p_readonly s;
     archive_core := {| lb_backend := p_readonly s |}; genesis_top := pp_genesis p |}.
Definition notifier_of (p : PipelineParts) (s : PipelineState) : Notifier :=
  {| nt_client := p_main s; nt_producer := pp_producer p; nt_config := pp_postgres p |}.

Inductive Task :=
  | TInitializer | TExecutor | TComparer | TTimer | TArchiver
  | TImport (main readonly : DB).

(** What the executor works on. *)
Definition executor_state (s : PipelineState) : ExecutorState :=
  {| ex_cache := p_cache s; archiver_send := p_archiver_chan s;
     comparer_send := p_comparer_chan s |}.

(** The executor ran with the result [r] and left [ex]; [chan] is what stays in
    its channel.  A panic ends the task. *)
Definition executor_ran {A} (chan : list Z) (r : outcome Error A) (ex : ExecutorState)
    (s : PipelineState) : PipelineState :=
  {| p_main := p_main s; p_readonly := p_readonly s;
     p_executor_chan := chan; p_comparer_chan := comparer_send ex;
     p_archiver_chan := archiver_send ex; p_cache := ex_cache ex;
     p_timer := p_timer s; p_initializer := p_initializer s;
     p_executor_alive := match r with Panic _ => false | _ => true end;
     p_archiver_alive := p_archiver_alive s; p_store := p_store s;
     p_published := p_published s ++
       map (bm_block_num ∘ fst) (drop (length (p_archiver_chan s)) (archiver_send ex)) |}.

(** The executor takes the number [n]. *)
Definition run_executor (p : PipelineParts) (n : Z) (chan : list Z) (s : PipelineState) :
    PipelineState :=
  let '(r, ex) := executor_archive (executor_of p s) n (executor_state s) in
  executor_ran chan r ex s.

(** The archiver ran with the result [r] and left [store]. *)
Definition archiver_ran {A} (chan : list ArchiveSendMsg) (r : outcome Error A)
    (store : NotifierState) (s : PipelineState) : PipelineState :=
  {| p_main := p_main s; p_readonly := p_readonly s;
     p_executor_chan := p_executor_chan s; p_comparer_chan := p_comparer_chan s;
     p_archiver_chan := chan; p_cache := p_cache s;
     p_timer := p_timer s; p_initializer := p_initializer s;
     p_executor_alive := p_executor_alive s;
     p_archiver_alive := match r with Panic _ => false | _ => true end;
     p_store := store; p_published := p_published s |}.

(** The archiver takes the message [(m, q)]. *)
Definition run_archiver (p : PipelineParts) (m : BlockModel) (q : BlockPayload)
    (chan : list ArchiveSendMsg) (s : PipelineState) : PipelineState :=
  let '(r, store) := notifier_archive (notifier_of p s) m q (p_store s) in
  archiver_ran chan r store s.

(** The numbers in flight and the waiting comparer. *)
Definition set_numbers (executor comparer : list Z) (timer : option Z) (s : PipelineState) :
    PipelineState :=
  {| p_main := p_main s; p_readonly := p_readonly s;
     p_executor_chan := executor; p_comparer_chan := comparer;
     p_archiver_chan := p_archiver_chan s; p_cache := p_cache s;
     p_timer := timer; p_initializer := p_initializer s;
     p_executor_alive := p_executor_alive s; p_archiver_alive := p_archiver_alive s;
     p_store := p_store s; p_published := p_published s |}.

Definition run_initializer (s : PipelineState) : PipelineState :=
  let '(r, db) := initializer_run (nt_db (p_store s)) in
  {| p_main := p_main s; p_readonly := p_readonly s;
     p_executor_chan := p_executor_chan s ++ match r with Ok n => [n] | _ => [] end;
     p_comparer_chan := p_comparer_chan s; p_archiver_chan := p_archiver_chan s;
     p_cache := p_cache s; p_timer := p_timer s; p_initializer := false;
     p_executor_alive := p_executor_alive s; p_archiver_alive := p_archiver_alive s;
     p_store := {| nt_db := db; nt_kafka := nt_kafka (p_store s) |};
     p_published := p_published s |}.

Definition import_blocks (main readonly : DB) (s : PipelineState) : PipelineState :=
  {| p_main := main; p_readonly := readonly;
     p_executor_chan := p_executor_chan s; p_comparer_chan := p_comparer_chan s;
     p_archiver_chan := p_archiver_chan s; p_cache := p_cache s;
     p_timer := p_timer s; p_initializer := p_initializer s;
     p_executor_alive := p_executor_alive s; p_archiver_alive := p_archiver_alive s;
     p_store := p_store s; p_published := p_published s |}.

(** One step of one task; [None] when it has nothing to do.  An import may
    leave any chain behind: [fork_choice] and finality can move the best block
    to one with a lower number. *)
Definition pipeline_step (p : PipelineParts) (t : Task) (s : PipelineState) :
    option PipelineState :=
  match t with
  | TInitializer => if p_initializer s then Some (run_initializer s) else None
  | TExecutor =>
      match p_executor_chan s, p_executor_alive s with
      | n :: chan, true => Some (run_executor p n chan s)
      | _, _ => None
      end
  | TComparer =>
      match p_comparer_chan s, p_timer s with
      | n :: chan, None =>
          match compare (p_main s) n with
          | SendNow num => Some (set_numbers (p_executor_chan s ++ [num]) chan None s)
          | SendDelayed num => Some (set_numbers (p_executor_chan s) chan (Some num) s)
          end
      | _, _ => None
      end
  | TTimer =>
      match p_timer s with
      | Some recv_number =>
          Some (set_numbers (p_executor_chan s ++ [recv_number]) (p_comparer_chan s) None s)
      | None => None
      end
  | TArchiver =>
      match p_archiver_chan s, p_archiver_alive s with
      | (m, q) :: chan, true => Some (run_archiver p m q chan s)
      | _, _ => None
      end
  | TImport main readonly => Some (import_blocks main readonly s)
  end.

(** A schedule, [None] when one of its tasks has nothing to do. *)
Fixpoint run_schedule (p : PipelineParts) (ts : list Task) (s : PipelineState) :
    option PipelineState :=
  match ts with
  | [] => Some s
  | t :: ts => s ← pipeline_step p t s; run_schedule p ts s
  end.

Inductive reachable (p : PipelineParts) (s0 : PipelineState) : PipelineState → Prop :=
  | reachable_start : reachable p s0 s0
  | reachable_step s t s' :
      reachable p s0 s → pipeline_step p t s = Some s' → reachable p s0 s'.

(** ** Starting the tasks *)

(** The [start_channels] block of [new_full_base]: the notifier first
    ([unwrap] on its configuration and on its creation), then the first number
    or the initializer, then the executor and the comparer. *)
Definition start_pipeline `{PgConnect} (config : ArchiveConfig) (backend readonly_backend : DB)
    (genesis_storage : gmap Bytes Bytes) (start_channels : bool) (store : NotifierState) :
    result (option (PipelineParts * PipelineState)) :=
  let block_number := cli_block_num (cli config) in
  let reset_force := reset_force (cli config) in
  if start_channels then
    let? kafka := expect (kafka_config config) "called `Option::unwrap()` on a `None` value" in
    let? archive_notifier := unwrap (notifier_new (postgres_config config) kafka backend)
      "called `Result::unwrap()` on an `Err` value" in
    Ok (Some ({| pp_producer := nt_producer archive_notifier;
                 pp_postgres := nt_config archive_notifier;
                 pp_genesis := genesis_storage |},
              {| p_main := backend; p_readonly := readonly_backend;
                 p_executor_chan := if reset_force then [block_number] else [];
                 p_comparer_chan := []; p_archiver_chan := [];
                 p_cache := version_cache_new; p_timer := None;
                 p_initializer := negb reset_force;
                 p_executor_alive := true; p_archiver_alive := true;
                 p_store := store; p_published := [] |}))
  else Ok None.

(** The numbers that wait for the archiver. *)
Definition archiver_numbers (s : PipelineState) : list Z :=
  map (bm_block_num ∘ fst) (p_archiver_chan s).

Context (best_is_u32 : ∀ db, is_u32 (best_number (bc_info db))).

(** The comparer's answers: the next number while the node has one. *)
Lemma compare_next db n : is_u32 n →
  match compare db n with
  | SendNow m => m = (n + 1)%Z ∧ (m ≤ best_number (bc_info db))%Z ∧ is_u32 m
  | SendDelayed m => m = n ∧ (best_number (bc_info db) ≤ n)%Z
  end.
Proof.
  intros Hn. pose proof (best_is_u32 db) as Hb. unfold compare.
  destruct (n <? best_number (bc_info db))%Z eqn:H.
  - apply Z.ltb_lt in H. unfold is_u32 in *.
    rewrite u32_add_exact by lia. lia.
  - apply Z.ltb_ge in H. done.
Qed.

(** ** Catching up with the node *)

(** The executor and the comparer take turns [k] times, then the executor
    once more. *)
Definition catch_up (k : nat) : list Task :=
  concat (replicate k [TExecutor; TComparer]) ++ [TExecutor].

Lemma catch_up_length k : length (catch_up k) = 2 * k + 1.
Proof.
  unfold catch_up. rewrite length_app. simpl.
  induction k as [|k IH]; simpl in *; [done|]. lia.
Qed.

Lemma run_schedule_app p ts1 ts2 s :
  run_schedule p (ts1 ++ ts2) s = (s' ← run_schedule p ts1 s; run_schedule p ts2 s').
Proof.
  revert s. induction ts1 as [|t ts1 IH]; intros s; simpl; [done|].
  destruct (pipeline_step p t s); simpl; [apply IH|done].
Qed.

Lemma run_schedule_reachable p ts s0 s s' :
  reachable p s0 s → run_schedule p ts s = Some s' → reachable p s0 s'.
Proof.
  revert s. induction ts as [|t ts IH]; intros s Hr; simpl; [by intros [= <-]|].
  destruct (pipeline_step p t s) as [s1|] eqn:Hs; [|done]. simpl.
  apply IH. by eapply reachable_step.
Qed.

(** The state while the numbers up to [n] go through: [n] waits for the
    executor, [msgs] were handed over since [s]. *)
Record syncing (p : PipelineParts) (s : PipelineState) (n : Z)
    (msgs : list ArchiveSendMsg) (s' : PipelineState) : Prop := {
  sync_db : p_main s' = p_main s ∧ p_readonly s' = p_readonly s;
  sync_executor : p_executor_chan s' = [n] ∧ p_executor_alive s' = true;
  sync_comparer : p_comparer_chan s' = [] ∧ p_timer s' = None;
  sync_archiver : p_archiver_chan s' = p_archiver_chan s ++ msgs ∧
    p_archiver_alive s' = p_archiver_alive s;
  sync_cache : cache_inv (p_readonly s') (p_cache s');
  sync_store : p_store s' = p_store s;
  sync_published : p_published s' = p_published s ++ map (bm_block_num ∘ fst) msgs;
}.

(** The executor's messages for the numbers [n], [n+1], ... *)
Definition answers (p : PipelineParts) (s : PipelineState) (n : Z)
    (msgs : list ArchiveSendMsg) : Prop :=
  ∀ i msg, msgs !! i = Some msg →
    executor_answer (executor_of p s) (n + Z.of_nat i) = Ok (Some msg).

Lemma executor_answer_number self n msg :
  executor_answer self n = Ok (Some msg) → bm_block_num msg.1 = n.
Proof.
  unfold executor_answer. intros H.
  destruct (execute_block_and_into_storage_changes self n) as [[[st sb]|]| |]; simpl in H;
    [|by case_decide|done..].
  destruct (fresh_version _ _) as [[v|]| |]; simplify_eq. done.
Qed.

Lemma executor_answer_changes self n msg :
  executor_answer self n = Ok (Some msg) →
  ∃ main, bm_main_changes msg.1 = json_of_changes (storages_map self n main).
Proof.
  unfold executor_answer. intros H.
  destruct (execute_block_and_into_storage_changes self n) as [[[st sb]|]| |]; simpl in H;
    [|by case_decide|done..].
  destruct (fresh_version _ _) as [[v|]| |]; simplify_eq. by eexists.
Qed.

(** What the executor leaves when it answers a message. *)
Lemma run_executor_answer p s n msg s' msgs :
  syncing p s n msgs s' → no_collision (p_readonly s) →
  executor_answer (executor_of p s) n = Ok (Some msg) →
  let s1 := run_executor p n [] s' in
  p_comparer_chan s1 = [n] ∧ p_timer s1 = None ∧ p_executor_chan s1 = [] ∧
  ∀ m, syncing p s m (msgs ++ [msg]) (set_numbers [m] [] None s1).
Proof.
  intros [[Hm Hr] [He Ha] [Hc Ht] [Har Hal] Hca Hst Hp] Hcol Hans.
  assert (executor_of p s' = executor_of p s) as Hof by (unfold executor_of; by rewrite Hm, Hr).
  unfold run_executor, executor_state. rewrite Hof.
  pose proof (executor_archive_refines (executor_of p s) n
    {| ex_cache := p_cache s'; archiver_send := p_archiver_chan s';
       comparer_send := p_comparer_chan s' |}) as H. cbn [vc_backend executor_of ex_cache] in H.
  rewrite Hr in Hca. specialize (H Hca Hcol). rewrite Hans in H.
  destruct (executor_archive _ _ _) as [r ex]. destruct H as (Hca' & -> & [= Hx1 Hx2]).
  cbn [archiver_send comparer_send] in *. rewrite Hc in Hx2. simpl in Hx2.
  cbv zeta. cbn. split_and!; [done..|]. intros m.
  split; cbn; auto.
  - rewrite Hx1, Har, <- app_assoc. done.
  - by rewrite Hr.
  - rewrite Hx1, Hp, drop_app_length, map_app, <- app_assoc. done.
Qed.

(** One round: the executor answers, the comparer asks for the next. *)
Lemma sync_round p s n msg s' msgs :
  syncing p s n msgs s' → no_collision (p_readonly s) → is_u32 n →
  executor_answer (executor_of p s) n = Ok (Some msg) →
  (n < best_number (bc_info (p_main s)))%Z →
  ∃ s'', run_schedule p [TExecutor; TComparer] s' = Some s'' ∧
    syncing p s (n + 1) (msgs ++ [msg]) s''.
Proof.
  intros Hs Hcol Hn Hans Hb.
  pose proof (run_executor_answer p s n msg s' msgs Hs Hcol Hans) as (Hc & Ht & He & Hnext).
  destruct Hs as [[Hm Hr] [He' Ha'] _ _ _ _ _]. simpl. rewrite He', Ha'. simpl.
  rewrite Hc, Ht. simpl.
  assert (p_main (run_executor p n [] s') = p_main s) as ->.
  { unfold run_executor. destruct (executor_archive _ _ _). simpl. done. }
  pose proof (compare_next (p_main s) n Hn) as Hcmp. unfold compare in *.
  rewrite (proj2 (Z.ltb_lt _ _) Hb) in *. destruct Hcmp as (-> & _).
  rewrite He. eexists. split; [done|]. apply Hnext.
Qed.

Lemma sync_rounds p s k : ∀ n msgs0 msgs s',
  syncing p s n msgs0 s' → no_collision (p_readonly s) → (0 ≤ n)%Z →
  answers p s n msgs → length msgs = k →
  (n + Z.of_nat k ≤ best_number (bc_info (p_main s)))%Z →
  ∃ s'', run_schedule p (concat (replicate k [TExecutor; TComparer])) s' = Some s'' ∧
    syncing p s (n + Z.of_nat k) (msgs0 ++ msgs) s''.
Proof.
  induction k as [|k IH]; intros n msgs0 msgs s' Hs Hcol Hn Hans Hlen Hb.
  - destruct msgs; [|done]. exists s'. rewrite app_nil_r, Z.add_0_r. done.
  - destruct msgs as [|msg msgs]; [done|]. injection Hlen as Hlen.
    destruct (sync_round p s n msg s' msgs0) as (s1 & Hr1 & Hs1); try done.
    { pose proof (best_is_u32 (p_main s)). unfold is_u32 in *. lia. }
    { pose proof (Hans 0 msg eq_refl) as H. by rewrite Z.add_0_r in H. }
    { lia. }
    destruct (IH (n + 1)%Z (msgs0 ++ [msg]) msgs s1) as (s2 & Hr2 & Hs2); try done; try lia.
    { intros i m Hi. pose proof (Hans (S i) m Hi) as H.
      by replace (n + 1 + Z.of_nat i)%Z with (n + Z.of_nat (S i))%Z by lia. }
    exists s2. rewrite <- app_assoc in Hs2.
    replace (n + Z.of_nat (S k))%Z with (n + 1 + Z.of_nat k)%Z by lia. split; [|done].
    change (concat (replicate (S k) [TExecutor; TComparer])) with
      ([TExecutor; TComparer] ++ concat (replicate k [TExecutor; TComparer])).
    by rewrite run_schedule_app, Hr1.
Qed.

(** The whole of it: from the number [n] up to the best one. *)
Lemma catch_up_run p s n msgs :
  syncing p s n [] s → no_collision (p_readonly s) → (0 ≤ n)%Z →
  answers p s n msgs → (1 ≤ length msgs) →
  (n + Z.of_nat (length msgs) - 1 = best_number (bc_info (p_main s)))%Z →
  ∃ s', run_schedule p (catch_up (length msgs - 1)) s = Some s' ∧
    p_comparer_chan s' = [best_number (bc_info (p_main s))] ∧
    p_executor_chan s' = [] ∧
    p_archiver_chan s' = p_archiver_chan s ++ msgs ∧ p_store s' = p_store s ∧
    p_archiver_alive s' = p_archiver_alive s ∧ p_main s' = p_main s ∧
    p_published s' = p_published s ++ map (bm_block_num ∘ fst) msgs.
Proof.
  intros Hs Hcol Hn Hans Hlen Hb.
  destruct (exists_last (l := msgs)) as (init & final & ->); [by intros ->; simpl in Hlen; lia|].
  rewrite length_app in *. simpl in *. replace (length init + 1 - 1) with (length init) by lia.
  destruct (sync_rounds p s (length init) n [] init s) as (s1 & Hr & Hs1); try done; try lia.
  { intros i m Hi. apply Hans. by apply lookup_app_l_Some. }
  unfold catch_up. rewrite run_schedule_app, Hr. simpl in *.
  assert (executor_answer (executor_of p s) (n + Z.of_nat (length init)) = Ok (Some final)) as Hf
    by (apply Hans; by rewrite lookup_app_r, Nat.sub_diag by lia).
  pose proof (run_executor_answer _ _ _ _ _ _ Hs1 Hcol Hf) as (Hc & Ht & He & Hnext).
  destruct Hs1 as [_ [He1 Ha1] _ _ _ _ _]. rewrite He1, Ha1. simpl.
  eexists. split; [done|].
  destruct (Hnext 0%Z) as [[Hm _] _ _ [Har Hal] _ Hst Hp]. simpl in *.
  rewrite Hc. split_and!; try done. f_equal. lia.
Qed.

(** At the tip the same block is published again and again: while the node
    has nothing beyond [n], every round of the executor, the comparer and its
    timer hands the message of [n] to the archiver once more, without end. *)
Theorem tip_republishes (p : PipelineParts) (s : PipelineState) (n : Z)
    (msg : ArchiveSendMsg) (k : nat) :
  p_executor_chan s = [n] → p_executor_alive s = true →
  p_comparer_chan s = [] → p_timer s = None →
  cache_inv (p_readonly s) (p_cache s) → no_collision (p_readonly s) →
  (best_number (bc_info (p_main s)) ≤ n)%Z →
  executor_answer (executor_of p s) n = Ok (Some msg) →
  ∃ s', run_schedule p (concat (replicate k [TExecutor; TComparer; TTimer])) s = Some s' ∧
    p_executor_chan s' = [n] ∧
    p_archiver_chan s' = p_archiver_chan s ++ replicate k msg ∧
    p_published s' = p_published s ++ replicate k n.
Proof.
  intros He Ha Hc Ht Hca Hcol Hb Hans.
  assert (∃ s', run_schedule p (concat (replicate k [TExecutor; TComparer; TTimer])) s = Some s' ∧
    syncing p s n (replicate k msg) s') as (s' & Hr & Hs).
  { induction k as [|k (s1 & Hr & Hs)]; simpl replicate.
    - exists s. split; [done|]. by split; rewrite ?app_nil_r.
    - rewrite <- replicate_S, replicate_S_end, concat_app, run_schedule_app, Hr.
      pose proof (run_executor_answer p s n msg s1 _ Hs Hcol Hans) as (Hc1 & Ht1 & He1 & Hnext).
      destruct Hs as [[Hm Hro] [He' Ha'] _ _ _ _ _].
      cbn [mbind option_bind concat app run_schedule pipeline_step]. rewrite He', Ha'.
      cbn [mbind option_bind]. rewrite Hc1, Ht1.
      assert (p_main (run_executor p n [] s1) = p_main s) as ->.
      { unfold run_executor. destruct (executor_archive _ _ _). simpl. done. }
      unfold compare. rewrite (proj2 (Z.ltb_ge _ _) Hb). cbn. rewrite He1.
      eexists. split; [done|]. rewrite replicate_cons_app. apply Hnext. }
  exists s'. split; [done|]. destruct Hs as [_ [He' _] _ [Har _] _ _ Hp].
  split_and!; [done|done|]. rewrite Hp. f_equal.
  etransitivity; [apply (fmap_replicate (bm_block_num ∘ fst))|]. simpl. by rewrite (executor_answer_number _ _ _ Hans).
Qed.

(** ** Draining the archiver's channel *)

Section drain.
Context {PL : PgLaws}.

(** Neither PostgreSQL nor Kafka fail, and what is sent can be serialized. *)
Record services_ok : Prop := {
  ok_postgres : reliable;
  ok_kafka : brokers_ack;
  ok_metadata_json q : is_Some (json_metadata_payload q);
  ok_block_json q : is_Some (json_block_payload q);
}.

(** The node has the metadata of the block of number [n]. *)
Definition has_metadata (client : DB) (n : Z) : Prop :=
  ∃ meta, (runtime_metadata (runtime_api client) (IdNumber n)).1 = Ok meta.

Lemma archiver_step p s m q chan :
  services_ok → has_metadata (p_main s) (bm_block_num m) → archivable m →
  p_archiver_chan s = (m, q) :: chan → p_archiver_alive s = true →
  ∃ s', pipeline_step p TArchiver s = Some s' ∧ p_archiver_chan s' = chan ∧
    p_archiver_alive s' = true ∧ p_main s' = p_main s ∧
    p_comparer_chan s' = p_comparer_chan s ∧ p_published s' = p_published s ∧
    blocks (pg_tables (nt_db (p_store s'))) =
      <[bm_block_num m := m]> (blocks (pg_tables (nt_db (p_store s)))).
Proof.
  intros [Hr Hk Hmj Hbj] [meta Hmeta'] Ha Hc Hal. simpl. rewrite Hc, Hal.
  destruct (Hmj (metadata_payload m q meta)) as [mtext ?].
  destruct (Hbj q) as [btext ?].
  destruct (notifier_archive_run (notifier_of p s) m q meta mtext btext (p_store s))
    as (st & Hrun & Ht & _); try done.
  unfold run_archiver. rewrite Hrun. eexists. split; [done|]. cbn.
  split_and!; try done. rewrite Ht. unfold archived_tables. by destruct (decide _).
Qed.

Lemma drain_run p : ∀ msgs n s,
  services_ok → Forall (λ msg, archivable msg.1) msgs →
  (∀ k, (n ≤ k < n + Z.of_nat (length msgs))%Z → has_metadata (p_main s) k) →
  p_archiver_chan s = msgs → p_archiver_alive s = true →
  (∀ i msg, msgs !! i = Some msg → bm_block_num msg.1 = (n + Z.of_nat i)%Z) →
  ∃ s', run_schedule p (replicate (length msgs) TArchiver) s = Some s' ∧
    p_archiver_chan s' = [] ∧ p_main s' = p_main s ∧ p_comparer_chan s' = p_comparer_chan s ∧
    p_published s' = p_published s ∧
    ∀ k, blocks (pg_tables (nt_db (p_store s'))) !! k =
      if decide (n ≤ k < n + Z.of_nat (length msgs))%Z
      then fst <$> msgs !! Z.to_nat (k - n)
      else blocks (pg_tables (nt_db (p_store s))) !! k.
Proof.
  induction msgs as [|[m q] msgs IH]; intros n s Hok Ha Hmeta Hc Hal Hnum; simpl.
  - exists s. split_and!; try done. intros k. rewrite decide_False by lia. done.
  - apply Forall_cons in Ha as [Ham Ha].
    destruct (archiver_step p s m q msgs) as (s1 & Hs1 & Hc1 & Hal1 & Hm1 & Hcc1 & Hp1 & Hb1);
      try done.
    { pose proof (Hnum 0 _ eq_refl) as Hn0. simpl in Hn0. apply Hmeta. simpl. lia. }
    cbn [pipeline_step] in Hs1. rewrite Hs1. simpl.
    destruct (IH (n + 1)%Z s1) as (s2 & Hr2 & Hc2 & Hm2 & Hcc2 & Hp2 & Hb2); try done.
    { intros k Hk. rewrite Hm1. apply Hmeta. simpl. lia. }
    { intros i msg Hi. rewrite (Hnum (S i) msg Hi). lia. }
    exists s2. split_and!; [done|done|by rewrite Hm2|by rewrite Hcc2|by rewrite Hp2|].
    intros k. rewrite Hb2, Hb1. pose proof (Hnum 0 _ eq_refl) as Hn0. simpl in Hn0.
    destruct (decide (k = n)) as [->|Hne].
    + rewrite decide_False by lia. rewrite decide_True by lia.
      rewrite Z.sub_diag. simpl. rewrite Hn0, Z.add_0_r. by rewrite lookup_insert_eq.
    + case_decide; case_decide; try lia.
      * replace (Z.to_nat (k - n)) with (S (Z.to_nat (k - (n + 1)))) by lia. done.
      * rewrite lookup_insert_ne by lia. done.
Qed.

(** The first number a pipeline works on, when nothing is stored at or above
    it that is not re-archived. *)
Definition first_number (config : ArchiveConfig) (store : NotifierState) : Z :=
  if reset_force (cli config) then cli_block_num (cli config)
  else match select_max_block_num (pg_tables (nt_db store)) with
       | Ok (Some n, _) => n
       | _ => 0%Z
       end.

(** The initializer hands over the first number. *)
Lemma initializer_first (s : PgState) :
  reliable → pg_wf s →
  ∃ s', initializer_run s =
      (Ok match select_max_block_num (pg_tables s) with Ok (Some n, _) => n | _ => 0%Z end, s') ∧
    pg_tables s' = pg_tables s.
Proof.
  intros Hr Hwf. unfold initializer_run, max_block_num.
  rewrite reliable_request by done. unfold select_max_block_num.
  exists (ticked (pg_tables s) s). split; [|reflexivity].
  pose proof (fold_max_spec (blocks (pg_tables s))) as H.
  destruct (map_fold _ _ _) as [k|]; simpl; [|done].
  destruct H as [[b Hb] _]. apply (wf_blocks _ Hwf) in Hb as (_&?&_).
  rewrite as_u32_id; [done|]. unfold is_u32, u32_max. lia.
Qed.

Lemma first_number_u32 config (store : NotifierState) :
  is_u32 (cli_block_num (cli config)) → pg_wf (nt_db store) → is_u32 (first_number config store).
Proof.
  unfold first_number, select_max_block_num. intros Hu Hwf. destruct (reset_force _); [done|].
  pose proof (fold_max_spec (blocks (pg_tables (nt_db store)))) as H.
  destruct (map_fold _ _ _) as [k|]; [|done].
  destruct H as [[b Hb] _]. apply (wf_blocks _ Hwf) in Hb as (_&?&_).
  unfold is_u32, u32_max. lia.
Qed.

Lemma first_number_nonneg config (store : NotifierState) :
  is_u32 (cli_block_num (cli config)) → pg_wf (nt_db store) → (0 ≤ first_number config store)%Z.
Proof. intros Hu Hwf. by destruct (first_number_u32 config store Hu Hwf). Qed.

(** A pipeline about to work on its first number. *)
Lemma start_syncing `{PgConnect} config b r g store p s0 :
  start_pipeline config b r g true store = Ok (Some (p, s0)) →
  reliable → pg_wf (nt_db store) →
  ∃ s1, run_schedule p (if reset_force (cli config) then [] else [TInitializer]) s0 = Some s1 ∧
    syncing p s1 (first_number config store) [] s1 ∧
    p_main s1 = b ∧ p_readonly s1 = r ∧ executor_of p s1 = executor_of p s0 ∧
    p_archiver_chan s1 = [] ∧ p_archiver_alive s1 = true ∧ p_published s1 = [] ∧
    blocks (pg_tables (nt_db (p_store s1))) = blocks (pg_tables (nt_db store)).
Proof.
  unfold start_pipeline. intros Hs Hr Hwf.
  apply obind_Ok in Hs as (k & _ & Hs). apply obind_Ok in Hs as (nt & _ & Hs).
  injection Hs as <- <-. unfold first_number.
  destruct (reset_force (cli config)) eqn:Hf; simpl.
  - eexists. split; [done|]. split; [|done].
    split; cbn; auto. apply version_cache_new_inv.
  - destruct (initializer_first (nt_db store) Hr Hwf) as (d & Hi & Hd).
    eexists. split; [done|]. unfold run_initializer. cbn [p_store]. rewrite Hi. cbn.
    split; [|by rewrite Hd]. split; cbn; auto. apply version_cache_new_inv.
Qed.

(** Every message was handed over and stored, in order from [n] to [best]. *)
Definition caught_up (p : PipelineParts) (s0 : PipelineState) (store : NotifierState)
    (n best : Z) (msgs : list ArchiveSendMsg) (s' : PipelineState) : Prop :=
  reachable p s0 s' ∧ p_comparer_chan s' = [best] ∧ p_archiver_chan s' = [] ∧
  p_published s' = map (bm_block_num ∘ fst) msgs ∧
  (∀ i k, p_published s' !! i = Some k → k = (n + Z.of_nat i)%Z) ∧
  ∀ k, blocks (pg_tables (nt_db (p_store s'))) !! k =
    if decide (n ≤ k ≤ best)%Z then fst <$> msgs !! Z.to_nat (k - n)
    else blocks (pg_tables (nt_db store)) !! k.

Lemma start_catches_up `{PgConnect} config b r g store p s0 msgs :
  start_pipeline config b r g true store = Ok (Some (p, s0)) →
  is_u32 (cli_block_num (cli config)) → pg_wf (nt_db store) →
  no_collision r → services_ok →
  let n := first_number config store in
  let best := best_number (bc_info b) in
  (∀ k, (n ≤ k ≤ best)%Z → has_metadata b k) →
  answers p s0 n msgs → Forall (λ msg, archivable msg.1) msgs →
  1 ≤ length msgs → (n + Z.of_nat (length msgs) - 1 = best)%Z →
  let first := if reset_force (cli config) then [] else [TInitializer] in
  ∃ s', run_schedule p
      (first ++ catch_up (length msgs - 1) ++ replicate (length msgs) TArchiver) s0 = Some s' ∧
    caught_up p s0 store n best msgs s'.
Proof.
  intros Hs Hu Hwf Hcol Hok n best Hmeta Hans Ha Hlen Hb first.
  destruct (start_syncing config b r g store p s0 Hs (ok_postgres Hok) Hwf)
    as (s1 & Hr1 & Hsync & Hm & Hro & Hof & Hac & Hal & Hp & Hbl).
  assert (answers p s1 n msgs) as Hans1
    by (intros i msg Hi; rewrite Hof; by apply Hans).
  assert (0 ≤ n)%Z as Hn by (by apply first_number_nonneg).
  destruct (catch_up_run p s1 n msgs) as (s2 & Hr2 & Hc2 & _ & Hac2 & Hst2 & Hal2 & Hm2 & Hp2);
    rewrite ?Hro, ?Hm; try done.
  assert (∀ i msg, msgs !! i = Some msg → bm_block_num msg.1 = (n + Z.of_nat i)%Z) as Hnum
    by (intros i msg Hi; eapply executor_answer_number; by apply Hans).
  destruct (drain_run p msgs n s2) as (s3 & Hr3 & Hc3 & Hm3 & Hcc3 & Hp3 & Hb3); try done.
  { intros k Hk. rewrite Hm2, Hm. apply Hmeta. unfold ArchiveSendMsg in *. lia. }
  { by rewrite Hac2, Hac. }
  { by rewrite Hal2. }
  assert (run_schedule p 
      (first ++ catch_up (length msgs - 1) ++ replicate (length msgs) TArchiver) s0 = Some s3) as Hrun.
  { unfold first. rewrite run_schedule_app, Hr1. simpl.
    by rewrite run_schedule_app, Hr2. }
  exists s3. split; [done|]. split_and!; [|by rewrite Hcc3, Hc2, Hm|done|by rewrite Hp3, Hp2, Hp| |].
  - eapply run_schedule_reachable; [apply reachable_start|done].
  - intros i k. rewrite Hp3, Hp2, Hp. simpl.
    intros (msg & Hk & Hi)%list_lookup_fmap_Some. rewrite Hk. by apply Hnum.
  - intros k. rewrite Hb3, Hst2, Hbl.
    unfold ArchiveSendMsg in *. repeat case_decide; [done|exfalso; lia|exfalso; lia|done].
Qed.

(** C2. End to end: started with or without [reset_force], while PostgreSQL and
    Kafka do not fail and payloads serialize, when the node holds the blocks and the metadata of the numbers up
    to its best one and the tables can hold the rows, the pipeline has a run
    of [2 * (best - first) + 1] steps of the executor and the comparer after
    which every number from the first one (the configured one, or the largest
    stored one) to the best one was handed to the archiver exactly once and in
    order; draining the archiver's channel then leaves in [blocks] exactly the
    executor's row for each of them, and every other row as it was. *)
Theorem pipeline_syncs `{PgConnect} (config : ArchiveConfig) (b r : DB)
    (g : gmap Bytes Bytes) (store : NotifierState) (p : PipelineParts)
    (s0 : PipelineState) (msgs : list ArchiveSendMsg) :
  start_pipeline config b r g true store = Ok (Some (p, s0)) →
  is_u32 (cli_block_num (cli config)) → pg_wf (nt_db store) →
  no_collision r → services_ok →
  let n := first_number config store in
  let best := best_number (bc_info b) in
  (∀ k, (n ≤ k ≤ best)%Z → has_metadata b k) →
  answers p s0 n msgs → Forall (λ msg, archivable msg.1) msgs →
  1 ≤ length msgs → (n + Z.of_nat (length msgs) - 1 = best)%Z →
  let first := if reset_force (cli config) then [] else [TInitializer] in
  let sync := catch_up (length msgs - 1) in
  Z.of_nat (length sync) = (2 * (best - n) + 1)%Z ∧
  ∃ s', run_schedule p (first ++ sync ++ replicate (length msgs) TArchiver) s0 = Some s' ∧
    reachable p s0 s' ∧ p_comparer_chan s' = [best] ∧ p_archiver_chan s' = [] ∧
    p_published s' = map (bm_block_num ∘ fst) msgs ∧
    (∀ i k, p_published s' !! i = Some k → k = (n + Z.of_nat i)%Z) ∧
    ∀ k, blocks (pg_tables (nt_db (p_store s'))) !! k =
      if decide (n ≤ k ≤ best)%Z then fst <$> msgs !! Z.to_nat (k - n)
      else blocks (pg_tables (nt_db store)) !! k.
Proof.
  intros Hs Hu Hwf Hcol Hok n best Hmeta Hans Ha Hlen Hb first sync.
  split; [unfold sync; rewrite catch_up_length; lia|].
  by apply (start_catches_up config b r g store p s0 msgs).
Qed.
End drain.
End pipeline.

(** ** Witnesses: the chain of [Reference.v] on healthy services *)

#[local] Existing Instance ref_chain.
#[local] Existing Instance ref_types.
#[local] Existing Instance ref_backend.
#[local] Existing Instance ref_runtime_types.
#[local] Existing Instance ref_runtime_api.
#[local] Existing Instance ref_version_api.
#[local] Existing Instance ref_json.
#[local] Existing Instance ref_payload_json.
#[local] Existing Instance kafka_reference.
#[local] Existing Instance pg_reference.
#[local] Existing Instance errors_reference.

Definition connect_reference : PgConnect :=
  {| parse_uri _ := None; connect_with _ := None |}.
#[local] Existing Instance connect_reference.

Definition sample_config (reset : bool) : ArchiveConfig := {|
  rocksdb_config := {| rocks_path := Some "db"; cache_size := 128;
                       secondary_db_path := Some "db2" |};
  cli := {| cli_block_num := 0; reset_force := reset; strategy := LocalBackend;
            runtime_choice := UseRuntimeApi |};
  postgres_config := nt_config sample_notifier;
  kafka_config := Some sample_kafka_config |}.

Definition sample_parts : PipelineParts := {|
  pp_producer := sample_producer; pp_postgres := nt_config sample_notifier;
  pp_genesis := {["g" := "1"]} |}.

Definition sample_start (reset : bool) : PipelineState := {|
  p_main := sample_db; p_readonly := sample_db;
  p_executor_chan := if reset then [0%Z] else []; p_comparer_chan := [];
  p_archiver_chan := []; p_cache := version_cache_new; p_timer := None;
  p_initializer := negb reset; p_executor_alive := true; p_archiver_alive := true;
  p_store := notifier_start; p_published := [] |}.

Lemma sample_started reset :
  start_pipeline (sample_config reset) sample_db sample_db {["g" := "1"]} true notifier_start =
  Ok (Some (sample_parts, sample_start reset)).
Proof. by destruct reset. Qed.

Lemma ref_best_u32 (db : DB) : is_u32 (best_number (bc_info db)).
Proof. apply as_u32_range. Qed.

Definition sample_answer (n : Z) : list ArchiveSendMsg :=
  match executor_answer (executor_of sample_parts (sample_start true)) n with
  | Ok (Some msg) => [msg]
  | _ => []
  end.
Definition sample_msgs : list ArchiveSendMsg :=
  sample_answer 0 ++ sample_answer 1 ++ sample_answer 2.

Lemma sample_answer_one n : length (sample_answer n) = 1 →
  ∃ msg, sample_answer n = [msg] ∧
    executor_answer (executor_of sample_parts (sample_start true)) n = Ok (Some msg).
Proof.
  unfold sample_answer. destruct (executor_answer _ _) as [[msg|]| |]; [|done..].
  intros _. by exists msg.
Qed.

Lemma sample_msgs_answers :
  answers sample_parts (sample_start false) 0 sample_msgs ∧ length sample_msgs = 3 ∧
  Forall (λ msg, archivable msg.1) sample_msgs.
Proof.
  split_and!.
  - destruct (sample_answer_one 0) as (m0 & H0 & E0); [vm_compute; reflexivity|].
    destruct (sample_answer_one 1) as (m1 & H1 & E1); [vm_compute; reflexivity|].
    destruct (sample_answer_one 2) as (m2 & H2 & E2); [vm_compute; reflexivity|].
    unfold sample_msgs. rewrite H0, H1, H2.
    intros [|[|[|i]]] msg H; [injection H as <-; done..|]. destruct i; discriminate.
  - vm_compute. reflexivity.
  - apply (Forall_impl (λ msg, bool_decide (archivable msg.1) = true));
      [|intros msg H; by apply bool_decide_eq_true in H].
    apply Forall_forall. intros msg Hin.
    assert (forallb (λ msg, bool_decide (archivable msg.1)) sample_msgs = true) as Hall
      by (vm_compute; reflexivity).
    rewrite forallb_forall in Hall. apply Hall. by apply list_elem_of_In.
Qed.

Lemma sample_services : services_ok.
Proof. split; [apply reference_reliable|done|by eexists|by eexists]. Qed.

Lemma sample_metadata n : has_metadata sample_db n.
Proof. by eexists. Qed.

Lemma pipeline_syncs_witness :
  ∃ s, reachable sample_parts (sample_start false) s ∧
    p_published s = [0; 1; 2]%Z ∧ p_comparer_chan s = [2%Z] ∧
    bm_spec_version <$> blocks (pg_tables (nt_db (p_store s))) !! 2%Z = Some 2%Z.
Proof.
  destruct sample_msgs_answers as (Hans & Hlen & Harch).
  destruct (pipeline_syncs ref_best_u32 (PL := reference_laws) (sample_config false)
    sample_db sample_db {["g" := "1"]} notifier_start sample_parts (sample_start false)
    sample_msgs (sample_started false)) as [_ H].
  - split; [done|discriminate].
  - apply empty_tables_wf.
  - apply sample_no_collision.
  - apply sample_services.
  - intros k _. apply sample_metadata.
  - exact Hans.
  - exact Harch.
  - rewrite Hlen. lia.
  - rewrite Hlen. vm_compute. reflexivity.
  - destruct H as (s & _ & Hr & Hc & _ & Hp & _ & Hb). exists s.
    split; [exact Hr|]. split; [rewrite Hp; vm_compute; reflexivity|].
    split; [rewrite Hc; vm_compute; reflexivity|].
    rewrite Hb. vm_compute. reflexivity.
Defined.

(** The pipeline about to work on block 2, the best one. *)
Definition sample_tip : PipelineState := set_numbers [2%Z] [] None (sample_start true).

Lemma tip_republishes_witness :
  ∃ s, run_schedule sample_parts
    (concat (replicate 5 [TExecutor; TComparer; TTimer])) sample_tip = Some s ∧
    p_published s = [2; 2; 2; 2; 2]%Z.
Proof.
  destruct (sample_answer_one 2) as (msg & _ & Ha); [vm_compute; reflexivity|].
  destruct (tip_republishes sample_parts sample_tip 2 msg 5) as (s & Hs & _ & _ & Hp).
  - reflexivity.
  - reflexivity.
  - reflexivity.
  - reflexivity.
  - apply version_cache_new_inv.
  - apply sample_no_collision.
  - apply Z.leb_le. vm_compute. reflexivity.
  - exact Ha.
  - exists s. split; [exact Hs|exact Hp].
Defined.
