(* ===== verification/Interleaving.v ===== *)
(** * The tasks at the grain of their accesses

    The executor and the archiver run access by access ([Steps.v]): between any
    two of them other tasks run and the node imports blocks.  The comparer, its
    timer and the initializer read shared state at most once per iteration and
    stay single steps.  The first part compares this with the whole iterations
    of [Pipeline.v], the second proves that it refines [Ring.v]. *)

From S2P Require Import Prelude Chain Postgres Kafka ArchiveCore VersionCache.
From S2P Require Import Reference BlockExecutor Notifier Ring Steps Pipeline.

Section interleaving.
Context `{CT : ChainTypes, BT : BackendTypes, BE : !Backend, RT : RuntimeTypes,
  RA : !RuntimeApi, VA : !VersionApi, JT : JsonTypes, PG : PgService,
  KS : KafkaService, PJ : !PayloadJson, AE : ArchiveErrors}.

(** ** The machine *)

Record Running := {
  rn_tasks : PipelineState;
  rn_executor : ExecutorPc;
  rn_archiver : ArchiverPc;
}.

Definition idle (s : PipelineState) : Running :=
  {| rn_tasks := s; rn_executor := ExIdle; rn_archiver := ArIdle |}.

(** Where a task is after an access: an error or a panic ends its iteration. *)
Definition next_pc {Pc} (none : Pc) (r : outcome Error Pc) : Pc :=
  match r with Ok pc => pc | _ => none end.

(** The executor's loop: an idle one takes the next number. *)
Definition executor_access (p : PipelineParts) (x : Running) : option Running :=
  let s := rn_tasks x in
  match rn_executor x with
  | ExIdle =>
      match p_executor_chan s, p_executor_alive s with
      | n :: chan, true =>
          Some {| rn_tasks := set_numbers chan (p_comparer_chan s) (p_timer s) s;
                  rn_executor := ExGetHeader n; rn_archiver := rn_archiver x |}
      | _, _ => None
      end
  | pc =>
      let '(r, ex) := executor_action (executor_of p s) pc (executor_state s) in
      Some {| rn_tasks := executor_ran (p_executor_chan s) r ex s;
              rn_executor := next_pc ExIdle r; rn_archiver := rn_archiver x |}
  end.

(** The archiver's loop: an idle one takes the next message. *)
Definition archiver_access (p : PipelineParts) (x : Running) : option Running :=
  let s := rn_tasks x in
  match rn_archiver x with
  | ArIdle =>
      match p_archiver_chan s, p_archiver_alive s with
      | (m, q) :: chan, true =>
          Some {| rn_tasks := archiver_ran (A := unit) chan (Ok ()) (p_store s) s;
                  rn_executor := rn_executor x; rn_archiver := ArCheckMetadata m q |}
      | _, _ => None
      end
  | pc =>
      let '(r, store) := archiver_action (notifier_of p s) pc (p_store s) in
      Some {| rn_tasks := archiver_ran (p_archiver_chan s) r store s;
              rn_executor := rn_executor x; rn_archiver := next_pc ArIdle r |}
  end.

(** One access of one task; [None] when it has nothing to do. *)
Definition access (p : PipelineParts) (t : Task) (x : Running) : option Running :=
  match t with
  | TExecutor => executor_access p x
  | TArchiver => archiver_access p x
  | _ =>
      s ← pipeline_step p t (rn_tasks x);
      Some {| rn_tasks := s; rn_executor := rn_executor x; rn_archiver := rn_archiver x |}
  end.

Fixpoint run_accesses (p : PipelineParts) (ts : list Task) (x : Running) : option Running :=
  match ts with
  | [] => Some x
  | t :: ts => x ← access p t x; run_accesses p ts x
  end.

(** The states that accesses lead to, by steps that [ok] allows. *)
Inductive interleaved (p : PipelineParts) (ok : Running → Task → Prop) (x0 : Running) :
    Running → Prop :=
  | interleaved_start : interleaved p ok x0 x0
  | interleaved_step x t x' : interleaved p ok x0 x → ok x t → access p t x = Some x' →
      interleaved p ok x0 x'.

(** The same for whole iterations. *)
Inductive reachable_by (p : PipelineParts) (ok : PipelineState → Task → Prop)
    (s0 : PipelineState) : PipelineState → Prop :=
  | reachable_by_start : reachable_by p ok s0 s0
  | reachable_by_step s t s' : reachable_by p ok s0 s → ok s t → pipeline_step p t s = Some s' →
      reachable_by p ok s0 s'.

Lemma run_accesses_cons p t ts x x' :
  access p t x = Some x' → run_accesses p (t :: ts) x = run_accesses p ts x'.
Proof. simpl. by intros ->. Qed.

Lemma run_accesses_app p ts1 ts2 x :
  run_accesses p (ts1 ++ ts2) x = (x' ← run_accesses p ts1 x; run_accesses p ts2 x').
Proof.
  revert x. induction ts1 as [|t ts1 IH]; intros x; simpl; [done|].
  destruct (access p t x); simpl; [apply IH|done].
Qed.

Lemma run_accesses_interleaved p (ok : Running → Task → Prop) x0 ts x x' :
  (∀ y t, t ∈ ts → ok y t) → interleaved p ok x0 x →
  run_accesses p ts x = Some x' → interleaved p ok x0 x'.
Proof.
  revert x. induction ts as [|t ts IH]; intros x Hok Hx; simpl; [by intros [= <-]|].
  destruct (access p t x) as [x1|] eqn:Ha; [|done]. simpl. apply IH.
  - intros y t' Ht. apply Hok. by right.
  - eapply interleaved_step; eauto. apply Hok. by left.
Qed.

Lemma interleaved_mono p (ok ok' : Running → Task → Prop) x0 x :
  (∀ y t, ok y t → ok' y t) → interleaved p ok x0 x → interleaved p ok' x0 x.
Proof. intros H. induction 1; [constructor|econstructor; eauto]. Qed.

(** ** What the counters hold *)

(** A task works on a number or a message only while it is alive, and nothing
    is on its way before the initializer has run. *)
Record running_inv (x : Running) : Prop := {
  rv_executor : rn_executor x ≠ ExIdle → p_executor_alive (rn_tasks x) = true;
  rv_archiver : rn_archiver x ≠ ArIdle → p_archiver_alive (rn_tasks x) = true;
  rv_initializer : p_initializer (rn_tasks x) = true →
    rn_executor x = ExIdle ∧ rn_archiver x = ArIdle ∧ p_executor_chan (rn_tasks x) = [] ∧
    p_comparer_chan (rn_tasks x) = [] ∧ p_archiver_chan (rn_tasks x) = [] ∧
    p_timer (rn_tasks x) = None ∧ p_published (rn_tasks x) = [];
}.

(** The cases of an access. *)
Inductive access_of (p : PipelineParts) (x : Running) : Task → Running → Prop :=
  | acc_take_number n chan :
      rn_executor x = ExIdle → p_executor_chan (rn_tasks x) = n :: chan →
      p_executor_alive (rn_tasks x) = true →
      access_of p x TExecutor
        {| rn_tasks := set_numbers chan (p_comparer_chan (rn_tasks x)) (p_timer (rn_tasks x))
             (rn_tasks x);
           rn_executor := ExGetHeader n; rn_archiver := rn_archiver x |}
  | acc_executor r ex :
      executor_rank (rn_executor x) ≠ 0 →
      executor_action (executor_of p (rn_tasks x)) (rn_executor x) (executor_state (rn_tasks x))
        = (r, ex) →
      access_of p x TExecutor
        {| rn_tasks := executor_ran (p_executor_chan (rn_tasks x)) r ex (rn_tasks x);
           rn_executor := next_pc ExIdle r; rn_archiver := rn_archiver x |}
  | acc_take_message m q chan :
      rn_archiver x = ArIdle → p_archiver_chan (rn_tasks x) = (m, q) :: chan →
      p_archiver_alive (rn_tasks x) = true →
      access_of p x TArchiver
        {| rn_tasks := archiver_ran (A := unit) chan (Ok ()) (p_store (rn_tasks x)) (rn_tasks x);
           rn_executor := rn_executor x; rn_archiver := ArCheckMetadata m q |}
  | acc_archiver r store :
      archiver_rank (rn_archiver x) ≠ 0 →
      archiver_action (notifier_of p (rn_tasks x)) (rn_archiver x) (p_store (rn_tasks x))
        = (r, store) →
      access_of p x TArchiver
        {| rn_tasks := archiver_ran (p_archiver_chan (rn_tasks x)) r store (rn_tasks x);
           rn_executor := rn_executor x; rn_archiver := next_pc ArIdle r |}
  | acc_other t s :
      t ≠ TExecutor → t ≠ TArchiver → pipeline_step p t (rn_tasks x) = Some s →
      access_of p x t
        {| rn_tasks := s; rn_executor := rn_executor x; rn_archiver := rn_archiver x |}.

Lemma access_cases p t x x' : access p t x = Some x' → access_of p x t x'.
Proof.
  intros H. destruct t; cbn [access] in H;
    try (destruct (pipeline_step _ _ _) as [s|] eqn:Hs; [|done];
         injection H as <-; by apply acc_other).
  - unfold executor_access in H. destruct (rn_executor x) eqn:Hpc.
    { destruct (p_executor_chan _) as [|n chan] eqn:Hc; [done|].
      destruct (p_executor_alive _) eqn:Ha; [|done]. injection H as <-.
      by apply (acc_take_number p x). }
    all: rewrite <- Hpc in H; destruct (executor_action _ _ _) as [r ex] eqn:Hex;
      injection H as <-; apply (acc_executor p x); [by rewrite Hpc|done].
  - unfold archiver_access in H. destruct (rn_archiver x) eqn:Hpc.
    { destruct (p_archiver_chan _) as [|[m q] chan] eqn:Hc; [done|].
      destruct (p_archiver_alive _) eqn:Ha; [|done]. injection H as <-.
      by apply (acc_take_message p x). }
    all: rewrite <- Hpc in H; destruct (archiver_action _ _ _) as [r st] eqn:Har;
      injection H as <-; apply (acc_archiver p x); [by rewrite Hpc|done].
Qed.

Lemma access_inv p t x x' : running_inv x → access p t x = Some x' → running_inv x'.
Proof.
  intros [He Ha Hi] H. apply access_cases in H.
  destruct H as [n chan Hpc Hc Hal|r ex Hpc Hr|m q chan Hpc Hc Hal|r st Hpc Hr|t s Ht1 Ht2 Hs].
  - split; simpl; [done|done|]. intros Hp. destruct (Hi Hp) as (_ & _ & Hc' & _). congruence.
  - split; simpl; [by destruct r|done|]. intros Hp. destruct (Hi Hp) as (Hpc' & _).
    by rewrite Hpc' in Hpc.
  - split; simpl; [done|done|]. intros Hp.
    destruct (Hi Hp) as (_ & _ & _ & _ & Hc' & _). congruence.
  - split; simpl; [done|by destruct r|]. intros Hp. destruct (Hi Hp) as (_ & Hpc' & _).
    by rewrite Hpc' in Hpc.
  - destruct t; try done; simpl in Hs.
    + destruct (p_initializer _); [|done]. injection Hs as <-. unfold run_initializer.
      destruct (initializer_run _) as [r db]. by split.
    + destruct (p_comparer_chan _) as [|n chan] eqn:Hc; [done|].
      destruct (p_timer _) eqn:Htm; [done|].
      destruct (compare _ _); injection Hs as <-; (split; simpl; [done|done|]);
        intros Hp; destruct (Hi Hp) as (_ & _ & _ & Hc' & _); congruence.
    + destruct (p_timer _) eqn:Htm; [|done]. injection Hs as <-. split; simpl; [done|done|].
      intros Hp. destruct (Hi Hp) as (_ & _ & _ & _ & _ & Ht' & _). congruence.
    + injection Hs as <-. by split.
Qed.

Lemma start_running_inv `{PgConnect} config b r g start store p s0 :
  start_pipeline config b r g start store = Ok (Some (p, s0)) → running_inv (idle s0).
Proof.
  unfold start_pipeline. intros Hs. destruct start; [|done].
  apply obind_Ok in Hs as (k & _ & Hs). apply obind_Ok in Hs as (nt & _ & Hs).
  injection Hs as <- <-. split; simpl; try done. by destruct (reset_force _).
Qed.

Lemma interleaved_inv p ok x0 x : running_inv x0 → interleaved p ok x0 x → running_inv x.
Proof. intros I. induction 1; [done|]. by eapply access_inv. Qed.

(** ** Finishing what was begun *)

(** A request counts as begun with the last of the three reads of its block:
    until then, the number is as good as still in the channel. *)
Definition not_begun (pc : ExecutorPc) : list Z :=
  match pc with ExGetHeader n | ExGetBody n _ | ExGetJustifications n _ _ => [n] | _ => [] end.
Definition begun (pc : ExecutorPc) : ExecutorPc :=
  match pc with ExGetHeader _ | ExGetBody _ _ | ExGetJustifications _ _ _ => ExIdle | pc => pc end.

Definition survives {E A} (r : outcome E A) : bool :=
  match r with Panic _ => false | _ => true end.

(** The tasks once the executor has gone on from [pc] and the archiver from
    where it is; [chan] waits for the executor. *)
Definition complete_from (p : PipelineParts) (pc : ExecutorPc) (chan : list Z) (x : Running) :
    PipelineState :=
  let s := rn_tasks x in
  let '(re, ex) := executor_rest (executor_of p s) pc
    {| ex_cache := p_cache s; archiver_send := []; comparer_send := [] |} in
  let '(ra, store) := archiver_rest (notifier_of p s) (rn_archiver x) (p_store s) in
  {| p_main := p_main s; p_readonly := p_readonly s;
     p_executor_chan := chan; p_comparer_chan := p_comparer_chan s ++ comparer_send ex;
     p_archiver_chan := p_archiver_chan s ++ archiver_send ex;
     p_cache := ex_cache ex; p_timer := p_timer s; p_initializer := p_initializer s;
     p_executor_alive := p_executor_alive s && survives re;
     p_archiver_alive := p_archiver_alive s && survives ra;
     p_store := store;
     p_published := p_published s ++ map (bm_block_num ∘ fst) (archiver_send ex) |}.

(** The tasks once both have ended what they are at. *)
Definition finished (p : PipelineParts) (x : Running) : PipelineState :=
  complete_from p (rn_executor x) (p_executor_chan (rn_tasks x)) x.

(** The tasks once the iterations that have begun are over. *)
Definition complete (p : PipelineParts) (x : Running) : PipelineState :=
  complete_from p (begun (rn_executor x))
    (not_begun (rn_executor x) ++ p_executor_chan (rn_tasks x)) x.

Lemma not_begun_cases pc : not_begun pc = [] ∨ ∃ n, not_begun pc = [n].
Proof. destruct pc; simpl; eauto. Qed.

Lemma complete_idle p s : complete p (idle s) = s.
Proof.
  unfold complete, complete_from. simpl.
  rewrite !app_nil_r, !andb_true_r. by destruct s.
Qed.

Lemma finished_idle p s : finished p (idle s) = s.
Proof. exact (complete_idle p s). Qed.

Lemma complete_finished p x : not_begun (rn_executor x) = [] → complete p x = finished p x.
Proof. unfold complete, finished. by destruct (rn_executor x). Qed.

(** The executor's messages are added behind those that wait. *)
Lemma executor_state_behind s :
  executor_state s = behind (p_archiver_chan s) (p_comparer_chan s)
    {| ex_cache := p_cache s; archiver_send := []; comparer_send := [] |}.
Proof. unfold behind, executor_state. simpl. by rewrite !app_nil_r. Qed.

Lemma behind_parts msgs nums ex :
  behind msgs nums ex = {| ex_cache := ex_cache ex; archiver_send := msgs ++ archiver_send ex;
                           comparer_send := nums ++ comparer_send ex |}.
Proof. done. Qed.

Lemma behind_own ex :
  ex = behind (archiver_send ex) (comparer_send ex)
    {| ex_cache := ex_cache ex; archiver_send := []; comparer_send := [] |}.
Proof. unfold behind. simpl. rewrite !app_nil_r. by destruct ex. Qed.

(** An access of the executor does not change what its request leads to. *)
Lemma finished_executor p x r ex :
  running_inv x → executor_rank (rn_executor x) ≠ 0 →
  executor_action (executor_of p (rn_tasks x)) (rn_executor x) (executor_state (rn_tasks x)) = (r, ex) →
  finished p {| rn_tasks := executor_ran (p_executor_chan (rn_tasks x)) r ex (rn_tasks x);
                rn_executor := next_pc ExIdle r; rn_archiver := rn_archiver x |} = finished p x.
Proof.
  intros I Hz Hr. set (s := rn_tasks x) in *.
  assert (p_executor_alive s = true) as Hal
    by (apply (rv_executor _ I); by destruct (rn_executor x)).
  rewrite executor_state_behind, executor_action_behind in Hr.
  set (ex0 := {| ex_cache := p_cache s; archiver_send := []; comparer_send := [] |}) in *.
  unfold finished, complete_from. simpl. fold s ex0.
  change (executor_of p (executor_ran (p_executor_chan s) r ex s)) with (executor_of p s).
  change (notifier_of p (executor_ran (p_executor_chan s) r ex s)) with (notifier_of p s).
  rewrite (executor_rest_step _ (rn_executor x)) by done.
  unfold bind. destruct (executor_action (executor_of p s) (rn_executor x) ex0) as [r1 ex1].
  simpl in Hr. injection Hr as <- <-. simpl. rewrite !drop_app_length, Hal.
  destruct (archiver_rest _ _ _) as [ra st].
  destruct r1 as [pc|e|m]; simpl; [|by rewrite !app_nil_r..].
  pose proof (executor_rest_behind (executor_of p s) pc (archiver_send ex1) (comparer_send ex1)
    {| ex_cache := ex_cache ex1; archiver_send := []; comparer_send := [] |}) as Hrest.
  rewrite <- behind_own in Hrest. rewrite Hrest.
  match goal with |- context [executor_rest ?a ?b ?c] =>
    destruct (executor_rest a b c) as [re ex2] end.
  simpl. by rewrite !map_app, <- !app_assoc.
Qed.

(** The first two reads of a block are taken into account with the third. *)
Lemma complete_read p x r ex n :
  running_inv x → executor_rank (rn_executor x) ≠ 0 →
  executor_action (executor_of p (rn_tasks x)) (rn_executor x) (executor_state (rn_tasks x)) = (r, ex) →
  not_begun (next_pc ExIdle r) = [n] →
  complete p {| rn_tasks := executor_ran (p_executor_chan (rn_tasks x)) r ex (rn_tasks x);
                rn_executor := next_pc ExIdle r; rn_archiver := rn_archiver x |} = complete p x.
Proof.
  intros I Hz Hr Hn. set (s := rn_tasks x) in *.
  assert (p_executor_alive s = true) as Hal
    by (apply (rv_executor _ I); by destruct (rn_executor x)).
  pose proof (executor_action_cases (executor_of p s) (rn_executor x) (executor_state s) Hz) as Hcase.
  rewrite Hr in Hcase. destruct r as [pc'|e|m]; [|done..]. simpl in Hn.
  assert (ex = executor_state s ∧ not_begun (rn_executor x) = not_begun pc' ∧
    begun (rn_executor x) = begun pc') as (-> & Hnb & Hbg) by (by destruct Hcase).
  unfold complete, complete_from. simpl. fold s. rewrite Hnb, Hbg.
  change (executor_of p (executor_ran _ _ _ s)) with (executor_of p s).
  change (notifier_of p (executor_ran _ _ _ s)) with (notifier_of p s).
  destruct (executor_rest _ _ _) as [re ex], (archiver_rest _ _ _) as [ra st].
  by rewrite drop_all, !app_nil_r, Hal.
Qed.

Lemma complete_from_archiver p pc chan x r store :
  running_inv x → archiver_rank (rn_archiver x) ≠ 0 →
  archiver_action (notifier_of p (rn_tasks x)) (rn_archiver x) (p_store (rn_tasks x)) = (r, store) →
  complete_from p pc chan
    {| rn_tasks := archiver_ran (p_archiver_chan (rn_tasks x)) r store (rn_tasks x);
       rn_executor := rn_executor x; rn_archiver := next_pc ArIdle r |} =
  complete_from p pc chan x.
Proof.
  intros I Hz Hr. set (s := rn_tasks x) in *.
  assert (p_archiver_alive s = true) as Hal
    by (apply (rv_archiver _ I); by destruct (rn_archiver x)).
  unfold complete_from. simpl. fold s.
  change (executor_of p (archiver_ran (p_archiver_chan s) r store s)) with (executor_of p s).
  change (notifier_of p (archiver_ran (p_archiver_chan s) r store s)) with (notifier_of p s).
  destruct (executor_rest _ _ _) as [re ex].
  rewrite (archiver_rest_step _ (rn_archiver x)) by done. unfold bind. rewrite Hr, Hal. simpl.
  destruct r as [pc'|e|m]; simpl; [|done..].
  by destruct (archiver_rest _ _ _) as [ra st].
Qed.

Lemma complete_take_number p x n chan :
  rn_executor x = ExIdle → p_executor_chan (rn_tasks x) = n :: chan →
  complete p {| rn_tasks := set_numbers chan (p_comparer_chan (rn_tasks x)) (p_timer (rn_tasks x))
                  (rn_tasks x);
                rn_executor := ExGetHeader n; rn_archiver := rn_archiver x |} = complete p x.
Proof.
  intros Hpc Hc. set (s := rn_tasks x) in *.
  unfold complete, complete_from. rewrite Hpc. simpl. fold s.
  change (notifier_of p (set_numbers _ _ _ s)) with (notifier_of p s).
  destruct (archiver_rest _ _ _) as [ra st]. by rewrite Hc.
Qed.

(** Running a whole request, told apart from what waits already. *)
Lemma run_executor_behind p n chan s :
  run_executor p n chan s =
  let '(r, ex) := executor_rest (executor_of p s) (ExGetHeader n)
    {| ex_cache := p_cache s; archiver_send := []; comparer_send := [] |} in
  executor_ran chan r (behind (p_archiver_chan s) (p_comparer_chan s) ex) s.
Proof.
  unfold run_executor. rewrite <- executor_steps_archive, executor_state_behind,
    executor_rest_behind.
  by destruct (executor_rest _ _ _) as [r ex].
Qed.

(** What the request has read of the block is what the database still says. *)
Definition still_reads (db : DB) (pc : ExecutorPc) : Prop :=
  match pc with
  | ExGetBody n header => bc_header db (IdNumber n) = Ok header
  | ExGetJustifications n header body =>
      bc_header db (IdNumber n) = Ok header ∧ bc_body db (IdNumber n) = Ok body
  | _ => True
  end.

Lemma rest_still_reads (self : BlockExecutor) pc n s :
  not_begun pc = [n] → still_reads (lb_backend (archive_core self)) pc →
  executor_rest self pc s = executor_rest self (ExGetHeader n) s.
Proof.
  assert (∀ h, bc_header (lb_backend (archive_core self)) (IdNumber n) = Ok h →
    executor_rest self (ExGetHeader n) s = executor_rest self (ExGetBody n h) s) as Hh.
  { intros h Hh. rewrite (rest_read _ (ExGetHeader n) _ _ _ ltac:(done) eq_refl). by rewrite Hh. }
  destruct pc as [|k|k h|k h b| | | | | |]; simpl; try done; intros [= ->].
  - done.
  - intros H. by rewrite (Hh h H).
  - intros [H Hb]. rewrite (Hh h H), (rest_read _ (ExGetBody n h) _ _ _ ltac:(done) eq_refl).
    by rewrite Hb.
Qed.

(** The last read of a block is where the whole iteration happens. *)
Lemma complete_begin p x n :
  running_inv x → not_begun (rn_executor x) = [n] →
  still_reads (p_readonly (rn_tasks x)) (rn_executor x) →
  pipeline_step p TExecutor (complete p x) = Some (finished p x).
Proof.
  intros I Hpc Hrd. set (s := rn_tasks x) in *.
  assert (p_executor_alive s = true) as Hal
    by (apply (rv_executor _ I); by destruct (rn_executor x)).
  assert (begun (rn_executor x) = ExIdle) as Hb by (by destruct (rn_executor x)).
  unfold complete, finished, complete_from. rewrite Hb, Hpc. simpl. fold s.
  rewrite (rest_still_reads (executor_of p s) (rn_executor x) n _ Hpc Hrd).
  destruct (archiver_rest _ _ _) as [ra st]. simpl. rewrite Hal. simpl.
  rewrite !app_nil_r, run_executor_behind. simpl.
  match goal with |- context [executor_rest ?a (ExGetHeader n) ?c] =>
    change a with (executor_of p s); destruct (executor_rest (executor_of p s) (ExGetHeader n) c)
      as [re ex] end.
  unfold executor_ran, behind. simpl. by rewrite drop_app_length.
Qed.

(** Taking a message is where its whole iteration happens. *)
Lemma complete_take_message p x m q chan :
  rn_archiver x = ArIdle → p_archiver_chan (rn_tasks x) = (m, q) :: chan →
  p_archiver_alive (rn_tasks x) = true →
  pipeline_step p TArchiver (complete p x) =
  Some (complete p {| rn_tasks := archiver_ran (A := unit) chan (Ok ()) (p_store (rn_tasks x))
                        (rn_tasks x);
                      rn_executor := rn_executor x; rn_archiver := ArCheckMetadata m q |}).
Proof.
  intros Hpc Hc Hal. set (s := rn_tasks x) in *.
  unfold complete, complete_from. rewrite Hpc. simpl. fold s.
  change (executor_of p (archiver_ran chan (Ok ()) (p_store s) s)) with (executor_of p s).
  change (notifier_of p (archiver_ran chan (Ok ()) (p_store s) s)) with (notifier_of p s).
  rewrite archiver_steps_archive. destruct (executor_rest _ _ _) as [re ex]. simpl.
  rewrite Hc, Hal. simpl. unfold run_archiver.
  match goal with |- context [notifier_archive ?a m q ?st] => change a with (notifier_of p s) end.
  simpl. destruct (notifier_archive _ _ _ _) as [ra st]. by destruct ra.
Qed.

(** ** Imports that keep what is archived *)

Definition local_block (db : DB) (n : Z) : outcome Error (option SignedBlock) :=
  get_block {| lb_backend := db |} n.

(** The database has this block under this number; its justifications may come
    later. *)
Definition readable (db : DB) (n : Z) (block : Block) : Prop :=
  bc_header db (IdNumber n) = Ok (Some (b_header block)) ∧
  bc_body db (IdNumber n) = Ok (Some (b_extrinsics block)).

Lemma local_block_readable db n sb :
  local_block db n = Ok (Some sb) → readable db n (sb_block sb).
Proof.
  unfold local_block, readable. simpl. unfold local_get_block. simpl.
  destruct (bc_header _ _) as [[h|]|e|p], (bc_body _ _) as [[b|]|e'|p'], (bc_justifications _ _);
    simpl; intros; by simplify_eq.
Qed.

(** What executing a block on its parent's state gives. *)
Definition execution (client : DB) (sb : SignedBlock) (st : State) : outcome string StorageChanges :=
  let '(r, api) := execute_block (runtime_api client) (IdHash (parent_of sb)) (unsealed sb) in
  match r with
  | Panic p => Panic p
  | _ => (into_storage_changes api st None (parent_of sb)).1
  end.

(** An import that does not change what the archive reads of a block it can
    read already: no reorganisation of the blocks at hand, no pruning. *)
Record keeps_blocks (main readonly main' readonly' : DB) : Prop := {
  kb_block n block : readable readonly n block → readable readonly' n block;
  kb_state n sb : readable readonly n (sb_block sb) →
    state_at readonly' (IdHash (parent_of sb)) = state_at readonly (IdHash (parent_of sb));
  kb_execution n sb st : readable readonly n (sb_block sb) →
    execution main' sb st = execution main sb st;
  kb_version n block : readable readonly n block →
    code_at_block readonly' (IdNumber n) = code_at_block readonly (IdNumber n);
  kb_metadata n block : readable readonly n block →
    (runtime_metadata (runtime_api main') (IdNumber n)).1 =
    (runtime_metadata (runtime_api main) (IdNumber n)).1;
}.

Definition keeps (s : PipelineState) (t : Task) : Prop :=
  match t with
  | TImport main readonly => keeps_blocks (p_main s) (p_readonly s) main readonly
  | _ => True
  end.

Lemma rest_execution (self : BlockExecutor (C := LocalBackendCore)) n sb st s :
  executor_rest self (ExExecuteBlock n sb st) s =
  match execution (ex_client self) sb st with
  | Panic p => (Panic p, s)
  | Err _ => bind (no_storages n) (executor_rest self) s
  | Ok storages => executor_rest self (ExGetVersion n sb storages) s
  end.
Proof.
  rewrite executor_rest_step by done. cbn [executor_action]. unfold execution.
  destruct (execute_block _ _ _) as [r api].
  assert (executor_rest self (ExStorageChanges n sb st api) s =
    match (into_storage_changes api st None (parent_of sb)).1 with
    | Panic p => (Panic p, s)
    | Err _ => bind (no_storages n) (executor_rest self) s
    | Ok storages => executor_rest self (ExGetVersion n sb storages) s
    end) as H.
  { rewrite executor_rest_step by done. cbn [executor_action].
    by destruct (into_storage_changes _ _ _ _).1. }
  destruct r; [exact H|exact H|done].
Qed.

Lemma rest_version_kept (p : PipelineParts) s main readonly n sb storages ex :
  code_at_block readonly (IdNumber n) = code_at_block (p_readonly s) (IdNumber n) →
  executor_rest (executor_of p (import_blocks main readonly s)) (ExGetVersion n sb storages) ex =
  executor_rest (executor_of p s) (ExGetVersion n sb storages) ex.
Proof.
  intros Hv. rewrite !rest_version.
  change (storages_map (executor_of p (import_blocks main readonly s))) with
    (storages_map (executor_of p s)).
  apply bind_ext; [|done]. unfold block_spec_version, get_by_id. simpl. by rewrite Hv.
Qed.

(** What is left of a request that has begun. *)
Lemma rest_kept (p : PipelineParts) s main readonly pc ex :
  keeps_blocks (p_main s) (p_readonly s) main readonly →
  (∀ n sb, executor_block pc = Some (n, sb) → readable (p_readonly s) n (sb_block sb)) →
  executor_rest (executor_of p (import_blocks main readonly s)) (begun pc) ex =
  executor_rest (executor_of p s) (begun pc) ex.
Proof.
  intros [_ Kst Kex Kv _] Hb.
  assert (∀ n, bind (no_storages n) (executor_rest (executor_of p (import_blocks main readonly s))) ex =
    bind (no_storages n) (executor_rest (executor_of p s)) ex) as Hno
    by (intros n; by rewrite !rest_no_storages).
  assert (∀ n sb st, readable (p_readonly s) n (sb_block sb) →
    executor_rest (executor_of p (import_blocks main readonly s)) (ExExecuteBlock n sb st) ex =
    executor_rest (executor_of p s) (ExExecuteBlock n sb st) ex) as Hexec.
  { intros n sb st H. rewrite !rest_execution. simpl. rewrite (Kex n sb st H).
    destruct (execution _ _ _); [|done..]. apply rest_version_kept. by apply (Kv n (sb_block sb)). }
  destruct pc as [| | | |n sb|n sb st|n sb st api|n sb ch|n msg|n]; cbn [begun]; try reflexivity.
  - specialize (Hb n sb eq_refl). rewrite !(executor_rest_step _ (ExGetState n sb)) by done.
    cbn [executor_action]. change (get_state (archive_core (executor_of p s))) with (state_at (p_readonly s)).
    change (get_state (archive_core (executor_of p (import_blocks main readonly s)))) with
      (state_at readonly).
    rewrite (Kst n sb Hb). destruct (state_at _ _) as [st|e|m]; [|done..]. by apply Hexec.
  - by apply Hexec, Hb.
  - rewrite !(executor_rest_step _ (ExStorageChanges n sb st api)) by done. cbn [executor_action].
    destruct (into_storage_changes _ _ _ _).1 as [ch|e|m]; [|done..].
    apply rest_version_kept. apply (Kv n (sb_block sb)). by apply Hb.
  - apply rest_version_kept. apply (Kv n (sb_block sb)). by apply Hb.
Qed.

(** What is left of a message: only the metadata is read from the node. *)
Lemma archiver_rest_kept (self self' : Notifier) pc s :
  nt_producer self' = nt_producer self →
  (∀ m q, archiver_message pc = Some (m, q) →
     (runtime_metadata (runtime_api (nt_client self')) (IdNumber (bm_block_num m))).1 =
     (runtime_metadata (runtime_api (nt_client self)) (IdNumber (bm_block_num m))).1) →
  archiver_rest self' pc s = archiver_rest self pc s.
Proof.
  intros Hp Hm. unfold archiver_rest, rest. generalize (archiver_rank pc) as fuel.
  intros fuel. revert pc s Hm. induction fuel as [|fuel IH]; intros pc s Hm; simpl; [done|].
  case_decide as Hz; [done|].
  assert (archiver_action self' pc s = archiver_action self pc s) as Ha.
  { destruct pc as [| |m q| | | |]; simpl; rewrite ?Hp; try done.
    unfold fetch_metadata. by rewrite (Hm m q eq_refl). }
  unfold bind. rewrite Ha.
  destruct (archiver_action self pc s) as [[pc'|e|p] s'] eqn:Hs; [|done..].
  apply IH. intros m q Hmq. apply (Hm m q).
  destruct (archiver_action_next _ _ _ _ _ Hz Hs) as [_ [<-|[-> _]]]; done.
Qed.

(** ** The messages on their way *)

(** The message the archiver works on, those in its channel, and the one the
    executor is about to send. *)
Definition messages (x : Running) : list ArchiveSendMsg :=
  option_list (archiver_message (rn_archiver x)) ++ p_archiver_chan (rn_tasks x) ++
  match rn_executor x with ExSendArchiver _ msg => [msg] | _ => [] end.

(** What [ExGetVersion] makes of the block, the changes and the version. *)
Definition built_message (p : PipelineParts) (s : PipelineState) (n : Z) (sb : SignedBlock)
    (storages : StorageChanges) (v : RuntimeVersion) : ArchiveSendMsg :=
  let m := storages_map (executor_of p s) n (main_storage_changes storages) in
  (block_model n (rv_spec_version v) sb m, block_payload (rv_spec_version v) sb m).

(** Where the message of a number comes from: an earlier state, or the version
    just read. *)
Lemma access_messages p t x x' msg :
  access p t x = Some x' → msg ∈ messages x' →
  msg ∈ messages x ∨
  ∃ n sb storages v, rn_executor x = ExGetVersion n sb storages ∧
    msg = built_message p (rn_tasks x) n sb storages v.
Proof.
  intros H. apply access_cases in H. unfold messages.
  destruct H as [n chan Hpc Hc Hal|r ex Hpc Hr|m q chan Hpc Hc Hal|r st Hpc Hr|t s Ht1 Ht2 Hs];
    simpl; rewrite !elem_of_app.
  - rewrite Hpc. auto.
  - pose proof (executor_action_cases (executor_of p (rn_tasks x)) (rn_executor x)
      (executor_state (rn_tasks x)) Hpc) as Hcase. rewrite Hr in Hcase.
    destruct r as [pc|e|m]; simpl;
      [|destruct Hcase as [-> _]; simpl; rewrite elem_of_nil; tauto..].
    destruct Hcase as [| | | | | | |n sb ch v c Hv|n m|]; simpl; rewrite ?elem_of_nil; try tauto.
    + rewrite list_elem_of_singleton. intros [?|[?|Hm]]; [auto..|]. subst msg. right. by eauto 6.
    + rewrite elem_of_app. tauto.
  - rewrite Hpc, Hc. simpl. rewrite !elem_of_cons, ?elem_of_nil, ?elem_of_app. tauto.
  - assert (option_list (archiver_message (next_pc ArIdle r)) = [] ∨
      archiver_message (next_pc ArIdle r) = archiver_message (rn_archiver x)) as [->| ->].
    { destruct r as [pc|e|m]; simpl; auto.
      destruct (archiver_action_next _ _ _ _ _ Hpc Hr) as [_ [?|[-> _]]]; auto. }
    + rewrite elem_of_nil. tauto.
    + tauto.
  - assert (p_archiver_chan s = p_archiver_chan (rn_tasks x)) as ->; [|tauto].
    destruct t; try done; simpl in Hs; simplify_eq/=; repeat (case_match; simplify_eq/=); try done.
    unfold run_initializer. by destruct (initializer_run _).
Qed.

(** The header a request has read, and the block it is about. *)
Lemma access_header p t x x' n h :
  access p t x = Some x' → executor_header (rn_executor x') = Some (n, h) →
  executor_header (rn_executor x) = Some (n, h) ∨
  bc_header (p_readonly (rn_tasks x)) (IdNumber n) = Ok (Some h).
Proof.
  intros H. apply access_cases in H.
  destruct H as [k chan Hpc Hc Hal|r ex Hpc Hr|m q chan Hpc Hc Hal|r st Hpc Hr|t s Ht1 Ht2 Hs];
    simpl; try done; auto.
  pose proof (executor_action_cases (executor_of p (rn_tasks x)) (rn_executor x)
    (executor_state (rn_tasks x)) Hpc) as Hcase. rewrite Hr in Hcase.
  destruct r as [pc|e|m]; simpl; [|done..].
  destruct Hcase; simpl; auto; try done. case_match; [|done]. intros [= <- <-]. by subst; auto.
Qed.

Lemma access_block p t x x' n sb :
  access p t x = Some x' → executor_block (rn_executor x') = Some (n, sb) →
  executor_block (rn_executor x) = Some (n, sb) ∨
  rn_executor x = ExGetJustifications n (Some (b_header (sb_block sb)))
    (Some (b_extrinsics (sb_block sb))).
Proof.
  intros H. apply access_cases in H.
  destruct H as [k chan Hpc Hc Hal|r ex Hpc Hr|m q chan Hpc Hc Hal|r st Hpc Hr|t s Ht1 Ht2 Hs];
    simpl; try done; auto.
  pose proof (executor_action_cases (executor_of p (rn_tasks x)) (rn_executor x)
    (executor_state (rn_tasks x)) Hpc) as Hcase. rewrite Hr in Hcase.
  destruct r as [pc|e|m]; simpl; [|done..].
  destruct Hcase; simpl; auto; try done. intros [= <- <-]. auto.
Qed.

(** An import in the middle of the reads does not change what has been read. *)
Definition undisturbed (x : Running) (t : Task) : Prop :=
  match t with TImport _ readonly => still_reads readonly (rn_executor x) | _ => True end.

Definition calm (x : Running) (t : Task) : Prop := keeps (rn_tasks x) t ∧ undisturbed x t.

(** The blocks and messages at hand are of blocks the archive can read. *)
Record readable_inv (x : Running) : Prop := {
  rd_reads : still_reads (p_readonly (rn_tasks x)) (rn_executor x);
  rd_block n sb : executor_block (rn_executor x) = Some (n, sb) →
    readable (p_readonly (rn_tasks x)) n (sb_block sb);
  rd_message msg : msg ∈ messages x →
    ∃ block, readable (p_readonly (rn_tasks x)) (bm_block_num msg.1) block;
}.

Lemma access_readonly p t x x' :
  access p t x = Some x' → keeps (rn_tasks x) t →
  ∀ n block, readable (p_readonly (rn_tasks x)) n block →
    readable (p_readonly (rn_tasks x')) n block.
Proof.
  intros H Hk n block Hb. apply access_cases in H.
  destruct H as [| | | |t s Ht1 Ht2 Hs]; simpl; try done.
  destruct t; try done; simpl in Hs; simplify_eq/=; repeat (case_match; simplify_eq/=); try done.
  - unfold run_initializer. by destruct (initializer_run _).
  - by apply (kb_block _ _ _ _ Hk).
Qed.

Lemma access_reads p t x x' :
  still_reads (p_readonly (rn_tasks x)) (rn_executor x) → undisturbed x t →
  access p t x = Some x' → still_reads (p_readonly (rn_tasks x')) (rn_executor x').
Proof.
  intros Hrd Hu H. apply access_cases in H.
  destruct H as [k chan Hpc Hc Hal|r ex Hpc Hr|m q chan Hpc Hc Hal|r st Hpc Hr|t s Ht1 Ht2 Hs];
    simpl; try done.
  - pose proof (executor_action_cases (executor_of p (rn_tasks x)) (rn_executor x)
      (executor_state (rn_tasks x)) Hpc) as Hcase. rewrite Hr in Hcase.
    destruct r as [pc|e|m]; simpl; [|done..]. by destruct Hcase.
  - destruct t; try done; simpl in Hs; simplify_eq/=; repeat (case_match; simplify_eq/=); try done.
    unfold run_initializer. by destruct (initializer_run _).
Qed.

Lemma access_readable p t x x' :
  readable_inv x → calm x t → access p t x = Some x' → readable_inv x'.
Proof.
  intros [Hrd Hb Hm] [Hk Hu] H. pose proof (access_readonly p t x x' H Hk) as Hro. split.
  - by apply (access_reads p t x x').
  - intros n sb Hn. apply Hro. destruct (access_block p t x x' n sb H Hn) as [?|Hpc]; [auto|].
    rewrite Hpc in Hrd. exact Hrd.
  - intros msg Hin. destruct (access_messages p t x x' msg H Hin) as [Hold|(n & sb & ch & v & Hpc & ->)].
    + destruct (Hm msg Hold) as [block Hblock]. eauto.
    + exists (sb_block sb). apply Hro, Hb. by rewrite Hpc.
Qed.

(** The other tasks' steps are steps of the completed tasks. *)
Lemma complete_other p t x s :
  running_inv x → readable_inv x → keeps (rn_tasks x) t → t ≠ TExecutor → t ≠ TArchiver →
  pipeline_step p t (rn_tasks x) = Some s →
  pipeline_step p t (complete p x) =
  Some (complete p {| rn_tasks := s; rn_executor := rn_executor x; rn_archiver := rn_archiver x |}).
Proof.
  intros I R Hk Ht1 Ht2 Hs. destruct t as [| | | | |main readonly]; try done.
  - simpl in Hs. destruct (p_initializer (rn_tasks x)) eqn:Hi; [|done].
    destruct (rv_initializer _ I Hi) as (He & Ha & _).
    rewrite He, Ha. change {| rn_tasks := s; rn_executor := ExIdle; rn_archiver := ArIdle |} with (idle s).
    assert (x = idle (rn_tasks x)) as -> by (destruct x; simpl in *; by subst).
    rewrite !complete_idle. simpl. by rewrite Hi.
  - simpl in Hs. destruct (p_comparer_chan (rn_tasks x)) as [|n chan] eqn:Hc; [done|].
    destruct (p_timer (rn_tasks x)) eqn:Htm; [done|].
    unfold complete at 1, complete_from.
    destruct (executor_rest _ _ _) as [re ex] eqn:He.
    destruct (archiver_rest _ _ _) as [ra st] eqn:Ha. simpl. rewrite Hc, Htm. simpl.
    destruct (compare _ _); injection Hs as <-; unfold complete, complete_from, executor_of, notifier_of in *;
      simpl in *; rewrite He, Ha; unfold set_numbers; simpl; by rewrite ?app_assoc.
  - simpl in Hs. destruct (p_timer (rn_tasks x)) as [n|] eqn:Htm; [|done]. injection Hs as <-.
    unfold complete at 1, complete_from.
    destruct (executor_rest _ _ _) as [re ex] eqn:He.
    destruct (archiver_rest _ _ _) as [ra st] eqn:Ha. simpl. rewrite Htm. simpl.
    unfold complete, complete_from, executor_of, notifier_of in *. simpl in *. rewrite He, Ha.
    unfold set_numbers; simpl. by rewrite app_assoc.
  - simpl in Hs. injection Hs as <-. unfold complete, complete_from. simpl.
    rewrite (rest_kept p (rn_tasks x) main readonly _ _ Hk (rd_block _ R)).
    rewrite (archiver_rest_kept (notifier_of p (rn_tasks x))
      (notifier_of p (import_blocks main readonly (rn_tasks x)))).
    + destruct (executor_rest _ _ _) as [re ex].
      by destruct (archiver_rest _ _ _) as [ra st].
    + done.
    + intros m q Hm. simpl. destruct (rd_message _ R (m, q)) as [sb Hsb].
      { unfold messages. rewrite Hm. by left. }
      by apply (kb_metadata _ _ _ _ Hk _ sb).
Qed.

(** Every access is nothing or one whole iteration of the completed tasks. *)
Lemma access_completes p t x x' :
  running_inv x → readable_inv x → keeps (rn_tasks x) t → access p t x = Some x' →
  complete p x' = complete p x ∨ pipeline_step p t (complete p x) = Some (complete p x').
Proof.
  intros I R Hk H. apply access_cases in H.
  destruct H as [n chan Hpc Hc Hal|r ex Hpc Hr|m q chan Hpc Hc Hal|r st Hpc Hr|t s Ht1 Ht2 Hs].
  - left. by apply complete_take_number.
  - destruct (not_begun_cases (next_pc ExIdle r)) as [Hn|[n Hn]];
      [|left; by apply (complete_read p x r ex n)].
    rewrite (complete_finished p (Build_Running _ (next_pc ExIdle r) _)) by done.
    rewrite (finished_executor p x r ex I Hpc Hr).
    destruct (not_begun_cases (rn_executor x)) as [Hx|[n Hx]].
    + left. by rewrite complete_finished.
    + right. apply (complete_begin p x n I Hx (rd_reads _ R)).
  - right. by eapply complete_take_message.
  - left. by apply complete_from_archiver.
  - right. by apply complete_other.
Qed.

(** A busy task makes its access. *)
Lemma executor_access_busy p x r ex : executor_rank (rn_executor x) ≠ 0 →
  executor_action (executor_of p (rn_tasks x)) (rn_executor x) (executor_state (rn_tasks x)) = (r, ex) →
  access p TExecutor x =
  Some {| rn_tasks := executor_ran (p_executor_chan (rn_tasks x)) r ex (rn_tasks x);
          rn_executor := next_pc ExIdle r; rn_archiver := rn_archiver x |}.
Proof.
  intros Hz Hr. simpl. unfold executor_access.
  destruct (rn_executor x); [done|rewrite Hr; done..].
Qed.

Lemma archiver_access_busy p x r store : archiver_rank (rn_archiver x) ≠ 0 →
  archiver_action (notifier_of p (rn_tasks x)) (rn_archiver x) (p_store (rn_tasks x)) = (r, store) →
  access p TArchiver x =
  Some {| rn_tasks := archiver_ran (p_archiver_chan (rn_tasks x)) r store (rn_tasks x);
          rn_executor := rn_executor x; rn_archiver := next_pc ArIdle r |}.
Proof.
  intros Hz Hr. simpl. unfold archiver_access.
  destruct (rn_archiver x); [done|rewrite Hr; done..].
Qed.

(** The executor and the archiver can always finish what they are at. *)
Lemma finish_all p x : running_inv x →
  ∃ ts, (∀ t, t ∈ ts → t = TExecutor ∨ t = TArchiver) ∧
    run_accesses p ts x = Some (idle (finished p x)).
Proof.
  remember (executor_rank (rn_executor x) + archiver_rank (rn_archiver x)) as k eqn:Hk.
  revert x Hk. induction k as [k IH] using lt_wf_ind. intros x Hk I.
  assert (∀ t x', (t = TExecutor ∨ t = TArchiver) → access p t x = Some x' →
    finished p x' = finished p x →
    executor_rank (rn_executor x') + archiver_rank (rn_archiver x') < k →
    ∃ ts, (∀ t, t ∈ ts → t = TExecutor ∨ t = TArchiver) ∧
      run_accesses p ts x = Some (idle (finished p x))) as Hgo.
  { intros t x' Ht Hx Hc Hlt.
    destruct (IH _ Hlt x' eq_refl (access_inv _ _ _ _ I Hx)) as (ts & Hts & Hrun).
    exists (t :: ts). split; [|cbn [run_accesses]; rewrite Hx; simpl; by rewrite Hrun, Hc].
    intros t' [->|?]%elem_of_cons; auto. }
  destruct (decide (executor_rank (rn_executor x) = 0)) as [Hz|Hz];
    [destruct (decide (archiver_rank (rn_archiver x) = 0)) as [Hz'|Hz']|].
  - exists []. split; [by intros t Ht%elem_of_nil|].
    assert (x = idle (rn_tasks x)) as -> by (destruct x as [s [] []]; simpl in *; done).
    by rewrite finished_idle.
  - destruct (archiver_action (notifier_of p (rn_tasks x)) (rn_archiver x) (p_store (rn_tasks x)))
      as [r st] eqn:Hr.
    eapply (Hgo TArchiver);
      [by right|by apply archiver_access_busy|by apply complete_from_archiver|].
    simpl. destruct r as [pc|e|m]; simpl; [|lia..].
    destruct (archiver_action_next _ _ _ _ _ Hz' Hr). lia.
  - destruct (executor_action (executor_of p (rn_tasks x)) (rn_executor x)
      (executor_state (rn_tasks x))) as [r ex] eqn:Hr.
    eapply (Hgo TExecutor); [by left|by apply executor_access_busy|by apply finished_executor|].
    pose proof (executor_action_cases (executor_of p (rn_tasks x)) _ (executor_state (rn_tasks x)) Hz)
      as Hcase.
    rewrite Hr in Hcase. simpl.
    destruct r as [pc|e|m]; simpl; [|lia..]. apply executor_moves_rank in Hcase. lia.
Qed.

(** A whole iteration is a run of accesses. *)
Lemma iteration_interleaved p ok x0 t s s' :
  running_inv (idle s) → (∀ x, ok x TExecutor ∧ ok x TArchiver) → ok (idle s) t →
  interleaved p ok x0 (idle s) → pipeline_step p t s = Some s' →
  interleaved p ok x0 (idle s').
Proof.
  intros I Hok Ht Hr Hs.
  assert (∀ x1, access p t (idle s) = Some x1 → finished p x1 = s' →
    interleaved p ok x0 (idle s')) as Hfin.
  { intros x1 Ha <-. destruct (finish_all p x1 (access_inv _ _ _ _ I Ha)) as (ts & Hts & Hrun).
    eapply (run_accesses_interleaved _ _ _ ts x1); [| |exact Hrun].
    - intros y t' [->| ->]%Hts; apply Hok.
    - by eapply interleaved_step. }
  destruct t; try (apply (Hfin (idle s')); [cbn [access rn_tasks idle]; by rewrite Hs|
    apply finished_idle]); pose proof Hs as Hs0; simpl in Hs.
  - destruct (p_executor_chan s) as [|n chan] eqn:Hc; [done|].
    destruct (p_executor_alive s) eqn:Hal; [|done].
    set (x1 := {| rn_tasks := set_numbers chan (p_comparer_chan s) (p_timer s) s;
                  rn_executor := ExGetHeader n; rn_archiver := ArIdle |}).
    assert (access p TExecutor (idle s) = Some x1) as Hx1
      by (simpl; unfold executor_access; simpl; by rewrite Hc, Hal).
    apply (Hfin x1 Hx1).
    pose proof (complete_begin p x1 n (access_inv _ _ _ _ I Hx1) eq_refl Logic.I) as Hbeg.
    pose proof (complete_take_number p (idle s) n chan eq_refl Hc) as Htake.
    rewrite complete_idle in Htake. change (complete p x1 = s) in Htake.
    rewrite Htake, Hs0 in Hbeg. by injection Hbeg as ->.
  - destruct (p_archiver_chan s) as [|[m q] chan] eqn:Hc; [done|].
    destruct (p_archiver_alive s) eqn:Hal; [|done].
    pose proof (complete_take_message p (idle s) m q chan eq_refl Hc Hal) as Htake.
    rewrite complete_idle, Hs0 in Htake. injection Htake as ->.
    eapply Hfin; [simpl; unfold archiver_access; simpl; by rewrite Hc, Hal|].
    by rewrite complete_finished.
Qed.

(** ** The refinement *)

Lemma complete_node p x : p_main (complete p x) = p_main (rn_tasks x) ∧
  p_readonly (complete p x) = p_readonly (rn_tasks x).
Proof.
  unfold complete, complete_from.
  destruct (executor_rest _ _ _), (archiver_rest _ _ _). done.
Qed.

Lemma keeps_complete p x t : keeps (complete p x) t ↔ keeps (rn_tasks x) t.
Proof. destruct (complete_node p x) as [H1 H2]. destruct t; simpl; by rewrite ?H1, ?H2. Qed.

(** C7. The tasks behave as if their iterations were atomic.  While the imports
    keep the blocks the archive can read (no reorganisation, no pruning) and
    what a request has read of a block it has not finished reading, at every interleaving of the accesses of the executor and the archiver with
    the other tasks and the imports, the state they are going to reach once
    the iterations that have begun are over is a state that whole iterations
    reach; and the states between iterations are exactly those. *)
Theorem interleaving_refines_iterations `{PgConnect} (config : ArchiveConfig) (b r : DB)
    (g : gmap Bytes Bytes) (start : bool) (store : NotifierState) (p : PipelineParts)
    (s0 : PipelineState) :
  start_pipeline config b r g start store = Ok (Some (p, s0)) →
  (∀ x, interleaved p calm (idle s0) x → reachable_by p keeps s0 (complete p x)) ∧
  (∀ s, interleaved p calm (idle s0) (idle s) ↔ reachable_by p keeps s0 s).
Proof.
  intros Hs. pose proof (start_running_inv _ _ _ _ _ _ _ _ Hs) as I0.
  assert (readable_inv (idle s0)) as R0.
  { unfold start_pipeline in Hs. destruct start; [|done].
    apply obind_Ok in Hs as (k & _ & Hs). apply obind_Ok in Hs as (nt & _ & Hs).
    injection Hs as <- <-. split; [done..|]. intros msg Hn. by apply elem_of_nil in Hn. }
  assert (∀ x, interleaved p calm (idle s0) x →
    running_inv x ∧ readable_inv x ∧ reachable_by p keeps s0 (complete p x)) as Hto.
  { intros x. induction 1 as [|x t x' _ (I & R & Hr) [Hk Hu] Ha].
    - split_and!; [done..|]. rewrite complete_idle. apply reachable_by_start.
    - split_and!; [by eapply access_inv|by apply (access_readable p t x x' R)|].
      destruct (access_completes p t x x' I R Hk Ha) as [->|Hstep]; [done|].
      eapply reachable_by_step; [exact Hr|by apply keeps_complete|exact Hstep]. }
  split; [intros x Hx; by apply Hto|]. intros s. split.
  - intros Hx. rewrite <- (complete_idle p s). by apply Hto.
  - induction 1 as [|s t s' _ IH Hk Hstep]; [apply interleaved_start|].
    apply (iteration_interleaved p _ _ t s s'); [by apply Hto|done|by split; [|destruct t]|exact IH|exact Hstep].
Qed.

(** ** The round of the number *)

(** The numbers on their way to the executor or held by it, and those on their
    way to the comparer. *)
Definition executor_side (x : Running) : list Z :=
  match rn_executor x with
  | ExIdle | ExSendComparer _ => []
  | pc => option_list (executor_number pc)
  end ++ p_executor_chan (rn_tasks x).
Definition comparer_side (x : Running) : list Z :=
  match rn_executor x with ExSendComparer n => [n] | _ => [] end ++ p_comparer_chan (rn_tasks x).

(** The tasks hold the number where [place] says, and no other. *)
Definition at_place (initializer : bool) (executor comparer : list Z) (timer : option Z)
    (place : Place) : Prop :=
  (initializer, executor, comparer, timer) =
  match place with
  | AtInitializer => (true, [], [], None)
  | AtExecutor n => (false, [n], [], None)
  | AtComparer n => (false, [], [n], None)
  | AtTimer n => (false, [], [], Some n)
  | Lost => (false, [], [], None)
  end.

(** The messages the archiver has not finished. *)
Definition waiting (x : Running) : list Z :=
  option_list (bm_block_num ∘ fst <$> archiver_message (rn_archiver x)) ++
  archiver_numbers (rn_tasks x).

(** The tasks are in the round [r]. *)
Record in_ring (x : Running) (r : Ring) : Prop := {
  ir_place : at_place (p_initializer (rn_tasks x)) (executor_side x) (comparer_side x)
    (p_timer (rn_tasks x)) (rg_place r);
  ir_published : rg_published r = p_published (rn_tasks x);
  ir_waiting : rg_waiting r = waiting x;
}.

(** The best number of the node is between [lo] and [hi]. *)
Definition best_within (lo hi : Z) (x : Running) : Prop :=
  (lo ≤ best_number (bc_info (p_main (rn_tasks x))) ≤ hi)%Z.

(** The executor's message is of the number it works on. *)
Definition own_message (pc : ExecutorPc) : Prop :=
  match pc with ExSendArchiver n msg => bm_block_num msg.1 = n | _ => True end.

Lemma access_own_message p t x x' :
  own_message (rn_executor x) → access p t x = Some x' → own_message (rn_executor x').
Proof.
  intros Ho H. apply access_cases in H. destruct H as [| r ex Hz Hr| | |]; simpl; try done.
  pose proof (executor_action_cases (executor_of p (rn_tasks x)) _ (executor_state (rn_tasks x)) Hz)
    as Hcase.
  rewrite Hr in Hcase. destruct r; simpl; [by destruct Hcase|done..].
Qed.

Section refines.
Context (best_is_u32 : ∀ db, is_u32 (best_number (bc_info db))).
Context (lo hi : Z) (first : Z → Prop).

(** The round after a step that moves the number to [place']. *)
Lemma in_ring_move x x' r place' :
  in_ring x r → p_published (rn_tasks x') = p_published (rn_tasks x) → waiting x' = waiting x →
  at_place (p_initializer (rn_tasks x')) (executor_side x') (comparer_side x')
    (p_timer (rn_tasks x')) place' →
  (place' = rg_place r ∨ ∀ p w, ring_step lo hi first (mk_ring (rg_place r) p w) (mk_ring place' p w)) →
  ∃ r', in_ring x' r' ∧ (r' = r ∨ ring_step lo hi first r r').
Proof.
  intros [Hpl Hp Hw] Hp' Hw' Hpl' Hs.
  exists (mk_ring place' (rg_published r) (rg_waiting r)). split.
  - split; simpl; congruence.
  - destruct r as [pl p w]. simpl in *. destruct Hs as [->|Hs]; auto.
Qed.

(** Where the number is while the executor is busy. *)
Lemma busy_place x r :
  in_ring x r → executor_rank (rn_executor x) ≠ 0 →
  p_initializer (rn_tasks x) = false ∧ p_executor_chan (rn_tasks x) = [] ∧
  p_comparer_chan (rn_tasks x) = [] ∧ p_timer (rn_tasks x) = None ∧
  ∃ n, executor_number (rn_executor x) = Some n ∧
    rg_place r = match rn_executor x with ExSendComparer n => AtComparer n | _ => AtExecutor n end.
Proof.
  intros [Hpl _ _] Hz. unfold at_place, executor_side, comparer_side in Hpl.
  destruct (rn_executor x), (rg_place r); simpl in *; simplify_eq; try done;
    (split_and!; [done..|by eexists]).
Qed.

(** An access of the executor that sends nothing. *)
Lemma in_ring_executor x r (res : outcome Error ExecutorPc) ex place' :
  in_ring x r → executor_rank (rn_executor x) ≠ 0 →
  archiver_send ex = p_archiver_chan (rn_tasks x) ∧ comparer_send ex = p_comparer_chan (rn_tasks x) →
  at_place false
    match next_pc ExIdle res with ExIdle | ExSendComparer _ => []
    | pc => option_list (executor_number pc) end
    match next_pc ExIdle res with ExSendComparer n => [n] | _ => [] end None place' →
  (place' = rg_place r ∨
    ∀ p w, ring_step lo hi first (mk_ring (rg_place r) p w) (mk_ring place' p w)) →
  ∃ r', in_ring {| rn_tasks := executor_ran (p_executor_chan (rn_tasks x)) res ex (rn_tasks x);
                   rn_executor := next_pc ExIdle res; rn_archiver := rn_archiver x |} r' ∧
    (r' = r ∨ ring_step lo hi first r r').
Proof.
  intros Hin Hz [Ha Hc] Hpl Hs. destruct (busy_place x r Hin Hz) as (Hi & He & Hcc & Ht & _).
  apply (in_ring_move x _ r place'); simpl; try done.
  - by rewrite Ha, drop_all, app_nil_r.
  - unfold waiting, archiver_numbers. simpl. by rewrite Ha.
  - unfold at_place, executor_side, comparer_side in *. simpl.
    by rewrite Hi, He, Hc, Hcc, Ht, !app_nil_r.
Qed.

(** The executor hands its message over. *)
Lemma in_ring_publish s k msg ar r :
  in_ring {| rn_tasks := s; rn_executor := ExSendArchiver k msg; rn_archiver := ar |} r →
  bm_block_num msg.1 = k →
  ∃ r', in_ring {| rn_tasks := executor_ran (A := ExecutorPc) (p_executor_chan s)
                     (Ok (ExSendComparer k))
                     {| ex_cache := p_cache s; archiver_send := p_archiver_chan s ++ [msg];
                        comparer_send := p_comparer_chan s |} s;
                   rn_executor := ExSendComparer k; rn_archiver := ar |} r' ∧
    ring_step lo hi first r r'.
Proof.
  intros Hin Ho. destruct (busy_place _ r Hin ltac:(done)) as (Hi & He & Hc & Ht & n & Hn & Hpl).
  simpl in *. injection Hn as <-.
  exists (mk_ring (AtComparer k) (rg_published r ++ [k]) (rg_waiting r ++ [k])). split.
  - destruct Hin as [_ Hp Hw]. split; simpl.
    + unfold at_place, executor_side, comparer_side. simpl. by rewrite Hi, He, Hc, Ht.
    + rewrite drop_app_length. simpl. by rewrite Hp, Ho.
    + unfold waiting, archiver_numbers in *. simpl in *. rewrite Hw, map_app, app_assoc.
      simpl. by rewrite Ho.
  - destruct r. simpl in *. rewrite Hpl. constructor.
Qed.

(** An access of the executor. *)
Lemma executor_refines self x r res ex :
  in_ring x r → own_message (rn_executor x) → executor_rank (rn_executor x) ≠ 0 →
  executor_action self (rn_executor x) (executor_state (rn_tasks x)) = (res, ex) →
  ∃ r', in_ring {| rn_tasks := executor_ran (p_executor_chan (rn_tasks x)) res ex (rn_tasks x);
                   rn_executor := next_pc ExIdle res; rn_archiver := rn_archiver x |} r' ∧
    (r' = r ∨ ring_step lo hi first r r').
Proof.
  intros Hin Ho Hz Hr.
  pose proof (executor_action_cases self (rn_executor x) (executor_state (rn_tasks x)) Hz) as Hcase.
  rewrite Hr in Hcase. clear Hr.
  destruct (busy_place x r Hin Hz) as (Hi & He & Hc & Ht & n & Hn & Hpl).
  pose proof (λ place', in_ring_executor x r res ex place' Hin Hz) as Hmove.
  destruct x as [s pc ar]. simpl in *.
  destruct res as [pc'|e|m];
    [|apply (Hmove Lost Hcase); [done|right; constructor]
     |apply (Hmove Lost Hcase); [done|right; constructor]].
  destruct Hcase as [k h|k h b|k h b j|pc Hk Hr1 Hr2|k sb st|k sb st api|k sb st api ch
      |k sb ch v c Hv|k msg|k];
    simpl in *; try (injection Hn as Hn; subst n);
    try (apply (Hmove (AtExecutor k)); [done|done|left; by rewrite Hpl]).
  - apply (Hmove (AtComparer 0)); [done|done|right].
    rewrite Hpl. destruct pc; simpl in *; simplify_eq; try lia; constructor.
  - destruct (in_ring_publish s k msg ar r Hin Ho) as (r' & Hin' & Hstep). eauto.
  - apply (in_ring_move _ _ _ (AtComparer k) Hin); simpl; [|done| |left; by rewrite Hpl].
    + by rewrite drop_all, app_nil_r.
    + unfold at_place, executor_side, comparer_side. simpl. by rewrite Hi, He, Hc, Ht.
Qed.

(** An access of the archiver. *)
Lemma archiver_refines self x r res st :
  in_ring x r → archiver_rank (rn_archiver x) ≠ 0 →
  archiver_action self (rn_archiver x) (p_store (rn_tasks x)) = (res, st) →
  ∃ r', in_ring {| rn_tasks := archiver_ran (p_archiver_chan (rn_tasks x)) res st (rn_tasks x);
                   rn_executor := rn_executor x; rn_archiver := next_pc ArIdle res |} r' ∧
    (r' = r ∨ ring_step lo hi first r r').
Proof.
  intros [Hpl Hp Hwt] Hz Hr. set (x' := {| rn_archiver := next_pc ArIdle res |}).
  assert (waiting x' = waiting x ∨ ∃ k, waiting x = k :: waiting x') as [Hw|[k Hw]].
  { assert (∃ m, archiver_message (rn_archiver x) = Some m) as [[m q] Hm]
      by (destruct (rn_archiver x); [done|by eexists..]).
    unfold waiting, archiver_numbers. simpl. rewrite Hm.
    destruct res as [pc|e|msg]; simpl; [|right; by eexists..].
    destruct (archiver_action_next _ _ _ _ _ Hz Hr) as [_ [->|[-> _]]];
      [left; by rewrite Hm|right; by eexists]. }
  - exists r. split; [|by left]. split; try done. by rewrite Hw.
  - exists (mk_ring (rg_place r) (rg_published r) (waiting x')). split; [by split|].
    right. destruct r as [pl pb w]. simpl in *. rewrite Hwt, Hw. constructor.
Qed.

(** A step of the initializer, of the comparer, of the timer, of the node. *)
Lemma initializer_refines x r :
  running_inv x → in_ring x r → p_initializer (rn_tasks x) = true →
  (∀ n, (initializer_run (nt_db (p_store (rn_tasks x)))).1 = Ok n → first n) →
  ∃ r', in_ring {| rn_tasks := run_initializer (rn_tasks x);
                   rn_executor := rn_executor x; rn_archiver := rn_archiver x |} r' ∧
    (r' = r ∨ ring_step lo hi first r r').
Proof.
  intros I Hin Hi Hfirst. destruct (rv_initializer _ I Hi) as (He & Ha & Hec & Hcc & Hac & Htm & Hp).
  assert (rg_place r = AtInitializer) as Hri.
  { pose proof (ir_place _ _ Hin) as Hpl. unfold at_place in Hpl. rewrite Hi in Hpl.
    destruct (rg_place r); simplify_eq; done. }
  unfold run_initializer. destruct (initializer_run _) as [res db]. simpl in Hfirst.
  apply (in_ring_move x _ r (match res with Ok n => AtExecutor n | _ => Lost end) Hin);
    simpl; try done.
  - unfold at_place, executor_side, comparer_side. simpl. rewrite He, Hec, Hcc, Htm. by destruct res.
  - right. rewrite Hri. intros pb w. destruct res; constructor. by apply Hfirst.
Qed.

Lemma comparer_refines p x r s :
  in_ring x r → best_within lo hi x → (∀ n, n ∈ rg_numbers r → is_u32 n) →
  pipeline_step p TComparer (rn_tasks x) = Some s →
  ∃ r', in_ring {| rn_tasks := s; rn_executor := rn_executor x; rn_archiver := rn_archiver x |} r' ∧
    (r' = r ∨ ring_step lo hi first r r').
Proof.
  intros Hin [Hlo Hhi] Hu Hs. pose proof (ir_place _ _ Hin) as Hpl. unfold at_place in Hpl. simpl in Hs.
  destruct (p_comparer_chan (rn_tasks x)) as [|n chan] eqn:Hcc; [done|].
  destruct (p_timer (rn_tasks x)) eqn:Htm; [done|].
  unfold executor_side, comparer_side in Hpl. rewrite Hcc in Hpl.
  assert (rg_place r = AtComparer n ∧ chan = [] ∧ p_executor_chan (rn_tasks x) = [] ∧
    p_initializer (rn_tasks x) = false ∧ rn_executor x = ExIdle) as (Hri & -> & Hec & Hi & He)
    by (destruct (rn_executor x), (rg_place r); simpl in *; simplify_eq; done).
  assert (is_u32 n) as Hn by (apply Hu; unfold rg_numbers; rewrite Hri; by left).
  pose proof (compare_next best_is_u32 (p_main (rn_tasks x)) n Hn) as Hcmp.
  assert (∀ place', (∀ p w, ring_step lo hi first (mk_ring (AtComparer n) p w)
      (mk_ring place' p w)) →
    ring_step lo hi first r (mk_ring place' (rg_published r) (rg_waiting r))) as Hmove
    by (intros place' H; destruct r; simpl in *; rewrite Hri; apply H).
  destruct (compare _ _) as [k|k]; injection Hs as <-.
  - destruct Hcmp as (-> & Hb & _). eexists. split; [|right; apply Hmove; intros; constructor; lia].
    destruct Hin. split; simpl; try done.
    unfold at_place, executor_side, comparer_side. simpl. by rewrite He, Hec, Hi.
  - destruct Hcmp as [-> Hb]. eexists. split; [|right; apply Hmove; intros; constructor; lia].
    destruct Hin. split; simpl; try done.
    unfold at_place, executor_side, comparer_side. simpl. by rewrite He, Hec, Hi.
Qed.

Lemma timer_refines p x r s :
  in_ring x r → pipeline_step p TTimer (rn_tasks x) = Some s →
  ∃ r', in_ring {| rn_tasks := s; rn_executor := rn_executor x; rn_archiver := rn_archiver x |} r' ∧
    (r' = r ∨ ring_step lo hi first r r').
Proof.
  intros Hin Hs. pose proof (ir_place _ _ Hin) as Hpl. unfold at_place in Hpl. simpl in Hs.
  destruct (p_timer (rn_tasks x)) as [n|] eqn:Htm; [|done]. injection Hs as <-.
  unfold executor_side, comparer_side in Hpl.
  assert (rg_place r = AtTimer n ∧ p_executor_chan (rn_tasks x) = [] ∧
    p_comparer_chan (rn_tasks x) = [] ∧
    p_initializer (rn_tasks x) = false ∧ rn_executor x = ExIdle) as (Hri & Hec & Hcc & Hi & He)
    by (destruct (rn_executor x), (rg_place r); simpl in *; simplify_eq; done).
  apply (in_ring_move x _ r (AtExecutor n) Hin); simpl; try done.
  - unfold at_place, executor_side, comparer_side. simpl. by rewrite He, Hec, Hcc, Hi.
  - right. rewrite Hri. constructor.
Qed.

(** What the node imports is no step of the round. *)
Lemma import_refines p x r main ro s :
  in_ring x r → pipeline_step p (TImport main ro) (rn_tasks x) = Some s →
  in_ring {| rn_tasks := s; rn_executor := rn_executor x; rn_archiver := rn_archiver x |} r.
Proof. intros [Hpl Hp Hw] [= <-]. by split. Qed.

(** Every access of a task is nothing or a step of the round. *)
Lemma access_refines p t x x' r :
  running_inv x → own_message (rn_executor x) → in_ring x r → best_within lo hi x →
  (∀ n, n ∈ rg_numbers r → is_u32 n) →
  (p_initializer (rn_tasks x) = true →
     ∀ n, (initializer_run (nt_db (p_store (rn_tasks x)))).1 = Ok n → first n) →
  access p t x = Some x' →
  ∃ r', in_ring x' r' ∧ (r' = r ∨ ring_step lo hi first r r').
Proof.
  intros I Ho Hin Hw Hu Hfirst H. apply access_cases in H.
  destruct H as [n chan Hpc Hc Hal|res ex Hpc Hr|m q chan Hpc Hc Hal|res st Hpc Hr|t s Ht1 Ht2 Hs].
  - apply (in_ring_move x _ r (rg_place r)); simpl; try done; [|by left].
    pose proof (ir_place _ _ Hin) as Hpl. unfold executor_side, comparer_side in *. simpl.
    rewrite Hpc, Hc in Hpl. exact Hpl.
  - by eapply executor_refines.
  - apply (in_ring_move x _ r (rg_place r)); simpl; try done; [| |by left].
    + unfold waiting, archiver_numbers. simpl. by rewrite Hpc, Hc.
    + exact (ir_place _ _ Hin).
  - by eapply archiver_refines.
  - destruct t; try done; simpl in Hs.
    + destruct (p_initializer (rn_tasks x)) eqn:Hi; [|done]. injection Hs as <-.
      apply initializer_refines; auto.
    + by apply (comparer_refines p).
    + by apply (timer_refines p).
    + exists r. split; [by apply (import_refines p x r main readonly)|by left].
Qed.

(** A state of the tasks that the round accounts for, of a node that has had no
    number above [hi]. *)
Record sound_to (x : Running) : Prop := {
  sd_running : running_inv x;
  sd_message : own_message (rn_executor x);
  sd_ring : ∃ r, in_ring x r ∧ ring_inv hi first r;
}.

Context (hi_u32 : (hi ≤ u32_max)%Z) (first_u32 : ∀ n, first n → is_u32 n).

Lemma first_nonneg n : first n → (0 ≤ n)%Z.
Proof. intros H%first_u32. unfold is_u32 in H. lia. Qed.

Lemma admissible_u32 r n : admissible hi first (rg_published r) n → is_u32 n.
Proof.
  intros [(f & Hf & Hle) Hk _]. destruct Hk as [?|Hk]; [by apply first_u32|].
  apply first_nonneg in Hf. unfold is_u32. lia.
Qed.

(** The numbers on their way are [u32]s. *)
Lemma sound_numbers r : ring_inv hi first r → ∀ n, n ∈ rg_numbers r → is_u32 n.
Proof.
  intros Hr n Hn. apply (admissible_u32 r). apply (ring_admissible hi first); auto.
Qed.

Lemma access_sound p t x x' :
  sound_to x → best_within lo hi x →
  (p_initializer (rn_tasks x) = true →
     ∀ n, (initializer_run (nt_db (p_store (rn_tasks x)))).1 = Ok n → first n) →
  access p t x = Some x' → sound_to x'.
Proof.
  intros [I Ho (r & Hin & Hr)] Hw Hfirst Ha.
  destruct (access_refines p t x x' r I Ho Hin Hw (sound_numbers r Hr)) as (r' & Hin' & Hstep);
    [done..|].
  split; [by eapply access_inv|by eapply access_own_message|]. exists r'. split; [done|].
  destruct Hstep as [->|Hstep]; [done|].
  by eapply (ring_step_inv lo hi); [apply first_nonneg| |].
Qed.

Lemma start_sound `{PgConnect} config b r g start store p s0 :
  start_pipeline config b r g start store = Ok (Some (p, s0)) →
  (reset_force (cli config) = true → first (cli_block_num (cli config))) → sound_to (idle s0).
Proof.
  intros Hs Hf. split; [by eapply start_running_inv|done|].
  unfold start_pipeline in Hs. destruct start; [|done].
  apply obind_Ok in Hs as (k & _ & Hs). apply obind_Ok in Hs as (nt & _ & Hs).
  injection Hs as <- <-. destruct (reset_force (cli config)); simpl.
  - eexists. split; [|by apply ring_start_executor, Hf]. by split.
  - eexists. split; [|apply ring_start_initializer]. by split.
Qed.

(** What the round's invariant says of a sound state. *)
Lemma sound_in_order x : sound_to x →
  length (executor_side x) + length (comparer_side x)
    + match p_timer (rn_tasks x) with Some _ => 1 | None => 0 end ≤ 1 ∧
  contiguous (p_published (rn_tasks x)) ∧
  (∀ n, n ∈ p_published (rn_tasks x) ∨ n ∈ executor_side x → is_u32 n ∧
     (p_published (rn_tasks x) = [] ∨ head (p_published (rn_tasks x)) = Some n ∨ (n ≤ hi)%Z)) ∧
  ∃ taken, p_published (rn_tasks x) = taken ++ waiting x.
Proof.
  intros [_ _ (r & Hin & Hr)]. pose proof (ir_place _ _ Hin) as Hpl. unfold at_place in Hpl.
  rewrite <- (ir_published _ _ Hin), <- (ir_waiting _ _ Hin). split_and!.
  - destruct (rg_place r); injection Hpl as _ He Hc Ht; rewrite He, Hc, Ht; simpl; lia.
  - apply (ri_contiguous _ _ _ Hr).
  - intros n Hn. assert (admissible hi first (rg_published r) n) as Ha.
    { apply (ring_admissible hi first); [done|]. destruct Hn as [Hn|Hn]; [by right|left].
      unfold rg_numbers. destruct (rg_place r); injection Hpl as _ He _ _; rewrite He in Hn;
        first [done|by apply elem_of_nil in Hn]. }
    split; [by eapply admissible_u32|]. apply (adm_head _ _ _ _ Ha).
  - apply (ri_waiting _ _ _ Hr).
Qed.
End refines.

(** ** Properties *)

Section properties.
Context (best_is_u32 : ∀ db, is_u32 (best_number (bc_info db))).

(** The imports a claim is about: any, those that leave no best number above
    [hi], those that leave none below [lo]. *)
Definition any_import (x : Running) (t : Task) : Prop := True.
Definition imports_below (hi : Z) (x : Running) (t : Task) : Prop :=
  match t with TImport main _ => (best_number (bc_info main) ≤ hi)%Z | _ => True end.
Definition imports_above (lo : Z) (x : Running) (t : Task) : Prop :=
  match t with TImport main _ => (lo ≤ best_number (bc_info main))%Z | _ => True end.

(** No number of the node is above the largest [u32]. *)
Abbreviation sound := (sound_to u32_max).

Lemma best_any x : best_within 0 u32_max x.
Proof. apply best_is_u32. Qed.

(** Only an import changes the node's best block. *)
Lemma access_best p t x x' : access p t x = Some x' →
  match t with
  | TImport main _ => p_main (rn_tasks x') = main
  | _ => p_main (rn_tasks x') = p_main (rn_tasks x)
  end.
Proof.
  intros H. apply access_cases in H. destruct H as [| | | |t s Ht1 Ht2 Hs]; try done.
  destruct t; try done; simpl in Hs; simplify_eq/=; repeat (case_match; simplify_eq/=); try done.
  unfold run_initializer. by destruct (initializer_run _).
Qed.

Lemma initializer_u32 s n : (initializer_run s).1 = Ok n → is_u32 n.
Proof.
  unfold initializer_run, max_block_num, bind, conn, run_statement, ret. intros Hr.
  repeat (case_match; simplify_eq/=); try apply as_u32_range.
  all: match goal with H : as_u32 <$> ?m = Some ?n |- is_u32 ?n =>
         destruct m; simplify_eq/=; apply as_u32_range
       | _ => unfold is_u32, u32_max; lia end.
Qed.

Lemma interleaved_sound p ok x0 x : sound is_u32 x0 → interleaved p ok x0 x → sound is_u32 x.
Proof.
  intros S. induction 1 as [|x t x' _ IH _ Ha]; [done|].
  apply (access_sound best_is_u32 0 u32_max is_u32 (Z.le_refl _) (λ n H, H) p t x x' IH (best_any x));
    [|exact Ha].
  intros _ n. apply initializer_u32.
Qed.

(** While the node has no number above [hi]. *)
Lemma interleaved_below p hi x0 x : (hi ≤ u32_max)%Z →
  sound_to hi is_u32 x0 → best_within 0 hi x0 → interleaved p (imports_below hi) x0 x →
  sound_to hi is_u32 x ∧ best_within 0 hi x.
Proof.
  intros Hhi S0 B0. induction 1 as [|x t x' _ [S B] Hok Ha]; [done|]. split.
  - apply (access_sound best_is_u32 0 hi is_u32 Hhi (λ n H, H) p t x x' S B); [|exact Ha].
    intros _ n. apply initializer_u32.
  - apply access_best in Ha. unfold best_within in *. destruct t; simpl in Ha; rewrite Ha; try done.
    destruct (best_is_u32 main). by split.
Qed.

(** C1. However the accesses of the tasks interleave and whatever the node
    imports between any two of them (reorganisations and forks with a lower
    best number included), a started pipeline has at most one block number on
    its way; the numbers handed to the archiver form a contiguous sequence
    (each is its predecessor, again, or the next number); no successor
    computation overflows [u32]; the messages the archiver has not finished are
    the last ones handed over, in order; and, once something is handed over,
    every number handed over or with the executor, but the first one, is one
    the node has had: it is not above the highest best number of the run. *)
Theorem pipeline_in_order `{PgConnect} (config : ArchiveConfig) (b r : DB)
    (g : gmap Bytes Bytes) (start : bool) (store : NotifierState)
    (p : PipelineParts) (s0 : PipelineState) (x : Running) :
  start_pipeline config b r g start store = Ok (Some (p, s0)) →
  is_u32 (cli_block_num (cli config)) → interleaved p any_import (idle s0) x →
  let s := rn_tasks x in
  length (executor_side x) + length (comparer_side x)
    + match p_timer s with Some _ => 1 | None => 0 end ≤ 1 ∧
  (∀ i n m, p_published s !! i = Some n → p_published s !! S i = Some m →
     m = n ∨ m = (n + 1)%Z) ∧
  (∀ n, n ∈ p_published s ∨ n ∈ executor_side x → is_u32 n) ∧
  (∃ taken, p_published s = taken ++ waiting x) ∧
  ∀ highest, (best_number (bc_info b) ≤ highest)%Z →
    interleaved p (imports_below highest) (idle s0) x →
    ∀ n, n ∈ p_published s ∨ n ∈ executor_side x →
      p_published s = [] ∨ head (p_published s) = Some n ∨ (n ≤ highest)%Z.
Proof.
  intros Hs Hu Hx.
  destruct (sound_in_order u32_max is_u32 (Z.le_refl _) (λ n H, H) x) as (H1 & H2 & H3 & H4);
    [by eapply interleaved_sound; [eapply start_sound|]|].
  split_and!; [done|done|by apply H3|done|]. intros highest Hb Hi n Hn.
  destruct (interleaved_below p (Z.min highest u32_max) (idle s0) x) as [S _]; [lia|..].
  - by eapply start_sound.
  - pose proof (best_is_u32 b) as []. assert (p_main s0 = b) as Hm.
    { unfold start_pipeline in Hs. destruct start; [|done].
      apply obind_Ok in Hs as (k & _ & Hs). apply obind_Ok in Hs as (nt & _ & Hs).
      by injection Hs as <- <-. }
    unfold best_within. simpl. rewrite Hm. lia.
  - eapply interleaved_mono; [|exact Hi]. intros y [| | | | |main ro] Ht; try done.
    simpl in *. destruct (best_is_u32 main). lia.
  - destruct (sound_in_order _ is_u32 (Z.le_min_r _ _) (λ n H, H) x S) as (_ & _ & H5 & _).
    destruct (H5 n Hn) as [_ [?|[?|?]]]; [by left|by right; left|right; right; lia].
Qed.

(** Whole iterations are a special case. *)
Lemma reachable_interleaved `{PgConnect} config b r g start store p s0 s :
  start_pipeline config b r g start store = Ok (Some (p, s0)) →
  reachable p s0 s → interleaved p any_import (idle s0) (idle s).
Proof.
  intros Hs. induction 1 as [|s t s' _ IH Ht]; [apply interleaved_start|].
  apply (iteration_interleaved p any_import _ t s s'); try done.
  eapply interleaved_inv; [by eapply start_running_inv|exact IH].
Qed.

(** The same order for whole iterations. *)
Theorem iterations_in_order `{PgConnect} (config : ArchiveConfig) (b r : DB)
    (g : gmap Bytes Bytes) (start : bool) (store : NotifierState)
    (p : PipelineParts) (s0 s : PipelineState) :
  start_pipeline config b r g start store = Ok (Some (p, s0)) →
  is_u32 (cli_block_num (cli config)) → reachable p s0 s →
  length (p_executor_chan s) + length (p_comparer_chan s)
    + match p_timer s with Some _ => 1 | None => 0 end ≤ 1 ∧
  (∀ i n m, p_published s !! i = Some n → p_published s !! S i = Some m →
     m = n ∨ m = (n + 1)%Z) ∧
  (∀ n, n ∈ p_published s ∨ n ∈ p_executor_chan s → is_u32 n) ∧
  ∃ taken, p_published s = taken ++ map (bm_block_num ∘ fst) (p_archiver_chan s).
Proof.
  intros Hs Hu Hr. pose proof (reachable_interleaved _ _ _ _ _ _ _ _ _ Hs Hr) as Hx.
  destruct (sound_in_order u32_max is_u32 (Z.le_refl _) (λ n H, H) (idle s)) as (H1 & H2 & H3 & H4);
    [by eapply interleaved_sound; [eapply start_sound|]|].
  split_and!; [done|done|by apply H3|done].
Qed.
End properties.

(** Runs the first access of a schedule; [tac] rewrites what it reads. *)
Ltac access_step tac :=
  erewrite run_accesses_cons;
    [|cbn [access]; unfold executor_access; simpl; tac; simpl; reflexivity].

(** C11. A reorganisation splits a request.  When the node moves to another fork
    between the executor's read of a header and its read of the body, and to
    another one before its read of the runtime version, all by the number [n],
    the message for the archiver is made of the first fork's header, the
    second's body, the changes that this pair has on the second fork, and the
    third's version: it is stored under the hash of a block it is not. *)
Theorem reorg_splits_request (p : PipelineParts) (s : PipelineState) (n : Z)
    (main1 readonly1 main2 readonly2 : DB) (h : Header) (body : list Extrinsic)
    (j : option (list Justification)) (st : State) (ch : StorageChanges)
    (v : RuntimeVersion) (c : VersionCache) :
  let sb := {| sb_block := new_block h body; sb_justifications := j |} in
  p_executor_chan s = [n] → p_executor_alive s = true →
  bc_header (p_readonly s) (IdNumber n) = Ok (Some h) →
  bc_body readonly1 (IdNumber n) = Ok (Some body) →
  bc_justifications readonly1 (IdNumber n) = Ok j →
  state_at readonly1 (IdHash (parent_of sb)) = Ok st →
  execution main1 sb st = Ok ch →
  get_by_id readonly2 (IdNumber n) (p_cache s) = (Ok (Some v), c) →
  ∃ x, run_accesses p
         (replicate 2 TExecutor ++ TImport main1 readonly1 ::
          replicate 5 TExecutor ++ TImport main2 readonly2 :: replicate 3 TExecutor)
         (idle s) = Some x ∧
    let m := storages_map (executor_of p s) n (main_storage_changes ch) in
    p_archiver_chan (rn_tasks x) = p_archiver_chan s ++
      [(block_model n (rv_spec_version v) sb m, block_payload (rv_spec_version v) sb m)] ∧
    p_published (rn_tasks x) = p_published s ++ [n] ∧
    p_comparer_chan (rn_tasks x) = p_comparer_chan s ++ [n].
Proof.
  intros sb Hc Hal Hh Hb Hj Hst Hex Hv. unfold execution in Hex. cbn [replicate app].
  destruct (execute_block _ _ _) as [r api] eqn:Hx.
  assert (¬ is_Panic r) as Hr by (intros [m ->]; done).
  assert ((into_storage_changes api st None (parent_of sb)).1 = Ok ch) as Hch by (by destruct r).
  access_step ltac:(rewrite Hc, Hal).
  access_step ltac:(unfold bind, lift; rewrite Hh).
  access_step idtac.
  access_step ltac:(unfold bind, lift; rewrite Hb).
  access_step ltac:(unfold bind, lift; rewrite Hj).
  fold sb.
  access_step ltac:(unfold local_get_state; simpl; rewrite Hst).
  destruct r as [u|e|m]; [..|destruct Hr; by eexists].
  all: access_step ltac:(rewrite Hx).
  all: access_step ltac:(rewrite Hch).
  all: access_step idtac.
  all: access_step ltac:(unfold bind, block_spec_version; simpl; rewrite Hv).
  all: access_step idtac.
  all: access_step idtac.
  all: eexists; split; [reflexivity|]; simpl.
  all: rewrite ?drop_all, ?drop_app_length, ?app_nil_r; split_and!; reflexivity.
Qed.
End interleaving.

(** ** Witnesses *)

#[local] Existing Instance ref_chain.
#[local] Existing Instance ref_types.
#[local] Existing Instance ref_backend.
#[local] Existing Instance ref_runtime_types.
#[local] Existing Instance ref_runtime_api.
#[local] Existing Instance ref_version_api.
#[local] Existing Instance ref_json.
#[local] Existing Instance ref_payload_json.
#[local] Existing Instance kafka_reference.
#[local] Existing Instance pg_reference.
#[local] Existing Instance errors_reference.
#[local] Existing Instance connect_reference.

(** The sample chain with a block 3, and its fork with the other block 2. *)
Definition longer_db : ref_db := {|
  db_blocks := <[303%Z := sample_ref_block 3 3 202 ["c"]]> (db_blocks sample_db);
  db_best := 303; db_finalized := 0; db_genesis := 0; db_aux := ∅ |}%Z.
Definition forked_db : ref_db := {|
  db_blocks := db_blocks sample_db;
  db_best := 203; db_finalized := 0; db_genesis := 0; db_aux := ∅ |}%Z.

Lemma sample_blocks n block : readable sample_db n block → n = 0%Z ∨ n = 1%Z ∨ n = 2%Z.
Proof.
  assert (ref_chain_of sample_db (db_best sample_db) = [202; 101; 0]%Z) as Hc
    by (vm_compute; reflexivity).
  intros [H _]. assert (is_Some (ref_hash sample_db n)) as [h Hh].
  { simpl in H. unfold ref_lookup in H. simpl in H.
    destruct (ref_hash sample_db n); [by eexists|done]. }
  unfold ref_hash in Hh. rewrite Hc in Hh. apply head_Some in Hh as [l Hl].
  assert (h ∈ filter (λ h, ref_number sample_db h = Some n) [202; 101; 0]%Z) as Hin
    by (rewrite Hl; by left).
  apply list_elem_of_filter in Hin as [Hn Hin].
  rewrite !elem_of_cons, elem_of_nil in Hin. destruct Hin as [->|[->|[->|[]]]];
    vm_compute in Hn; injection Hn as <-; auto.
Qed.

Lemma longer_keeps : keeps_blocks sample_db sample_db longer_db longer_db.
Proof.
  split; intros n b; [intros H|intros H|intros st H; reflexivity|intros H|intros H; reflexivity];
    pose proof H as Hb; apply sample_blocks in Hb.
  - destruct H as [Hh He]. split; [rewrite <- Hh|rewrite <- He];
      (destruct Hb as [->|[->| ->]]; vm_compute; reflexivity).
  - assert (parent_of b = 0%Z ∨ parent_of b = 101%Z) as [->| ->].
    { destruct H as [H _].
      assert (omap_ok (fmap h_parent_hash) (bc_header (Backend := ref_backend) sample_db (IdNumber n))
          = Ok (Some 0%Z) ∨
        omap_ok (fmap h_parent_hash) (bc_header (Backend := ref_backend) sample_db (IdNumber n))
          = Ok (Some 101%Z)) as Hp
        by (destruct Hb as [->|[->| ->]]; [left|left|right]; vm_compute; reflexivity).
      rewrite H in Hp. destruct Hp as [[= Hp]|[= Hp]]; auto. }
    + vm_compute; reflexivity.
    + vm_compute; reflexivity.
  - destruct Hb as [->|[->| ->]]; vm_compute; reflexivity.
Qed.

(** The executor is in the middle of block 0 when block 3 is imported. *)
Definition cut_run : option Running :=
  run_accesses sample_parts (replicate 5 TExecutor) (idle (sample_start true)).

Lemma interleaving_refines_iterations_witness :
  ∃ x x', cut_run = Some x ∧ access sample_parts (TImport longer_db longer_db) x = Some x' ∧
    executor_number (rn_executor x') = Some 0%Z ∧ p_published (rn_tasks x') = [] ∧
    p_published (complete sample_parts x') = [0%Z] ∧
    reachable_by sample_parts keeps (sample_start true) (complete sample_parts x').
Proof.
  assert (match cut_run with
    | Some x => match access sample_parts (TImport longer_db longer_db) x with
        | Some x' => executor_number (rn_executor x') = Some 0%Z ∧ p_published (rn_tasks x') = [] ∧
            p_published (complete sample_parts x') = [0%Z]
        | None => False end
    | None => False end) as H by (vm_compute; done).
  destruct cut_run as [x|] eqn:Hx; [|done].
  destruct (access sample_parts _ x) as [x'|] eqn:Hx'; [|done].
  exists x, x'. destruct H as (H1 & H2 & H3). split_and!; [done..|].
  destruct (interleaving_refines_iterations (BE := ref_backend) (sample_config true) sample_db sample_db {["g" := "1"]}
    true notifier_start sample_parts (sample_start true) (sample_started true)) as [H _].
  apply H. eapply interleaved_step; [| |exact Hx'].
  - apply (run_accesses_interleaved _ _ _ (replicate 5 TExecutor) (idle (sample_start true)));
      [|apply interleaved_start|exact Hx].
    intros y t Ht%elem_of_replicate_inv. subst t. by split.
  - assert (rn_executor x = rn_executor (default (idle (sample_start true)) cut_run) ∧
      p_main (rn_tasks x) = sample_db ∧ p_readonly (rn_tasks x) = sample_db) as (Hpc & Hm & Hr)
      by (rewrite Hx; split; [reflexivity|];
          change x with (default (idle (sample_start true)) (Some x)); rewrite <- Hx; by split).
    split.
    + simpl. rewrite Hm, Hr. exact longer_keeps.
    + simpl. rewrite Hpc. vm_compute. exact I.
Defined.

(** The executor has handed over blocks 0 and 1 when the node falls back to its
    genesis block, and asks the comparer about 1. *)
Definition genesis_db : ref_db := {|
  db_blocks := db_blocks sample_db;
  db_best := 0; db_finalized := 0; db_genesis := 0; db_aux := ∅ |}%Z.
Definition fallen_schedule : list Task :=
  replicate 10 TExecutor ++ TComparer :: replicate 9 TExecutor ++ [TImport genesis_db genesis_db].
Definition fallen_run : option Running :=
  run_accesses sample_parts fallen_schedule (idle (sample_start true)).

Lemma pipeline_in_order_witness :
  ∃ x, fallen_run = Some x ∧ p_published (rn_tasks x) = [0; 1]%Z ∧ comparer_side x = [1%Z] ∧
    best_number (bc_info (p_main (rn_tasks x))) = 0%Z ∧
    length (executor_side x) + length (comparer_side x)
      + match p_timer (rn_tasks x) with Some _ => 1 | None => 0 end ≤ 1 ∧
    ∀ n, n ∈ p_published (rn_tasks x) → n = 0%Z ∨ (n ≤ 2)%Z.
Proof.
  assert (match fallen_run with
    | Some x => (p_published (rn_tasks x), comparer_side x,
        best_number (bc_info (p_main (rn_tasks x)))) = ([0; 1], [1], 0)%Z
    | None => False end) as H by (vm_compute; reflexivity).
  destruct fallen_run as [x|] eqn:Hx; [|destruct H]. injection H as H1 H2 H3.
  exists x. split; [reflexivity|]. split; [exact H1|]. split; [exact H2|]. split; [exact H3|].
  assert (∀ ok : Running → Task → Prop, (∀ y t, t ∈ fallen_schedule → ok y t) →
    interleaved sample_parts ok (idle (sample_start true)) x) as Hi.
  { intros ok Hok. eapply run_accesses_interleaved; [exact Hok|apply interleaved_start|exact Hx]. }
  destruct (pipeline_in_order (BT := ref_types) (BE := ref_backend) ref_best_u32 (sample_config true) sample_db
    sample_db {["g" := "1"]} true notifier_start sample_parts (sample_start true) x
    (sample_started true)) as (H4 & _ & _ & _ & H5);
    [split; [done|discriminate]|by apply Hi|].
  split; [exact H4|]. intros n Hn.
  destruct (H5 2%Z) with (n := n) as [H|[H|H]].
  - apply Z.leb_le. vm_compute. reflexivity.
  - apply Hi. intros y t Ht. unfold fallen_schedule in Ht.
    rewrite elem_of_app, elem_of_cons, elem_of_app, list_elem_of_singleton in Ht.
    destruct Ht as [->%elem_of_replicate_inv|[->|[->%elem_of_replicate_inv| ->]]]; try exact I.
    apply Z.leb_le. vm_compute. reflexivity.
  - by left.
  - rewrite H1 in H. discriminate H.
  - rewrite H1 in H. injection H as <-. by left.
  - by right.
Defined.

(** Block 2 is 202, which has the upgrade to version 2; on the fork it is 203.
    The node turns to the fork and back while the executor is at it. *)
Definition mixed_block : SignedBlock :=
  {| sb_block := new_block (sample_header 2 2 101) ["b"]; sb_justifications := None |}.
Definition mixed_execution : outcome string StorageChanges := execution forked_db mixed_block ["a"].
Definition tip_version : outcome ServiceError (option RuntimeVersion) * VersionCache :=
  get_by_id sample_db (IdNumber 2) version_cache_new.

Lemma reorg_splits_request_witness :
  bc_body (Backend := ref_backend) sample_db (IdNumber 2) = Ok (Some ["upgrade"]) ∧
  ∃ x, run_accesses sample_parts
      (replicate 2 TExecutor ++ TImport forked_db forked_db ::
       replicate 5 TExecutor ++ TImport sample_db sample_db :: replicate 3 TExecutor)
      (idle sample_tip) = Some x ∧
    bm_block_hash ∘ fst <$> p_archiver_chan (rn_tasks x) = ["202"] ∧
    bm_extrinsics ∘ fst <$> p_archiver_chan (rn_tasks x) = [["b"]] ∧
    bm_spec_version ∘ fst <$> p_archiver_chan (rn_tasks x) = [2%Z].
Proof.
  split; [vm_compute; reflexivity|].
  assert (match mixed_execution with Ok _ => true | _ => false end = true) as Hex
    by (vm_compute; reflexivity).
  destruct mixed_execution as [ch| |] eqn:Hch; [clear Hex|discriminate..].
  assert (match tip_version with
    | (Ok (Some v), _) => bool_decide (v = 2%Z) | _ => false end = true) as Hv
    by (vm_compute; reflexivity).
  destruct tip_version as [[[v|]| |] c] eqn:Hg;
    [|discriminate..]. apply bool_decide_eq_true in Hv. subst v.
  destruct (reorg_splits_request (BT := ref_types) (BE := ref_backend) sample_parts sample_tip 2
    forked_db forked_db sample_db sample_db (sample_header 2 2 101) ["b"] None ["a"] ch 2%Z c)
    as (x & Hx & Ha & _).
  - reflexivity.
  - reflexivity.
  - vm_compute. reflexivity.
  - vm_compute. reflexivity.
  - vm_compute. reflexivity.
  - vm_compute. reflexivity.
  - exact Hch.
  - exact Hg.
  - exists x. split; [exact Hx|]. rewrite Ha. split_and!; reflexivity.
Defined.
