(* ===== verification/Recovery.v ===== *)
(** * Restarts and kills of the archive

    A session is a run of the tasks on the tables an earlier one left, at the
    grain of their accesses ([Interleaving.v]), that ends anywhere: when a
    task has failed, or because the program is killed between two accesses.
    What any sequence of sessions keeps, and what the next one repairs.  The
    first number of a session without [reset_force] is the largest stored one,
    so a session only ever writes rows at or above it. *)

From S2P Require Import Prelude Chain Postgres Kafka ArchiveCore VersionCache.
From S2P Require Import Reference BlockExecutor Notifier Ring Steps Pipeline Interleaving.

Section recovery.
Context `{CT : ChainTypes, BT : BackendTypes, BE : !Backend, RT : RuntimeTypes,
  RA : !RuntimeApi, VA : !VersionApi, JT : JsonTypes, PG : PgService,
  KS : KafkaService, PJ : !PayloadJson, AE : ArchiveErrors, PC : PgConnect, PL : !PgLaws}.
Context (best_is_u32 : ∀ db, is_u32 (best_number (bc_info db))).

Abbreviation tables s := (pg_tables (nt_db s)).
Abbreviation rows s := (blocks (pg_tables (nt_db s))).
Abbreviation log s := (k_log (nt_kafka s)).
Abbreviation sound := (sound_to u32_max).

(** A sound state stays so, whatever the node's best number does. *)
Lemma sound_access (first : Z → Prop) p t x x' : (∀ n, first n → is_u32 n) → sound first x →
  (p_initializer (rn_tasks x) = true →
     ∀ n, (initializer_run (nt_db (p_store (rn_tasks x)))).1 = Ok n → first n) →
  access p t x = Some x' → sound first x'.
Proof.
  intros Hf S. apply (access_sound best_is_u32 0 u32_max first (Z.le_refl _) Hf p t x x' S).
  by apply best_any.
Qed.

(** ** What one access of the archiver does *)

Lemma insert_block_row (m : BlockModel) t r t' :
  is_u32 (bm_block_num m) → execute (gen_query m) t = Ok (r, t') →
  ∃ b, blocks t' = <[bm_block_num m := b]> (blocks t).
Proof.
  intros Hn. unfold execute; simpl.
  destruct (bind_u32 (bm_spec_version m)) as [sv|]; simpl; [|done].
  destruct (bind_u32 (bm_block_num m)) as [bn|] eqn:Ebn; simpl; [|done].
  destruct (has_partition bn && _ && _) eqn:E; [|done]. intros [= _ <-].
  apply andb_true_iff in E as [[E1%has_partition_range _]%andb_true_iff _].
  pose proof (bind_u32_neg _ _ Hn Ebn ltac:(lia)) as ->. by eexists.
Qed.

Lemma insert_metadata_blocks (m : MetadataModel) s :
  blocks (pg_tables (db_insert m s).2) = blocks (pg_tables s).
Proof.
  apply (db_insert_preserves (λ t, blocks t = blocks (pg_tables s))); [|done].
  intros r t'. unfold execute; simpl.
  destruct (bind_u32 _), (bind_u32 _); simpl; try done. case_match; [|done].
  by intros [= _ <-].
Qed.

(** A request to the database, nothing, or a record sent. *)
Inductive archiver_effect (self : Notifier) (s : NotifierState) :
    ArchiverPc → outcome Error ArchiverPc → NotifierState → Prop :=
  | effect_check m q r d :
      check_if_metadata_exists (bm_spec_version m) (nt_db s) = (r, d) →
      archiver_effect self s (ArCheckMetadata m q)
        (omap_ok (λ ex : bool, if ex then ArInsertBlock m q else ArFetchMetadata m q)
           (omap_err (λ _, BackendError "db") r))
        {| nt_db := d; nt_kafka := nt_kafka s |}
  | effect_fetch m q r :
      archiver_effect self s (ArFetchMetadata m q) (omap_ok (ArInsertMetadata m q) r) s
  | effect_insert_metadata m q meta r d :
      db_insert (metadata_model m q meta) (nt_db s) = (r, d) →
      archiver_effect self s (ArInsertMetadata m q meta)
        (omap_ok (λ _, ArSendMetadata m q meta) (omap_err storage_of_sqlx r))
        {| nt_db := d; nt_kafka := nt_kafka s |}
  | effect_send_metadata m q meta r k :
      kafka_send (nt_producer self) (metadata_payload m q meta) (nt_kafka s) = (r, k) →
      archiver_effect self s (ArSendMetadata m q meta)
        (omap_ok (λ _, ArInsertBlock m q) (omap_err storage_of_kafka r))
        {| nt_db := nt_db s; nt_kafka := k |}
  | effect_insert_block m q r d :
      db_insert m (nt_db s) = (r, d) →
      archiver_effect self s (ArInsertBlock m q)
        (omap_ok (λ _, ArSendBlock m q) (omap_err storage_of_sqlx r))
        {| nt_db := d; nt_kafka := nt_kafka s |}
  | effect_send_block m q r k :
      kafka_send (nt_producer self) q (nt_kafka s) = (r, k) →
      archiver_effect self s (ArSendBlock m q)
        (omap_ok (λ _, ArIdle) (omap_err storage_of_kafka r))
        {| nt_db := nt_db s; nt_kafka := k |}.

Lemma archiver_action_effect self pc s r s' : archiver_rank pc ≠ 0 →
  archiver_action self pc s = (r, s') → archiver_effect self s pc r s'.
Proof.
  intros Hz. destruct pc as [|m q|m q|m q meta|m q meta|m q|m q]; [done|..];
    cbn [archiver_action]; unfold bind at 1; rewrite ?with_db_run, ?with_kafka_run.
  - destruct (check_if_metadata_exists _ _) as [r1 d] eqn:H.
    pose proof (effect_check self s m q r1 d H) as E. destruct r1; by intros [= <- <-].
  - unfold fetch_metadata, lift.
    pose proof (effect_fetch self s m q (unwrap (runtime_metadata (runtime_api (nt_client self))
      (IdNumber (bm_block_num m))).1 "get metadata error")) as E.
    destruct (unwrap _ _); by intros [= <- <-].
  - match goal with |- context [db_insert ?x ?y] => destruct (db_insert x y) as [r1 d] eqn:H end.
    pose proof (effect_insert_metadata self s m q meta r1 d H) as E.
    destruct r1; by intros [= <- <-].
  - match goal with |- context [kafka_send ?x ?y ?z] => destruct (kafka_send x y z) as [r1 d] eqn:H end.
    pose proof (effect_send_metadata self s m q meta r1 d H) as E.
    destruct r1; by intros [= <- <-].
  - match goal with |- context [db_insert ?x ?y] => destruct (db_insert x y) as [r1 d] eqn:H end.
    pose proof (effect_insert_block self s m q r1 d H) as E. destruct r1; by intros [= <- <-].
  - match goal with |- context [kafka_send ?x ?y ?z] => destruct (kafka_send x y z) as [r1 d] eqn:H end.
    pose proof (effect_send_block self s m q r1 d H) as E. destruct r1; by intros [= <- <-].
Qed.

(** Whatever fails, the tables stay well formed and only the row of the message
    at hand may change; it is never removed. *)
Lemma archiver_effect_rows self s pc r s' :
  archiver_effect self s pc r s' → pg_wf (nt_db s) →
  (∀ m q, archiver_message pc = Some (m, q) → is_u32 (bm_block_num m)) →
  pg_wf (nt_db s') ∧
  (rows s' = rows s ∨
   ∃ m q b, pc = ArInsertBlock m q ∧ rows s' = <[bm_block_num m := b]> (rows s)).
Proof.
  intros H Hwf Hu. destruct H as [m q r d Hd|m q r|m q meta r d Hd|m q meta r k Hk|m q r d Hd|m q r k Hk];
    unfold pg_wf in *; simpl; auto.
  - pose proof (check_exists_tables (bm_spec_version m) (nt_db s)) as Hc. rewrite Hd in Hc.
    simpl in Hc. rewrite Hc. auto.
  - pose proof (run_pg_op_wf (PgInsertMetadata (metadata_model m q meta)) _ Hwf) as Hw.
    pose proof (insert_metadata_blocks (metadata_model m q meta) (nt_db s)) as Hb.
    cbn [run_pg_op] in Hw. rewrite Hd in Hw, Hb. auto.
  - pose proof (run_pg_op_wf (PgInsertBlock m) _ Hwf) as Hw. cbn [run_pg_op] in Hw.
    rewrite Hd in Hw. split; [done|].
    assert (blocks (pg_tables (db_insert m (nt_db s)).2) = rows s ∨ ∃ b,
      blocks (pg_tables (db_insert m (nt_db s)).2) = <[bm_block_num m := b]> (rows s)) as H3.
    { apply (db_insert_preserves (λ t, blocks t = rows s ∨ ∃ b,
        blocks t = <[bm_block_num m := b]> (rows s))); [|by left].
      intros r' t' Hx. right. eapply insert_block_row; [|exact Hx]. by apply (Hu m q). }
    rewrite Hd in H3. simpl in H3. destruct H3 as [?|[b ?]]; [by left|right; by eauto 6].
Qed.

Lemma initializer_tables s : pg_tables (initializer_run s).2 = pg_tables s.
Proof.
  unfold initializer_run, max_block_num, bind, conn, run_statement, ret, select_max_block_num.
  destruct (acquire_fault _); [done|]. simpl. by destruct (stmt_fault _).
Qed.

(** Whatever the server does, the initializer answers the largest stored number
    or fails. *)
Lemma initializer_stored s n : pg_wf s → (initializer_run s).1 = Ok n →
  n = match select_max_block_num (pg_tables s) with Ok (Some k, _) => k | _ => 0%Z end.
Proof.
  intros Hwf.
  unfold initializer_run, max_block_num, bind, conn, run_statement, ret, select_max_block_num.
  destruct (acquire_fault _); [done|]. simpl.
  pose proof (fold_max_spec (blocks (pg_tables s))) as H. destruct (map_fold _ _ _) as [j|]; simpl.
  - destruct H as [[b Hb] _]. pose proof (wf_blocks _ Hwf _ _ Hb) as (_ & Hn & _).
    destruct (stmt_fault _); simpl; try done. intros [= <-].
    apply as_u32_id. unfold is_u32, u32_max. lia.
  - destruct (stmt_fault _); simpl; try done. by intros [= <-].
Qed.

(** Only the archiver changes what is stored. *)
Lemma access_store p t x x' : access p t x = Some x' →
  (tables (p_store (rn_tasks x')) = tables (p_store (rn_tasks x)) ∧
   nt_kafka (p_store (rn_tasks x')) = nt_kafka (p_store (rn_tasks x)) ∧
   (rn_archiver x' = rn_archiver x ∨
    rn_archiver x = ArIdle ∧ ∃ m q, rn_archiver x' = ArCheckMetadata m q)) ∨
  ∃ r, archiver_rank (rn_archiver x) ≠ 0 ∧ rn_archiver x' = next_pc ArIdle r ∧
    archiver_action (notifier_of p (rn_tasks x)) (rn_archiver x) (p_store (rn_tasks x)) =
      (r, p_store (rn_tasks x')) ∧
    archiver_effect (notifier_of p (rn_tasks x)) (p_store (rn_tasks x)) (rn_archiver x) r
      (p_store (rn_tasks x')).
Proof.
  intros H. apply access_cases in H.
  destruct H as [n chan Hpc Hc Hal|r ex Hpc Hr|m q chan Hpc Hc Hal|r st Hpc Hr|t s Ht1 Ht2 Hs]; simpl;
    [left; by auto|left; by auto|left; by eauto 8|right; exists r; eauto using archiver_action_effect|left].
  destruct t; try done; simpl in Hs; simplify_eq/=; repeat (case_match; simplify_eq/=); auto.
  unfold run_initializer. pose proof (initializer_tables (nt_db (p_store (rn_tasks x)))) as Ht.
  destruct (initializer_run _) as [r d]. simpl in *. auto.
Qed.

(** Until the initializer has run, nothing is stored. *)
Lemma access_initializer p t x x' : running_inv x → access p t x = Some x' →
  p_initializer (rn_tasks x') = true →
  p_initializer (rn_tasks x) = true ∧ tables (p_store (rn_tasks x')) = tables (p_store (rn_tasks x)).
Proof.
  intros I H Hi. assert (p_initializer (rn_tasks x) = true) as Hi0.
  { apply access_cases in H. destruct H as [| | | |t s Ht1 Ht2 Hs]; try done. simpl in *.
    destruct t; try done; simpl in Hs; simplify_eq/=; by repeat (case_match; simplify_eq/=). }
  split; [done|]. destruct (rv_initializer _ I Hi0) as (_ & Ha & _).
  destruct (access_store p t x x' H) as [(Ht & _)|(r & Hz & _)]; [done|]. by rewrite Ha in Hz.
Qed.

(** What is handed over waits; what no longer waits is finished. *)
Lemma access_published p t x x' : access p t x = Some x' →
  (∃ l, p_published (rn_tasks x') = p_published (rn_tasks x) ++ l ∧ waiting x' = waiting x ++ l ∧
     (rn_archiver x' = ArIdle → rn_archiver x = ArIdle)) ∨
  ∃ m q, archiver_message (rn_archiver x) = Some (m, q) ∧ rn_archiver x' = ArIdle ∧
    p_published (rn_tasks x') = p_published (rn_tasks x) ∧
    waiting x = bm_block_num m :: waiting x'.
Proof.
  intros H. apply access_cases in H. unfold waiting, archiver_numbers.
  destruct H as [n chan Hpc Hc Hal|r ex Hpc Hr|m q chan Hpc Hc Hal|r st Hpc Hr|t s Ht1 Ht2 Hs]; simpl.
  - left. exists []. by rewrite !app_nil_r.
  - left. rewrite executor_state_behind, executor_action_behind in Hr. injection Hr as _ <-. simpl.
    rewrite drop_app_length, map_app. eexists. split; [done|]. by rewrite app_assoc.
  - left. exists []. rewrite Hpc, Hc, !app_nil_r. done.
  - assert (∃ m q, archiver_message (rn_archiver x) = Some (m, q)) as (m & q & Hm)
      by (destruct (rn_archiver x); [done|by eauto..]).
    rewrite Hm. destruct r as [pc|e|msg]; simpl; [|right; by eauto 8..].
    destruct (archiver_action_next _ _ _ _ _ Hpc Hr) as [_ [Hn|[-> _]]].
    + left. exists []. rewrite Hn, Hm, !app_nil_r. split_and!; [done..|]. intros ->. simpl in Hn.
      by rewrite Hm in Hn.
    + right. by eauto 8.
  - left. exists []. rewrite !app_nil_r.
    destruct t; try done; simpl in Hs; simplify_eq/=; repeat (case_match; simplify_eq/=); try done.
    unfold run_initializer. by destruct (initializer_run _).
Qed.

(** ** Sessions *)

(** One run of the tasks from a database an earlier one left, killed anywhere;
    [starts] says how it is configured, [ok] which accesses may happen. *)
Definition session (starts : ArchiveConfig → PipelineParts → Prop)
    (ok : Running → Task → Prop) (store store' : NotifierState) : Prop :=
  ∃ config b r g p s0 x,
    start_pipeline config b r g true store = Ok (Some (p, s0)) ∧ starts config p ∧
    interleaved p ok (idle s0) x ∧ store' = p_store (rn_tasks x).

Lemma start_store config b r g store p s0 :
  start_pipeline config b r g true store = Ok (Some (p, s0)) →
  p_store s0 = store ∧ p_published s0 = [] ∧ p_archiver_chan s0 = [].
Proof.
  unfold start_pipeline. intros Hs.
  apply obind_Ok in Hs as (k & _ & Hs). apply obind_Ok in Hs as (nt & _ & Hs).
  by injection Hs as <- <-.
Qed.

(** ** Rows below the largest one *)

(** With [reset_force] a session starts above [m]. *)
Definition starts_above (m : Z) (config : ArchiveConfig) (p : PipelineParts) : Prop :=
  reset_force (cli config) = true →
  is_u32 (cli_block_num (cli config)) ∧ (m < cli_block_num (cli config))%Z.

(** The row of [m] is [v], and something is stored further up. *)
Definition settled (m : Z) (v : option BlockModel) (s : NotifierState) : Prop :=
  pg_wf (nt_db s) ∧ rows s !! m = v ∧ ∃ k, (m < k)%Z ∧ is_Some (rows s !! k).

Definition above (m n : Z) : Prop := is_u32 n ∧ (m < n)%Z.

Lemma settled_tables m v s s' : tables s' = tables s → settled m v s → settled m v s'.
Proof. unfold settled, pg_wf. by intros ->. Qed.

(** The initializer hands over the largest stored number. *)
Lemma initializer_above s m v : settled m v s →
  ∀ n, (initializer_run (nt_db s)).1 = Ok n → above m n.
Proof.
  intros (Hwf & _ & k & Hk & Hrow) n.
  intros ->%initializer_stored; [|done]. unfold select_max_block_num, above.
  pose proof (fold_max_spec (rows s)) as H. destruct (map_fold _ _ _) as [j|]; simpl.
  - destruct H as [[b Hb] Hmax]. pose proof (wf_blocks _ Hwf _ _ Hb) as (_ & Hn & _).
    pose proof (Hmax k Hrow). unfold is_u32, u32_max. lia.
  - exfalso. rewrite H, lookup_empty in Hrow. by destruct Hrow.
Qed.

(** The number of the message at hand was handed over. *)
Lemma waiting_above first x m q :
  sound first x → archiver_message (rn_archiver x) = Some (m, q) →
  ∃ f, first f ∧ (f ≤ bm_block_num m)%Z.
Proof.
  intros [_ _ (r & Hin & Hr)] Hm. apply (adm_above u32_max _ (rg_published r)).
  apply (ri_published _ _ _ Hr). destruct (ri_waiting _ _ _ Hr) as [tk ->].
  rewrite (ir_waiting _ _ Hin). unfold waiting. rewrite Hm. simpl.
  apply elem_of_app. right. by left.
Qed.

Lemma waiting_u32 first x m q : (∀ n, first n → is_u32 n) →
  sound first x → archiver_message (rn_archiver x) = Some (m, q) → is_u32 (bm_block_num m).
Proof.
  intros Hf S Hm.
  destruct (sound_in_order u32_max first (Z.le_refl _) Hf x S) as (_ & _ & Hu & tk & Htk). apply Hu. left.
  rewrite Htk. unfold waiting. rewrite Hm. simpl. apply elem_of_app. right. by left.
Qed.

Lemma settled_access p t x x' m v :
  sound (above m) x → settled m v (p_store (rn_tasks x)) → access p t x = Some x' →
  sound (above m) x' ∧ settled m v (p_store (rn_tasks x')).
Proof.
  intros S Hst Ha. split.
  { eapply sound_access; [|exact S| |exact Ha]; [by intros n []|].
    intros _. by eapply initializer_above. }
  destruct (access_store p t x x' Ha) as [(Ht & _)|(r & Hz & _ & _ & He)];
    [by apply (settled_tables m v (p_store (rn_tasks x)))|].
  destruct Hst as (Hwf & Hm & k & Hk & Hrow).
  destruct (archiver_effect_rows _ _ _ _ _ He Hwf) as [Hwf' Hr].
  { intros m' q Hm'. apply (waiting_u32 (above m) x m' q); [by intros n []|done|done]. }
  split; [done|]. destruct Hr as [->|(m' & q & b & Hpc & ->)]; [by eauto|].
  destruct (waiting_above (above m) x m' q S) as (f & [_ Hf] & Hle); [by rewrite Hpc|].
  split; [by rewrite lookup_insert_ne by lia|]. exists k. split; [done|].
  rewrite lookup_insert_is_Some'. by right.
Qed.

Lemma settled_interleaved p ok m v x0 x :
  sound (above m) x0 → settled m v (p_store (rn_tasks x0)) → interleaved p ok x0 x →
  settled m v (p_store (rn_tasks x)).
Proof.
  intros S0 H0 Hx.
  assert (sound (above m) x ∧ settled m v (p_store (rn_tasks x))) as [_ H]; [|exact H].
  induction Hx as [|x t x' _ [S H] _ Ha]; [done|]. by eapply settled_access.
Qed.

Lemma settled_sessions m v ok store store' :
  settled m v store → rtc (session (starts_above m) ok) store store' → settled m v store'.
Proof.
  intros H Hr. induction Hr as [|st st1 st2 Hs _ IH]; [done|]. apply IH.
  destruct Hs as (config & b & r & g & p & s0 & x & Hs & Hf & Hx & ->).
  destruct (start_store _ _ _ _ _ _ _ Hs) as (Hst & _).
  apply (settled_interleaved p ok m v (idle s0)); [|simpl; by rewrite Hst|exact Hx].
  eapply start_sound; [exact Hs|]. exact Hf.
Qed.

(** C9. Rows below the largest stored one are final.  Whatever runs, however the
    accesses of the tasks interleave, whatever the node imports (a
    reorganisation included), whatever fails, and wherever and however often
    the program is killed and started again, the row of a number below the
    largest stored one stays as it is, unless a session is forced to start at
    or below it: a block that has been retracted keeps its row, and a missing
    block stays missing. *)
Theorem settled_row_is_final (m k : Z) (store store' : NotifierState) :
  pg_wf (nt_db store) → (m < k)%Z → is_Some (blocks (pg_tables (nt_db store)) !! k) →
  rtc (session (starts_above m) any_import) store store' →
  blocks (pg_tables (nt_db store')) !! m = blocks (pg_tables (nt_db store)) !! m ∧
  ∃ k', (m < k')%Z ∧ is_Some (blocks (pg_tables (nt_db store')) !! k').
Proof.
  intros Hwf Hmk Hk Hr.
  destruct (settled_sessions m (rows store !! m) any_import store store') as (_ & H); [|exact Hr|exact H].
  split; [done|]. split; [done|]. by exists k.
Qed.

(** A gap stays. *)
Theorem missing_block_stays_missing (m k : Z) (store store' : NotifierState) :
  pg_wf (nt_db store) → (m < k)%Z → is_Some (blocks (pg_tables (nt_db store)) !! k) →
  blocks (pg_tables (nt_db store)) !! m = None →
  rtc (session (starts_above m) any_import) store store' →
  blocks (pg_tables (nt_db store')) !! m = None ∧
  ∃ k', (m < k')%Z ∧ is_Some (blocks (pg_tables (nt_db store')) !! k').
Proof.
  intros Hwf Hmk Hk Hm Hr.
  destruct (settled_sessions m None any_import store store') as (_ & H); [|exact Hr|exact H].
  split; [done|]. split; [done|]. by exists k.
Qed.

(** ** Kafka and the database *)

Section kafka.
Context (producer : KafkaProducer).
(** The backend stores a block under the number of its header, and a version
    is a [u32]. *)
Context (block_numbers : ∀ db n h, bc_header db (IdNumber n) = Ok (Some h) → h_number h = n).
Context (versions_u32 : ∀ v, is_u32 (rv_spec_version v)).

(** A message at hand is of one block, as is the request of the executor. *)
Record messages_wf (x : Running) : Prop := {
  mw_header n h : executor_header (rn_executor x) = Some (n, h) → h_number h = n;
  mw_message msg : msg ∈ messages x → wf_msg msg;
}.

Lemma executor_number_u32 first x n : (∀ k, first k → is_u32 k) → sound first x →
  executor_number (rn_executor x) = Some n → 1 < executor_rank (rn_executor x) → is_u32 n.
Proof.
  intros Hf S Hn Hr. destruct (sound_in_order u32_max first (Z.le_refl _) Hf x S) as (_ & _ & Hu & _).
  apply Hu. right. unfold executor_side.
  destruct (rn_executor x); simpl in *; try lia; injection Hn as ->; by left.
Qed.

Lemma messages_wf_access first p t x x' : (∀ k, first k → is_u32 k) → sound first x →
  messages_wf x → access p t x = Some x' → messages_wf x'.
Proof.
  intros Hf S [Hb Hm] Ha. split.
  - intros n h Hn. destruct (access_header p t x x' n h Ha Hn) as [Hold|Hl]; eauto.
  - intros msg Hin.
    destruct (access_messages p t x x' msg Ha Hin) as [Hold|(n & sb & ch & v & Hpc & ->)]; [by apply Hm|].
    unfold built_message, wf_msg. simpl. split_and!; [|done| |apply versions_u32].
    + symmetry. apply Hb. by rewrite Hpc.
    + apply (executor_number_u32 first x n Hf S); rewrite Hpc; [done|simpl; lia].
Qed.

(** The record about to be sent has its row. *)
Definition announced (t : PgTables) (pc : ArchiverPc) : Prop :=
  match pc with
  | ArSendMetadata m _ _ => is_Some (metadatas t !! bm_spec_version m)
  | ArSendBlock m _ => is_Some (blocks t !! bm_block_num m)
  | _ => True
  end.

Lemma archiver_effect_announced self s pc r s' :
  archiver_effect self s pc r s' → pg_wf (nt_db s) →
  (∀ m q, archiver_message pc = Some (m, q) → wf_msg (m, q)) →
  announced (tables s') (next_pc ArIdle r).
Proof.
  intros H Hwf Hm.
  destruct H as [m q r d Hd|m q r|m q meta r d Hd|m q meta r k Hk|m q r d Hd|m q r k Hk];
    destruct r as [a|e|msg]; simpl; try done; try by destruct a.
  - apply (insert_metadata_Ok (metadata_model m q meta) (nt_db s) a d); [|done].
    by destruct (Hm m q eq_refl) as (_ & _ & _ & ?).
  - destruct (Hm m q eq_refl) as (_ & _ & ? & ?).
    by apply (insert_block_Ok m (nt_db s) a d).
Qed.

(** What the records of the log are, at every moment. *)
Definition behind_inv (old : list FutureRecord) (x : Running) : Prop :=
  log_inv producer old (p_store (rn_tasks x)) ∧
  announced (tables (p_store (rn_tasks x))) (rn_archiver x).

Lemma archiver_effect_behind old p s pc r s' :
  pp_producer p = producer →
  archiver_effect (notifier_of p s) (p_store s) pc r s' →
  (∀ m q, archiver_message pc = Some (m, q) → wf_msg (m, q)) →
  log_inv producer old (p_store s) → announced (tables (p_store s)) pc →
  log_inv producer old s'.
Proof.
  intros Hp H Hm Hl Ha.
  destruct H as [m q r d Hd|m q r|m q meta r d Hd|m q meta r k Hk|m q r d Hd|m q r k Hk].
  - pose proof (log_inv_db producer old (PgCheckMetadata (bm_spec_version m)) _ Hl) as H1.
    cbn [run_pg_op] in H1. by rewrite Hd in H1.
  - done.
  - pose proof (log_inv_db producer old (PgInsertMetadata (metadata_model m q meta)) _ Hl) as H1.
    cbn [run_pg_op] in H1. by rewrite Hd in H1.
  - destruct (send_metadata_cases (nt_producer (notifier_of p s)) (metadata_payload m q meta)
      (nt_kafka (p_store s))) as [[msg Hc]|[text Hc]]; rewrite Hk in Hc.
    + injection Hc as _ ->. by destruct (p_store s).
    + pose proof (log_inv_send producer old (metadata_record producer text (bm_spec_version m))
        (p_store s) Hl) as H1. simpl in Hc. rewrite Hp in Hc. rewrite <- Hc in H1. apply H1.
      left. by eauto.
  - pose proof (log_inv_db producer old (PgInsertBlock m) _ Hl) as H1.
    cbn [run_pg_op] in H1. by rewrite Hd in H1.
  - destruct (send_block_cases (nt_producer (notifier_of p s)) q
      (nt_kafka (p_store s))) as [[msg Hc]|[text Hc]]; rewrite Hk in Hc.
    + injection Hc as _ ->. by destruct (p_store s).
    + pose proof (log_inv_send producer old (block_record producer text (bp_block_num q))
        (p_store s) Hl) as H1. simpl in Hc. rewrite Hp in Hc. rewrite <- Hc in H1. apply H1.
      right. destruct (Hm m q eq_refl) as (Hn & _). simpl in Hn. rewrite <- Hn. by eauto.
Qed.

Lemma archiver_in_messages x m q :
  archiver_message (rn_archiver x) = Some (m, q) → (m, q) ∈ messages x.
Proof. unfold messages. intros ->. by left. Qed.

Lemma behind_access old p t x x' :
  pp_producer p = producer → messages_wf x → behind_inv old x → access p t x = Some x' →
  behind_inv old x'.
Proof.
  intros Hp Hm [Hl Ha] H.
  assert (∀ m q, archiver_message (rn_archiver x) = Some (m, q) → wf_msg (m, q)) as Hwf
    by (intros m q Hmq; by apply (mw_message _ Hm), archiver_in_messages).
  destruct (access_store p t x x' H) as [(Ht & Hk & Hpc)|(r & Hz & Hpc & Hact & He)].
  - split.
    + destruct Hl as [Hw Hl]. unfold log_inv, pg_wf in *. by rewrite Ht, Hk.
    + rewrite Ht. by destruct Hpc as [->|(_ & m & q & ->)].
  - split.
    + by eapply archiver_effect_behind.
    + rewrite Hpc. destruct Hl as [Hw _]. by eapply archiver_effect_announced.
Qed.

(** A session that publishes with [producer]. *)
Definition starts_with (config : ArchiveConfig) (p : PipelineParts) : Prop :=
  pp_producer p = producer ∧
  (reset_force (cli config) = true → is_u32 (cli_block_num (cli config))).

Lemma messages_wf_start config b r g store p s0 :
  start_pipeline config b r g true store = Ok (Some (p, s0)) → messages_wf (idle s0).
Proof.
  intros Hs. destruct (start_store _ _ _ _ _ _ _ Hs) as (_ & _ & Hc).
  split; [done|]. unfold messages. simpl. rewrite Hc. intros msg Hin. by apply elem_of_nil in Hin.
Qed.

(** C6. The database before Kafka, whatever happens: in any sequence of sessions,
    however the accesses interleave, whatever the node imports, whichever
    connections, statements and deliveries fail, and wherever the program is
    killed (between a row and its record, say), every record added to the
    topics is the record of a block whose row is stored, or of a version whose
    row is. *)
Theorem kafka_stays_behind_db (store store' : NotifierState) (r : FutureRecord) :
  pg_wf (nt_db store) → rtc (session starts_with any_import) store store' →
  r ∈ k_log (nt_kafka store') →
  r ∈ k_log (nt_kafka store) ∨
  (∃ text v, r = metadata_record producer text v ∧
     is_Some (metadatas (pg_tables (nt_db store')) !! v)) ∨
  (∃ text n, r = block_record producer text n ∧
     is_Some (blocks (pg_tables (nt_db store')) !! n)).
Proof.
  intros Hwf Hr. assert (log_inv producer (log store) store) as H0 by (split; [done|by left]).
  enough (log_inv producer (log store) store') as [_ Hl] by apply Hl.
  revert H0. generalize (log store) as old. intros old. clear Hwf.
  induction Hr as [|st st1 st2 Hs _ IH]; [done|]. intros H0. apply IH. clear IH.
  destruct Hs as (config & b & ro & g & p & s0 & x & Hs & [Hp Hu] & Hx & ->).
  destruct (start_store _ _ _ _ _ _ _ Hs) as (Hst & _ & _).
  assert (sound is_u32 x ∧ messages_wf x ∧ behind_inv old x) as (_ & _ & H & _); [|exact H].
  induction Hx as [|x t x' Hx (S & Hm & Hb) _ Ha].
  - split_and!; [by eapply start_sound|by eapply messages_wf_start|]. unfold behind_inv. simpl.
    by rewrite Hst.
  - split_and!.
    + eapply (interleaved_sound best_is_u32 p any_import x x'); [exact S|].
      eapply interleaved_step; [apply interleaved_start|done|exact Ha].
    + by apply (messages_wf_access is_u32 p t x x').
    + by eapply behind_access.
Qed.

(** ** Healthy services *)

(** What is asked for can be answered: the messages at hand fit the tables, and
    where the archiver is about to fetch metadata the node has it. *)
Record answerable (x : Running) (t : Task) : Prop := {
  an_messages : Forall (λ msg : ArchiveSendMsg, archivable msg.1) (messages x);
  an_metadata m q : rn_archiver x = ArFetchMetadata m q →
    has_metadata (p_main (rn_tasks x)) (bm_block_num m);
}.

Definition delivered (s : NotifierState) (k : Z) : Prop :=
  ∃ text, block_record producer text k ∈ log s.

(** Between two stored numbers every number is stored. *)
Definition gap_free (s : NotifierState) : Prop :=
  ∀ i j k, is_Some (rows s !! i) → is_Some (rows s !! j) → (i ≤ k ≤ j)%Z → is_Some (rows s !! k).

(** Every row but the one of the largest number has its record. *)
Definition delivered_below (s : NotifierState) : Prop :=
  ∀ k, (0 < k)%Z → is_Some (rows s !! k) →
    delivered s k ∨ ∀ j, is_Some (rows s !! j) → (j ≤ k)%Z.

Context (Hok : services_ok).

(** The version of the message at hand has metadata. *)
Definition announced_version (t : PgTables) (pc : ArchiverPc) : Prop :=
  match pc with
  | ArSendMetadata m _ _ | ArInsertBlock m _ => is_Some (metadatas t !! bm_spec_version m)
  | _ => True
  end.

(** The rows after an access that goes well. *)
Definition stored_row (pc : ArchiverPc) (bs : gmap Z BlockModel) : gmap Z BlockModel :=
  match pc with
  | ArInsertBlock m _ => <[bm_block_num m := m]> bs
  | _ => bs
  end.

(** The number of the record that an access sends. *)
Definition sent_number (pc : ArchiverPc) : option Z :=
  match pc with ArSendBlock _ q => Some (bp_block_num q) | _ => None end.

(** No access of an archivable message fails. *)
Lemma archiver_effect_healthy p s pc r s' m q :
  pp_producer p = producer →
  archiver_effect (notifier_of p s) (p_store s) pc r s' →
  archiver_action (notifier_of p s) pc (p_store s) = (r, s') →
  archiver_message pc = Some (m, q) → archivable m → announced_version (tables (p_store s)) pc →
  (pc = ArFetchMetadata m q → has_metadata (p_main s) (bm_block_num m)) →
  is_Ok r ∧ announced_version (tables s') (next_pc ArIdle r) ∧
  rows s' = stored_row pc (rows (p_store s)) ∧
  (∃ l, log s' = log (p_store s) ++ l) ∧
  ∀ k, sent_number pc = Some k → delivered s' k.
Proof.
  intros Hp H Hact Hmq Ha Hv Hmeta. pose proof Ha as [Hver Hnum].
  destruct Hok as [Hr Hk Hmj Hbj].
  destruct H as [m' q' r d Hd|m' q' r|m' q' meta r d Hd|m' q' meta r k' Hk'|m' q' r d Hd|m' q' r k' Hk'];
    injection Hmq as -> ->; simpl in *.
  - rewrite check_exists_reliable in Hd by done. injection Hd as <- <-. simpl.
    split; [by eexists|]. split_and!; [|done|exists []; by rewrite app_nil_r|done].
    case_bool_decide; [by simpl|done].
  - unfold fetch_metadata, lift, bind in Hact. destruct (Hmeta eq_refl) as [meta Hm].
    simpl in Hact. rewrite Hm in Hact. simpl in Hact. injection Hact as Hres. rewrite <- Hres.
    split; [by eexists|]. split_and!; [done|done|exists []; by rewrite app_nil_r|done].
  - rewrite insert_metadata_reliable in Hd by (simpl; done || lia). injection Hd as <- <-. simpl.
    split; [by eexists|]. split_and!; [|done|exists []; by rewrite app_nil_r|done].
    rewrite lookup_insert_eq. by eexists.
  - destruct (Hmj (metadata_payload m q meta)) as [text Ht].
    rewrite (send_metadata_run _ _ text), producer_send_ack in Hk' by done. injection Hk' as <- <-.
    simpl. split; [by eexists|]. split_and!; [done|done|by eexists|done].
  - rewrite insert_block_reliable in Hd by done. injection Hd as <- <-. simpl.
    split; [by eexists|]. split_and!; [done|done|exists []; by rewrite app_nil_r|done].
  - destruct (Hbj q) as [text Ht].
    rewrite (send_block_run _ _ text), producer_send_ack in Hk' by done. injection Hk' as <- <-.
    simpl. split; [by eexists|]. split_and!; [done|done|by eexists|].
    intros k [= <-]. exists text. simpl. rewrite Hp. apply elem_of_app. right. by left.
Qed.

(** The three kinds of accesses that go well. *)
Lemma archiver_effect_next self s pc pc' s' : archiver_effect self s pc (Ok pc') s' →
  match pc with
  | ArInsertBlock m q => pc' = ArSendBlock m q
  | ArSendBlock m q => pc' = ArIdle
  | _ => archiver_message pc' = archiver_message pc ∧
      stored_row pc = (λ bs, bs) ∧ ∀ m q, pc' ≠ ArSendBlock m q
  end.
Proof.
  intros H. inversion H as [m q r d Hd E1 E2|m q r E1 E2|m q meta r d Hd E1 E2|m q meta r k Hk E1 E2|
    m q r d Hd E1 E2|m q r k Hk E1 E2]; subst; destruct r as [a|e|msg]; simplify_eq/=; try done.
  by destruct a.
Qed.

Section one_session.
Context (p : PipelineParts) (Hp : pp_producer p = producer).
Context (store : NotifierState) (first : Z) (Hfirst_u32 : is_u32 first).
Context (Hfirst : ∀ s, pg_tables s = tables store →
  ∀ n, (initializer_run s).1 = Ok n → n = first).

(** The rows of [x] are those of the start, those of the messages finished
    since, and the one whose record is about to be sent. *)
Definition accounted (x : Running) : Prop :=
  ∃ finished, p_published (rn_tasks x) = finished ++ waiting x ∧
    (∀ k, is_Some (rows (p_store (rn_tasks x)) !! k) ↔
       is_Some (rows store !! k) ∨ k ∈ finished ∨
       ∃ m q, rn_archiver x = ArSendBlock m q ∧ k = bm_block_num m) ∧
    ∀ k, k ∈ finished → delivered (p_store (rn_tasks x)) k.

Record healthy (x : Running) : Prop := {
  h_sound : sound (λ n, n = first) x;
  h_wf : pg_wf (nt_db (p_store (rn_tasks x)));
  h_messages : messages_wf x;
  h_version : announced_version (tables (p_store (rn_tasks x))) (rn_archiver x);
  h_rows : accounted x;
  h_log : ∃ l, log (p_store (rn_tasks x)) = log store ++ l;
  h_start : p_initializer (rn_tasks x) = true → tables (p_store (rn_tasks x)) = tables store;
}.

Lemma delivered_more s s' k : (∃ l, log s' = log s ++ l) → delivered s k → delivered s' k.
Proof. intros [l Hl] [text Ht]. exists text. rewrite Hl. apply elem_of_app. by left. Qed.

(** The other tasks change nothing of this. *)
Lemma accounted_idle p' t x x' : accounted x → access p' t x = Some x' →
  tables (p_store (rn_tasks x')) = tables (p_store (rn_tasks x)) →
  nt_kafka (p_store (rn_tasks x')) = nt_kafka (p_store (rn_tasks x)) →
  rn_archiver x' = rn_archiver x ∨ rn_archiver x = ArIdle ∧ (∃ m q, rn_archiver x' = ArCheckMetadata m q) →
  accounted x'.
Proof.
  intros (fin & Hpub & Hrow & Hdel) H Ht Hk Hpc. exists fin. rewrite Ht. split_and!.
  - destruct (access_published p' t x x' H) as [(l & -> & -> & _)|(m & q & Hmq & Hpc' & -> & Hw)].
    + by rewrite Hpub, app_assoc.
    + destruct Hpc as [Hpc|(Hpc & _)]; [|by rewrite Hpc in Hmq].
      by rewrite <- Hpc, Hpc' in Hmq.
  - intros k. rewrite Hrow. destruct Hpc as [->|(-> & m & q & ->)]; [done|naive_solver].
  - intros k Hin. apply (delivered_more (p_store (rn_tasks x))); [|by apply Hdel].
    exists []. by rewrite Hk, app_nil_r.
Qed.

(** An access of the archiver that goes well. *)
Lemma accounted_archiver t x x' self : messages_wf x → accounted x → access p t x = Some x' →
  archiver_rank (rn_archiver x) ≠ 0 →
  archiver_effect self (p_store (rn_tasks x)) (rn_archiver x) (Ok (rn_archiver x')) (p_store (rn_tasks x')) →
  rows (p_store (rn_tasks x')) = stored_row (rn_archiver x) (rows (p_store (rn_tasks x))) →
  (∃ l, log (p_store (rn_tasks x')) = log (p_store (rn_tasks x)) ++ l) →
  (∀ k, sent_number (rn_archiver x) = Some k → delivered (p_store (rn_tasks x')) k) →
  accounted x'.
Proof.
  intros Hm (fin & Hpub & Hrow & Hdel) H Hz He Hr Hlog Hsent.
  pose proof (access_published p t x x' H) as Hpub'.
  pose proof (archiver_effect_next _ _ _ _ _ He) as Hnext.
  assert (∀ k, k ∈ fin → delivered (p_store (rn_tasks x')) k) as Hold
    by (intros k Hk; eapply delivered_more; [exact Hlog|by apply Hdel]).
  destruct (rn_archiver x) as [|m q|m q|m q meta|m q meta|m q|m q] eqn:Hpc;
    [done|simpl in Hr, Hnext, Hsent..].
  5: { exists fin. rewrite Hnext in Hpub' |- *.
    destruct Hpub' as [(l & -> & -> & _)|(? & ? & _ & Hi & _)]; [|done].
    split_and!; [by rewrite Hpub, app_assoc| |done]. intros k.
    rewrite Hr, lookup_insert_is_Some', Hrow. split.
    - intros [<-|[?|[?|(? & ? & E & _)]]]; [right; right; by eauto|by left|by right; left|done].
    - intros [?|[?|(m' & q' & E & ->)]]; simplify_eq; auto. }
  5: { rewrite Hnext in Hpub'. destruct Hpub' as [(l & _ & _ & Hi)|(m' & q' & [= <- <-] & _ & Hpub' & Hw)];
      [by specialize (Hi eq_refl)|].
    exists (fin ++ [bm_block_num m]). rewrite Hnext. split_and!.
    - by rewrite Hpub', Hpub, Hw, <- app_assoc.
    - intros k. rewrite Hr, Hrow, elem_of_app, list_elem_of_singleton. split.
      + intros [?|[?|(m' & q' & [= <- <-] & ->)]]; auto.
      + intros [?|[[?|E]|(m' & q' & E & _)]]; [by left|by right; left|right; right; by eauto|done].
    - intros k [Hk|Hk%list_elem_of_singleton]%elem_of_app; [by apply Hold|]. subst k.
      apply Hsent. assert ((m, q) ∈ messages x) as Hin by (apply archiver_in_messages; by rewrite Hpc).
      destruct (mw_message _ Hm _ Hin) as (Heq & _). simpl in Heq. by rewrite Heq. }
  all: destruct Hnext as (Hn & _ & Hns); exists fin;
    destruct Hpub' as [(l & -> & -> & _)|(? & ? & _ & Hi & _)]; [|by rewrite Hi in Hn].
  all: split_and!; [by rewrite Hpub, app_assoc| |done]; intros k; rewrite Hr, Hrow;
    split; intros [?|[?|(m' & q' & E & _)]]; auto; simplify_eq; by destruct (Hns m' q').
Qed.

Lemma healthy_rows t x x' : answerable x t → healthy x → access p t x = Some x' →
  announced_version (tables (p_store (rn_tasks x'))) (rn_archiver x') ∧
  (∃ l, log (p_store (rn_tasks x')) = log (p_store (rn_tasks x)) ++ l) ∧ accounted x'.
Proof.
  intros Hst [_ _ Hm Hv Hacc _ _] H.
  destruct (access_store p t x x' H) as [(Ht & Hk & Hpc)|(r & Hz & Hpc & Hact & He)].
  - split_and!; [|exists []; by rewrite Hk, app_nil_r|by eapply accounted_idle].
    rewrite Ht. by destruct Hpc as [->|(_ & m & q & ->)].
  - assert (∃ m q, archiver_message (rn_archiver x) = Some (m, q)) as (m & q & Hmq)
      by (destruct (rn_archiver x); [done|by eauto..]).
    destruct Hst as [Hst Hmeta]. rewrite Forall_forall in Hst.
    pose proof (Hst _ (archiver_in_messages _ _ _ Hmq)) as Ha. simpl in Ha.
    destruct (archiver_effect_healthy p (rn_tasks x) (rn_archiver x) r _ m q Hp He Hact Hmq Ha Hv
      (Hmeta m q))
      as ([pc' ->] & Hv' & Hr & Hlog & Hsent). simpl in Hpc, Hv'. subst pc'.
    split_and!; [done|done|]. by eapply accounted_archiver.
Qed.

Lemma healthy_access t x x' : answerable x t → healthy x → access p t x = Some x' → healthy x'.
Proof.
  intros Hst Hx H. destruct (healthy_rows t x x' Hst Hx H) as (Hv & [l Hl] & Hrow).
  destruct Hx as [S Hwf Hm _ _ [l0 Hl0] Hstart]. split; [| | |done|done| |].
  - eapply sound_access; [|exact S| |exact H]; [by intros n ->|].
    intros Hi. by apply Hfirst, Hstart.
  - destruct (access_store p t x x' H) as [(Ht & _)|(r & Hz & _ & _ & He)];
      [unfold pg_wf; by rewrite Ht|].
    apply (archiver_effect_rows _ _ _ _ _ He Hwf). intros m q Hmq.
    by apply (mw_message _ Hm _ (archiver_in_messages _ _ _ Hmq)).
  - eapply messages_wf_access; [|exact S|exact Hm|exact H]. by intros n ->.
  - exists (l0 ++ l). by rewrite Hl, Hl0, app_assoc.
  - intros Hi. destruct (access_initializer p t x x' (sd_running _ _ _ S) H Hi) as [Hi0 ->]. auto.
Qed.

Lemma healthy_interleaved x0 x : healthy x0 → interleaved p answerable x0 x → healthy x.
Proof. intros H0. induction 1; [done|]. by eapply healthy_access. Qed.

(** The row whose record is about to be sent. *)
Definition at_hand (pc : ArchiverPc) : option Z :=
  match pc with ArSendBlock m _ => Some (bm_block_num m) | _ => None end.

(** What a session has stored: a part of an interval that starts at [first]. *)
Lemma healthy_stored x : healthy x → ∃ finished later,
  let stored := finished ++ option_list (at_hand (rn_archiver x)) in
  p_published (rn_tasks x) = stored ++ later ∧ length later ≤ length (waiting x) ∧
  p_published (rn_tasks x) = finished ++ waiting x ∧
  (∀ k, is_Some (rows (p_store (rn_tasks x)) !! k) ↔ is_Some (rows store !! k) ∨ k ∈ stored) ∧
  (∀ k, k ∈ finished → delivered (p_store (rn_tasks x)) k) ∧
  contiguous stored ∧ ∀ h, head stored = Some h → h = first ∨ first = 0%Z ∧ h = 1%Z.
Proof.
  intros [[_ _ (r & Hin & Hr)] _ _ _ (fin & Hpub & Hrow & Hdel) _ _].
  assert (∃ later, waiting x = option_list (at_hand (rn_archiver x)) ++ later) as [later Hw]
    by (unfold waiting; destruct (rn_archiver x); simpl; eauto).
  exists fin, later. simpl.
  assert (p_published (rn_tasks x) = (fin ++ option_list (at_hand (rn_archiver x))) ++ later) as Hp'
    by (by rewrite Hpub, Hw, app_assoc).
  pose proof (ri_contiguous _ _ _ Hr) as Hc. pose proof (ri_head _ _ _ Hr) as Hh.
  rewrite (ir_published _ _ Hin), Hp' in Hc, Hh. split_and!; try done.
  - rewrite Hw, length_app. lia.
  - intros k. rewrite Hrow, elem_of_app.
    assert (k ∈ option_list (at_hand (rn_archiver x)) ↔
      ∃ m q, rn_archiver x = ArSendBlock m q ∧ k = bm_block_num m) as ->; [|tauto].
    destruct (rn_archiver x); simpl;
      rewrite ?list_elem_of_singleton, ?elem_of_nil; naive_solver.
  - by eapply contiguous_app_l.
  - intros h Hhd. destruct (Hh h) as [?|[? ?]]; [|by left|by right].
    by destruct (fin ++ option_list (at_hand (rn_archiver x))).
Qed.
Context (Hmax : ∀ k, is_Some (rows store !! k) → (k ≤ first)%Z).
Context (Hstored : rows store = ∅ ∨ is_Some (rows store !! first)).

(** What is stored covers an interval from its first number. *)
Lemma stored_covers l k : contiguous l → k ∈ l →
  (∀ h, head l = Some h → h = first ∨ first = 0%Z ∧ h = 1%Z) →
  ∃ h, (h = first ∨ first = 0%Z ∧ h = 1%Z) ∧ (h ≤ k)%Z ∧ ∀ i, (h ≤ i ≤ k)%Z → i ∈ l.
Proof.
  intros Hc [i Hi]%list_elem_of_lookup_1 Hh.
  destruct (head l) as [h|] eqn:Hhd; [|by destruct l].
  exists h. split; [by apply Hh|]. by apply (contiguous_covers l h Hc Hhd i k).
Qed.

Lemma healthy_gap_free x : healthy x → gap_free store → gap_free (p_store (rn_tasks x)).
Proof.
  intros H Hg. destruct (healthy_stored x H) as (fin & later & _ & _ & _ & Hrow & _ & Hc & Hh).
  set (l := fin ++ option_list (at_hand (rn_archiver x))) in *. clearbody l.
  intros i j k Hi Hj Hk. rewrite Hrow in *.
  destruct Hstored as [Hempty|Hfst].
  - right. assert (∀ x, ¬ is_Some (rows store !! x)) as Hno
      by (intros z; rewrite Hempty, lookup_empty; by intros []).
    destruct Hi as [Hi|Hi]; [by apply Hno in Hi|]. destruct Hj as [Hj|Hj]; [by apply Hno in Hj|].
    destruct (head l) as [h|] eqn:Hhd; [|destruct l; [by apply elem_of_nil in Hi|done]].
    apply list_elem_of_lookup_1 in Hi as [a Ha], Hj as [c Hcj].
    destruct (contiguous_covers l h Hc Hhd a i Ha) as [? _].
    apply (contiguous_covers l h Hc Hhd c j Hcj). lia.
  - destruct (decide (k ≤ first)%Z) as [Hkf|Hkf].
    + left. destruct Hi as [Hi|Hi]; [apply (Hg i first k); [done|done|lia]|].
      destruct (stored_covers l i Hc Hi Hh) as (h & Hf & Hle & _).
      assert (k = first) as -> by (destruct Hf as [->|[-> ->]]; lia). done.
    + right. destruct Hj as [Hj|Hj]; [apply Hmax in Hj; lia|].
      destruct (stored_covers l j Hc Hj Hh) as (h & Hf & Hle & Hall). apply Hall.
      destruct Hf as [->|[-> ->]]; lia.
Qed.

(** The message the session starts with brings the record that may be missing. *)
Lemma healthy_first_record x fin : healthy x → delivered_below store →
  (∀ h, head (fin ++ option_list (at_hand (rn_archiver x))) = Some h →
     h = first ∨ first = 0%Z ∧ h = 1%Z) →
  (∀ k, k ∈ fin → delivered (p_store (rn_tasks x)) k) → fin ≠ [] →
  ∀ k, (0 < k)%Z → is_Some (rows store !! k) → delivered (p_store (rn_tasks x)) k.
Proof.
  intros H Hd Hh Hdel Hne k Hk0 Hk. destruct (Hd k Hk0 Hk) as [?|Hlast].
  - eapply delivered_more; [exact (h_log _ H)|done].
  - apply Hdel. destruct fin as [|h fin]; [done|].
    destruct Hstored as [Hempty|Hfst]; [rewrite Hempty, lookup_empty in Hk; by destruct Hk|].
    specialize (Hlast _ Hfst). pose proof (Hmax _ Hk). specialize (Hh h eq_refl).
    assert (k = h) as -> by (destruct Hh as [->|[? ->]]; lia). by left.
Qed.

Lemma healthy_delivered x k : healthy x → delivered_below store →
  length (waiting x) < length (p_published (rn_tasks x)) →
  (0 < k)%Z → is_Some (rows (p_store (rn_tasks x)) !! k) →
  delivered (p_store (rn_tasks x)) k ∨ at_hand (rn_archiver x) = Some k.
Proof.
  intros H Hd Hlen Hk0 Hk. destruct (healthy_stored x H) as (fin & later & Hx). simpl in Hx.
  destruct Hx as (Hpub & _ & Hfin & Hrow & Hdel & _ & Hh).
  rewrite Hrow in Hk. destruct Hk as [Hk|[Hk|Hk]%elem_of_app].
  - left. eapply healthy_first_record; eauto. intros ->. simpl in Hfin. rewrite Hfin in Hlen. lia.
  - left. by apply Hdel.
  - right. by apply elem_of_option_list in Hk.
Qed.

Lemma healthy_delivered_below x :
  healthy x → delivered_below store → delivered_below (p_store (rn_tasks x)).
Proof.
  intros H Hd k Hk0 Hk. destruct (healthy_stored x H) as (fin & later & Hx). simpl in Hx.
  destruct Hx as (Hpub & _ & Hfin & Hrow & Hdel & Hc & Hh).
  rewrite Hrow in Hk. destruct Hk as [Hk|[Hk|Hk]%elem_of_app]; [|left; by apply Hdel|].
  - destruct fin as [|a fin']; [|left; by eapply (healthy_first_record x (a :: fin'))].
    destruct (Hd k Hk0 Hk) as [?|Hl]; [left; eapply delivered_more; [exact (h_log _ H)|done]|].
    right. intros j. rewrite Hrow. intros [Hj|Hj]; [by apply Hl|].
    destruct Hstored as [Hempty|Hfst]; [rewrite Hempty, lookup_empty in Hk; by destruct Hk|].
    specialize (Hl _ Hfst). pose proof (Hmax _ Hk). simpl in Hj, Hh.
    apply elem_of_option_list in Hj. rewrite Hj in Hh. specialize (Hh j eq_refl).
    destruct Hh as [->|[? ->]]; lia.
  - right. intros j. rewrite Hrow. apply elem_of_option_list in Hk. rewrite Hk in Hc, Hh |- *.
    simpl in *. intros [Hj|Hj]; [|by apply (contiguous_last fin k)].
    apply Hmax in Hj.
    destruct (stored_covers (fin ++ [k]) k Hc) as (h & Hf & Hle & _);
      [apply elem_of_app; right; by left|exact Hh|]. destruct Hf as [->|[-> ->]]; lia.
Qed.
End one_session.

(** A session that goes on where the earlier ones ended. *)
Definition resumes (config : ArchiveConfig) (p : PipelineParts) : Prop :=
  pp_producer p = producer ∧ reset_force (cli config) = false.

(** What is known of its first number, and of the state it starts in. *)
Lemma healthy_start config b r g store p s0 :
  start_pipeline config b r g true store = Ok (Some (p, s0)) → resumes config p →
  pg_wf (nt_db store) →
  let first := first_number config store in
  is_u32 first ∧
  (∀ s, pg_tables s = tables store → ∀ n, (initializer_run s).1 = Ok n → n = first) ∧
  (∀ k, is_Some (rows store !! k) → (k ≤ first)%Z) ∧
  (rows store = ∅ ∨ is_Some (rows store !! first)) ∧
  healthy store first (idle s0).
Proof.
  intros Hs [Hp Hf] Hwf first. pose proof (start_store _ _ _ _ _ _ _ Hs) as (Hst & Hpub & Hch).
  unfold first, first_number, select_max_block_num. rewrite Hf.
  pose proof (fold_max_spec (rows store)) as Hm. split_and!.
  - destruct (map_fold _ _ _) as [k|]; simpl; [|done].
    destruct Hm as [[m Hk] _]. apply (wf_blocks _ Hwf) in Hk as (_ & ? & _).
    unfold is_u32, u32_max. lia.
  - intros s Ht n Hn. apply initializer_stored in Hn; [by rewrite <- Ht|].
    unfold pg_wf. by rewrite Ht.
  - destruct (map_fold _ _ _); [apply Hm|]. intros k. rewrite Hm, lookup_empty. by intros [].
  - destruct (map_fold _ _ _); [right; apply Hm|by left].
  - split; [| | |done| | |].
    + eapply start_sound; [exact Hs|]. by rewrite Hf.
    + simpl. by rewrite Hst.
    + by eapply messages_wf_start.
    + exists []. unfold waiting, archiver_numbers. simpl. rewrite Hst, Hpub, Hch.
      split_and!; [done| |intros k Hk; by apply elem_of_nil in Hk].
      intros k. rewrite elem_of_nil. naive_solver.
    + exists []. simpl. by rewrite Hst, app_nil_r.
    + simpl. by rewrite Hst.
Qed.

(** C10. Without faults a session leaves no gap and catches up with what an earlier
    one left undone.  Started without [reset_force] on rows without gaps, of
    which only the last may lack its record, while PostgreSQL and Kafka do not
    fail, payloads serialize, the messages fit the tables and the node has the
    metadata the archiver asks it for: at every moment, whatever is imported, a lower best
    number included, and however the accesses interleave, the rows have no gap; every number handed
    to the archiver has its row or waits; and once the archiver has finished a
    message, every row above block 0 has its record, but the one whose record
    is about to be sent. *)
Theorem healthy_session_leaves_no_gap (config : ArchiveConfig) (b r : DB) (g : gmap Bytes Bytes)
    (store : NotifierState) (p : PipelineParts) (s0 : PipelineState) (x : Running) :
  start_pipeline config b r g true store = Ok (Some (p, s0)) → resumes config p →
  pg_wf (nt_db store) → gap_free store → delivered_below store →
  interleaved p answerable (idle s0) x →
  gap_free (p_store (rn_tasks x)) ∧
  (∀ n, n ∈ p_published (rn_tasks x) →
     is_Some (blocks (pg_tables (nt_db (p_store (rn_tasks x)))) !! n) ∨ n ∈ waiting x) ∧
  (length (waiting x) < length (p_published (rn_tasks x)) →
   ∀ k, (0 < k)%Z → is_Some (blocks (pg_tables (nt_db (p_store (rn_tasks x)))) !! k) →
     delivered (p_store (rn_tasks x)) k ∨ at_hand (rn_archiver x) = Some k).
Proof.
  intros Hs Hres Hwf Hg Hd Hx.
  destruct (healthy_start _ _ _ _ _ _ _ Hs Hres Hwf) as (Hu & Hf & Hmax & Hst & H0).
  pose proof (healthy_interleaved p (proj1 Hres) store _ Hu Hf _ x H0 Hx) as H. split_and!.
  - by eapply healthy_gap_free.
  - destruct (healthy_stored store _ x H) as (fin & later & _ & _ & Hpub & Hrow & _).
    intros n. rewrite Hpub, elem_of_app, Hrow, elem_of_app. tauto.
  - intros Hlen k. by eapply healthy_delivered.
Qed.

(** C5. Killed and started again, the archive delivers every block at least once.
    Over any sequence of sessions started without [reset_force], each killed
    between any two accesses, from rows without gaps of which only the last may
    lack its record, while PostgreSQL and Kafka do not fail, payloads serialize,
    the messages fit the tables and the node has the metadata the archiver asks
    it for, and whatever the node imports: the rows never have a gap, and every row above block 0 has its record in
    the topic, but possibly that of the largest number: the one the next
    session starts with. *)
Theorem killed_sessions_deliver (store store' : NotifierState) :
  pg_wf (nt_db store) → gap_free store → delivered_below store →
  rtc (session resumes answerable) store store' →
  gap_free store' ∧
  ∀ k, (0 < k)%Z → is_Some (blocks (pg_tables (nt_db store')) !! k) →
    delivered store' k ∨ ∀ j, is_Some (blocks (pg_tables (nt_db store')) !! j) → (j ≤ k)%Z.
Proof.
  intros Hwf Hg Hd Hr.
  induction Hr as [|st st1 st2 Hs _ IH]; [done|].
  destruct Hs as (config & b & r & g & p & s0 & x & Hs & Hres & Hx & ->).
  destruct (healthy_start _ _ _ _ _ _ _ Hs Hres Hwf) as (Hu & Hf & Hmax & Hst & H0).
  pose proof (healthy_interleaved p (proj1 Hres) st _ Hu Hf _ x H0 Hx) as H. apply IH.
  - apply (h_wf _ _ _ H).
  - by eapply healthy_gap_free.
  - by eapply healthy_delivered_below.
Qed.
End kafka.
End recovery.

(** ** Witnesses: the chain of [Reference.v], killed and started again *)

#[local] Existing Instance ref_chain.
#[local] Existing Instance ref_types.
#[local] Existing Instance ref_backend.
#[local] Existing Instance ref_runtime_types.
#[local] Existing Instance ref_runtime_api.
#[local] Existing Instance ref_version_api.
#[local] Existing Instance ref_json.
#[local] Existing Instance ref_payload_json.
#[local] Existing Instance kafka_reference.
#[local] Existing Instance pg_reference.
#[local] Existing Instance errors_reference.
#[local] Existing Instance connect_reference.

Lemma ref_block_numbers (db : DB) n h :
  bc_header db (IdNumber n) = Ok (Some h) → h_number h = n.
Proof.
  simpl. unfold ref_lookup. simpl.
  destruct (ref_hash db n) as [k|] eqn:Hh; simpl; [|done].
  unfold ref_hash in Hh. apply head_Some in Hh as [l Hl].
  assert (k ∈ filter (λ k, ref_number db k = Some n) (ref_chain_of db (db_best db))) as Hin
    by (rewrite Hl; by left).
  apply list_elem_of_filter in Hin as [Hn _]. unfold ref_number in Hn.
  destruct (db_blocks db !! k) as [b|]; simpl in *; [|done]. injection Hn as Hn. by intros [= <-].
Qed.

Lemma ref_versions_u32 (v : RuntimeVersion) : is_u32 (rv_spec_version v).
Proof. unfold is_u32, u32_max. simpl. repeat case_match; lia. Qed.

(** The state a session of the sample starts in. *)
Definition resumed (db : ref_db) (store : NotifierState) : PipelineState := {|
  p_main := db; p_readonly := db; p_executor_chan := []; p_comparer_chan := [];
  p_archiver_chan := []; p_cache := version_cache_new; p_timer := None; p_initializer := true;
  p_executor_alive := true; p_archiver_alive := true; p_store := store; p_published := [] |}.

Lemma resumed_started db store :
  start_pipeline (sample_config false) db db {["g" := "1"]} true store =
  Ok (Some (sample_parts, resumed db store)).
Proof. done. Qed.

Lemma sample_resumes : resumes sample_producer (sample_config false) sample_parts.
Proof. done. Qed.

(** What a run whose messages fit the tables leaves behind. *)
Fixpoint storable_run (ts : list Task) (x : Running) : option Running :=
  match ts with
  | [] => Some x
  | t :: ts =>
      if forallb (λ msg, bool_decide (archivable msg.1)) (messages x)
      then x ← access sample_parts t x; storable_run ts x
      else None
  end.

Lemma storable_answerable x t :
  forallb (λ msg, bool_decide (archivable msg.1)) (messages x) = true → answerable x t.
Proof.
  rewrite forallb_forall. intros Hm. split; [|by eexists].
  apply Forall_forall. intros msg Hin%list_elem_of_In. by apply Hm, bool_decide_eq_true in Hin.
Qed.

Lemma storable_run_interleaved x0 ts : ∀ x x',
  interleaved sample_parts answerable x0 x → storable_run ts x = Some x' →
  interleaved sample_parts answerable x0 x'.
Proof.
  induction ts as [|t ts IH]; intros x x' Hx; simpl; [by intros [= <-]|].
  destruct (forallb _ _) eqn:Hm; [|done]. destruct (access _ _ _) as [x1|] eqn:Ha; [|done].
  simpl. apply IH. eapply interleaved_step; [exact Hx|by apply storable_answerable|exact Ha].
Qed.

Lemma storable_session db ts store x :
  storable_run ts (idle (resumed db store)) = Some x →
  session (resumes sample_producer) answerable store (p_store (rn_tasks x)).
Proof.
  intros Hx. exists (sample_config false), db, db, {["g" := "1"]}, sample_parts, (resumed db store), x.
  split; [done|]. split; [apply sample_resumes|]. split; [|done].
  by eapply storable_run_interleaved; [apply interleaved_start|].
Qed.

(** The accesses of a whole message, of a new version or a known one. *)
Definition one_request : list Task := replicate 10 TExecutor.
Definition new_version : list Task := replicate 7 TArchiver.
Definition known_version : list Task := replicate 4 TArchiver.

(** Block 0 is archived, then block 1 up to its row: its record is missing. *)
Definition killed_run : option Running :=
  storable_run (TInitializer :: one_request ++ new_version ++ TComparer :: one_request ++
                replicate 3 TArchiver) (idle (resumed sample_db notifier_start)).
(** The next session, up to the row of block 2. *)
Definition next_run (store : NotifierState) : option Running :=
  storable_run (TInitializer :: one_request ++ known_version ++ TComparer :: one_request ++
                replicate 6 TArchiver) (idle (resumed sample_db store)).

(** After the reorganisation the chain is 0, 101, 203, 304; the row of number 2
    is that of the retracted block 202, and 0 and 1 are missing. *)
Definition stale_metadata (v : Z) : MetadataModel :=
  {| mm_spec_version := v; mm_block_num := 2; mm_block_hash := "202"; mm_meta := "m" |}.
Definition stale_row (n v : Z) (hash : string) : BlockModel := {|
  bm_spec_version := v; bm_block_num := n; bm_block_hash := hash; bm_parent_hash := "";
  bm_state_root := ""; bm_extrinsics_root := ""; bm_digest := ""; bm_extrinsics := [];
  bm_justifications := None; bm_main_changes := ∅; bm_child_changes := ∅ |}.
Definition stale_tables : PgTables := {|
  metadatas := <[1%Z := stale_metadata 1]> {[ 2%Z := stale_metadata 2 ]};
  blocks := <[2%Z := stale_row 2 2 "202"]> {[ 3%Z := stale_row 3 1 "304" ]};
  finalized_row := None |}.
Definition stale_store : NotifierState :=
  {| nt_db := pg_start stale_tables; nt_kafka := kafka_start |}.
Definition moved_db : ref_db := {|
  db_blocks := <[304%Z := sample_ref_block 3 4 203 ["d"]]> (db_blocks sample_db);
  db_best := 304; db_finalized := 0; db_genesis := 0; db_aux := ∅ |}%Z.

Lemma stale_tables_wf : wf_tables stale_tables.
Proof.
  split; simpl; [..|done].
  - intros v m [[<- <-]|[_ [<- <-]%lookup_singleton_Some]]%lookup_insert_Some;
      unfold is_i32; simpl; lia.
  - intros n b [[<- <-]|[_ [<- <-]%lookup_singleton_Some]]%lookup_insert_Some; simpl;
      (split_and!; [done|lia|lia|vm_compute; by eexists]).
Qed.

Definition stale_run : option Running :=
  run_accesses sample_parts (TInitializer :: one_request ++ known_version)
    (idle (resumed moved_db stale_store)).

Lemma settled_row_is_final_witness :
  (bc_hash moved_db 2%Z = Ok (Some 203%Z)) ∧
  ∃ x, stale_run = Some x ∧ p_published (rn_tasks x) = [3%Z] ∧ rn_archiver x = ArIdle ∧
    bm_block_hash <$> blocks (pg_tables (nt_db (p_store (rn_tasks x)))) !! 2%Z = Some "202" ∧
    blocks (pg_tables (nt_db (p_store (rn_tasks x)))) !! 1%Z = None.
Proof.
  split; [vm_compute; reflexivity|].
  assert ((λ x, (p_published (rn_tasks x), rn_archiver x)) <$> stale_run = Some ([3%Z], ArIdle))
    as Hp by (vm_compute; reflexivity).
  destruct stale_run as [x|] eqn:Hx; [|discriminate Hp]. exists x. split; [reflexivity|].
  injection Hp as Hp1 Hp2. split; [exact Hp1|]. split; [exact Hp2|].
  assert (∀ m, rtc (session (starts_above m) any_import) stale_store (p_store (rn_tasks x))) as Hr.
  { intros m. apply rtc_once. exists (sample_config false), moved_db, moved_db, {["g" := "1"]},
      sample_parts, (resumed moved_db stale_store), x.
    split; [done|]. split; [discriminate|]. split; [|done].
    by eapply run_accesses_interleaved; [|apply interleaved_start|exact Hx]. }
  destruct (settled_row_is_final (BT := ref_types) (BE := ref_backend) (PL := reference_laws)
    ref_best_u32 2 3 stale_store (p_store (rn_tasks x)) stale_tables_wf) as [H2 _];
    [lia|by eexists|apply Hr|].
  destruct (settled_row_is_final (BT := ref_types) (BE := ref_backend) (PL := reference_laws)
    ref_best_u32 1 3 stale_store (p_store (rn_tasks x)) stale_tables_wf) as [H1 _];
    [lia|by eexists|apply Hr|].
  rewrite H1, H2. split; reflexivity.
Defined.

(** The program is killed between the row of block 0 and its record; the next
    session sends it. *)
Definition before_record : option Running :=
  storable_run (TInitializer :: one_request ++ replicate 6 TArchiver)
    (idle (resumed sample_db notifier_start)).
Definition after_record (store : NotifierState) : option Running :=
  storable_run (TInitializer :: one_request ++ known_version) (idle (resumed sample_db store)).
Definition block_keys (s : NotifierState) : list (string * option string) :=
  (λ r, (r_topic r, r_key r)) <$> k_log (nt_kafka s).

Lemma kafka_stays_behind_db_witness :
  ∃ x y r, before_record = Some x ∧ after_record (p_store (rn_tasks x)) = Some y ∧
    block_keys (p_store (rn_tasks x)) = [("metadata", Some "1")] ∧
    r ∈ k_log (nt_kafka (p_store (rn_tasks y))) ∧ r_topic r = "block" ∧ r_key r = Some "0" ∧
    is_Some (blocks (pg_tables (nt_db (p_store (rn_tasks y)))) !! 0%Z).
Proof.
  assert (match before_record with
    | Some x => match after_record (p_store (rn_tasks x)) with
        | Some y => block_keys (p_store (rn_tasks x)) = [("metadata", Some "1")] ∧
            (λ r, (r_topic r, r_key r)) <$> last (k_log (nt_kafka (p_store (rn_tasks y)))) =
            Some ("block", Some "0")
        | None => False end
    | None => False end) as H by (vm_compute; done).
  destruct before_record as [x|] eqn:Hx; [|destruct H].
  destruct (after_record (p_store (rn_tasks x))) as [y|] eqn:Hy; [|destruct H]. destruct H as [H1 H2].
  destruct (last (k_log (nt_kafka (p_store (rn_tasks y))))) as [r|] eqn:Hl; [|discriminate H2].
  injection H2 as Ht Hk. exists x, y, r.
  assert (r ∈ k_log (nt_kafka (p_store (rn_tasks y)))) as Hin by (by apply last_Some_elem_of).
  split; [reflexivity|]. split; [exact Hy|]. split; [exact H1|]. split; [exact Hin|].
  split; [exact Ht|]. split; [exact Hk|].
  destruct (kafka_stays_behind_db (BT := ref_types) (BE := ref_backend) (PL := reference_laws)
    ref_best_u32 sample_producer ref_block_numbers ref_versions_u32 notifier_start
    (p_store (rn_tasks y)) r) as [Hold|[(text & v & -> & _)|(text & n & -> & Hn)]].
  - apply empty_tables_wf.
  - assert (∀ db ts store z, storable_run ts (idle (resumed db store)) = Some z →
      session (starts_with sample_producer) any_import store (p_store (rn_tasks z))) as Hs.
    { intros db ts store z Hz. destruct (storable_session db ts store z Hz)
        as (c & b & ro & g & p & s0 & z' & Hst & [Hp Hf] & Hi & E).
      exists c, b, ro, g, p, s0, z'. split; [exact Hst|]. split; [split; [exact Hp|by rewrite Hf]|].
      split; [|exact E]. by eapply interleaved_mono; [|exact Hi]. }
    eapply rtc_l; [exact (Hs _ _ _ _ Hx)|]. apply rtc_once. exact (Hs _ _ _ _ Hy).
  - exact Hin.
  - change (k_log (nt_kafka notifier_start)) with (@nil FutureRecord) in Hold.
    destruct (proj1 (elem_of_nil r) Hold).
  - discriminate Ht.
  - assert (n = 0%Z) as ->; [|exact Hn]. injection Hk as Hk.
    exact (inj pretty n 0%Z Hk).
Defined.

(** The rows of a store that has none. *)
Lemma start_gap_free : gap_free notifier_start.
Proof. intros i j k Hi. simpl in Hi. rewrite lookup_empty in Hi. by destruct Hi. Qed.

Lemma start_delivered_below : delivered_below sample_producer notifier_start.
Proof. intros k _ Hk. simpl in Hk. rewrite lookup_empty in Hk. by destruct Hk. Qed.

(** Two whole blocks. *)
Definition healthy_run : option Running :=
  storable_run (TInitializer :: one_request ++ new_version ++ TComparer :: one_request ++
                known_version) (idle (resumed sample_db notifier_start)).

Lemma healthy_session_leaves_no_gap_witness :
  ∃ x, healthy_run = Some x ∧ p_published (rn_tasks x) = [0; 1]%Z ∧ gap_free (p_store (rn_tasks x)) ∧
    delivered sample_producer (p_store (rn_tasks x)) 1.
Proof.
  assert (match healthy_run with
    | Some x => (p_published (rn_tasks x), waiting x, at_hand (rn_archiver x)) = ([0; 1]%Z, [], None)
    | None => False end) as Hp by (vm_compute; reflexivity).
  destruct healthy_run as [x|] eqn:Hx; [|destruct Hp]. injection Hp as Hp Hw Ha.
  exists x. split; [reflexivity|]. split; [exact Hp|].
  destruct (healthy_session_leaves_no_gap (BT := ref_types) (BE := ref_backend) (PL := reference_laws)
    ref_best_u32 sample_producer ref_block_numbers ref_versions_u32 sample_services (sample_config false)
    sample_db sample_db {["g" := "1"]} notifier_start sample_parts (resumed sample_db notifier_start) x
    (resumed_started _ _) sample_resumes empty_tables_wf start_gap_free start_delivered_below)
    as (Hg & Hrow & Hd).
  - eapply storable_run_interleaved; [apply interleaved_start|exact Hx].
  - split; [exact Hg|]. rewrite Hp, Hw in Hrow, Hd. rewrite Ha in Hd.
    destruct (Hd ltac:(simpl; lia) 1%Z ltac:(lia)) as [H|H]; [|exact H|discriminate H].
    destruct (Hrow 1%Z ltac:(right; left)) as [H|H]; [exact H|]. destruct (proj1 (elem_of_nil _) H).
Defined.

(** The record of block 1, lost by the kill, is sent by the next session. *)
Lemma killed_sessions_deliver_witness :
  ∃ x y, killed_run = Some x ∧ next_run (p_store (rn_tasks x)) = Some y ∧
    block_keys (p_store (rn_tasks x)) = [("metadata", Some "1"); ("block", Some "0")] ∧
    delivered sample_producer (p_store (rn_tasks y)) 1.
Proof.
  assert (match killed_run with
    | Some x => match next_run (p_store (rn_tasks x)) with
        | Some y => block_keys (p_store (rn_tasks x)) = [("metadata", Some "1"); ("block", Some "0")] ∧
            bm_block_hash <$> blocks (pg_tables (nt_db (p_store (rn_tasks y)))) !! 1%Z = Some "101" ∧
            bm_block_hash <$> blocks (pg_tables (nt_db (p_store (rn_tasks y)))) !! 2%Z = Some "202"
        | None => False end
    | None => False end) as H by (vm_compute; done).
  destruct killed_run as [x|] eqn:Hx; [|destruct H].
  destruct (next_run (p_store (rn_tasks x))) as [y|] eqn:Hy; [|destruct H].
  destruct H as (H0 & H1 & H2). exists x, y.
  split; [reflexivity|]. split; [exact Hy|]. split; [exact H0|].
  destruct (killed_sessions_deliver (BT := ref_types) (BE := ref_backend) (PL := reference_laws)
    ref_best_u32 sample_producer ref_block_numbers ref_versions_u32 sample_services
    notifier_start (p_store (rn_tasks y)) empty_tables_wf start_gap_free start_delivered_below)
    as [_ Hd].
  - eapply rtc_l; [exact (storable_session _ _ _ _ Hx)|].
    apply rtc_once. exact (storable_session _ _ _ _ Hy).
  - assert (is_Some (blocks (pg_tables (nt_db (p_store (rn_tasks y)))) !! 1%Z)) as H1'.
    { destruct (_ !! 1%Z) as [b|]; [by eexists|discriminate H1]. }
    destruct (Hd 1%Z ltac:(lia) H1') as [H|H]; [exact H|].
    assert (2 ≤ 1)%Z; [apply H|lia]. destruct (_ !! 2%Z) as [b|]; [by eexists|discriminate H2].
Defined.

