(* ===== verification/Progress.v ===== *)
(** * Every schedule makes progress

    [Interleaving.v] says what no interleaving of the accesses can break; here,
    what every one brings about.  A potential grows with each access of the
    tasks that carry the number, whatever the others, the node and the faults
    do, so that enough of them hand over every block up to any number the node's
    best one does not fall below meanwhile; another grows with each access of
    the archiver.  It models no code. *)

From S2P Require Import Prelude Chain Postgres Kafka ArchiveCore VersionCache.
From S2P Require Import Reference BlockExecutor Notifier Ring Steps Pipeline Interleaving Recovery.

Section progress.
Context `{CT : ChainTypes, BT : BackendTypes, BE : !Backend, RT : RuntimeTypes,
  RA : !RuntimeApi, VA : !VersionApi, JT : JsonTypes, PG : PgService,
  KS : KafkaService, PJ : !PayloadJson, AE : ArchiveErrors, PC : PgConnect, PL : !PgLaws}.
Context (best_is_u32 : ∀ db, is_u32 (best_number (bc_info db))).

Abbreviation sound := (sound_to u32_max).

(** ** Schedules *)

(** The tasks of the round, and how many of its accesses a schedule has. *)
Definition carries (t : Task) : bool :=
  match t with TInitializer | TExecutor | TComparer | TTimer => true | _ => false end.
Definition archives (t : Task) : bool :=
  match t with TArchiver => true | _ => false end.
Definition count (f : Task → bool) (ts : list Task) : Z := Z.of_nat (length (List.filter f ts)).

Lemma count_snoc f ts t : count f (ts ++ [t]) = (count f ts + if f t then 1 else 0)%Z.
Proof. unfold count. rewrite List.filter_app, length_app. simpl. destruct (f t); simpl; lia. Qed.

(** A schedule, with what each access leads to. *)
Inductive schedule (p : PipelineParts) (ok : Running → Task → Prop) (x0 : Running) :
    list Task → Running → Prop :=
  | schedule_start : schedule p ok x0 [] x0
  | schedule_step ts t x x' : schedule p ok x0 ts x → ok x t → access p t x = Some x' →
      schedule p ok x0 (ts ++ [t]) x'.

Lemma schedule_interleaved p ok x0 ts x : schedule p ok x0 ts x → interleaved p ok x0 x.
Proof. induction 1; [constructor|by econstructor]. Qed.

Lemma run_accesses_schedule p (ok : Running → Task → Prop) x0 ts0 ts x x' :
  (∀ y t, t ∈ ts → ok y t) → schedule p ok x0 ts0 x → run_accesses p ts x = Some x' →
  schedule p ok x0 (ts0 ++ ts) x'.
Proof.
  revert ts0 x. induction ts as [|t ts IH]; intros ts0 x Hok Hx; simpl.
  - intros [= <-]. by rewrite app_nil_r.
  - destruct (access p t x) as [x1|] eqn:Ha; [|done]. simpl. intros H.
    rewrite cons_middle, app_assoc. eapply IH; [| |exact H].
    + intros y t' Ht. apply Hok. by right.
    + eapply schedule_step; [exact Hx| |exact Ha]. apply Hok. by left.
Qed.

(** ** Where the number is *)

Definition place_of (x : Running) : Place :=
  match p_initializer (rn_tasks x), executor_side x, comparer_side x, p_timer (rn_tasks x) with
  | true, _, _, _ => AtInitializer
  | _, n :: _, _, _ => AtExecutor n
  | _, _, n :: _, _ => AtComparer n
  | _, _, _, Some n => AtTimer n
  | _, _, _, None => Lost
  end.

Lemma in_ring_place x r : in_ring x r → rg_place r = place_of x.
Proof.
  intros [Hpl _ _]. unfold at_place, place_of in *.
  destruct (rg_place r); injection Hpl as -> E1 E2 E3; rewrite ?E1, ?E2, ?E3; done.
Qed.

(** How far the number is, in twelfths of a block. *)
Definition offset (pc : ExecutorPc) : Z :=
  match pc with ExIdle => 0 | pc => 10 - Z.of_nat (executor_rank pc) end.
Definition potential (first : Z) (x : Running) : Z :=
  match place_of x with
  | AtInitializer => 12 * first - 1
  | AtExecutor n => 12 * n + offset (rn_executor x)
  | AtComparer n => 12 * n + match rn_executor x with ExIdle => 10 | _ => 9 end
  | AtTimer n => 12 * n + 11
  | Lost => 0
  end.

(** The node has no block after the number. *)
Definition at_tip (x : Running) : Prop :=
  match place_of x with
  | AtComparer n => (best_number (bc_info (p_main (rn_tasks x))) ≤ n)%Z
  | AtTimer n => True
  | _ => False
  end.

(** What an access of the round does: the number is lost by a failure, moves
    forward, or goes round at the tip. *)
Definition moved (first : Z) (t : Task) (x x' : Running) : Prop :=
  place_of x ≠ Lost ∧
  ((place_of x' = Lost ∧
      (t = TInitializer ∧ ¬ is_Ok (initializer_run (nt_db (p_store (rn_tasks x)))).1 ∨
       p_executor_alive (rn_tasks x') = false)) ∨
   place_of x' ≠ Lost ∧
     ((potential first x < potential first x')%Z ∨ at_tip x ∧ place_of x' ≠ place_of x)).

Lemma executor_action_no_err (self : BlockExecutor (C := LocalBackendCore)) pc s e :
  (executor_action self pc s).1 ≠ Err e.
Proof.
  assert (∀ n s, (no_storages n s).1 ≠ Err e) as Hn
    by (intros n s'; unfold no_storages; by case_decide).
  destruct pc; simpl; try done.
  - unfold bind, lift. by destruct (bc_header _ _).
  - unfold bind, lift. by destruct (bc_body _ _).
  - unfold bind, lift. destruct (bc_justifications _ _); simpl; [|done..].
    destruct header, body; [done|apply Hn..].
  - destruct (local_get_state _ _) as [st|e'|p]; [done|apply Hn|done].
  - by destruct (execute_block _ _ _) as [[u|e'|p] api].
  - destruct (into_storage_changes _ _ _ _).1 as [ch|e'|p]; [done|apply Hn|done].
  - unfold bind, block_spec_version. by destruct (get_by_id _ _ _) as [[[v|]|e'|p] c].
Qed.

(** The tasks of the round, one by one. *)
Section moves.
Context (first : Z) (x : Running) (r : Ring) (Hin : in_ring x r).

Lemma take_moves n chan :
  rn_executor x = ExIdle → p_executor_chan (rn_tasks x) = n :: chan →
  moved first TExecutor x
    {| rn_tasks := set_numbers chan (p_comparer_chan (rn_tasks x)) (p_timer (rn_tasks x))
         (rn_tasks x);
       rn_executor := ExGetHeader n; rn_archiver := rn_archiver x |}.
Proof.
  intros Hpc Hc. destruct Hin as [Hpl _ _]. unfold at_place, executor_side, comparer_side in Hpl.
  rewrite Hpc, Hc in Hpl. simpl in Hpl.
  unfold moved, potential, place_of, executor_side, comparer_side. simpl. rewrite Hpc, Hc. simpl.
  destruct (rg_place r); injection Hpl as -> ? ? ?; simplify_eq. split; [done|].
  right. split; [done|]. left. lia.
Qed.

Lemma executor_access_moves (self : BlockExecutor (C := LocalBackendCore)) res ex :
  executor_rank (rn_executor x) ≠ 0 →
  executor_action self (rn_executor x) (executor_state (rn_tasks x)) = (res, ex) →
  moved first TExecutor x
    {| rn_tasks := executor_ran (p_executor_chan (rn_tasks x)) res ex (rn_tasks x);
       rn_executor := next_pc ExIdle res; rn_archiver := rn_archiver x |}.
Proof.
  intros Hz Hr. destruct (busy_place x r Hin Hz) as (Hi & He & Hc & Ht & n & Hn & Hpl).
  pose proof (executor_action_cases self (rn_executor x) (executor_state (rn_tasks x)) Hz) as Hcase.
  pose proof (executor_action_no_err self (rn_executor x) (executor_state (rn_tasks x))) as Hne.
  rewrite Hr in Hcase, Hne. rewrite (in_ring_place _ _ Hin) in Hpl.
  unfold moved. split; [rewrite Hpl; by destruct (rn_executor x)|].
  destruct res as [pc|e|m]; [|by destruct (Hne e)|].
  - right. unfold potential, at_tip. rewrite Hpl. unfold place_of, executor_side, comparer_side. simpl.
    rewrite Hi, Ht, He.
    destruct Hcase as [k h|k h b|k h b j|pc Hk Hr1 Hr2|k sb st|k sb st api|k sb st api ch
      |k sb ch v c Hv|k msg|k];
      simpl in *; try (injection Hn as ->); rewrite ?Hc; simpl; try (split; [done|]; left; lia).
    destruct pc; simpl in *; simplify_eq; try lia; (split; [done|]; left; lia).
  - left. destruct Hcase as [Ha Hcs]. split; [|by right].
    unfold place_of, executor_side, comparer_side. simpl in *. by rewrite Hi, Ht, He, Hcs, Hc.
Qed.

Lemma initializer_moves :
  running_inv x → p_initializer (rn_tasks x) = true →
  (∀ n, (initializer_run (nt_db (p_store (rn_tasks x)))).1 = Ok n → n = first) →
  moved first TInitializer x
    {| rn_tasks := run_initializer (rn_tasks x);
       rn_executor := rn_executor x; rn_archiver := rn_archiver x |}.
Proof.
  intros I Hi Hfirst. destruct (rv_initializer _ I Hi) as (He & Ha & Hec & Hcc & Hac & Htm & Hp).
  unfold moved, potential, at_tip, place_of. rewrite Hi. split; [done|].
  unfold run_initializer. destruct (initializer_run _) as [res db]. simpl in *.
  unfold executor_side, comparer_side. simpl. rewrite He, Hec, Hcc, Htm. simpl.
  destruct res as [n|e|m]; simpl; [right|left..].
  - split; [done|]. rewrite (Hfirst n eq_refl). left. lia.
  - split; [done|]. left. split; [done|]. by intros [].
  - split; [done|]. left. split; [done|]. by intros [].
Qed.

Lemma comparer_moves p s :
  (∀ n, n ∈ rg_numbers r → is_u32 n) → pipeline_step p TComparer (rn_tasks x) = Some s →
  moved first TComparer x {| rn_tasks := s; rn_executor := rn_executor x; rn_archiver := rn_archiver x |}.
Proof.
  intros Hu Hs. pose proof (ir_place _ _ Hin) as Hpl. unfold at_place in Hpl. simpl in Hs.
  destruct (p_comparer_chan (rn_tasks x)) as [|n chan] eqn:Hcc; [done|].
  destruct (p_timer (rn_tasks x)) eqn:Htm; [done|].
  unfold executor_side, comparer_side in Hpl. rewrite Hcc in Hpl.
  assert (rg_place r = AtComparer n ∧ chan = [] ∧ p_executor_chan (rn_tasks x) = [] ∧
    p_initializer (rn_tasks x) = false ∧ rn_executor x = ExIdle) as (Hri & -> & Hec & Hi & He)
    by (destruct (rn_executor x), (rg_place r); simpl in *; simplify_eq; done).
  assert (is_u32 n) as Hn by (apply Hu; unfold rg_numbers; rewrite Hri; by left).
  pose proof (compare_next best_is_u32 (p_main (rn_tasks x)) n Hn) as Hcmp.
  pose proof (in_ring_place _ _ Hin) as Hplace. rewrite Hri in Hplace.
  unfold moved, potential, at_tip. rewrite <- Hplace, He. split; [done|]. right.
  destruct (compare _ _) as [k|k]; injection Hs as <-;
    unfold place_of, executor_side, comparer_side; simpl; rewrite ?He, Hi, Hec; simpl.
  - destruct Hcmp as (-> & _). split; [done|]. left. lia.
  - destruct Hcmp as [-> Hb]. split; [done|]. by right.
Qed.

Lemma timer_moves p s : pipeline_step p TTimer (rn_tasks x) = Some s →
  moved first TTimer x {| rn_tasks := s; rn_executor := rn_executor x; rn_archiver := rn_archiver x |}.
Proof.
  intros Hs. pose proof (ir_place _ _ Hin) as Hpl. unfold at_place in Hpl. simpl in Hs.
  destruct (p_timer (rn_tasks x)) as [n|] eqn:Htm; [|done]. injection Hs as <-.
  unfold executor_side, comparer_side in Hpl.
  assert (rg_place r = AtTimer n ∧ p_executor_chan (rn_tasks x) = [] ∧
    p_comparer_chan (rn_tasks x) = [] ∧
    p_initializer (rn_tasks x) = false ∧ rn_executor x = ExIdle) as (Hri & Hec & Hcc & Hi & He)
    by (destruct (rn_executor x), (rg_place r); simpl in *; simplify_eq; done).
  pose proof (in_ring_place _ _ Hin) as Hplace. rewrite Hri in Hplace.
  unfold moved, at_tip. rewrite <- Hplace. split; [done|]. right.
  unfold place_of, executor_side, comparer_side. simpl. rewrite Hi, He, Hec, Hcc. by auto.
Qed.
End moves.

Lemma access_moves first p t x x' r :
  running_inv x → in_ring x r → (∀ n, n ∈ rg_numbers r → is_u32 n) →
  (p_initializer (rn_tasks x) = true →
     ∀ n, (initializer_run (nt_db (p_store (rn_tasks x)))).1 = Ok n → n = first) →
  carries t = true → access p t x = Some x' → moved first t x x'.
Proof.
  intros I Hin Hu Hfirst Hc H. apply access_cases in H.
  destruct H as [n chan Hpc Hch Hal|res ex Hpc Hact|m q chan Hpc Hch Hal|res st Hpc Hact|t s Ht1 Ht2 Hs].
  - by apply (take_moves first x r Hin).
  - by eapply executor_access_moves.
  - done.
  - done.
  - destruct t; try done.
    + simpl in Hs. destruct (p_initializer (rn_tasks x)) eqn:Hi; [|done]. injection Hs as <-.
      apply (initializer_moves first x); auto.
    + by apply (comparer_moves first x r Hin p).
    + by apply (timer_moves first x r Hin p).
Qed.

(** The other tasks leave the number where it is. *)
Lemma access_stays first p t x x' : carries t = false → access p t x = Some x' →
  place_of x' = place_of x ∧ potential first x' = potential first x ∧
  p_executor_alive (rn_tasks x') = p_executor_alive (rn_tasks x).
Proof.
  intros Hc H. apply access_cases in H.
  destruct H as [n chan Hpc Hch Hal|res ex Hpc Hact|m q chan Hpc Hch Hal|res st Hpc Hact|t s Ht1 Ht2 Hs];
    try done.
  destruct t; try done. simpl in Hs. by injection Hs as <-.
Qed.

(** ** The round reaches the best block *)

Lemma first_numbers first r : is_u32 first → ring_inv u32_max (λ n, n = first) r →
  ∀ n, n ∈ rg_numbers r → is_u32 n.
Proof. intros Hf. apply sound_numbers; [done|]. by intros n ->. Qed.

(** The node's best number has not fallen below [target]. *)
Definition keeps_target (target : Z) (x : Running) : Prop :=
  (target ≤ best_number (bc_info (p_main (rn_tasks x))))%Z.

Lemma access_keeps_target target p t x x' :
  keeps_target target x → imports_above target x t → access p t x = Some x' →
  keeps_target target x'.
Proof.
  intros Hk Hi Ha%access_best. unfold keeps_target in *. destruct t; simpl in Ha; by rewrite Ha.
Qed.

(** The next state of the round, with all that is known of it. *)
Lemma access_round first target p t x x' r :
  is_u32 first → sound (λ n, n = first) x → in_ring x r →
  ring_inv u32_max (λ n, n = first) r → ring_strict target r → keeps_target target x →
  (p_initializer (rn_tasks x) = true →
     ∀ n, (initializer_run (nt_db (p_store (rn_tasks x)))).1 = Ok n → n = first) →
  access p t x = Some x' →
  ∃ r', in_ring x' r' ∧ ring_inv u32_max (λ n, n = first) r' ∧ ring_strict target r'.
Proof.
  intros Hf [I Ho _] Hin Hr Hb Hk Hfirst Ha.
  destruct (access_refines best_is_u32 target u32_max (λ n, n = first) p t x x' r I Ho Hin)
    as (r' & Hin' & Hstep); [|by eapply first_numbers|done..|].
  { split; [done|]. apply best_is_u32. }
  exists r'. split; [done|]. destruct Hstep as [->|Hstep]; [done|]. split.
  - eapply (ring_step_inv target u32_max); [|done|done]. intros n ->. unfold is_u32 in Hf. lia.
  - by eapply ring_step_strict.
Qed.

(** Every block from [first] to [target] was handed over (block 0 may be left
    out). *)
Definition covered (first target : Z) (x : Running) : Prop :=
  ∀ n, (first ≤ n ≤ target)%Z → (0 < n)%Z → n ∈ p_published (rn_tasks x).

Lemma access_covered first target p t x x' :
  covered first target x → access p t x = Some x' → covered first target x'.
Proof.
  intros Hc Ha n Hn H0. specialize (Hc n Hn H0).
  destruct (access_published p t x x' Ha) as [(l & -> & _)|(m & q & _ & _ & -> & _)]; [|done].
  apply elem_of_app. by left.
Qed.

(** Once the number is past [target] everything is covered. *)
Lemma potential_covered first target x r :
  in_ring x r → ring_inv u32_max (λ n, n = first) r → place_of x ≠ Lost →
  covered first target x ∨ (potential first x ≤ 12 * target + 10)%Z.
Proof.
  intros Hin Hr Hne. pose proof (in_ring_place _ _ Hin) as Hpl.
  pose proof (λ n k, ring_covers u32_max (λ n, n = first) r n k Hr) as Hcov. rewrite Hpl in Hcov.
  rewrite (ir_published _ _ Hin) in Hcov.
  unfold potential, covered. destruct (place_of x) as [|n|n|n|] eqn:Hp; try done.
  - destruct (decide (first ≤ target)%Z); [right; lia|left; lia].
  - destruct (decide (n ≤ target)%Z); [|left; intros k Hk H0; apply (Hcov (n - 1)%Z); [done|intros f ->; lia|lia]].
    right. unfold offset. destruct (rn_executor x); simpl; lia.
  - destruct (decide (n < target)%Z); [right; destruct (rn_executor x); lia|].
    left. intros k Hk H0. apply (Hcov n); [done|intros f ->; lia|lia].
  - destruct (decide (n < target)%Z); [right; lia|].
    left. intros k Hk H0. apply (Hcov n); [done|intros f ->; lia|lia].
Qed.

(** At the tip everything is covered. *)
Lemma tip_covered first target x r :
  in_ring x r → ring_inv u32_max (λ n, n = first) r → ring_strict target r →
  keeps_target target x → at_tip x → covered first target x.
Proof.
  intros Hin Hr [_ Hs] Hb. unfold keeps_target in Hb. rewrite (in_ring_place _ _ Hin) in Hs.
  pose proof (λ n k, ring_covers u32_max (λ n, n = first) r n k Hr) as Hcov.
  rewrite (in_ring_place _ _ Hin), (ir_published _ _ Hin) in Hcov.
  unfold at_tip. destruct (place_of x) as [|n|n|n|]; try done; intros Ht k Hk H0;
    (apply (Hcov n); [done|intros f ->; lia|lia]).
Qed.

(** ** The potential of a schedule *)

Section run.
Context (p : PipelineParts) (ok : Running → Task → Prop).
Context (first target : Z) (Hfirst_u32 : is_u32 first).

(** After [k] accesses of the round; the number was lost by the last of them if
    at all. *)
Record progressed (k : Z) (x : Running) : Prop := {
  pr_sound : sound (λ n, n = first) x;
  pr_start : p_initializer (rn_tasks x) = true →
    ∀ s, pg_tables s = pg_tables (nt_db (p_store (rn_tasks x))) →
    ∀ n, (initializer_run s).1 = Ok n → n = first;
  pr_round : ∃ r, in_ring x r ∧ ring_inv u32_max (λ n, n = first) r ∧ ring_strict target r;
  pr_target : keeps_target target x;
  pr_potential : covered first target x ∨
    if decide (place_of x = Lost) then (k ≤ 12 * (target - first) + 12)%Z
    else (k ≤ potential first x - (12 * first - 1))%Z;
}.

Lemma progressed_access k t x x' :
  progressed k x → imports_above target x t → access p t x = Some x' →
  progressed (k + if carries t then 1 else 0) x'.
Proof.
  intros [S Hst (r & Hin & Hr & Hb) Htgt Hp] Himp Ha. pose proof (sd_running _ _ _ S) as I.
  assert (p_initializer (rn_tasks x) = true →
    ∀ n, (initializer_run (nt_db (p_store (rn_tasks x)))).1 = Ok n → n = first) as Hf
    by (intros Hi; by apply Hst).
  pose proof (first_numbers first r Hfirst_u32 Hr) as Hnum.
  split.
  - by eapply sound_access; [exact best_is_u32|intros n ->|exact S|exact Hf|exact Ha].
  - intros Hi. destruct (access_initializer p t x x' I Ha Hi) as [Hi0 ->]. exact (Hst Hi0).
  - by eapply access_round.
  - by eapply access_keeps_target.
  - destruct Hp as [Hp|Hp]; [left; by eapply access_covered|].
    destruct (carries t) eqn:Hc.
    + destruct (access_moves first p t x x' r I Hin Hnum Hf Hc Ha) as [Hne Hm].
      rewrite decide_False in Hp by done.
      destruct Hm as [[Hl _]|[Hl [Hlt|[Htip _]]]].
      * rewrite decide_True by done.
        destruct (potential_covered first target x r Hin Hr Hne) as [Hcov|Hle];
          [left; by eapply access_covered|right; lia].
      * rewrite decide_False by done. right. lia.
      * left. eapply access_covered; [|exact Ha]. by eapply tip_covered.
    + destruct (access_stays first p t x x' Hc Ha) as (-> & -> & _). right.
      by rewrite Z.add_0_r.
Qed.

Lemma progressed_schedule x0 ts x :
  (∀ y t, ok y t → imports_above target y t) →
  progressed 0 x0 → schedule p ok x0 ts x → progressed (count carries ts) x.
Proof.
  intros Hok H0. induction 1; [done|]. rewrite count_snoc. eapply progressed_access; eauto.
Qed.

Lemma progressed_covered k x :
  progressed k x → (12 * (target - first + 2) ≤ k)%Z → covered first target x.
Proof.
  intros [_ _ (r & Hin & Hr & _) _ [Hp|Hp]] Hk; [done|]. case_decide as Hl; [lia|].
  destruct (potential_covered first target x r Hin Hr Hl); [done|]. lia.
Qed.
End run.

(** The start of a schedule. *)
Lemma start_progressed target config b r g store p s0 :
  start_pipeline config b r g true store = Ok (Some (p, s0)) →
  is_u32 (cli_block_num (cli config)) → pg_wf (nt_db store) →
  (target ≤ best_number (bc_info b))%Z →
  is_u32 (first_number config store) ∧
  progressed (first_number config store) target 0 (idle s0).
Proof.
  intros Hs Hu Hwf Htgt. set (first := first_number config store).
  assert (reset_force (cli config) = false → ∀ s, pg_tables s = pg_tables (nt_db store) →
    ∀ n, (initializer_run s).1 = Ok n → n = first) as Hfirst.
  { intros Hf s Ht n Hn. apply initializer_stored in Hn; [|unfold pg_wf; by rewrite Ht].
    unfold first, first_number. by rewrite Hf, <- Ht. }
  assert (reset_force (cli config) = true → cli_block_num (cli config) = first) as Hreset
    by (intros Hf; unfold first, first_number; by rewrite Hf).
  split; [by apply first_number_u32|].
  pose proof (start_sound u32_max (λ n, n = first) _ _ _ _ _ _ _ _ Hs Hreset) as S.
  unfold start_pipeline in Hs.
  apply obind_Ok in Hs as (k & _ & Hs). apply obind_Ok in Hs as (nt & _ & Hs).
  injection Hs as <- <-. split; [exact S| | |exact Htgt|].
  - simpl. destruct (reset_force _) eqn:Hf; [done|]. intros _ s Ht. by apply Hfirst.
  - destruct S as [_ _ (rg & Hin & Hr)]. exists rg. split_and!; [done..|].
    pose proof (in_ring_place _ _ Hin) as Hpl.
    split; rewrite ?Hpl, ?(ir_published _ _ Hin); simpl; [done|].
    unfold place_of. simpl. by destruct (reset_force _).
  - right. unfold potential, place_of. simpl. destruct (reset_force _) eqn:Hf; simpl.
    + rewrite Hreset by done. simpl. lia.
    + lia.
Qed.

(** C4. Whatever the order of the accesses, the blocks are handed over.  From a
    start, with [first] the configured number or the largest stored one, let
    [target] be a number the node's best one is not below at the start and does
    not fall below with an import (otherwise any import may happen,
    reorganisations included): every schedule with
    [12 * (target - first + 2)] accesses of the initializer, the executor, the
    comparer and its timer has handed every block from [first] to [target] to
    the archiver (block 0 may be passed over).  Nothing is assumed of the
    archiver or of the services: where one fails or the executor panics, the
    round has no such accesses left. *)
Theorem every_schedule_hands_over (config : ArchiveConfig) (b r : DB) (g : gmap Bytes Bytes)
    (store : NotifierState) (p : PipelineParts) (s0 : PipelineState) (target : Z)
    (ts : list Task) (x : Running) :
  start_pipeline config b r g true store = Ok (Some (p, s0)) →
  is_u32 (cli_block_num (cli config)) → pg_wf (nt_db store) →
  (target ≤ best_number (bc_info b))%Z → schedule p (imports_above target) (idle s0) ts x →
  let first := first_number config store in
  (12 * (target - first + 2) ≤ count carries ts)%Z →
  ∀ n, (first ≤ n ≤ target)%Z → (0 < n)%Z → n ∈ p_published (rn_tasks x).
Proof.
  intros Hs Hu Hwf Htgt Hx first Hk.
  destruct (start_progressed target _ _ _ _ _ _ _ Hs Hu Hwf Htgt) as [Hf H0].
  eapply (progressed_covered first target); [|exact Hk].
  by eapply (progressed_schedule p (imports_above target)); [..|exact Hx].
Qed.

(** ** A node that falls back *)

(** Where the number is in its cycle, in twelfths; [k] counts how often it was
    handed over. *)
Definition phase (k : nat) (x : Running) : Z :=
  match place_of x with
  | AtExecutor n => 12 * (Z.of_nat k + 1) + (potential 0 x - 12 * n)
  | AtComparer n | AtTimer n => 12 * Z.of_nat k + (potential 0 x - 12 * n)
  | _ => 12 * Z.of_nat k + 21
  end.

Lemma phase_range k x r : in_ring x r →
  match place_of x with
  | AtExecutor n => 12 * (Z.of_nat k + 1) ≤ phase k x ≤ 12 * (Z.of_nat k + 1) + 8
  | AtComparer n => 12 * Z.of_nat k + 9 ≤ phase k x ≤ 12 * Z.of_nat k + 10
  | AtTimer n => phase k x = 12 * Z.of_nat k + 11
  | _ => phase k x = 12 * Z.of_nat k + 21
  end%Z.
Proof.
  intros Hin. pose proof (ir_place _ _ Hin) as Hat. rewrite (in_ring_place _ _ Hin) in Hat.
  unfold phase, potential. destruct (place_of x) as [|n|n|n|]; try lia.
  - unfold at_place, comparer_side in Hat. injection Hat as _ _ Hc _.
    unfold offset. destruct (rn_executor x); simpl in *; try lia; done.
  - destruct (rn_executor x); lia.
Qed.

Section falls_back.
Context (n : Z) (Hn : (0 < n)%Z) (Hn_u32 : is_u32 n) (handed_over : list Z).

Definition cycling (pl : Place) : Prop :=
  pl = AtExecutor n ∨ pl = AtComparer n ∨ pl = AtTimer n ∨ pl = Lost.

(** The number goes round and nothing else is handed over. *)
Record stalled (c : Z) (x : Running) : Prop := {
  sl_running : running_inv x;
  sl_message : own_message (rn_executor x);
  sl_best : best_within 0 n x;
  sl_ring : ∃ r k, in_ring x r ∧ cycling (rg_place r) ∧
    rg_published r = handed_over ++ replicate k n ∧ (c ≤ phase k x)%Z;
}.

(** What a step of the round does while the node has no block after [n]: it
    stays, hands the number over, or moves on. *)
Definition cycled (k : nat) (r r' : Ring) : Prop :=
  (rg_place r' = rg_place r ∧ rg_published r' = rg_published r) ∨
  (rg_place r = AtExecutor n ∧ rg_place r' = AtComparer n ∧
   rg_published r' = handed_over ++ replicate (S k) n) ∨
  (rg_published r' = rg_published r ∧
   (rg_place r' = Lost ∨ rg_place r = AtComparer n ∧ rg_place r' = AtTimer n ∨
    rg_place r = AtTimer n ∧ rg_place r' = AtExecutor n)).

Lemma ring_step_cycles r r' k : cycling (rg_place r) →
  rg_published r = handed_over ++ replicate k n →
  ring_step 0 n (λ _, False) r r' → cycling (rg_place r') ∧ cycled k r r'.
Proof.
  intros Hc Hp Hs. unfold cycling, cycled in *.
  destruct Hs as [m p w []|m p w|p w|m p w Hm|m p w Hm|m p w|pl p w|j pl p w]; simpl in *;
    [destruct Hc as [H|[H|[H|H]]]; try discriminate H;
     try (injection H as H; try lia; subst m)..| |].
  - split; [auto|]. right. left. split_and!; [done..|]. by rewrite Hp, <- app_assoc, replicate_cons_app.
  - split; [tauto|]. right. right. split; [done|naive_solver].
  - split; [tauto|]. right. right. split; [done|naive_solver].
  - split; [tauto|]. right. right. split; [done|naive_solver].
  - split; [done|]. by left.
Qed.

(** An access of the round brings the number further in its cycle. *)
Lemma cycled_phase k t x x' r r' : in_ring x r → in_ring x' r' → cycling (rg_place r) →
  rg_published r = handed_over ++ replicate k n → cycled k r r' → moved 0 t x x' →
  ∃ j, rg_published r' = handed_over ++ replicate j n ∧ (phase k x + 1 ≤ phase j x')%Z.
Proof.
  intros Hin Hin' Hc Hp Hcase [Hne Hm]. unfold cycled, cycling in *.
  pose proof (phase_range k x r Hin) as Hr. pose proof (phase_range k x' r' Hin') as Hr'.
  rewrite (in_ring_place _ _ Hin), (in_ring_place _ _ Hin') in *.
  destruct Hcase as [[Hsame Hpub]|[(Hx & Hx' & Hpub)|[Hpub Hmv]]].
  - exists k. split; [congruence|].
    destruct Hm as [[Hl _]|[_ [Hlt|[_ Hd]]]]; [congruence| |done].
    unfold phase in *. rewrite Hsame in *.
    destruct Hc as [E|[E|[E|E]]]; rewrite E in *; [lia..|done].
  - exists (S k). split; [done|]. rewrite Hx in Hr.
    pose proof (phase_range (S k) x' r' Hin') as Hr2. rewrite Hx' in Hr2. lia.
  - exists k. split; [congruence|].
    destruct Hmv as [Hx'|[[Hx Hx']|[Hx Hx']]]; rewrite Hx' in Hr'.
    + destruct Hc as [Hx|[Hx|[Hx|Hx]]]; rewrite Hx in Hr; [lia..|done].
    + rewrite Hx in Hr. lia.
    + rewrite Hx in Hr. lia.
Qed.

(** The number goes round: it is a [u32], and the initializer has run. *)
Lemma cycling_round x r : in_ring x r → cycling (rg_place r) →
  p_initializer (rn_tasks x) = false ∧ ∀ m, m ∈ rg_numbers r → is_u32 m.
Proof.
  intros Hin Hc. pose proof (ir_place _ _ Hin) as Hat. unfold at_place, rg_numbers in *.
  destruct Hc as [Hc|[Hc|[Hc|Hc]]]; rewrite Hc in Hat |- *;
    (split; [by injection Hat|]); intros m Hm;
    first [by apply elem_of_nil in Hm|by apply list_elem_of_singleton in Hm as ->].
Qed.

Lemma stalled_access c p t x x' : stalled c x → imports_below n x t → access p t x = Some x' →
  stalled (c + if carries t then 1 else 0) x'.
Proof.
  intros [I Ho Hb (r & k & Hin & Hc & Hp & Hk)] Himp Ha.
  destruct (cycling_round x r Hin Hc) as [Hi Hu].
  destruct (access_refines best_is_u32 0 n (λ _, False) p t x x' r I Ho Hin Hb Hu)
    as (r' & Hin' & Hs); [by rewrite Hi|done|].
  assert (cycling (rg_place r') ∧ cycled k r r') as [Hc' Hcase]
    by (destruct Hs as [->|Hs]; [split; [done|by left]|by eapply ring_step_cycles]).
  split; [by eapply access_inv|by eapply access_own_message| |].
  { apply access_best in Ha. unfold best_within in *. destruct t; simpl in Ha; rewrite Ha; try done.
    destruct (best_is_u32 main). by split. }
  destruct (carries t) eqn:Hct.
  - destruct (cycled_phase k t x x' r r') as (j & Hpub & Hj); try done.
    { apply (access_moves 0 p t x x' r I Hin Hu); [by rewrite Hi|done..]. }
    exists r', j. split_and!; [done..|lia].
  - destruct (access_stays 0 p t x x' Hct Ha) as (Hsame & Hpot & _). exists r', k.
    split_and!; [done|done| |unfold phase in *; rewrite Hsame, Hpot; lia].
    unfold cycled in Hcase. rewrite (in_ring_place _ _ Hin), (in_ring_place _ _ Hin') in Hcase.
    destruct Hcase as [[_ Hpub]|[(Hx & Hx' & _)|[Hpub _]]]; congruence.
Qed.

Lemma stalled_schedule p x0 ts x :
  stalled 0 x0 → schedule p (imports_below n) x0 ts x → stalled (count carries ts) x.
Proof.
  intros H0. induction 1; [done|]. rewrite count_snoc. by eapply stalled_access.
Qed.
End falls_back.

(** C36. A node that falls back stalls the archive.  When, at any moment of any
    run, the number on its way is not below the node's best one (because the
    node is at its tip, or its best block has moved to a lower number), and no
    import brings a best number above it, then whatever the order of the
    accesses, nothing but this number is handed over again, and every twelve
    accesses of the executor, the comparer and its timer hand it over once
    more: the numbers between the lower best block and it are not archived
    again, although their blocks have changed. *)
Theorem fallen_best_stalls (config : ArchiveConfig) (b r : DB) (g : gmap Bytes Bytes)
    (start : bool) (store : NotifierState) (p : PipelineParts) (s0 : PipelineState)
    (x0 x : Running) (n : Z) (ts : list Task) :
  start_pipeline config b r g start store = Ok (Some (p, s0)) →
  is_u32 (cli_block_num (cli config)) → interleaved p any_import (idle s0) x0 →
  n ∈ executor_side x0 ∨ n ∈ comparer_side x0 ∨ p_timer (rn_tasks x0) = Some n →
  (0 < n)%Z → (best_number (bc_info (p_main (rn_tasks x0))) ≤ n)%Z →
  schedule p (imports_below n) x0 ts x →
  ∃ k, p_published (rn_tasks x) = p_published (rn_tasks x0) ++ replicate k n ∧
    (count carries ts ≤ 12 * (Z.of_nat k + 2))%Z.
Proof.
  intros Hs Hu Hx0 Hat Hn Hb Hx.
  assert (sound is_u32 x0) as [I Ho (rg & Hin & Hr)]
    by (eapply interleaved_sound; [exact best_is_u32|by eapply start_sound|exact Hx0]).
  assert (rg_place rg = AtExecutor n ∨ rg_place rg = AtComparer n ∨ rg_place rg = AtTimer n) as Hpl.
  { pose proof (ir_place _ _ Hin) as H. unfold at_place in H.
    destruct (rg_place rg); injection H as _ He Hc Ht; rewrite He, Hc, Ht in Hat;
      rewrite ?list_elem_of_singleton, ?elem_of_nil in Hat; naive_solver. }
  assert (is_u32 n) as Hn_u32.
  { apply (sound_numbers u32_max is_u32 (Z.le_refl _) (λ n H, H) rg Hr). unfold rg_numbers.
    destruct Hpl as [->|[->| ->]]; by left. }
  assert (stalled n (p_published (rn_tasks x0)) 0 x0) as H0.
  { split; [done|done|split; [apply best_is_u32|done]|]. exists rg, 0. split_and!.
    - done.
    - unfold cycling. tauto.
    - simpl. by rewrite app_nil_r, (ir_published _ _ Hin).
    - pose proof (phase_range 0 x0 rg Hin) as H. rewrite <- (in_ring_place _ _ Hin) in H.
      destruct Hpl as [E|[E|E]]; rewrite E in H; lia. }
  destruct (stalled_schedule n Hn Hn_u32 _ p x0 ts x H0 Hx) as [_ _ _ (r' & k & Hin' & Hc & Hp & Hk)].
  exists k. split; [by rewrite <- (ir_published _ _ Hin')|].
  pose proof (phase_range k x r' Hin') as H. destruct (place_of x); lia.
Qed.

(** ** The archiver *)

Definition archiver_offset (pc : ArchiverPc) : Z :=
  match pc with ArIdle => 0 | pc => 7 - Z.of_nat (archiver_rank pc) end.

(** Seven accesses a message at most. *)
Definition archived (x : Running) : Z :=
  7 * (Z.of_nat (length (p_published (rn_tasks x))) - Z.of_nat (length (waiting x)))
  + archiver_offset (rn_archiver x).

Lemma access_archives p t x x' : access p t x = Some x' →
  (archived x + (if archives t then 1 else 0) ≤ archived x')%Z.
Proof.
  intros H. pose proof (access_published p t x x' H) as Hpub. apply access_cases in H.
  assert (∀ l, p_published (rn_tasks x') = p_published (rn_tasks x) ++ l → waiting x' = waiting x ++ l →
    archived x' = (archived x - archiver_offset (rn_archiver x) + archiver_offset (rn_archiver x'))%Z)
    as Hadd by (intros l Hp Hw; unfold archived; rewrite Hp, Hw, !length_app; lia).
  assert (∀ m, p_published (rn_tasks x') = p_published (rn_tasks x) → waiting x = m :: waiting x' →
    archived x' = (archived x + 7 - archiver_offset (rn_archiver x) + archiver_offset (rn_archiver x'))%Z)
    as Hdone by (intros m Hp Hw; unfold archived; rewrite Hp, Hw; simpl; lia).
  destruct Hpub as [(l & Hp & Hw & Hidle)|(m & q & Hm & Hi & Hp & Hw)].
  - rewrite (Hadd l Hp Hw).
    destruct H as [n chan Hpc Hch Hal|res ex Hpc Hact|m q chan Hpc Hch Hal|res st Hpc Hact|t s Ht1 Ht2 Hs];
      simpl in *; try lia.
    + rewrite Hpc. simpl. lia.
    + destruct res as [pc|e|msg]; simpl in *; [|by rewrite Hidle in Hpc..].
      destruct (archiver_action_next _ _ _ _ _ Hpc Hact) as [Hlt _].
      destruct (rn_archiver x); [done|..]; destruct pc; try (by specialize (Hidle eq_refl));
        simpl in *; lia.
    + destruct t; try done; simpl; lia.
  - rewrite (Hdone _ Hp Hw), Hi. simpl. destruct (rn_archiver x), (archives t); simpl in *; try done; lia.
Qed.

Lemma archived_schedule p ok x0 ts x :
  schedule p ok x0 ts x → (archived x0 + count archives ts ≤ archived x)%Z.
Proof.
  induction 1 as [|ts t x x' _ IH _ Ha]; [unfold count; simpl; lia|].
  rewrite count_snoc. pose proof (access_archives p t x x' Ha). lia.
Qed.

(** ** No deadlock *)

(** While the number is on its way and the executor lives, a task of the round
    can go on. *)
Lemma round_enabled p x r : running_inv x → in_ring x r → place_of x ≠ Lost →
  p_executor_alive (rn_tasks x) = true → ∃ t x', carries t = true ∧ access p t x = Some x'.
Proof.
  intros I Hin Hl Hal. pose proof (in_ring_place _ _ Hin) as Hpl.
  pose proof (ir_place _ _ Hin) as Hat. rewrite Hpl in Hat. unfold at_place in Hat.
  destruct (place_of x) as [|n|n|n|] eqn:Hp; [..|done]; injection Hat as Hi He Hc Ht.
  - exists TInitializer. simpl. rewrite Hi. by eexists.
  - exists TExecutor. simpl. unfold executor_access.
    destruct (rn_executor x) eqn:Hpc; [|destruct (executor_action _ _ _); by eexists..].
    unfold executor_side in He. rewrite Hpc in He. simpl in He. rewrite He, Hal. by eexists.
  - destruct (rn_executor x) eqn:Hpc;
      try (exists TExecutor; simpl; unfold executor_access; rewrite Hpc;
        destruct (executor_action _ _ _); by eexists).
    exists TComparer. simpl. unfold comparer_side in Hc. rewrite Hpc in Hc. simpl in Hc.
    rewrite Hc, Ht. destruct (compare _ _); by eexists.
  - exists TTimer. simpl. rewrite Ht. by eexists.
Qed.

Lemma archiver_enabled p x : p_archiver_alive (rn_tasks x) = true → waiting x ≠ [] →
  ∃ x', access p TArchiver x = Some x'.
Proof.
  intros Hal Hw. simpl. unfold archiver_access, waiting, archiver_numbers in *.
  destruct (rn_archiver x); [|destruct (archiver_action _ _ _); by eexists..].
  simpl in Hw. destruct (p_archiver_chan (rn_tasks x)) as [|[m q] chan]; [done|].
  rewrite Hal. by eexists.
Qed.

(** ** Healthy services *)

Section healthy.
Context (producer : KafkaProducer).
Context (block_numbers : ∀ db n h, bc_header db (IdNumber n) = Ok (Some h) → h_number h = n).
Context (versions_u32 : ∀ v, is_u32 (rv_spec_version v)).
Context (Hok : services_ok).

(** The number is only lost with the executor. *)
Lemma access_lost first store p t x x' r :
  is_u32 first → pp_producer p = producer →
  healthy producer store first x → in_ring x r → ring_inv u32_max (λ n, n = first) r →
  (p_initializer (rn_tasks x) = true →
     ∀ n, (initializer_run (nt_db (p_store (rn_tasks x)))).1 = Ok n → n = first) →
  (place_of x = Lost → p_executor_alive (rn_tasks x) = false) →
  access p t x = Some x' → place_of x' = Lost → p_executor_alive (rn_tasks x') = false.
Proof.
  intros Hf Hp Hx Hin Hr Hfirst Hl Ha Hl'. pose proof (sd_running _ _ _ (h_sound _ _ _ _ Hx)) as I.
  pose proof (first_numbers first r Hf Hr) as Hnum.
  destruct (carries t) eqn:Hc.
  - destruct (access_moves first p t x x' r I Hin Hnum Hfirst Hc Ha) as [_ [[_ [[_ Hn]|Hd]]|[Hne _]]];
      [|done|done].
    destruct Hn. destruct (initializer_first (nt_db (p_store (rn_tasks x)))
      (ok_postgres Hok) (h_wf _ _ _ _ Hx)) as (s' & -> & _). by eexists.
  - destruct (access_stays first p t x x' Hc Ha) as (Hpl & _ & ->). apply Hl. by rewrite <- Hpl.
Qed.

(** The accesses of a session on services that do not fail, of a node whose best
    number does not fall below [target]. *)
Definition attainable (target : Z) (x : Running) (t : Task) : Prop :=
  answerable x t ∧ imports_above target x t.

(** The executor has lost the number only by its own panic. *)
Lemma schedule_lost first store target p s0 ts x :
  is_u32 first → pp_producer p = producer →
  (∀ s, pg_tables s = pg_tables (nt_db store) → ∀ n, (initializer_run s).1 = Ok n → n = first) →
  healthy producer store first (idle s0) → progressed first target 0 (idle s0) →
  (place_of (idle s0) = Lost → p_executor_alive s0 = false) →
  schedule p (attainable target) (idle s0) ts x →
  healthy producer store first x ∧ (place_of x = Lost → p_executor_alive (rn_tasks x) = false).
Proof.
  intros Hf Hp Hfirst Hh0 H0 Hl0 Hx.
  induction Hx as [|ts t x x' Hx [Hh IH] [Hst _] Ha]; [done|]. split.
  - by eapply healthy_access.
  - destruct (progressed_schedule p (attainable target) first target Hf _ _ _ (λ y t, @proj2 _ _) H0 Hx)
      as [_ Hinit (r & Hin & Hr & _) _ _].
    intros Hl. eapply (access_lost first store p t x x' r); try done.
    intros Hi. by apply Hinit.
Qed.

(** The messages the archiver has finished are the first ones, without a
    repetition up to the node's best block. *)
Lemma finished_in_order first target x r fin later n :
  in_ring x r → ring_inv u32_max (λ n, n = first) r → ring_strict target r →
  p_published (rn_tasks x) = fin ++ later → (target - first < Z.of_nat (length fin))%Z →
  (first ≤ n ≤ target)%Z → (0 < n)%Z → n ∈ fin.
Proof.
  intros Hin Hr [Hinc _] Hpub Hlen Hn H0. pose proof (ri_head _ _ _ Hr) as Hh.
  rewrite (ir_published _ _ Hin), Hpub in *. destruct fin as [|h fin]; [simpl in Hlen; lia|].
  specialize (Hh h eq_refl).
  assert (first ≤ h ≤ n)%Z as Hhn by (destruct Hh as [->|[? ->]]; lia).
  pose proof (increasing_lookup target _ h Hinc eq_refl (Z.to_nat (n - h))) as Hi.
  rewrite lookup_app_l in Hi by (simpl in *; lia).
  eapply list_elem_of_lookup_2. rewrite Hi; [f_equal; lia|rewrite length_app; simpl in *; lia|lia].
Qed.

(** C3. Every schedule archives.  A session is started without [reset_force];
    PostgreSQL and Kafka do not fail, payloads serialize, the messages fit the
    tables, the node has the metadata the archiver asks it for, and its best number is not below
    [target] at the start and does not fall below it with an import (otherwise
    any import may happen).  Then it never deadlocks: as long as the executor
    lives a task of the round has an access to make, and as long as the
    archiver lives and a message waits the archiver has; and once a schedule
    has [7 * (target - first + 1)] accesses of the archiver, whatever their
    order with the others, every block from [first] to [target] (block 0 may be
    passed over) has its row and its record. *)
Theorem every_schedule_archives (config : ArchiveConfig) (b r : DB) (g : gmap Bytes Bytes)
    (store : NotifierState) (p : PipelineParts) (s0 : PipelineState) (target : Z)
    (ts : list Task) (x : Running) :
  start_pipeline config b r g true store = Ok (Some (p, s0)) → resumes producer config p →
  is_u32 (cli_block_num (cli config)) → pg_wf (nt_db store) →
  (target ≤ best_number (bc_info b))%Z → schedule p (attainable target) (idle s0) ts x →
  (p_executor_alive (rn_tasks x) = true → ∃ t x', carries t = true ∧ access p t x = Some x') ∧
  (p_archiver_alive (rn_tasks x) = true → waiting x ≠ [] → ∃ x', access p TArchiver x = Some x') ∧
  let first := first_number config store in
  ((7 * (target - first + 1) ≤ count archives ts)%Z →
   ∀ n, (first ≤ n ≤ target)%Z → (0 < n)%Z →
     is_Some (blocks (pg_tables (nt_db (p_store (rn_tasks x)))) !! n) ∧
     delivered producer (p_store (rn_tasks x)) n).
Proof.
  intros Hs Hres Hu Hwf Htgt Hx.
  destruct (start_progressed target _ _ _ _ _ _ _ Hs Hu Hwf Htgt) as [Hf H0].
  destruct (healthy_start producer _ _ _ _ _ _ _ Hs Hres Hwf) as (_ & Hfirst & _ & _ & Hh0).
  destruct (progressed_schedule p (attainable target) _ target Hf _ _ _ (λ y t, @proj2 _ _) H0 Hx)
    as [S _ (rg & Hin & Hr & Hb) _ _].
  destruct (schedule_lost _ store target p s0 ts x Hf (proj1 Hres) Hfirst Hh0 H0) as [Hh Hl]; [|done|].
  { unfold start_pipeline in Hs.
    apply obind_Ok in Hs as (k & _ & Hs). apply obind_Ok in Hs as (nt & _ & Hs).
    injection Hs as <- <-. unfold place_of. simpl. by destruct (reset_force _). }
  split_and!.
  - intros Hal. eapply round_enabled; [apply (sd_running _ _ _ S)|done| |done].
    intros Hlost. by rewrite (Hl Hlost) in Hal.
  - apply archiver_enabled.
  - intros first Hk n Hn Hn0.
    destruct (healthy_stored producer store _ x Hh) as (fin & later & _ & _ & Hpub & Hrow & Hdel & _).
    pose proof (archived_schedule p (attainable target) _ _ _ Hx) as Harch.
    assert (archived (idle s0) = 0%Z) as Ha0.
    { destruct (start_store _ _ _ _ _ _ _ Hs) as (_ & Hp & Hc).
      unfold archived, waiting, archiver_numbers. simpl. by rewrite Hp, Hc. }
    assert (target - first < Z.of_nat (length fin))%Z as Hlen.
    { rewrite Ha0 in Harch. unfold archived in Harch. rewrite Hpub, length_app in Harch.
      assert (archiver_offset (rn_archiver x) ≤ 6)%Z by (destruct (rn_archiver x); simpl; lia). lia. }
    pose proof (finished_in_order first target x rg fin _ n Hin Hr Hb Hpub Hlen Hn Hn0) as Hfin.
    split; [apply Hrow; right; apply elem_of_app; by left|by apply Hdel].
Qed.
End healthy.
End progress.

(** ** Witnesses: the chain of [Reference.v] *)

#[local] Existing Instance ref_chain.
#[local] Existing Instance ref_types.
#[local] Existing Instance ref_backend.
#[local] Existing Instance ref_runtime_types.
#[local] Existing Instance ref_runtime_api.
#[local] Existing Instance ref_version_api.
#[local] Existing Instance ref_json.
#[local] Existing Instance ref_payload_json.
#[local] Existing Instance kafka_reference.
#[local] Existing Instance pg_reference.
#[local] Existing Instance errors_reference.
#[local] Existing Instance connect_reference.

(** The node has block 3 at the start and moves to a fork of length 2 after
    block 0: three blocks and two rounds at the tip, while the archiver does
    nothing. *)
Definition round_schedule : list Task :=
  TInitializer :: one_request ++ TComparer :: TImport forked_db forked_db ::
  concat (replicate 2 (one_request ++ [TComparer])) ++
  TTimer :: one_request ++ [TComparer; TTimer; TExecutor].
Definition round_run : option Running :=
  run_accesses sample_parts round_schedule (idle (resumed longer_db notifier_start)).

(** Checks the imports of a schedule. *)
Definition above_target (target : Z) (t : Task) : bool :=
  match t with TImport main _ => (target <=? best_number (bc_info main))%Z | _ => true end.

Lemma above_target_imports target ts : forallb (above_target target) ts = true →
  ∀ y t, t ∈ ts → imports_above target y t.
Proof.
  rewrite forallb_forall. intros Hall y t Ht%list_elem_of_In%Hall.
  destruct t as [| | | | |main ro]; try exact I. exact (proj1 (Z.leb_le _ _) Ht).
Qed.

Lemma round_imports y t : t ∈ round_schedule → imports_above 2 y t.
Proof. apply above_target_imports. vm_compute. reflexivity. Qed.

Lemma every_schedule_hands_over_witness :
  ∃ x, round_run = Some x ∧ rn_archiver x = ArIdle ∧
    best_number (bc_info longer_db) = 3%Z ∧ best_number (bc_info (p_main (rn_tasks x))) = 2%Z ∧
    ∀ n, (0 < n ≤ 2)%Z → n ∈ p_published (rn_tasks x).
Proof.
  assert ((λ x, (rn_archiver x, best_number (bc_info (p_main (rn_tasks x))))) <$> round_run =
    Some (ArIdle, 2%Z)) as Hp by (vm_compute; reflexivity).
  destruct round_run as [x|] eqn:Hx; [|discriminate Hp]. injection Hp as Hp Hb.
  exists x. split; [reflexivity|]. split; [exact Hp|].
  split; [vm_compute; reflexivity|]. split; [exact Hb|]. intros n Hn.
  apply (every_schedule_hands_over (BT := ref_types) (BE := ref_backend) ref_best_u32
    (sample_config false) longer_db longer_db {["g" := "1"]} notifier_start sample_parts
    (resumed longer_db notifier_start) 2 round_schedule x (resumed_started _ _)).
  - split; [done|discriminate].
  - apply empty_tables_wf.
  - apply Z.leb_le. vm_compute. reflexivity.
  - exact (run_accesses_schedule sample_parts (imports_above 2) _ [] round_schedule _ x
      round_imports (schedule_start _ _ _) Hx).
  - apply Z.leb_le. vm_compute. reflexivity.
  - split; [change (0 ≤ n)%Z; lia|lia].
  - lia.
Defined.

(** The node falls back to its genesis block while the executor is about to tell
    the comparer of block 1 (the archive's own database still has it): block 1
    is handed over again and again. *)
Definition fall_schedule : list Task :=
  replicate 10 TExecutor ++ TComparer :: replicate 9 TExecutor ++ [TImport genesis_db sample_db].
Definition stall_schedule : list Task :=
  TExecutor :: concat (replicate 2 (TComparer :: TTimer :: one_request)).
Definition fall_run : option Running :=
  run_accesses sample_parts fall_schedule (idle (sample_start true)).
Definition stall_run (x : Running) : option Running := run_accesses sample_parts stall_schedule x.

Lemma stall_imports y t : t ∈ stall_schedule → imports_below 1 y t.
Proof.
  unfold stall_schedule. simpl. rewrite !elem_of_cons, elem_of_nil. intros Ht.
  destruct t as [| | | | |main ro]; try exact I. naive_solver.
Qed.

Lemma fallen_best_stalls_witness :
  ∃ x0 x k, fall_run = Some x0 ∧ stall_run x0 = Some x ∧
    p_published (rn_tasks x0) = [0; 1]%Z ∧
    p_published (rn_tasks x) = [0; 1]%Z ++ replicate k 1%Z ∧
    (count carries stall_schedule ≤ 12 * (Z.of_nat k + 2))%Z.
Proof.
  assert (match fall_run with
    | Some x0 => match stall_run x0 with Some _ => true | None => false end = true ∧
        p_published (rn_tasks x0) = [0; 1]%Z ∧ comparer_side x0 = [1%Z] ∧
        best_number (bc_info (p_main (rn_tasks x0))) = 0%Z
    | None => False end) as H by (vm_compute; split_and!; reflexivity).
  destruct fall_run as [x0|] eqn:Hx0; [|destruct H]. destruct H as [Hr H].
  destruct (stall_run x0) as [x|] eqn:Hx; [|discriminate Hr]. destruct H as (H1 & H2 & H3).
  destruct (fallen_best_stalls (BT := ref_types) (BE := ref_backend) ref_best_u32
    (sample_config true) sample_db sample_db {["g" := "1"]} true notifier_start sample_parts
    (sample_start true) x0 x 1 stall_schedule (sample_started true)) as (k & Hp & Hk).
  - split; [done|discriminate].
  - eapply run_accesses_interleaved; [|apply interleaved_start|exact Hx0]. intros y t _. exact I.
  - right. left. rewrite H2. by left.
  - reflexivity.
  - refine (Z.le_trans _ _ _ (Z.eq_le_incl _ _ H3) _). discriminate.
  - exact (run_accesses_schedule sample_parts (imports_below 1) _ [] stall_schedule _ x
      stall_imports (schedule_start _ _ _) Hx).
  - exists x0, x, k. split; [reflexivity|]. split; [exact Hx|]. split; [exact H1|].
    split; [rewrite <- H1; exact Hp|exact Hk].
Defined.

(** A storable run is a schedule. *)
Lemma storable_run_schedule target x0 ts0 ts : ∀ x x',
  (∀ y t, t ∈ ts → imports_above target y t) →
  schedule sample_parts (attainable target) x0 ts0 x → storable_run ts x = Some x' →
  schedule sample_parts (attainable target) x0 (ts0 ++ ts) x'.
Proof.
  revert ts0. induction ts as [|t ts IH]; intros ts0 x x' Hok Hx; simpl.
  { intros [= <-]. by rewrite app_nil_r. }
  destruct (forallb _ _) eqn:Hm; [|done]. destruct (access _ _ _) as [x1|] eqn:Ha; [|done].
  simpl. rewrite cons_middle, app_assoc. apply IH; [intros y t' Ht; apply Hok; by right|].
  eapply schedule_step; [exact Hx| |exact Ha].
  split; [by apply storable_answerable|]. apply Hok. by left.
Qed.

(** The node has block 3 at the start and loses it after block 0. *)
Definition archive_schedule : list Task :=
  TInitializer :: one_request ++ new_version ++ TComparer :: TImport sample_db sample_db ::
  one_request ++ known_version ++ TComparer :: one_request ++ new_version ++
  TComparer :: TTimer :: one_request ++ known_version.
Definition archive_run : option Running :=
  storable_run archive_schedule (idle (resumed longer_db notifier_start)).

Lemma archive_imports y t : t ∈ archive_schedule → imports_above 2 y t.
Proof. apply above_target_imports. vm_compute. reflexivity. Qed.

Lemma every_schedule_archives_witness :
  ∃ x, archive_run = Some x ∧
    (∃ t x', carries t = true ∧ access sample_parts t x = Some x') ∧
    ∀ n, (0 < n ≤ 2)%Z → delivered sample_producer (p_store (rn_tasks x)) n.
Proof.
  assert ((λ x, p_executor_alive (rn_tasks x)) <$> archive_run = Some true) as Hp
    by (vm_compute; reflexivity).
  destruct archive_run as [x|] eqn:Hx; [|discriminate Hp]. injection Hp as Hp.
  exists x. split; [reflexivity|].
  destruct (every_schedule_archives (BT := ref_types) (BE := ref_backend) (PL := reference_laws)
    ref_best_u32 sample_producer ref_block_numbers ref_versions_u32 sample_services
    (sample_config false) longer_db longer_db {["g" := "1"]} notifier_start sample_parts
    (resumed longer_db notifier_start) 2 archive_schedule x (resumed_started _ _) sample_resumes)
    as (Hrun & _ & Hall).
  - split; [done|discriminate].
  - apply empty_tables_wf.
  - apply Z.leb_le. vm_compute. reflexivity.
  - exact (storable_run_schedule 2 _ [] archive_schedule _ x
      archive_imports (schedule_start _ _ _) Hx).
  - split; [exact (Hrun Hp)|]. intros n Hn. apply Hall.
    + apply Z.leb_le. vm_compute. reflexivity.
    + split; [change (0 ≤ n)%Z; lia|lia].
    + lia.
Defined.
