(* ===== verification/Notifies.v ===== *)
(** * Notifications of the client ([client/service/src/notifies.rs])

    The sinks of the import and the finality streams.  A sink is what its
    receiver has been sent so far and whether the receiver is gone; the
    storage listeners are a parameter. *)

From S2P Require Import Prelude Chain.

(** [StorageNotifications] *)
Class StorageListeners `{ChainTypes} := {
  Listeners : Type;
  trigger : Hash → list (Bytes * option Bytes) →
    list (Bytes * list (Bytes * option Bytes)) → Listeners → Listeners;
}.

(** [TracingUnboundedSender<T>] *)
Record Sink (T : Type) := mk_sink { sink_closed : bool; sink_queue : list T }.
Arguments mk_sink {T}.
Arguments sink_closed {T}.
Arguments sink_queue {T}.

(** [sinks.retain(|sink| !sink.is_closed())] *)
Definition retain_open {T} (sinks : list (Sink T)) : list (Sink T) :=
  filter (λ sink, negb (sink_closed sink)) sinks.

(** [sink.unbounded_send(notification)], [None] when it is closed. *)
Definition unbounded_send {T} (x : T) (sink : Sink T) : option (Sink T) :=
  if sink_closed sink then None
  else Some (mk_sink (sink_closed sink) (sink_queue sink ++ [x])).

(** [sinks.retain(|sink| sink.unbounded_send(notification.clone()).is_ok())] *)
Definition retain_send {T} (x : T) (sinks : list (Sink T)) : list (Sink T) :=
  omap (unbounded_send x) sinks.

Section notifies.
Context `{CT : ChainTypes, BT : BackendTypes, BE : !Backend, SL : !StorageListeners}.

Record FinalityNotification := { fn_header : Header; fn_hash : Hash }.

Record BlockImportNotification := {
  in_hash : Hash;
  in_origin : BlockOrigin;
  in_header : Header;
  in_is_new_best : bool;
  in_tree_route : option TreeRoute;
}.

(** [ImportSummary] *)
Record ImportSummary := {
  is_hash : Hash;
  is_origin : BlockOrigin;
  is_header : Header;
  is_is_new_best : bool;
  is_storage_changes : option (list (Bytes * option Bytes) *
                               list (Bytes * list (Bytes * option Bytes)));
  is_tree_route : option TreeRoute;
}.

(** [ClientNotifies]; its backend is an argument of its methods. *)
Record ClientNotifies := {
  storage_notifications : Listeners;
  import_notification_sinks : list (Sink BlockImportNotification);
  finality_notification_sinks : list (Sink FinalityNotification);
}.

(** [ClientNotifies::new] *)
Definition client_notifies_new (l : Listeners) : ClientNotifies :=
  {| storage_notifications := l; import_notification_sinks := [];
     finality_notification_sinks := [] |}.

Definition set_finality (f : list (Sink FinalityNotification) → list (Sink FinalityNotification))
    (c : ClientNotifies) : ClientNotifies :=
  {| storage_notifications := storage_notifications c;
     import_notification_sinks := import_notification_sinks c;
     finality_notification_sinks := f (finality_notification_sinks c) |}.
Definition set_import (f : list (Sink BlockImportNotification) → list (Sink BlockImportNotification))
    (c : ClientNotifies) : ClientNotifies :=
  {| storage_notifications := storage_notifications c;
     import_notification_sinks := f (import_notification_sinks c);
     finality_notification_sinks := finality_notification_sinks c |}.

(** The body of the loop of [notify_finalized]. *)
Definition notify_one_finalized (db : DB) (finalized_hash : Hash) :
    M Error ClientNotifies unit :=
  let! header := lift (bc_header db (IdHash finalized_hash)) in
  let! header := lift (expect header "Header already known to exist in DB") in
  let notification := {| fn_header := header; fn_hash := finalized_hash |} in
  modify (set_finality (retain_send notification)).

(** [ClientNotifies::notify_finalized] *)
Definition notify_finalized (db : DB) (notify_finalized : list Hash) :
    M Error ClientNotifies unit :=
  match notify_finalized with
  | [] => modify (set_finality retain_open)
  | _ => for_each (notify_one_finalized db) notify_finalized
  end.

(** [ClientNotifies::notify_imported] *)
Definition notify_imported (notify_import : option ImportSummary) :
    M Error ClientNotifies unit :=
  match notify_import with
  | None => modify (set_import retain_open)
  | Some notify_import =>
      let! _ := match is_storage_changes notify_import with
        | Some storage_changes =>
            modify (λ c, {|
              storage_notifications := trigger (is_hash notify_import)
                storage_changes.1 storage_changes.2 (storage_notifications c);
              import_notification_sinks := import_notification_sinks c;
              finality_notification_sinks := finality_notification_sinks c |})
        | None => ret ()
        end in
      let notification := {|
        in_hash := is_hash notify_import;
        in_origin := is_origin notify_import;
        in_header := is_header notify_import;
        in_is_new_best := is_is_new_best notify_import;
        in_tree_route := is_tree_route notify_import |} in
      modify (set_import (retain_send notification))
  end.

(** ** Lemmas *)

(** What the open sinks among [sinks] hold after the notifications [ns]. *)
Definition delivered {T} (ns : list T) (sinks : list (Sink T)) : list (Sink T) :=
  (λ s, mk_sink (sink_closed s) (sink_queue s ++ ns)) <$> retain_open sinks.

Lemma retain_send_delivered {T} (x : T) sinks : retain_send x sinks = delivered [x] sinks.
Proof.
  unfold delivered, retain_send, retain_open. induction sinks as [|s sinks IH]; [done|].
  simpl. unfold unbounded_send at 1. destruct (sink_closed s) eqn:Hc.
  - rewrite filter_cons_False by (rewrite Hc; simpl; tauto). done.
  - rewrite filter_cons_True by (rewrite Hc; simpl; tauto). rewrite fmap_cons, Hc. by rewrite <- IH.
Qed.

Lemma delivered_delivered {T} (ms ns : list T) sinks :
  delivered ns (delivered ms sinks) = delivered (ms ++ ns) sinks.
Proof.
  unfold delivered, retain_open. induction sinks as [|s sinks IH]; [done|].
  destruct (sink_closed s) eqn:Hc.
  - rewrite !(filter_cons_False _ s) by (rewrite Hc; simpl; tauto). done.
  - rewrite !(filter_cons_True _ s) by (rewrite Hc; simpl; tauto). rewrite !fmap_cons.
    rewrite filter_cons_True by (simpl; rewrite Hc; simpl; tauto). rewrite fmap_cons, IH. simpl.
    by rewrite app_assoc.
Qed.

Lemma delivered_nil {T} (sinks : list (Sink T)) : delivered [] sinks = retain_open sinks.
Proof.
  unfold delivered, retain_open. induction (filter _ sinks) as [|[c q] l IH]; [done|].
  rewrite fmap_cons, IH. simpl. by rewrite app_nil_r.
Qed.

Lemma notify_loop db hs c (hdr : Hash → Header) :
  (∀ h, h ∈ hs → bc_header db (IdHash h) = Ok (Some (hdr h))) → hs ≠ [] →
  for_each (notify_one_finalized db) hs c =
  (Ok (), set_finality
     (delivered ((λ h, {| fn_header := hdr h; fn_hash := h |}) <$> hs)) c).
Proof.
  revert c. induction hs as [|h hs IH]; intros c Hh Hne; [done|].
  simpl for_each. unfold bind at 1, notify_one_finalized, bind, lift.
  rewrite (Hh h) by (by left). simpl.
  destruct (decide (hs = [])) as [->|Hne'].
  - simpl. unfold ret, set_finality. by rewrite retain_send_delivered.
  - rewrite IH; [|intros; apply Hh; by right|done]. unfold set_finality; simpl.
    rewrite retain_send_delivered. do 2 f_equal. rewrite delivered_delivered. done.
Qed.

(** When every finalized hash has its header, [notify_finalized] delivers
    to every open sink exactly one notification per hash, in order, after what
    the sink already held, drops the closed sinks, and touches no other part
    of the state; with nothing to announce it only drops the closed sinks. *)
Theorem notify_finalized_delivers (db : DB) (hs : list Hash) (c : ClientNotifies)
    (hdr : Hash → Header) :
  (∀ h, h ∈ hs → bc_header db (IdHash h) = Ok (Some (hdr h))) →
  notify_finalized db hs c =
  (Ok (), {| storage_notifications := storage_notifications c;
             import_notification_sinks := import_notification_sinks c;
             finality_notification_sinks :=
               (λ s, mk_sink (sink_closed s)
                  (sink_queue s ++ ((λ h, {| fn_header := hdr h; fn_hash := h |}) <$> hs))) <$>
               filter (λ s, negb (sink_closed s)) (finality_notification_sinks c) |}).
Proof.
  intros Hh. unfold notify_finalized. destruct hs as [|h hs].
  - unfold modify, set_finality. do 2 f_equal. symmetry. apply delivered_nil.
  - rewrite (notify_loop _ _ _ hdr); done.
Qed.
End notifies.
