(* ===== verification/Client.v ===== *)
(** * The client's import path ([client/service/src/client/client.rs])

    Importing and finalizing blocks: preparing the storage changes, building
    the import operation, committing it under the import lock and notifying.
    The database is a parameter ([Backend] of [Chain.v]): the operation is the
    list of the calls it accepted, and committing hands that list to the
    database. *)

From S2P Require Import Prelude Chain BlockRules Notifies VersionCache Reference.

(** [to_string] of an error, for the consensus layer. *)
Class ClientErrors := { error_text : Error → string }.

(** [ConsensusError] *)
Inductive ConsensusError := ClientImport (s : string).

Section client.
Context `{CT : ChainTypes, BT : BackendTypes, BE : !Backend, RT : RuntimeTypes,
  RA : !RuntimeApi, SL : !StorageListeners, CE : ClientErrors}.

(** [PrePostHeader] *)
Inductive PrePostHeader :=
  | SameHeader (h : Header)
  | DifferentHeader (pre post : Header).

Definition pph_post (h : PrePostHeader) : Header :=
  match h with SameHeader h => h | DifferentHeader _ h => h end.
Definition pph_into_post (h : PrePostHeader) : Header :=
  match h with SameHeader h => h | DifferentHeader _ h => h end.

(** [ClientConfig] *)
Record ClientConfig := {
  offchain_worker_enabled : bool;
  offchain_indexing_api : bool;
  wasm_runtime_overrides : option string;
}.

(** [Client], the parts that importing reads and writes. *)
Record Client := {
  backend : DB;
  client_notifies : ClientNotifies;
  importing_block : option Hash;
  block_rules : BlockRules;
  config : ClientConfig;
}.

Definition set_backend (x : DB) (c : Client) : Client :=
  {| backend := x; client_notifies := client_notifies c; importing_block := importing_block c;
     block_rules := block_rules c; config := config c |}.
Definition set_notifies (x : ClientNotifies) (c : Client) : Client :=
  {| backend := backend c; client_notifies := x; importing_block := importing_block c;
     block_rules := block_rules c; config := config c |}.
Definition set_importing (x : option Hash) (c : Client) : Client :=
  {| backend := backend c; client_notifies := client_notifies c; importing_block := x;
     block_rules := block_rules c; config := config c |}.
Definition set_rules (x : BlockRules) (c : Client) : Client :=
  {| backend := backend c; client_notifies := client_notifies c;
     importing_block := importing_block c; block_rules := x; config := config c |}.

(** [ClientImportOperation], with the cell of [importing_block] that
    [apply_block] writes while the operation is built. *)
Record ImportState := {
  op : list OpCall;
  op_notify_imported : option ImportSummary;
  op_notify_finalized : list Hash;
  op_importing : option Hash;
}.

Definition push_call (c : OpCall) (s : ImportState) : ImportState :=
  {| op := op s ++ [c]; op_notify_imported := op_notify_imported s;
     op_notify_finalized := op_notify_finalized s; op_importing := op_importing s |}.
Definition push_finalized (hs : list Hash) (s : ImportState) : ImportState :=
  {| op := op s; op_notify_imported := op_notify_imported s;
     op_notify_finalized := op_notify_finalized s ++ hs; op_importing := op_importing s |}.
Definition put_summary (x : ImportSummary) (s : ImportState) : ImportState :=
  {| op := op s; op_notify_imported := Some x;
     op_notify_finalized := op_notify_finalized s; op_importing := op_importing s |}.
Definition put_importing (h : Hash) (s : ImportState) : ImportState :=
  {| op := op s; op_notify_imported := op_notify_imported s;
     op_notify_finalized := op_notify_finalized s; op_importing := Some h |}.

(** One call on the operation. *)
Definition op_call (db : DB) (c : OpCall) : M Error ImportState unit := λ s,
  match op_answer db (op s) c with
  | Ok _ => (Ok (), push_call c s)
  | Err e => (Err e, s)
  | Panic p => (Panic p, s)
  end.

(** ** [LockImportRun::lock_import_and_run] *)

Definition lock_import_and_run {R} (f : Client → M Error ImportState R) : M Error Client R := λ c,
  let inner : M Error Client R :=
    let! _ := query (λ c, begin_operation (backend c)) in
    let! rs := λ c,
      let '(r, s) := f c {| op := []; op_notify_imported := None; op_notify_finalized := [];
                            op_importing := importing_block c |} in
      (omap_ok (λ r, (r, s)) r, set_importing (op_importing s) c) in
    let r := rs.1 in
    let s := rs.2 in
    let! _ := λ c,
      let '(r, db) := commit_operation (backend c) (op s) in (r, set_backend db c) in
    let! _ := λ c, zoom client_notifies set_notifies
      (notify_finalized (backend c) (op_notify_finalized s)) c in
    let! _ := zoom client_notifies set_notifies (notify_imported (op_notify_imported s)) in
    ret r in
  let '(result, c) := inner c in
  match result with
  | Panic p => (Panic p, c)
  | _ => (result, set_importing None c)
  end.

(** ** Queries of the import path *)

(** [Client::block_status] *)
Definition block_status (self : Client) (id : BlockId) : result BlockStatus :=
  if match id with
     | IdHash h => match importing_block self with
                   | Some importing => bool_decide (h = importing)
                   | None => false
                   end
     | IdNumber _ => false
     end
  then Ok Queued
  else
    let? hash_and_number := match id with
      | IdHash hash => omap_ok (option_map (λ n, (hash, n))) (bc_number (backend self) hash)
      | IdNumber n => omap_ok (option_map (λ hash, (hash, n))) (bc_hash (backend self) n)
      end in
    match hash_and_number with
    | Some (hash, number) =>
        if have_state_at (backend self) hash number then Ok InChainWithState
        else Ok InChainPruned
    | None => Ok UnknownStatus
    end.

(** ** Finality *)

Definition MAX_TO_NOTIFY : nat := 256.

(** [Client::apply_finality_with_block_hash] *)
Definition apply_finality_with_block_hash (self : Client) (block : Hash)
    (justification : option Justification) (best_block : Hash) (notify : bool) :
    M Error ImportState unit :=
  let db := backend self in
  let! last_finalized := lift (bc_last_finalized db) in
  if decide (block = last_finalized) then ret ()
  else
    let! route_from_finalized := lift (tree_route db last_finalized block) in
    match retracted route_from_finalized with
    | _ :: _ => throw NotInFinalizedChain
    | [] =>
        let! route_from_best := lift (tree_route db best_block block) in
        let! _ := if decide (common_block route_from_best = block) then ret ()
                  else op_call db (MarkHead (IdHash block)) in
        let enacted := enacted route_from_finalized in
        let! _ := lift (assert (negb (bool_decide (enacted = [])))
                          "assertion failed: !enacted.is_empty()") in
        let! _ := for_each (λ finalize_new, op_call db (MarkFinalized (IdHash finalize_new) None))
                    (removelast enacted) in
        let! _ := lift (assert (bool_decide (last enacted = Some block))
                          "assertion failed: `(left == right)`") in
        let! _ := op_call db (MarkFinalized (IdHash block) justification) in
        if notify then
          let start := length enacted - Nat.min (length enacted) MAX_TO_NOTIFY in
          modify (push_finalized (drop start enacted))
        else ret ()
    end.

(** [Finalizer::apply_finality] *)
Definition apply_finality (id : BlockId) (justification : option Justification)
    (notify : bool) (self : Client) : M Error ImportState unit :=
  let last_best := best_hash (bc_info (backend self)) in
  let! to_finalize_hash := lift (bc_expect_block_hash_from_id (backend self) id) in
  apply_finality_with_block_hash self to_finalize_hash justification last_best notify.

(** [Finalizer::finalize_block] *)
Definition finalize_block (id : BlockId) (justification : option Justification)
    (notify : bool) : M Error Client unit :=
  lock_import_and_run (apply_finality id justification notify).

(** ** Importing *)

(** [BlockImportParams] *)
Record BlockImportParams := {
  bip_origin : BlockOrigin;
  bip_header : Header;
  bip_justifications : option (list Justification);
  bip_post_digests : list DigestItem;
  bip_body : option (list Extrinsic);
  bip_storage_changes : option StorageChanges;
  bip_finalized : bool;
  bip_auxiliary : list (Bytes * option Bytes);
  bip_fork_choice : option ForkChoiceStrategy;
  bip_intermediates : list Bytes;      (* the keys of the map *)
  bip_allow_missing_state : bool;
  bip_import_existing : bool;
}.

Definition set_changes (x : option StorageChanges) (p : BlockImportParams) : BlockImportParams :=
  {| bip_origin := bip_origin p; bip_header := bip_header p;
     bip_justifications := bip_justifications p; bip_post_digests := bip_post_digests p;
     bip_body := bip_body p; bip_storage_changes := x; bip_finalized := bip_finalized p;
     bip_auxiliary := bip_auxiliary p; bip_fork_choice := bip_fork_choice p;
     bip_intermediates := bip_intermediates p;
     bip_allow_missing_state := bip_allow_missing_state p;
     bip_import_existing := bip_import_existing p |}.

(** The state of a block known to be pruned may be missing. *)
Definition prepare_status (allow_missing_state : bool) (s : BlockStatus) :
    bool + ImportResult :=
  match s with
  | UnknownStatus => inr UnknownParent
  | InChainWithState | Queued => inl true
  | InChainPruned => if allow_missing_state then inl false else inr MissingState
  | KnownBadStatus => inr KnownBad
  end.

(** [Client::prepare_block_storage_changes]; the parameters are its state. *)
Definition prepare_block_storage_changes (self : Client) :
    M Error BlockImportParams (option ImportResult) :=
  let! import_block := get in
  let parent_hash := h_parent_hash (bip_header import_block) in
  let at_ := IdHash parent_hash in
  let! status := lift (block_status self at_) in
  match prepare_status (bip_allow_missing_state import_block) status with
  | inr res => ret (Some res)
  | inl enact_state =>
      let! _ :=
        match enact_state, bip_storage_changes import_block, bip_body import_block with
        | true, Some _, _ => ret ()
        | true, None, Some body =>
            let runtime_api := runtime_api (backend self) in
            let execution_context :=
              if decide (bip_origin import_block = NetworkInitialSync) then Syncing
              else Importing in
            let '(r, runtime_api) := execute_block_with_context runtime_api at_
              execution_context (new_block (bip_header import_block) body) in
            let! _ := lift r in
            let! state := lift (state_at (backend self) at_) in
            let! changes_trie_state := lift (changes_tries_state_at_block (backend self) at_) in
            let! gen_storage_changes := lift (omap_err Storage
              (into_storage_changes runtime_api state changes_trie_state parent_hash).1) in
            if decide (h_state_root (bip_header import_block) =
                       transaction_storage_root gen_storage_changes)
            then modify (set_changes (Some gen_storage_changes))
            else throw InvalidStateRoot
        | true, None, None => ret ()
        | false, _, _ => modify (set_changes None)
        end in
      ret None
  end.

(** The origins whose imports are announced. *)
Definition make_notifications (origin : BlockOrigin) : bool :=
  match origin with
  | NetworkBroadcast | Own | ConsensusBroadcast => true
  | OriginGenesis | NetworkInitialSync | File => false
  end.

(** Enacting the storage changes in [execute_and_import_block]. *)
Definition import_storage_changes (self : Client) (parent_hash : Hash) (finalized : bool)
    (info : Info) (new_cache : Cache) (notify : bool) (storage_changes : StorageChanges) :
    M Error ImportState (list (Bytes * option Bytes) * list (Bytes * list (Bytes * option Bytes))) :=
  let db := backend self in
  let! _ := op_call db (BeginStateOperation (IdHash parent_hash)) in
  let! _ := if finalized
            then apply_finality_with_block_hash self parent_hash None (best_hash info) notify
            else ret () in
  let! _ := modify (push_call (UpdateCache new_cache)) in
  let main_sc := main_storage_changes storage_changes in
  let child_sc := child_storage_changes storage_changes in
  let! _ := if offchain_indexing_api (config self)
            then op_call db (UpdateOffchainStorage (offchain_storage_changes storage_changes))
            else ret () in
  let! _ := op_call db (UpdateDbStorage (transaction storage_changes)) in
  let! _ := op_call db (UpdateStorage main_sc child_sc) in
  let! _ := op_call db (UpdateTransactionIndex (transaction_index_changes storage_changes)) in
  let! _ := match changes_trie_transaction storage_changes with
            | Some tx => op_call db (UpdateChangesTrie tx)
            | None => ret ()
            end in
  ret (main_sc, child_sc).

(** [is_new_best] of [execute_and_import_block]. *)
Definition import_is_new_best (finalized : bool) (fork_choice : ForkChoiceStrategy)
    (number best : Z) : bool :=
  finalized || match fork_choice with
               | LongestChain => (best <? number)%Z
               | Custom v => v
               end.

Definition import_leaf_state (finalized is_new_best : bool) : NewBlockState :=
  if finalized then Final else if is_new_best then Best else Normal.

(** [Client::execute_and_import_block] after the block's status is checked. *)
Definition import_checked_block (self : Client) (origin : BlockOrigin) (hash : Hash)
    (header : Header) (import_headers : PrePostHeader)
    (justifications : option (list Justification)) (body : option (list Extrinsic))
    (storage_changes : option StorageChanges) (new_cache : Cache) (finalized : bool)
    (aux : list (Bytes * option Bytes)) (fork_choice : ForkChoiceStrategy) :
    M Error ImportState ImportResult :=
  let db := backend self in
  let parent_hash := h_parent_hash (pph_post import_headers) in
  let info := bc_info db in
  if (h_number (pph_post import_headers) <=? finalized_number info)%Z
  then throw NotInFinalizedChain
  else
    let make_notifications := make_notifications origin in
    let! storage_changes := match storage_changes with
      | Some storage_changes =>
          let! sc := import_storage_changes self parent_hash finalized info new_cache
            make_notifications storage_changes in
          ret (Some sc)
      | None => ret None
      end in
    let is_new_best := import_is_new_best finalized fork_choice
      (h_number (pph_post import_headers)) (best_number info) in
    let leaf_state := import_leaf_state finalized is_new_best in
    let! tree_route :=
      if is_new_best && negb (bool_decide (best_hash info = parent_hash))
      then let! route_from_best := lift (tree_route db (best_hash info) parent_hash) in
           ret (Some route_from_best)
      else ret None in
    let! _ := op_call db (SetBlockData (pph_post import_headers) body justifications
      leaf_state) in
    let! _ := op_call db (InsertAux aux) in
    let! _ := if make_notifications || bool_decide (is_Some tree_route) then
        let! _ := if (finalized : bool) then modify (push_finalized [hash]) else ret () in
        modify (put_summary {|
          is_hash := hash; is_origin := origin;
          is_header := pph_into_post import_headers;
          is_is_new_best := is_new_best;
          is_storage_changes := storage_changes;
          is_tree_route := tree_route |})
      else ret () in
    ret (Imported is_new_best).

(** [Client::execute_and_import_block] *)
Definition execute_and_import_block (self : Client) (origin : BlockOrigin) (hash : Hash)
    (header : Header) (import_headers : PrePostHeader)
    (justifications : option (list Justification)) (body : option (list Extrinsic))
    (storage_changes : option StorageChanges) (new_cache : Cache) (finalized : bool)
    (aux : list (Bytes * option Bytes)) (fork_choice : ForkChoiceStrategy)
    (import_existing : bool) : M Error ImportState ImportResult :=
  let! status := lift (bc_status (backend self) (IdHash hash)) in
  match import_existing, status with
  | false, InChain => ret AlreadyInChain
  | true, NotInChain => throw (UnknownBlock (debug_hash hash))
  | false, NotInChain | true, InChain =>
      import_checked_block self origin hash header import_headers justifications body
        storage_changes new_cache finalized aux fork_choice
  end.

(** The header with the digest items added after the runtime ran. *)
Definition post_header (header : Header) (post_digests : list DigestItem) : Header :=
  mk_header (h_number header) (h_extrinsics_root header) (h_state_root header)
    (h_parent_hash header) (h_digest header ++ post_digests).

(** [Client::apply_block]; the telemetry of new best blocks is left out. *)
Definition apply_block (import_block : BlockImportParams) (new_cache : Cache)
    (self : Client) : M Error ImportState ImportResult :=
  let justifications := bip_justifications import_block in
  let finalized := bip_finalized import_block in
  let header := bip_header import_block in
  let! _ := lift (assert
    (bool_decide (is_Some justifications) && finalized || bool_decide (justifications = None))
    "assertion failed: justifications.is_some() && finalized || justifications.is_none()") in
  if negb (bool_decide (bip_intermediates import_block = [])) then throw IncompletePipeline
  else
    let! fork_choice := lift (ok_or (bip_fork_choice import_block) IncompletePipeline) in
    let import_headers :=
      if bool_decide (bip_post_digests import_block = []) then SameHeader header
      else DifferentHeader header (post_header header (bip_post_digests import_block)) in
    let hash := header_hash (pph_post import_headers) in
    let! _ := modify (put_importing hash) in
    execute_and_import_block self (bip_origin import_block) hash header import_headers
      justifications (bip_body import_block) (bip_storage_changes import_block) new_cache
      finalized (bip_auxiliary import_block) fork_choice (bip_import_existing import_block).

(** [BlockImport::import_block] *)
Definition import_block (import_block : BlockImportParams) (new_cache : Cache) :
    M ConsensusError Client ImportResult := λ self,
  let to_consensus {A} (m : outcome Error A) : outcome ConsensusError A :=
    omap_err (λ e, ClientImport (error_text e)) m in
  let '(r, import_block) := prepare_block_storage_changes self import_block in
  match to_consensus r with
  | Ok (Some res) => (Ok res, self)
  | Ok None =>
      let '(r, self) := lock_import_and_run (apply_block import_block new_cache) self in
      (to_consensus r, self)
  | Err e => (Err e, self)
  | Panic p => (Panic p, self)
  end.

(** [BlockCheckParams] *)
Record BlockCheckParams := {
  bcp_hash : Hash;
  bcp_number : Z;
  bcp_parent_hash : Hash;
  bcp_allow_missing_state : bool;
  bcp_import_existing : bool;
}.

(** [BlockImport::check_block] *)
Definition check_block (self : Client) (block : BlockCheckParams) :
    outcome ConsensusError ImportResult :=
  match lookup_rule (block_rules self) (bcp_number block) (bcp_hash block) with
  | KnownBadBlock => Ok KnownBad
  | Expected _ => Ok KnownBad
  | NotSpecial =>
      let? own := omap_err (λ e, ClientImport (error_text e))
                    (block_status self (IdHash (bcp_hash block))) in
      let parent_check :=
        let? parent := omap_err (λ e, ClientImport (error_text e))
                         (block_status self (IdHash (bcp_parent_hash block))) in
        match parent with
        | InChainWithState | Queued => Ok (Imported false)
        | UnknownStatus => Ok UnknownParent
        | InChainPruned =>
            if bcp_allow_missing_state block then Ok (Imported false) else Ok MissingState
        | KnownBadStatus => Ok KnownBad
        end in
      match own with
      | InChainWithState | Queued =>
          if negb (bcp_import_existing block) then Ok AlreadyInChain else parent_check
      | InChainPruned => Ok AlreadyInChain
      | UnknownStatus => parent_check
      | KnownBadStatus => Ok KnownBad
      end
  end.

(** ** Lemmas on the operation *)

Lemma op_call_Ok db c s u s' : op_call db c s = (Ok u, s') → s' = push_call c s.
Proof. unfold op_call. destruct (op_answer db (op s) c); intros [=]; congruence. Qed.

(** Runs a list of calls, stopping at the first one refused. *)
Definition run_calls (db : DB) (cs : list OpCall) : M Error ImportState unit :=
  for_each (op_call db) cs.

Lemma run_calls_Ok db cs s u s' :
  run_calls db cs s = (Ok u, s') →
  s' = {| op := op s ++ cs; op_notify_imported := op_notify_imported s;
          op_notify_finalized := op_notify_finalized s; op_importing := op_importing s |}.
Proof.
  revert s. unfold run_calls. induction cs as [|c cs IH]; intros s H; simpl in H.
  - bind_inv. rewrite app_nil_r. by destruct s'.
  - bind_inv. apply op_call_Ok in H0. subst. apply IH in H. subst. simpl.
    by rewrite <- app_assoc.
Qed.

(** ** Finality: what a finalization asks for *)

(** The calls and the announced hashes of finalizing [block]. *)
Definition finality_plan (db : DB) (block : Hash) (justification : option Justification)
    (best_block : Hash) (notify : bool) : result (list OpCall * list Hash) :=
  let? last_finalized := bc_last_finalized db in
  if decide (block = last_finalized) then Ok ([], [])
  else
    let? route := tree_route db last_finalized block in
    if decide (retracted route = []) then
      let? best_route := tree_route db best_block block in
      Ok ((if decide (common_block best_route = block) then [] else [MarkHead (IdHash block)])
            ++ ((λ h, MarkFinalized (IdHash h) None) <$> removelast (enacted route))
            ++ [MarkFinalized (IdHash block) justification],
          if notify then drop (length (enacted route) - 256) (enacted route) else [])
    else Err NotInFinalizedChain.

(** What the code relies on of a tree route: entering blocks from an ancestor,
    the last one entered is the target. *)
Class TreeRouteLaws : Prop := {
  route_enacted db a b r : tree_route db a b = Ok r → retracted r = [] → a ≠ b →
    last (enacted r) = Some b;
}.

Lemma push_finalized_nil s : push_finalized [] s = s.
Proof. destruct s; unfold push_finalized; simpl. by rewrite app_nil_r. Qed.

Lemma apply_finality_plan {TL : TreeRouteLaws} (self : Client) block j best notify s :
  apply_finality_with_block_hash self block j best notify s =
  (let! plan := lift (finality_plan (backend self) block j best notify) in
   let! _ := run_calls (backend self) plan.1 in
   modify (push_finalized plan.2)) s.
Proof.
  unfold apply_finality_with_block_hash, finality_plan. unfold bind at 1, lift at 1.
  destruct (bc_last_finalized (backend self)) as [lf|e|p]; [|done..]. cbn [obind].
  destruct (decide (block = lf)) as [|Hne].
  { unfold bind, lift, run_calls, ret, modify; simpl. by rewrite push_finalized_nil. }
  unfold bind at 1, lift at 1.
  destruct (tree_route (backend self) lf block) as [r|e|p] eqn:Hr; [|done..]. cbn [obind].
  destruct (retracted r) as [|x l] eqn:Hret; [|by rewrite decide_False by done].
  rewrite decide_True by done. unfold bind at 1, lift at 1.
  destruct (tree_route (backend self) best block) as [rb|e|p]; [|done..]. cbn [obind].
  pose proof (route_enacted _ _ _ _ Hr Hret ltac:(congruence)) as Hlast.
  assert (enacted r ≠ []) as Hen by (by intros Hn; rewrite Hn in Hlast).
  set (hs := if notify then drop (length (enacted r) - 256) (enacted r) else []).
  set (marks := (λ h, MarkFinalized (IdHash h) None) <$> removelast (enacted r)).
  transitivity (bind (run_calls (backend self)
      (if decide (common_block rb = block) then [] else [MarkHead (IdHash block)]))
    (λ _, bind (run_calls (backend self) (marks ++ [MarkFinalized (IdHash block) j]))
      (λ _, modify (push_finalized hs))) s).
  - apply bind_ext.
    { destruct (decide _); [done|]. unfold run_calls. simpl. symmetry. apply bind_unit_r. }
    intros _ s1. unfold assert.
    rewrite bool_decide_false, bool_decide_true by done. cbn [negb]. rewrite bind_lift_Ok.
    etransitivity; [|symmetry; apply bind_ext; [apply for_each_app|done]].
    rewrite bind_assoc. apply bind_ext; [apply for_each_fmap|].
    intros _ s2. rewrite bind_lift_Ok. apply bind_ext.
    { simpl. symmetry. apply bind_unit_r. }
    intros _ s3. unfold hs, MAX_TO_NOTIFY. destruct notify.
    + unfold modify. do 2 f_equal. f_equal. lia.
    + unfold ret, modify. by rewrite push_finalized_nil.
  - symmetry. rewrite bind_lift_Ok. etransitivity; [apply bind_ext; [apply for_each_app|done]|].
    by rewrite bind_assoc.
Qed.

(** ** Running an operation under the import lock *)

Definition start_import (c : Client) : ImportState :=
  {| op := []; op_notify_imported := None; op_notify_finalized := [];
     op_importing := importing_block c |}.

Lemma notify_imported_Ok i n : ∃ n', notify_imported i n = (Ok (), n').
Proof.
  unfold notify_imported. destruct i as [i|]; [|by eexists].
  unfold bind, modify, ret. destruct (is_storage_changes i); by eexists.
Qed.

Lemma lock_run_Ok {R} (f : Client → M Error ImportState R) c r s db' n :
  begin_operation (backend c) = Ok () → f c (start_import c) = (Ok r, s) →
  commit_operation (backend c) (op s) = (Ok (), db') →
  notify_finalized db' (op_notify_finalized s) (client_notifies c) = (Ok (), n) →
  lock_import_and_run f c =
  (Ok r, {| backend := db'; client_notifies := (notify_imported (op_notify_imported s) n).2;
            importing_block := None; block_rules := block_rules c; config := config c |}).
Proof.
  intros Hb Hf Hc Hn. destruct (notify_imported_Ok (op_notify_imported s) n) as [n' Hi].
  unfold lock_import_and_run, bind, query, zoom, start_import in *.
  rewrite Hb, Hf. cbn. rewrite Hc. cbn. rewrite Hn. cbn. rewrite Hi. done.
Qed.

Lemma lock_run_Err {R} (f : Client → M Error ImportState R) c e s :
  begin_operation (backend c) = Ok () → f c (start_import c) = (Err e, s) →
  lock_import_and_run f c = (Err e, set_importing None c).
Proof.
  intros Hb Hf. unfold lock_import_and_run, bind, query, start_import in *.
  rewrite Hb, Hf. done.
Qed.

(** C18. Running an operation under the import lock is atomic: the database
    changes only by one commit of exactly the calls the closure collected, and
    not at all when the operation cannot begin or the closure fails, in which
    case nobody is notified either; and unless it panics it leaves no block
    marked as being imported, whether it succeeded or not. *)
Theorem lock_import_and_run_atomic {R} (f : Client → M Error ImportState R) (c : Client) :
  let '(r, c') := lock_import_and_run f c in
  (is_Panic r ∨ importing_block c' = None) ∧ block_rules c' = block_rules c ∧
  match begin_operation (backend c), f c (start_import c) with
  | Ok _, (Ok a, s) =>
      let '(committed, db') := commit_operation (backend c) (op s) in
      backend c' = db' ∧
      (r = Ok a → committed = Ok ()) ∧
      (committed = Ok () ∨ client_notifies c' = client_notifies c)
  | _, _ => backend c' = backend c ∧ client_notifies c' = client_notifies c ∧ ∀ a, r ≠ Ok a
  end.
Proof.
  unfold lock_import_and_run, bind, query, zoom. fold (start_import c).
  destruct (begin_operation (backend c)) as [[]|e|p]; simpl;
    [|by split_and!; auto|by split_and!; [left; eexists|..]].
  destruct (f c (start_import c)) as [[a|e|p] s]; simpl;
    [|by split_and!; auto|by split_and!; [left; eexists|..]].
  destruct (commit_operation (backend c) (op s)) as [[[]|e|p] db']; simpl;
    [|by split_and!; auto|by split_and!; [left; eexists|auto..]].
  destruct (notify_finalized db' _ _) as [[[]|e|p] n]; simpl;
    [|by split_and!; auto|by split_and!; [left; eexists|auto..]].
  destruct (notify_imported_Ok (op_notify_imported s) n) as [n' ->]. simpl.
  by split_and!; auto.
Qed.

(** ** Finalizing *)

(** The operation takes every call. *)
Definition accepts (db : DB) : Prop := ∀ cs c, op_answer db cs c = Ok ().

Lemma run_calls_accepted db cs s :
  accepts db →
  run_calls db cs s =
  (Ok (), {| op := op s ++ cs; op_notify_imported := op_notify_imported s;
             op_notify_finalized := op_notify_finalized s; op_importing := op_importing s |}).
Proof.
  intros Ha. unfold run_calls. revert s.
  induction cs as [|c cs IH]; intros s; simpl.
  - rewrite app_nil_r. by destruct s.
  - unfold bind, op_call at 1. rewrite Ha. rewrite IH. simpl. by rewrite <- app_assoc.
Qed.


(** ** The operation of an import *)

Lemma post_header_nil h : post_header h [] = h.
Proof. destruct h. unfold post_header; simpl. by rewrite app_nil_r. Qed.

Lemma import_headers_post h ds :
  pph_post (if bool_decide (ds = []) then SameHeader h
            else DifferentHeader h (post_header h ds)) = post_header h ds.
Proof. case_bool_decide as Hd; [|done]. subst. by rewrite post_header_nil. Qed.

(** The calls a finalization makes. *)
Definition is_mark (c : OpCall) : Prop :=
  match c with MarkHead _ | MarkFinalized _ _ => True | _ => False end.

Lemma finality_plan_marks db b j best n calls hs :
  finality_plan db b j best n = Ok (calls, hs) → Forall is_mark calls.
Proof.
  unfold finality_plan. intros H. repeat (bind_inv_step; simplify_eq/=).
  case_decide; simplify_eq; [done|]. repeat (bind_inv_step; simplify_eq/=).
  case_decide; [|done]. repeat (bind_inv_step; simplify_eq/=).
  apply Forall_app. split; [by case_decide; repeat constructor|].
  apply Forall_app. split; [|by repeat constructor].
  apply Forall_fmap, Forall_true. done.
Qed.

Lemma apply_finality_Ok {TL : TreeRouteLaws} self b j best n s u s' :
  apply_finality_with_block_hash self b j best n s = (Ok u, s') →
  ∃ marks hs, Forall is_mark marks ∧
    s' = {| op := op s ++ marks; op_notify_imported := op_notify_imported s;
            op_notify_finalized := op_notify_finalized s ++ hs;
            op_importing := op_importing s |}.
Proof.
  rewrite apply_finality_plan. unfold bind at 1, lift.
  destruct (finality_plan _ _ _ _ _) as [[calls hs]|e|p] eqn:Hp; [|done..].
  intros H. apply bind_Ok in H as (u' & s1 & H & Hs). apply run_calls_Ok in H. subst.
  injection Hs as _ <-. exists calls, hs. split; [by eapply finality_plan_marks|done].
Qed.

(** The calls that enact the storage changes of a block. *)
Definition enact_calls (offchain : bool) (parent : Hash) (marks : list OpCall) (cache : Cache)
    (sc : StorageChanges) : list OpCall :=
  BeginStateOperation (IdHash parent) :: marks ++ UpdateCache cache ::
  (if offchain then [UpdateOffchainStorage (offchain_storage_changes sc)] else []) ++
  [UpdateDbStorage (transaction sc);
   UpdateStorage (main_storage_changes sc) (child_storage_changes sc);
   UpdateTransactionIndex (transaction_index_changes sc)] ++
  match changes_trie_transaction sc with Some tx => [UpdateChangesTrie tx] | None => [] end.

(** Inverts a successful call or conditional call of an operation. *)
Ltac op_inv :=
  repeat match goal with
  | H : op_call _ _ _ = (Ok _, _) |- _ => apply op_call_Ok in H; subst
  | H : (if ?b then _ else _) _ = (Ok _, _) |- _ => destruct b eqn:?
  | H : (match ?o with Some _ => _ | None => _ end) _ = (Ok _, _) |- _ => destruct o eqn:?
  | H : ret _ _ = (Ok _, _) |- _ => injection H as ? ?; subst
  | H : modify _ _ = (Ok _, _) |- _ => injection H as ? ?; subst
  end.

Lemma import_storage_changes_Ok {TL : TreeRouteLaws} self parent fin info cache notify sc s r s' :
  import_storage_changes self parent fin info cache notify sc s = (Ok r, s') →
  r = (main_storage_changes sc, child_storage_changes sc) ∧
  ∃ marks, Forall is_mark marks ∧ (fin = false → marks = []) ∧
    op s' = op s ++ enact_calls (offchain_indexing_api (config self)) parent marks cache sc ∧
    op_notify_imported s' = op_notify_imported s ∧ op_importing s' = op_importing s.
Proof.
  unfold import_storage_changes, enact_calls. intros H.
  apply bind_Ok in H as (u1 & s1 & H1 & H). apply bind_Ok in H as (u2 & s2 & H2 & H).
  apply bind_Ok in H as (u3 & s3 & H3 & H). apply bind_Ok in H as (u4 & s4 & H4 & H).
  apply bind_Ok in H as (u5 & s5 & H5 & H). apply bind_Ok in H as (u6 & s6 & H6 & H).
  apply bind_Ok in H as (u7 & s7 & H7 & H). apply bind_Ok in H as (u8 & s8 & H8 & H).
  apply op_call_Ok in H1, H5, H6, H7. injection H3 as _ <-. injection H as <- ->.
  split; [done|].
  assert (∃ marks hs, Forall is_mark marks ∧ (fin = false → marks = []) ∧
    s2 = {| op := op s1 ++ marks; op_notify_imported := op_notify_imported s1;
            op_notify_finalized := op_notify_finalized s1 ++ hs;
            op_importing := op_importing s1 |}) as (marks & hs & Hm & Hf & ->).
  { destruct fin.
    - apply apply_finality_Ok in H2 as (marks & hs & Hm & ->). by exists marks, hs.
    - injection H2 as _ <-. exists [], []. rewrite !app_nil_r. by destruct s1. }
  exists marks. split; [done|]. split; [done|].
  destruct (offchain_indexing_api (config self)), (changes_trie_transaction sc);
    op_inv; cbn; rewrite <- ?app_assoc; done.
Qed.

(** The block part of an import. *)
Definition block_calls (p : BlockImportParams) (is_new_best : bool) : list OpCall :=
  [SetBlockData (post_header (bip_header p) (bip_post_digests p)) (bip_body p)
     (bip_justifications p) (import_leaf_state (bip_finalized p) is_new_best);
   InsertAux (bip_auxiliary p)].

(** The route of a new best block that does not extend the old one. *)
Lemma import_route_Ok (db : DB) (best : bool) (old parent : Hash) tr s s' :
  (if best && negb (bool_decide (old = parent))
   then let! route := lift (tree_route db old parent) in ret (Some route)
   else ret None : M Error ImportState (option TreeRoute)) s = (Ok tr, s') →
  s' = s ∧ (is_Some tr ↔ best = true ∧ old ≠ parent).
Proof.
  destruct best; simpl; [|intros [= <- <-]; split; [done|]; split; [by intros []|by intros []]].
  destruct (decide (old = parent)) as [Hd|Hd];
    [rewrite bool_decide_true by done|rewrite bool_decide_false by done]; simpl; intros H.
  - injection H as <- <-. split; [done|]. split; [by intros []|by intros [_ []]].
  - apply bind_Ok in H as (route & s0 & Hl & H). injection Hl as _ <-.
    injection H as <- <-. split; [done|]. split; [done|by eexists].
Qed.

(** The storage changes, when there are some, become the enacting calls. *)
Lemma import_enact_Ok {TL : TreeRouteLaws} self parent finalized cache notify
    (changes : option StorageChanges) sc s s' :
  (match changes with
   | Some changes =>
       let! sc := import_storage_changes self parent finalized (bc_info (backend self)) cache
         notify changes in
       ret (Some sc)
   | None => ret None
   end) s = (Ok sc, s') →
  op_importing s' = op_importing s ∧ op_notify_imported s' = op_notify_imported s ∧
  ∃ enact, op s' = op s ++ enact ∧
    match changes with
    | None => enact = []
    | Some sc => ∃ marks, Forall is_mark marks ∧ (finalized = false → marks = []) ∧
        enact = enact_calls (offchain_indexing_api (config self)) parent marks cache sc
    end.
Proof.
  destruct changes as [changes|]; intros H.
  - apply bind_Ok in H as (x & s2 & H & Hr). injection Hr as <- <-.
    apply import_storage_changes_Ok in H as (_ & marks & Hm & Hf & Hops & Hn & Hi).
    split_and!; [done|done|]. eexists. split; [exact Hops|]. by exists marks.
  - injection H as <- <-. split_and!; [done|done|]. exists []. by rewrite app_nil_r.
Qed.

(** The last step of an import decides only who is told. *)
Lemma import_summary_Ok (finalized notify : bool) hash (tr : option TreeRoute) x u s s' :
  (if notify || bool_decide (is_Some tr)
   then let! _ := if finalized then modify (push_finalized [hash]) else ret () in
        modify (put_summary x)
   else ret () : M Error ImportState unit) s = (Ok u, s') →
  op s' = op s ∧ op_importing s' = op_importing s ∧
  (is_Some (op_notify_imported s') ↔
     is_Some (op_notify_imported s) ∨ notify = true ∨ is_Some tr).
Proof.
  destruct (notify || bool_decide (is_Some tr)) eqn:Hmk; intros H.
  - apply bind_Ok in H as (v & s1 & Hp & Hput). injection Hput as _ <-.
    apply orb_true_iff in Hmk. rewrite bool_decide_eq_true in Hmk.
    assert (op s1 = op s ∧ op_importing s1 = op_importing s) as [Ho Hi]
      by (destruct finalized; injection Hp as _ <-; by cbn).
    cbn. rewrite Ho, Hi. split_and!; [done|done|]. split; [auto|by eexists].
  - injection H as _ <-. apply orb_false_iff in Hmk. rewrite bool_decide_eq_false in Hmk.
    destruct Hmk as [Hm1 Hm2]. rewrite Hm1. split_and!; [done|done|].
    split; [by left|]. by intros [?|[?|?]].
Qed.

Lemma import_checked_Ok {TL : TreeRouteLaws} self p cache fc ih hash s r s' :
  pph_post ih = post_header (bip_header p) (bip_post_digests p) →
  import_checked_block self (bip_origin p) hash (bip_header p) ih (bip_justifications p)
    (bip_body p) (bip_storage_changes p) cache (bip_finalized p) (bip_auxiliary p) fc s =
    (Ok r, s') →
  let info := bc_info (backend self) in
  let post := post_header (bip_header p) (bip_post_digests p) in
  let best := import_is_new_best (bip_finalized p) fc (h_number post) (best_number info) in
  r = Imported best ∧
  (finalized_number info < h_number post)%Z ∧
  op_importing s' = op_importing s ∧
  (∃ enact, op s' = op s ++ enact ++ block_calls p best ∧
     match bip_storage_changes p with
     | None => enact = []
     | Some sc => ∃ marks, Forall is_mark marks ∧ (bip_finalized p = false → marks = []) ∧
         enact = enact_calls (offchain_indexing_api (config self)) (h_parent_hash post)
                   marks cache sc
     end) ∧
  (is_Some (op_notify_imported s') ↔ is_Some (op_notify_imported s) ∨
     make_notifications (bip_origin p) = true ∨
     (best = true ∧ best_hash info ≠ h_parent_hash post)).
Proof.
  intros Hpost H info post best. unfold import_checked_block in H. rewrite Hpost in H.
  cbv zeta in H. fold info post in H.
  destruct (h_number post <=? finalized_number info)%Z eqn:Hfin; [done|].
  apply Z.leb_gt in Hfin. fold best in H.
  apply bind_Ok in H as (sc' & s2 & Hsc & H). apply bind_Ok in H as (tr & s3 & Htr & H).
  apply bind_Ok in H as (u1 & s4 & Hset & H). apply bind_Ok in H as (u2 & s5 & Haux & H).
  apply bind_Ok in H as (u3 & s6 & Hnot & H). injection H as <- ->.
  apply op_call_Ok in Hset, Haux.
  apply import_route_Ok in Htr as [-> Htr]. apply import_enact_Ok in Hsc.
  destruct Hsc as (Himp & Hni & enact & Hop & Henact).
  apply import_summary_Ok in Hnot as (Ho6 & Hi6 & Hn6). subst s5 s4. cbn in Ho6, Hi6, Hn6.
  split_and!; [done|done|by rewrite Hi6| |].
  - exists enact. rewrite Ho6, Hop. split; [|done]. by rewrite <- !app_assoc.
  - rewrite Hn6, Hni, Htr. done.
Qed.

Lemma apply_block_Ok {TL : TreeRouteLaws} self p cache s r s' :
  apply_block p cache self s = (Ok r, s') →
  let info := bc_info (backend self) in
  let post := post_header (bip_header p) (bip_post_digests p) in
  (bip_justifications p = None ∨ bip_finalized p = true) ∧ bip_intermediates p = [] ∧
  op_importing s' = Some (header_hash post) ∧
  ∃ fc, bip_fork_choice p = Some fc ∧
  let best := import_is_new_best (bip_finalized p) fc (h_number post) (best_number info) in
  ((r = AlreadyInChain ∧ op s' = op s ∧ bip_import_existing p = false ∧
    bc_status (backend self) (IdHash (header_hash post)) = Ok InChain) ∨
   (r = Imported best ∧
    bc_status (backend self) (IdHash (header_hash post)) =
      Ok (if bip_import_existing p then InChain else NotInChain) ∧
    (finalized_number info < h_number post)%Z ∧
    (∃ enact, op s' = op s ++ enact ++ block_calls p best ∧
       match bip_storage_changes p with
       | None => enact = []
       | Some sc => ∃ marks, Forall is_mark marks ∧ (bip_finalized p = false → marks = []) ∧
           enact = enact_calls (offchain_indexing_api (config self)) (h_parent_hash post)
                     marks cache sc
       end) ∧
    (is_Some (op_notify_imported s') ↔ is_Some (op_notify_imported s) ∨
       make_notifications (bip_origin p) = true ∨
       (best = true ∧ best_hash info ≠ h_parent_hash post)))).
Proof.
  intros H info post. unfold apply_block in H.
  apply bind_Ok in H as (u & s1 & Ha & H). injection Ha as Ha <-.
  assert (bip_justifications p = None ∨ bip_finalized p = true) as Hj.
  { unfold assert in Ha. destruct (bip_finalized p); [by right|left].
    rewrite andb_false_r in Ha. simpl in Ha.
    destruct (decide (bip_justifications p = None)) as [|Hd]; [done|].
    by rewrite bool_decide_false in Ha by done. }
  destruct (decide (bip_intermediates p = [])) as [Hi|Hi];
    [rewrite bool_decide_true in H by done; cbn [negb] in H
    |by rewrite bool_decide_false in H by done].
  apply bind_Ok in H as (fc & s2 & Hfc & H). injection Hfc as Hfc <-.
  destruct (bip_fork_choice p) as [fc'|] eqn:Hfc'; [injection Hfc as ->|done].
  apply bind_Ok in H as (u2 & s3 & Hp & H). injection Hp as _ <-.
  rewrite import_headers_post in H. fold post in H.
  split; [done|]. split; [done|].
  unfold execute_and_import_block in H.
  apply bind_Ok in H as (status & s4 & Hst & H). injection Hst as Hst <-.
  assert ((bip_import_existing p = false ∧ status = InChain ∧ r = AlreadyInChain ∧
      s' = put_importing (header_hash post) s) ∨
    (status = (if bip_import_existing p then InChain else NotInChain) ∧
     import_checked_block self (bip_origin p) (header_hash post) (bip_header p)
       (if bool_decide (bip_post_digests p = []) then SameHeader (bip_header p)
        else DifferentHeader (bip_header p) post) (bip_justifications p) (bip_body p)
       (bip_storage_changes p) cache (bip_finalized p) (bip_auxiliary p) fc
       (put_importing (header_hash post) s) = (Ok r, s')))
    as [(Hex & -> & -> & ->)|[-> H']].
  { destruct (bip_import_existing p), status; [right; split; [done|exact H]|done| |].
    - left. by injection H as <- <-.
    - right. split; [done|exact H]. }
  - split; [done|]. exists fc. split; [done|]. left. done.
  - apply import_checked_Ok in H' as (-> & Hfin & Himp & Hop & Hn);
      [|by apply import_headers_post].
    split; [done|]. exists fc. split; [done|]. right. done.
Qed.

(** How a run under the import lock fails: with nothing committed, or after the
    closure succeeded, in the commit of what it collected or in telling of it. *)
Definition failed_run {R} (f : Client → M Error ImportState R) (c c' : Client) : Prop :=
  backend c' = backend c ∨
  ∃ a s, f c (start_import c) = (Ok a, s) ∧
    let '(committed, db) := commit_operation (backend c) (op s) in
    backend c' = db ∧
    (¬ is_Ok committed ∨
     ¬ is_Ok (notify_finalized db (op_notify_finalized s) (client_notifies c)).1).

(** How a run under the import lock ends. *)
Lemma lock_run_cases {R} (f : Client → M Error ImportState R) c :
  let '(r, c') := lock_import_and_run f c in
  (∃ a s, f c (start_import c) = (Ok a, s) ∧ r = Ok a ∧ importing_block c' = None ∧
     commit_operation (backend c) (op s) = (Ok (), backend c')) ∨
  ((∀ a, r ≠ Ok a) ∧ failed_run f c c').
Proof.
  unfold lock_import_and_run, bind, query, zoom. fold (start_import c).
  destruct (begin_operation (backend c)) as [[]|e|p]; simpl;
    [|right; split; [done|by left]..].
  destruct (f c (start_import c)) as [[a|e|p] s] eqn:Hf; simpl; [|right; split; [done|by left]..].
  destruct (commit_operation (backend c) (op s)) as [[[]|e|p] db'] eqn:Hc; simpl;
    [|right; split; [done|right; exists a, s; split; [done|]; rewrite Hc; simpl;
      split; [done|left; by intros []]]..].
  destruct (notify_finalized db' _ _) as [[[]|e|p] n] eqn:Hn; simpl;
    [|right; split; [done|right; exists a, s; split; [done|]; rewrite Hc; simpl;
      split; [done|right; rewrite Hn; by intros []]]..].
  destruct (notify_imported_Ok (op_notify_imported s) n) as [n' ->]. simpl.
  left. by exists a, s.
Qed.

Lemma prepare_early self p res p' :
  prepare_block_storage_changes self p = (Ok (Some res), p') →
  res = UnknownParent ∨ res = MissingState ∨ res = KnownBad.
Proof.
  unfold prepare_block_storage_changes. intros H. unfold bind at 1, get at 1 in H.
  apply bind_Ok in H as (st & s1 & _ & H).
  destruct (prepare_status (bip_allow_missing_state p) st) as [b|r] eqn:Hs.
  - by apply bind_Ok in H as (? & ? & _ & [=]).
  - injection H as -> _. destruct st, (bip_allow_missing_state p); simplify_eq/=; auto.
Qed.

(** A block that comes with its body only is executed on its parent's state. *)
Lemma prepare_executes self p p' body :
  prepare_block_storage_changes self p = (Ok None, p') →
  bip_storage_changes p = None → bip_body p = Some body →
  let parent := h_parent_hash (bip_header p) in
  block_status self (IdHash parent) ≠ Ok InChainPruned →
  ∃ api state cts ch,
    execute_block_with_context (runtime_api (backend self)) (IdHash parent)
      (if decide (bip_origin p = NetworkInitialSync) then Syncing else Importing)
      (new_block (bip_header p) body) = (Ok (), api) ∧
    state_at (backend self) (IdHash parent) = Ok state ∧
    (into_storage_changes api state cts parent).1 = Ok ch ∧
    transaction_storage_root ch = h_state_root (bip_header p) ∧
    p' = set_changes (Some ch) p.
Proof.
  intros H Hsc Hbody parent Hpruned.
  unfold prepare_block_storage_changes, bind at 1, get at 1 in H.
  apply bind_Ok in H as (st & s1 & Hst & H). injection Hst as Hst <-. fold parent in Hst.
  destruct (prepare_status (bip_allow_missing_state p) st) as [enact|r] eqn:Hs; [|by injection H].
  assert (enact = true) as -> by (destruct st, (bip_allow_missing_state p); naive_solver).
  apply bind_Ok in H as (u & s2 & H & Hr). injection Hr as ->.
  rewrite Hsc, Hbody in H. fold parent in H.
  destruct (execute_block_with_context _ _ _ _) as [x api] eqn:Hx.
  apply bind_Ok in H as (u1 & s3 & Hl & H). injection Hl as -> <-.
  apply bind_Ok in H as (state & s4 & Hl & H). injection Hl as Hstate <-.
  apply bind_Ok in H as (cts & s5 & Hl & H). injection Hl as _ <-.
  apply bind_Ok in H as (ch & s6 & Hl & H). injection Hl as Hch <-.
  destruct (into_storage_changes api state cts parent).1 as [ch'|e|q] eqn:Hch'; [|done..].
  injection Hch as ->. case_decide as Hroot; [|done]. injection H as _ <-.
  destruct u1. by exists api, state, cts, ch.
Qed.

(** What a successful import has prepared and committed. *)
Lemma import_block_Imported {TL : TreeRouteLaws} c p cache b c' :
  import_block p cache c = (Ok (Imported b), c') →
  ∃ p' enact, prepare_block_storage_changes c p = (Ok None, p') ∧
    commit_operation (backend c) (enact ++ block_calls p' b) = (Ok (), backend c') ∧
    match bip_storage_changes p' with
    | None => enact = []
    | Some sc => ∃ marks, Forall is_mark marks ∧ (bip_finalized p' = false → marks = []) ∧
        enact = enact_calls (offchain_indexing_api (config c)) (h_parent_hash (bip_header p'))
                  marks cache sc
    end.
Proof.
  unfold import_block.
  destruct (prepare_block_storage_changes c p) as [[[res|]|e|q] p'] eqn:Hp; cbn [omap_err];
    [|..|done|done].
  - intros [= -> <-]. by destruct (prepare_early _ _ _ _ Hp) as [?|[?|?]].
  - pose proof (lock_run_cases (apply_block p' cache) c) as Hrun.
    destruct (lock_import_and_run _ c) as [r c1].
    destruct Hrun as [(a & s & Hf & -> & _ & Hcommit)|[Hno _]];
      [|destruct r as [a|e|q]; [by destruct (Hno a)|done..]].
    cbn [omap_err]. intros [= -> <-].
    apply apply_block_Ok in Hf as (_ & _ & _ & fc & Hfc & [(? & _)|([= Hb] & _ & _ & Hop & _)]);
      [done|].
    destruct Hop as (enact & Hop & Henact). rewrite Hop in Hcommit. rewrite Hb. by exists p', enact.
Qed.

(** The one operation of an import: none for a block the chain has; for another
    the storage changes it comes with, enacted at its parent (with finality
    calls only for a finalized block), then the block with its post-digest
    header, body and justifications, stored as final, best or normal, and its
    auxiliary data. *)
Definition import_operation (c : Client) (p : BlockImportParams) (cache : Cache)
    (res : ImportResult) (calls : list OpCall) : Prop :=
  let post := post_header (bip_header p) (bip_post_digests p) in
  let info := bc_info (backend c) in
  match res with
  | Imported b => ∃ fc enact, bip_fork_choice p = Some fc ∧
      b = import_is_new_best (bip_finalized p) fc (h_number post) (best_number info) ∧
      calls = enact ++ [SetBlockData post (bip_body p) (bip_justifications p)
        (if bip_finalized p then Final else if b then Best else Normal);
        InsertAux (bip_auxiliary p)] ∧
      match bip_storage_changes p with
      | None => enact = []
      | Some sc => ∃ marks, Forall is_mark marks ∧ (bip_finalized p = false → marks = []) ∧
          enact = enact_calls (offchain_indexing_api (config c)) (h_parent_hash post)
                    marks cache sc
      end ∧
      bc_status (backend c) (IdHash (header_hash post)) =
        Ok (if bip_import_existing p then InChain else NotInChain) ∧
      (finalized_number info < h_number post)%Z ∧
      (bip_justifications p = None ∨ bip_finalized p = true)
  | AlreadyInChain => calls = [] ∧ bip_import_existing p = false ∧
      bc_status (backend c) (IdHash (header_hash post)) = Ok InChain
  | _ => False
  end.

Lemma apply_block_operation {TL : TreeRouteLaws} c p cache res s :
  apply_block p cache c (start_import c) = (Ok res, s) → import_operation c p cache res (op s).
Proof.
  intros (Hj & _ & _ & fc & Hfc & Hcases)%apply_block_Ok.
  destruct Hcases as [(-> & Hop & Hex & Hst)|(-> & Hst & Hfin & (enact & Hop & Henact) & _)].
  - by split_and!.
  - exists fc, enact. by split_and!.
Qed.

(** C16. Importing a block: when [import_block] answers [Imported b], the block
    was prepared, exactly one operation was committed, and that operation ends
    with the block's post-digest header, body and justifications, stored as
    final, best or normal according to [b], and its auxiliary data; before
    them it enacts exactly the prepared storage changes at the parent (with
    finality calls only for a finalized block).  The block was new (or known,
    when re-importing was asked for), higher than the last finalized block,
    justified only if finalized, and [b] is decided by finality and the fork
    choice.  Any other answer leaves the database as it was or, for a block
    the chain has, commits an operation without calls.  An error or a panic
    leaves the database as it was too, unless the block was prepared and its
    operation, the one a success commits, was complete: then that operation
    was committed and the commit failed, or the notifications after it. *)
Theorem import_block_commits {TL : TreeRouteLaws} (c : Client) (p : BlockImportParams)
    (cache : Cache) :
  let '(r, c') := import_block p cache c in
  let '(prepared, p') := prepare_block_storage_changes c p in
  match r with
  | Ok (Imported b) => prepared = Ok None ∧ importing_block c' = None ∧
      ∃ calls, import_operation c p' cache (Imported b) calls ∧
        commit_operation (backend c) calls = (Ok (), backend c')
  | Ok res => backend c' = backend c ∧ prepared = Ok (Some res) ∨
      res = AlreadyInChain ∧ prepared = Ok None ∧ bip_import_existing p' = false ∧
      commit_operation (backend c) [] = (Ok (), backend c')
  | _ => backend c' = backend c ∨
      prepared = Ok None ∧ ∃ res s, apply_block p' cache c (start_import c) = (Ok res, s) ∧
        import_operation c p' cache res (op s) ∧
        let '(committed, db) := commit_operation (backend c) (op s) in
        backend c' = db ∧
        (¬ is_Ok committed ∨
         ¬ is_Ok (notify_finalized db (op_notify_finalized s) (client_notifies c)).1)
  end.
Proof.
  unfold import_block.
  destruct (prepare_block_storage_changes c p) as [[[res|]|e|q] p'] eqn:Hp; cbn [omap_err].
  - by destruct (prepare_early _ _ _ _ Hp) as [->|[->| ->]]; left.
  - pose proof (lock_run_cases (apply_block p' cache) c) as Hrun.
    destruct (lock_import_and_run _ c) as [r c'].
    destruct Hrun as [(a & s & Hf & -> & Himp & Hcommit)|[Hno Hdb]].
    + pose proof (apply_block_operation _ _ _ _ _ Hf) as Hop. cbn [omap_err].
      destruct a as [b| | | |]; try done.
      * split; [done|]. split; [done|]. by exists (op s).
      * destruct Hop as (Hnil & Hex & _). right. rewrite Hnil in Hcommit. by split_and!.
    + assert (backend c' = backend c ∨
        @Ok Error (option ImportResult) None = Ok None ∧ ∃ res s, apply_block p' cache c (start_import c) = (Ok res, s) ∧
          import_operation c p' cache res (op s) ∧
          let '(committed, db) := commit_operation (backend c) (op s) in
          backend c' = db ∧
          (¬ is_Ok committed ∨
           ¬ is_Ok (notify_finalized db (op_notify_finalized s) (client_notifies c)).1)) as Hfail.
      { destruct Hdb as [?|(a & s & Hf & Hc)]; [by left|right]. split; [done|].
        exists a, s. split; [done|]. split; [by apply apply_block_operation|done]. }
      destruct r as [a|e|q]; [by destruct (Hno a)|exact Hfail..].
  - by left.
  - by left.
Qed.

(** C26. [check_block] accepts a block exactly when no rule of the chain
    specification speaks against it, it is unknown (or its state is there and
    re-importing was asked for), and its parent's state is there (or may be
    missing); and then preparing a block with that parent never turns it away
    for its parent. *)
Theorem check_block_accepts (c : Client) (b : BlockCheckParams) (x : bool) :
  (check_block c b = Ok (Imported x) ↔
   x = false ∧ lookup_rule (block_rules c) (bcp_number b) (bcp_hash b) = NotSpecial ∧
   (∃ own, block_status c (IdHash (bcp_hash b)) = Ok own ∧
      (own = UnknownStatus ∨
       bcp_import_existing b = true ∧ (own = InChainWithState ∨ own = Queued))) ∧
   (∃ parent, block_status c (IdHash (bcp_parent_hash b)) = Ok parent ∧
      (parent = InChainWithState ∨ parent = Queued ∨
       bcp_allow_missing_state b = true ∧ parent = InChainPruned))) ∧
  (check_block c b = Ok (Imported x) → ∀ p res,
     h_parent_hash (bip_header p) = bcp_parent_hash b →
     bip_allow_missing_state p = bcp_allow_missing_state b →
     (prepare_block_storage_changes c p).1 ≠ Ok (Some res)).
Proof.
  assert (check_block c b = Ok (Imported x) ↔
   x = false ∧ lookup_rule (block_rules c) (bcp_number b) (bcp_hash b) = NotSpecial ∧
   (∃ own, block_status c (IdHash (bcp_hash b)) = Ok own ∧
      (own = UnknownStatus ∨
       bcp_import_existing b = true ∧ (own = InChainWithState ∨ own = Queued))) ∧
   (∃ parent, block_status c (IdHash (bcp_parent_hash b)) = Ok parent ∧
      (parent = InChainWithState ∨ parent = Queued ∨
       bcp_allow_missing_state b = true ∧ parent = InChainPruned))) as Hiff.
  { unfold check_block.
    destruct (lookup_rule _ _ _); [|naive_solver..].
    destruct (block_status c (IdHash (bcp_hash b))) as [own| |]; simpl; [|naive_solver..].
    destruct (block_status c (IdHash (bcp_parent_hash b))) as [par| |]; simpl;
      destruct own, (bcp_import_existing b); simpl; try naive_solver;
      destruct par, (bcp_allow_missing_state b); naive_solver. }
  split; [exact Hiff|]. intros Hc p res Hp Ha Hr.
  apply Hiff in Hc as (_ & _ & _ & parent & Hst & Hparent).
  destruct (prepare_block_storage_changes c p) as [r p'] eqn:Hprep. simpl in Hr. subst r.
  unfold prepare_block_storage_changes, bind at 1, get at 1 in Hprep.
  rewrite Hp, Hst, Ha in Hprep. rewrite bind_lift_Ok in Hprep.
  assert (∃ e, prepare_status (bcp_allow_missing_state b) parent = inl e) as [e He].
  { destruct Hparent as [-> |[-> |[-> ->]]]; by eexists. }
  rewrite He in Hprep. by apply bind_Ok in Hprep as (? & ? & _ & [=]).
Qed.

(** C27. A block whose storage changes are not given but whose body is, on a
    parent with state, is executed on that parent (in the syncing context for
    an initial sync), and goes on to the import only if the storage root of the
    changes it produced is the state root of its header; nothing else of the
    block changes.  Changes that were given are taken as they are, and on a
    pruned parent they are dropped. *)
Theorem prepare_checks_state_root (c : Client) (p p' : BlockImportParams) :
  prepare_block_storage_changes c p = (Ok None, p') →
  let parent := h_parent_hash (bip_header p) in
  p' = set_changes (bip_storage_changes p') p ∧
  ∃ status, block_status c (IdHash parent) = Ok status ∧
  match status with
  | InChainPruned => bip_allow_missing_state p = true ∧ bip_storage_changes p' = None
  | InChainWithState | Queued =>
      match bip_storage_changes p, bip_body p with
      | None, Some body => ∃ api state cts ch,
          execute_block_with_context (runtime_api (backend c)) (IdHash parent)
            (if decide (bip_origin p = NetworkInitialSync) then Syncing else Importing)
            (new_block (bip_header p) body) = (Ok (), api) ∧
          state_at (backend c) (IdHash parent) = Ok state ∧
          (into_storage_changes api state cts parent).1 = Ok ch ∧
          transaction_storage_root ch = h_state_root (bip_header p) ∧
          bip_storage_changes p' = Some ch
      | given, _ => bip_storage_changes p' = given
      end
  | _ => False
  end.
Proof.
  intros Hprep parent. pose proof Hprep as H.
  unfold prepare_block_storage_changes, bind at 1, get at 1 in H.
  apply bind_Ok in H as (st & s1 & Hst & H).
  injection Hst as Hst <-. fold parent in Hst.
  assert (∀ q, set_changes (bip_storage_changes q) q = q) as Heta by (by intros []).
  destruct (prepare_status (bip_allow_missing_state p) st) as [b|r] eqn:Hs;
    [|by injection H].
  apply bind_Ok in H as (u & s2 & H & Hr). injection Hr as ->.
  destruct b.
  - assert (st = InChainWithState ∨ st = Queued) as Hst2
      by (destruct st, (bip_allow_missing_state p); naive_solver).
    destruct (bip_storage_changes p) as [sc|] eqn:Hsc.
    { injection H as _ <-. rewrite Hsc. split; [by rewrite <- Hsc, Heta|].
      exists st. by destruct Hst2 as [-> | ->]. }
    destruct (bip_body p) as [body|] eqn:Hbody.
    2:{ injection H as _ <-. rewrite Hsc. split; [by rewrite <- Hsc, Heta|].
        exists st. by destruct Hst2 as [-> | ->]. }
    destruct (prepare_executes c p p' body Hprep Hsc Hbody) as (api & state & cts & ch & Hex);
      [fold parent; rewrite Hst; by destruct Hst2 as [-> | ->]|].
    destruct Hex as (? & ? & ? & ? & ->). split; [done|]. exists st. split; [done|]. simpl.
    destruct Hst2 as [-> | ->]; by exists api, state, cts, ch.
  - injection H as _ <-. split; [done|]. exists st. split; [done|].
    destruct st, (bip_allow_missing_state p); simplify_eq/=; done.
Qed.
End client.

(** ** Witnesses *)

#[local] Existing Instance ref_chain.
#[local] Existing Instance ref_types.
#[local] Existing Instance ref_backend.
#[local] Existing Instance ref_runtime_types.
#[local] Existing Instance ref_runtime_api.

Definition listeners_reference : StorageListeners := {|
  Listeners := list Z; trigger h _ _ l := l ++ [h] |}.
#[local] Existing Instance listeners_reference.
Definition client_errors_reference : ClientErrors := {| error_text _ := "error" |}.
#[local] Existing Instance client_errors_reference.

Lemma ref_route_laws : TreeRouteLaws.
Proof.
  split. intros db a b r Hr Hret Hne. simpl in Hr. unfold ref_tree_route in Hr.
  destruct (ref_until _ _) as [lft c]. destruct (ref_until _ _) as [entered x].
  destruct c as [c|]; [|done]. case_decide as Hd; [done|]. injection Hr as <-.
  simpl in *. subst lft.
  destruct (decide (last (reverse entered) = Some b)) as [|Hl]; [done|].
  by destruct Hd.
Qed.

(** A client on the sample chain with two finality streams, one closed. *)
Definition sample_client : Client := {|
  backend := sample_db;
  client_notifies := {| storage_notifications := []; import_notification_sinks := [];
    finality_notification_sinks := [mk_sink false []; mk_sink true []] |};
  importing_block := None;
  block_rules := block_rules_new None None;
  config := {| offchain_worker_enabled := false; offchain_indexing_api := false;
               wasm_runtime_overrides := None |} |}.

Definition sample_params (n root parent : Z) (ext : list string) : BlockImportParams := {|
  bip_origin := NetworkBroadcast;
  bip_header := new_header n 0%Z root parent [];
  bip_justifications := None; bip_post_digests := ["seal"]; bip_body := Some ext;
  bip_storage_changes := None; bip_finalized := false; bip_auxiliary := [("k", Some "v")];
  bip_fork_choice := Some LongestChain; bip_intermediates := [];
  bip_allow_missing_state := false; bip_import_existing := false |}.

Definition finalized_db : DB :=
  (commit_operation sample_db
     [MarkFinalized (IdHash 101%Z) None; MarkFinalized (IdHash 202%Z) None]).2.


Definition sample_finalized : list Hash := [101; 202]%Z.

Lemma notify_finalized_delivers_witness :
  ∃ c', notify_finalized (backend sample_client) sample_finalized (client_notifies sample_client) = (Ok (), c') ∧
    (λ s, fn_hash <$> sink_queue s) <$> finality_notification_sinks c' = [[101; 202]]%Z.
Proof.
  eexists. split.
  - apply (notify_finalized_delivers (backend sample_client) sample_finalized (client_notifies sample_client)
      (λ h, if decide (h = 101)%Z then sample_header 1 1 0 else sample_header 2 2 101)).
    intros h Hh. repeat (apply elem_of_cons in Hh as [->|Hh]; [vm_compute; reflexivity|]).
    by apply elem_of_nil in Hh.
  - reflexivity.
Defined.

Definition imported : outcome ConsensusError ImportResult * Client :=
  import_block (sample_params 3 1 202 ["x"]) () sample_client.

Lemma import_block_commits_witness :
  imported.1 = Ok (Imported true) ∧ importing_block imported.2 = None ∧
  h_digest ∘ rb_header <$> db_blocks (backend imported.2) !! 301%Z = Some ["seal"].
Proof.
  assert (imported.1 = Ok (Imported true)) as Hr by (vm_compute; reflexivity).
  split; [exact Hr|]. split; [|vm_compute; reflexivity].
  pose proof (import_block_commits (TL := ref_route_laws) sample_client
    (sample_params 3 1 202 ["x"]) ()) as H.
  fold imported in H. destruct imported as [r c']. simpl in Hr. subst r.
  destruct (prepare_block_storage_changes _ _) as [x p']. apply H.
Defined.

Lemma prepare_checks_state_root_witness :
  ∃ p', prepare_block_storage_changes sample_client (sample_params 3 1 202 ["x"]) = (Ok None, p') ∧
    ∃ ch, bip_storage_changes p' = Some ch ∧ transaction_storage_root ch = 1%Z.
Proof.
  destruct (prepare_block_storage_changes sample_client (sample_params 3 1 202 ["x"]))
    as [r p'] eqn:Hp.
  assert (r = Ok None) as -> by (by vm_compute in Hp; injection Hp as <- _).
  exists p'. split; [reflexivity|].
  destruct (prepare_checks_state_root _ _ _ Hp) as (_ & st & Hst & H).
  vm_compute in Hst. injection Hst as <-.
  destruct H as (api & state & cts & ch & _ & _ & _ & Hroot & Hch).
  exists ch. split; [exact Hch|exact Hroot].
Defined.
