(* ===== verification/Replay.v ===== *)
(** * Importing a block and archiving it

    The client executes a block when it imports it ([Client.v]); the archive
    reads it back from the database and executes it again ([BlockExecutor.v]).
    Both are joined here: what the archive publishes is what the import
    committed.  No further code is modelled. *)

From S2P Require Import Prelude Chain Postgres Kafka ArchiveCore VersionCache Reference.
From S2P Require Import BlockExecutor Steps BlockRules Notifies Client.

Section replay.
Context `{CT : ChainTypes, BT : BackendTypes, BE : !Backend, RT : RuntimeTypes,
  RA : !RuntimeApi, SL : !StorageListeners, CE : ClientErrors, TL : !TreeRouteLaws,
  VA : !VersionApi, JT : JsonTypes, C : Type, AC : !ArchiveCore C}.

(** What Substrate promises of block execution: it is a function of the block
    and its parent's state.  The context and the changes tries of a caller,
    and the rest of its database, do not change what is written. *)
Class ReplayLaws := {
  execution_replays db db' id ctx b parent st cts api' ch' :
    state_at db id = Ok st → state_at db' id = Ok st →
    execute_block_with_context (runtime_api db') id ctx b = (Ok (), api') →
    (into_storage_changes api' st cts parent).1 = Ok ch' →
    let '(r, api) := execute_block (runtime_api db) id b in
    ¬ is_Panic r ∧ ∃ ch, (into_storage_changes api st None parent).1 = Ok ch ∧
      main_storage_changes ch = main_storage_changes ch';
}.

(** ** Which block is executed again *)

Lemma removelast_snoc_all {A} (l ds : list A) :
  removelast (l ++ ds) = l ↔ (∃ d, ds = [d]) ∨ ds = [] ∧ l = [].
Proof.
  destruct ds as [|d ds].
  - rewrite app_nil_r. split; [|by intros [[]|[_ ->]]]. intros H. right. split; [done|].
    destruct l as [|x l]; [done|]. apply (f_equal length) in H.
    rewrite List.removelast_firstn_len, List.length_firstn in H. simpl in H. lia.
  - rewrite List.removelast_app by done. split.
    + intros H. left. destruct ds as [|d' ds]; [by exists d|].
      apply (f_equal length) in H. rewrite length_app in H. simpl in H. lia.
    + intros [[x [= -> ->]]|[[=] _]]. simpl. apply app_nil_r.
Qed.

(** The executor takes the last digest item off: it executes the imported block
    again exactly when the import added one (the seal), or there is none. *)
Lemma unsealed_imported (header : Header) (seals : list DigestItem) (body : list Extrinsic) j :
  unsealed {| sb_block := new_block (post_header header seals) body; sb_justifications := j |} =
    new_block header body ↔
  (∃ seal, seals = [seal]) ∨ seals = [] ∧ h_digest header = [].
Proof.
  rewrite <- removelast_snoc_all. unfold unsealed, pop_digest, post_header. simpl. split.
  - intros [= H]. exact (f_equal h_digest H).
  - intros H. rewrite H. by destruct header.
Qed.

(** ** The property *)

Context {RL : ReplayLaws}.

(** C15. The archive publishes what the import committed.  When a block is
    imported with its body and one post-digest item (its seal), the client has
    executed it on its parent's state and committed one operation, with the
    storage changes of that execution and the sealed block.  A request of the
    executor that reads this block, while the parent's state is the one it was
    imported on, executes the same block again, without its seal, and hands over
    exactly these main storage changes (for block 0 the genesis storage), with
    the sealed block and the version its number declares. *)
Theorem archive_replays_import (c c' : Client) (p : BlockImportParams) (cache : Cache) (b : bool)
    (body : list Extrinsic) (seal : DigestItem) (self : BlockExecutor (C := C)) (n : Z)
    (es : ExecutorState) (j : option (list Justification)) (st : State) (v : RuntimeVersion) :
  let parent := IdHash (h_parent_hash (bip_header p)) in
  let post := post_header (bip_header p) [seal] in
  let sb := {| sb_block := new_block post body; sb_justifications := j |} in
  import_block p cache c = (Ok (Imported b), c') →
  bip_storage_changes p = None → bip_body p = Some body → bip_post_digests p = [seal] →
  block_status c parent ≠ Ok InChainPruned → state_at (backend c) parent = Ok st →
  cache_inv (vc_backend self) (ex_cache es) → no_collision (vc_backend self) →
  get_block (archive_core self) n = Ok (Some sb) → get_state (archive_core self) parent = Ok st →
  state_at (ex_client self) parent = Ok st →
  fresh_version (vc_backend self) (IdNumber n) = Ok (Some v) →
  ∃ calls ch, commit_operation (backend c) calls = (Ok (), backend c') ∧
    UpdateStorage (main_storage_changes ch) (child_storage_changes ch) ∈ calls ∧
    SetBlockData post (Some body) (bip_justifications p)
      (import_leaf_state (bip_finalized p) b) ∈ calls ∧
    ∃ es', executor_archive self n es = (Ok (), es') ∧
      let m := storages_map self n (main_storage_changes ch) in
      archiver_send es' = archiver_send es ++
        [(block_model n (rv_spec_version v) sb m, block_payload (rv_spec_version v) sb m)].
Proof.
  intros parent post sb Himp Hsc Hbody Hpd Hpr Hst I Hcol Hb Hst' Hst2 Hv.
  apply import_block_Imported in Himp as (p' & enact & Hprep & Hcommit & Henact).
  destruct (prepare_executes c p p' body Hprep Hsc Hbody Hpr)
    as (api & st0 & cts & ch & Hx & Hst0 & Hch & _ & ->).
  fold parent in Hx, Hst0. rewrite Hst in Hst0. injection Hst0 as <-.
  pose proof (execution_replays (ex_client self) (backend c) parent _ _ _ st cts api ch Hst2 Hst Hx Hch)
    as Hreplay.
  destruct (execute_block _ _ _) as [r' api'] eqn:Hx' in Hreplay.
  destruct Hreplay as (Hr' & ch' & Hch' & Hmain).
  destruct Henact as (marks & _ & _ & ->).
  exists (enact_calls (offchain_indexing_api (config c)) (h_parent_hash (bip_header p)) marks cache ch
    ++ block_calls (set_changes (Some ch) p) b), ch.
  split; [exact Hcommit|]. split_and!.
  - unfold enact_calls. set_solver.
  - unfold block_calls. simpl. rewrite Hpd, Hbody. set_solver.
  - set (m := storages_map self n (main_storage_changes ch)).
    assert (executor_answer self n = Ok (Some (block_model n (rv_spec_version v) sb m,
      block_payload (rv_spec_version v) sb m))) as Hans.
    { apply executor_answer_Some. exists sb, st, ch', v. split; [done|]. cbv zeta.
      change (h_parent_hash (b_header (sb_block sb))) with (h_parent_hash (bip_header p)).
      fold parent (unsealed sb).
      assert (unsealed sb = new_block (bip_header p) body) as ->
        by (apply unsealed_imported; left; by eexists).
      rewrite Hx', Hmain. by split_and!. }
    pose proof (executor_archive_refines self n es I Hcol) as H. rewrite Hans in H.
    destruct (executor_archive self n es) as [r es']. destruct H as [_ [-> [= Ha _]]].
    exists es'. split; [done|exact Ha].
Qed.
End replay.

(** ** Witness: block 3 is imported, then archived *)

#[local] Existing Instance ref_chain.
#[local] Existing Instance ref_types.
#[local] Existing Instance ref_backend.
#[local] Existing Instance ref_runtime_types.
#[local] Existing Instance ref_runtime_api.
#[local] Existing Instance ref_version_api.
#[local] Existing Instance ref_json.
#[local] Existing Instance listeners_reference.
#[local] Existing Instance client_errors_reference.

Lemma ref_replay_laws : ReplayLaws.
Proof.
  split. intros db db' id ctx b parent st cts api' ch' _ _. simpl.
  case_decide; [done|]. intros [= <-] [= <-]. split; [by intros []|by eexists].
Qed.

(** The client after the import, and an executor on its database. *)
Definition importer : Client := imported.2.
Definition replayer : BlockExecutor (C := LocalBackendCore) :=
  {| ex_client := backend importer; vc_backend := backend importer;
     archive_core := {| lb_backend := backend importer |}; genesis_top := {["g" := "1"]} |}.
Definition replayed : outcome Error unit * ExecutorState :=
  executor_archive replayer 3 sample_executor_state.

Lemma archive_replays_import_witness :
  ∃ calls ch, commit_operation (backend sample_client) calls = (Ok (), backend importer) ∧
    UpdateStorage (main_storage_changes ch) (child_storage_changes ch) ∈ calls ∧
    (λ msg : ArchiveSendMsg, (bp_block_num msg.2, bp_digest msg.2, bp_main_changes msg.2)) <$>
      archiver_send replayed.2 = [(3%Z, ["seal"], collect_map (main_storage_changes ch))].
Proof.
  destruct (archive_replays_import (TL := ref_route_laws) (RL := ref_replay_laws) sample_client importer
    (sample_params 3 1 202 ["x"]) () true ["x"] "seal" replayer 3 sample_executor_state None
    ["upgrade"] 1%Z) as (calls & ch & Hc & Hu & _ & es' & He & Ha);
    [vm_compute; reflexivity|reflexivity|reflexivity|reflexivity|vm_compute; discriminate
    |vm_compute; reflexivity|apply version_cache_new_inv|apply sample_no_collision
    |vm_compute; reflexivity|vm_compute; reflexivity|vm_compute; reflexivity
    |vm_compute; reflexivity|].
  exists calls, ch. split; [exact Hc|]. split; [exact Hu|].
  change (executor_archive replayer 3 sample_executor_state) with replayed in He.
  rewrite He. simpl. rewrite Ha. reflexivity.
Defined.
