(* ===== verification/ClientQueries.v ===== *)
(** * The client's construction and queries ([client/service/src/client/client.rs])

    [Client::new] with the genesis block ([genesis.rs]), reverting, the
    queries on blocks and uncles, and the storage queries. *)

From S2P Require Import Prelude Chain BlockRules ArchiveCore Notifies VersionCache.
From S2P Require Import Reference Client.

(** The storage queries of a state ([StateBackend]). *)
Class StateStorage `{ChainTypes, BackendTypes} := {
  st_keys : State → Bytes → list Bytes;
  st_storage : State → Bytes → outcome string (option Bytes);
  st_storage_hash : State → Bytes → outcome string (option Hash);
  ChildInfo : Type;
  st_child_keys : State → ChildInfo → Bytes → list Bytes;
  st_child_storage : State → ChildInfo → Bytes → outcome string (option Bytes);
  st_child_storage_hash : State → ChildInfo → Bytes → outcome string (option Hash);
}.

(** [ClientExternals]: reading the auxiliary data, and [apply_aux]. *)
Class AuxAccess `{BackendTypes} := {
  bk_get_aux : DB → Bytes → outcome Error (option Bytes);
  apply_aux : list (Bytes * Bytes) → list Bytes → list (Bytes * option Bytes);
}.

Section queries.
Context `{CT : ChainTypes, BT : BackendTypes, BE : !Backend, RT : RuntimeTypes,
  RA : !RuntimeApi, SL : !StorageListeners, CE : ClientErrors}.

(** ** Genesis *)

(** [construct_genesis_block] ([genesis.rs]) *)
Definition construct_genesis_block (state_root : Hash) : Block :=
  let extrinsics_root := trie_root [] in
  new_block (new_header 0 extrinsics_root state_root default_hash []) [].

(** A call on the operation [Client::new] builds. *)
Definition genesis_call (db : DB) (calls : list OpCall) (c : OpCall) :
    result (list OpCall) :=
  let? _ := op_answer db calls c in Ok (calls ++ [c]).

(** The genesis branch of [Client::new]: the operation it commits. *)
Definition genesis_operation (db : DB) (build_storage : outcome string GenesisStorage) :
    result (list OpCall) :=
  let? genesis_storage := omap_err Storage build_storage in
  let? _ := begin_operation db in
  let? op := genesis_call db [] (BeginStateOperation (IdHash default_hash)) in
  let? op := genesis_call db op (ResetStorage genesis_storage) in
  let state_root := genesis_root db genesis_storage in
  let genesis_block := construct_genesis_block state_root in
  genesis_call db op (SetBlockData (b_header genesis_block) (Some []) None Final).

(** [Client::new]; the state is the database. *)
Definition client_new (build_storage : outcome string GenesisStorage)
    (fork_blocks : option (list (Z * Hash))) (bad_blocks : option (gset Hash))
    (listeners : Listeners) (cfg : ClientConfig) : M Error DB Client :=
  let! header := query (λ db, bc_header db (IdNumber 0)) in
  let! _ :=
    match header with
    | Some _ => ret ()
    | None =>
        let! calls := query (λ db, genesis_operation db build_storage) in
        λ db, commit_operation db calls
    end in
  let! db := get in
  ret {| backend := db; client_notifies := client_notifies_new listeners;
         importing_block := None; block_rules := block_rules_new fork_blocks bad_blocks;
         config := cfg |}.

(** ** Reverting *)

(** [Client::revert] *)
Definition revert (n : Z) : M Error Client Z := λ c,
  let '(r, db) := revert_blocks (backend c) n false in
  (omap_ok fst r, set_backend db c).

(** [Client::unsafe_revert] *)
Definition unsafe_revert (n : Z) (blacklist : bool) : M Error Client Z := λ c,
  let '(r, db) := revert_blocks (backend c) n true in
  let c := set_backend db c in
  match r with
  | Ok (number, reverted) =>
      (Ok number,
       if blacklist then set_rules (foldl mark_bad (block_rules c) reverted) c else c)
  | Err e => (Err e, c)
  | Panic p => (Panic p, c)
  end.

(** ** Blocks *)

(** [Client::state_at], [chain_info], [header], [body], [justifications],
    [block_hash] *)
Definition client_state_at (c : Client) (id : BlockId) : result State :=
  state_at (backend c) id.
Definition chain_info (c : Client) : Info := bc_info (backend c).
Definition client_header (c : Client) (id : BlockId) : result (option Header) :=
  bc_header (backend c) id.
Definition client_body (c : Client) (id : BlockId) : result (option (list Extrinsic)) :=
  bc_body (backend c) id.
Definition justifications (c : Client) (id : BlockId) :
    result (option (list Justification)) :=
  bc_justifications (backend c) id.
Definition block_hash (c : Client) (number : Z) : result (option Hash) :=
  bc_hash (backend c) number.

(** [BlockBackend::block] *)
Definition client_block (c : Client) (id : BlockId) : result (option SignedBlock) :=
  let? header := client_header c id in
  let? body := client_body c id in
  let? justifications := justifications c id in
  match header, body with
  | Some header, Some extrinsics =>
      Ok (Some {| sb_block := new_block header extrinsics;
                  sb_justifications := justifications |})
  | _, _ => Ok None
  end.

(** [Client::prepare_environment_block] *)
Definition prepare_environment_block (c : Client) (parent : BlockId) : result Header :=
  let? parent_hash := bc_expect_block_hash_from_id (backend c) parent in
  let? number := bc_expect_block_number_from_id (backend c) parent in
  Ok (new_header (u32_add number 1) default_hash default_hash parent_hash []).

(** ** Uncles *)

(** The closure [load_header] of [Client::uncles]. *)
Definition load_header (c : Client) (id : Hash) : result Header :=
  let? hdr := bc_header (backend c) (IdHash id) in
  ok_or hdr (UnknownBlock (debug_hash id)).

(** The loop of [Client::uncles], [n] generations to go. *)
Fixpoint uncles_loop (c : Client) (genesis_hash : Hash) (n : nat)
    (current_hash ancestor_hash : Hash) (ancestor : Header) (uncles : list Hash) :
    result (list Hash) :=
  match n with
  | O => Ok uncles
  | S n =>
      let? children := bc_children (backend c) ancestor_hash in
      let uncles := uncles ++ filter (λ h, h ≠ current_hash) children in
      let current_hash := ancestor_hash in
      if decide (genesis_hash = current_hash) then Ok uncles
      else
        let current := ancestor in
        let ancestor_hash := h_parent_hash current in
        let? ancestor := load_header c ancestor_hash in
        uncles_loop c genesis_hash n current_hash ancestor_hash ancestor uncles
  end.

(** [Client::uncles]; block numbers are [u32], so saturating changes nothing. *)
Definition uncles (c : Client) (target_hash : Hash) (max_generation : Z) :
    result (list Hash) :=
  let genesis_hash := genesis_hash (bc_info (backend c)) in
  if decide (genesis_hash = target_hash) then Ok []
  else
    let current_hash := target_hash in
    let? current := load_header c current_hash in
    let ancestor_hash := h_parent_hash current in
    let? ancestor := load_header c ancestor_hash in
    uncles_loop c genesis_hash (Z.to_nat (Z.min max_generation u32_max))
      current_hash ancestor_hash ancestor [].

(** [ProvideUncles::uncles]: the headers found; errors are skipped. *)
Definition provide_uncles (c : Client) (target_hash : Hash) (max_generation : Z) :
    result (list Header) :=
  let? hashes := uncles c target_hash max_generation in
  Ok (omap (λ hash, match client_header c (IdHash hash) with
                    | Ok h => h
                    | _ => None
                    end) hashes).

(** ** Event streams *)

(** [import_notification_stream], [finality_notification_stream]: a new open
    sink at the end. *)
Definition import_notification_stream (c : Client) : Client :=
  set_notifies (set_import (λ sinks, sinks ++ [mk_sink false []]) (client_notifies c)) c.
Definition finality_notification_stream (c : Client) : Client :=
  set_notifies (set_finality (λ sinks, sinks ++ [mk_sink false []]) (client_notifies c)) c.

(** ** Storage *)

Context {SS : StateStorage}.

(** [StorageProvider] *)
Definition storage_keys (c : Client) (id : BlockId) (key_prefix : Bytes) :
    result (list Bytes) :=
  let? state := client_state_at c id in Ok (st_keys state key_prefix).

(** A value that cannot be read counts as empty. *)
Definition storage_pairs (c : Client) (id : BlockId) (key_prefix : Bytes) :
    result (list (Bytes * Bytes)) :=
  let? state := client_state_at c id in
  Ok (map (λ k, (k, match st_storage state k with Ok (Some d) => d | _ => EmptyString end))
        (st_keys state key_prefix)).

(** [storage_keys_iter]: the key the iteration starts after. *)
Definition storage_keys_iter (c : Client) (id : BlockId) (prefix start_key : option Bytes) :
    result (State * option Bytes * Bytes) :=
  let? state := client_state_at c id in
  let start_key := default EmptyString
    (match start_key with Some k => Some k | None => prefix end) in
  Ok (state, prefix, start_key).

Definition storage (c : Client) (id : BlockId) (key : Bytes) : result (option Bytes) :=
  let? state := client_state_at c id in omap_err StateError (st_storage state key).
Definition storage_hash (c : Client) (id : BlockId) (key : Bytes) : result (option Hash) :=
  let? state := client_state_at c id in omap_err StateError (st_storage_hash state key).
Definition child_storage_keys (c : Client) (id : BlockId) (child_info : ChildInfo)
    (key_prefix : Bytes) : result (list Bytes) :=
  let? state := client_state_at c id in Ok (st_child_keys state child_info key_prefix).
Definition child_storage (c : Client) (id : BlockId) (child_info : ChildInfo) (key : Bytes) :
    result (option Bytes) :=
  let? state := client_state_at c id in
  omap_err StateError (st_child_storage state child_info key).
Definition child_storage_hash (c : Client) (id : BlockId) (child_info : ChildInfo)
    (key : Bytes) : result (option Hash) :=
  let? state := client_state_at c id in
  omap_err StateError (st_child_storage_hash state child_info key).

(** [Client::code_at] *)
Definition code_at (c : Client) (id : BlockId) : result Bytes :=
  let? code := storage c id CODE in
  expect code "None is returned if there's no value stored for the given key".

Context {AA : AuxAccess}.

(** [AuxStore::insert_aux], [AuxStore::get_aux] *)
Definition client_insert_aux (insert : list (Bytes * Bytes))
    (delete : list Bytes) : M Error Client unit :=
  lock_import_and_run (λ c, op_call (backend c) (InsertAux (apply_aux insert delete))).
Definition client_get_aux (c : Client) (key : Bytes) : result (option Bytes) :=
  bk_get_aux (backend c) key.
End queries.

Section properties.
Context `{CT : ChainTypes, BT : BackendTypes, BE : !Backend, RT : RuntimeTypes,
  RA : !RuntimeApi, SL : !StorageListeners, CE : ClientErrors}.

(** The block [Client::new] stores on an empty database. *)
Definition genesis_header (db : DB) (g : GenesisStorage) : Header :=
  mk_header 0 (trie_root []) (genesis_root db g) default_hash [].

Lemma genesis_operation_accepted db g :
  begin_operation db = Ok () → accepts db →
  genesis_operation db (Ok g) =
  Ok [BeginStateOperation (IdHash default_hash); ResetStorage g;
      SetBlockData (genesis_header db g) (Some []) None Final].
Proof.
  intros Hb Ha. unfold genesis_operation, genesis_call. simpl. rewrite Hb. simpl.
  do 3 (rewrite Ha; simpl). done.
Qed.

(** On a database without a block 0, [Client::new] commits one operation:
    it starts from the empty state, resets it to the genesis storage and stores
    the final block 0 with that storage's root, no extrinsics and no digest;
    on a database that has a block 0, and so on every later start, it changes
    nothing.  Either way the client holds the resulting database. *)
Theorem client_new_genesis (g : GenesisStorage) forks bads l cfg (db db' : DB) (h : Header)
    build' forks' bads' l' cfg' :
  bc_header db (IdNumber 0) = Ok None → begin_operation db = Ok () → accepts db →
  commit_operation db [BeginStateOperation (IdHash default_hash); ResetStorage g;
    SetBlockData (genesis_header db g) (Some []) None Final] = (Ok (), db') →
  bc_header db' (IdNumber 0) = Ok (Some h) →
  (∃ c, client_new (Ok g) forks bads l cfg db = (Ok c, db') ∧ backend c = db') ∧
  (∃ c, client_new build' forks' bads' l' cfg' db' = (Ok c, db') ∧ backend c = db').
Proof.
  intros Hh Hb Ha Hc Hh'. split.
  - eexists. unfold client_new, bind, query, get, ret. rewrite Hh.
    rewrite genesis_operation_accepted by done. rewrite Hc. done.
  - eexists. unfold client_new, bind, query, get, ret. rewrite Hh'. done.
Qed.

Lemma mark_all_bad r hs h : h ∈ hs → h ∈ bad (foldl mark_bad r hs).
Proof. intros Hh. apply marked_bad. by right. Qed.

(** C32. A block that [unsafe_revert] reverted with [blacklist] is never
    accepted again by this client: [check_block] answers [KnownBad] for it,
    whatever its number, parent and flags.  Without [blacklist] the block
    rules stay as they were. *)
Theorem unsafe_revert_blacklists (n : Z) (blacklist : bool) (c : Client) (number : Z)
    (reverted : list Hash) (db' : DB) :
  revert_blocks (backend c) n true = (Ok (number, reverted), db') →
  ∃ c', unsafe_revert n blacklist c = (Ok number, c') ∧ backend c' = db' ∧
    if blacklist
    then ∀ b, bcp_hash b ∈ reverted → check_block c' b = Ok KnownBad
    else block_rules c' = block_rules c.
Proof.
  intros Hr. unfold unsafe_revert. rewrite Hr. eexists. split; [done|].
  split; [by destruct blacklist|]. destruct blacklist; [|done].
  intros b Hb. unfold check_block, lookup_rule. cbn.
  pose proof (mark_all_bad (block_rules c) reverted _ Hb) as Hbad.
  destruct (forks _ !! _) as [h|]; [|by rewrite decide_True].
  destruct (decide (h = bcp_hash b)); [|done]. by rewrite decide_True.
Qed.

(** The archive's view of a block is the client's: when the three queries
    succeed, [LocalBackendCore::get_block] answers what the client's
    [BlockBackend::block] answers on the same database; when one of them
    fails the client returns the error and the archive panics. *)
Theorem local_get_block_agrees (c : Client) (n : Z) :
  let archive := local_get_block {| lb_backend := backend c |} n in
  match client_block c (IdNumber n) with
  | Ok b => archive = Ok b
  | Err _ | Panic _ => is_Panic archive
  end.
Proof.
  unfold client_block, local_get_block, client_header, client_body, justifications. simpl.
  destruct (bc_header _ _) as [h|e|p]; simpl; [|by eexists..].
  destruct (bc_body _ _) as [b|e|p]; simpl; [|by eexists..].
  destruct (bc_justifications _ _) as [j|e|p]; simpl; [|by eexists..].
  by destruct h, b.
Qed.

(** ** Uncles *)

(** The [i]-th ancestor of a block. *)
Fixpoint ancestor_at (db : DB) (i : nat) (h : Hash) : option Hash :=
  match i with
  | O => Some h
  | S i =>
      match bc_header db (IdHash h) with
      | Ok (Some hdr) => ancestor_at db i (h_parent_hash hdr)
      | _ => None
      end
  end.

Definition children_of (db : DB) (h : Hash) : list Hash :=
  match bc_children db h with Ok l => l | _ => [] end.

Lemma load_header_Ok c h hdr :
  load_header c h = Ok hdr ↔ bc_header (backend c) (IdHash h) = Ok (Some hdr).
Proof.
  unfold load_header. split.
  - intros H. apply obind_Ok in H as ([hdr'|] & Hb & H); simpl in H; [|done].
    by injection H as ->.
  - intros ->. done.
Qed.

(** A sibling of the [i]-th ancestor, below the genesis block. *)
Definition uncle_at (db : DB) (target u : Hash) (i : nat) : Prop :=
  (∀ j a, j ≤ i → ancestor_at db j target = Some a → a ≠ genesis_hash (bc_info db)) ∧
  ∃ a p, ancestor_at db i target = Some a ∧ ancestor_at db (S i) target = Some p ∧
    u ∈ children_of db p ∧ u ≠ a.

Lemma ancestor_at_S db i h hdr :
  bc_header db (IdHash h) = Ok (Some hdr) →
  ancestor_at db (S i) h = ancestor_at db i (h_parent_hash hdr).
Proof. simpl. by intros ->. Qed.

Lemma uncle_at_S db h hdr u i :
  bc_header db (IdHash h) = Ok (Some hdr) → h ≠ genesis_hash (bc_info db) →
  uncle_at db h u (S i) ↔ uncle_at db (h_parent_hash hdr) u i.
Proof.
  intros Hh Hg. unfold uncle_at. rewrite (ancestor_at_S _ i _ _ Hh), (ancestor_at_S _ (S i) _ _ Hh).
  split; intros [Hn He]; (split; [|exact He]).
  - intros j a Hj Ha. apply (Hn (S j)); [lia|]. by rewrite (ancestor_at_S _ _ _ _ Hh).
  - intros [|j] a Hj Ha; [simpl in Ha; congruence|].
    rewrite (ancestor_at_S _ _ _ _ Hh) in Ha. apply (Hn j); [lia|done].
Qed.

Lemma uncle_at_0 db h hdr u :
  bc_header db (IdHash h) = Ok (Some hdr) → h ≠ genesis_hash (bc_info db) →
  uncle_at db h u 0 ↔ u ∈ children_of db (h_parent_hash hdr) ∧ u ≠ h.
Proof.
  intros Hh Hg. unfold uncle_at. rewrite (ancestor_at_S _ 0 _ _ Hh). simpl. split.
  - intros [_ (a & p & [= <-] & [= <-] & ?)]. done.
  - intros [? ?]. split; [|by eexists _, _].
    intros j a Hj. assert (j = 0) as -> by lia. simpl. congruence.
Qed.

Lemma uncles_loop_spec c n : ∀ cur hcur anc hanc us us',
  cur ≠ genesis_hash (bc_info (backend c)) →
  bc_header (backend c) (IdHash cur) = Ok (Some hcur) →
  h_parent_hash hcur = anc → bc_header (backend c) (IdHash anc) = Ok (Some hanc) →
  uncles_loop c (genesis_hash (bc_info (backend c))) n cur anc hanc us = Ok us' →
  ∀ u, u ∈ us' ↔ u ∈ us ∨ ∃ i, i < n ∧ uncle_at (backend c) cur u i.
Proof.
  induction n as [|n IH]; intros cur hcur anc hanc us us' Hg Hcur <- Hanc H u; simpl in H.
  - injection H as <-. split; [by left|]. intros [?|(i & ? & _)]; [done|lia].
  - apply obind_Ok in H as (ch & Hch & H).
    assert (children_of (backend c) (h_parent_hash hcur) = ch) as Hco
      by (unfold children_of; by rewrite Hch).
    assert (∀ u, u ∈ us ++ filter (λ h, h ≠ cur) ch ↔
      u ∈ us ∨ uncle_at (backend c) cur u 0) as H0.
    { intros v. rewrite (uncle_at_0 _ _ _ _ Hcur Hg), Hco, elem_of_app, list_elem_of_filter.
      tauto. }
    case_decide as Hgen.
    + injection H as <-. rewrite H0. split; [intros [?|?]; [by left|right; exists 0; split; [lia|done]]|].
      intros [?|(i & Hi & Hu)]; [by left|]. destruct i as [|i]; [by right|].
      exfalso. apply (uncle_at_S _ _ _ _ _ Hcur Hg) in Hu as [Hn _].
      by apply (Hn 0 (h_parent_hash hcur)); [lia|..].
    + apply obind_Ok in H as (hanc' & Hl & H). apply load_header_Ok in Hl.
      rewrite (IH _ _ _ _ _ _ (not_eq_sym Hgen) Hanc eq_refl Hl H). rewrite H0.
      split.
      * intros [[?|?]|(i & Hi & Hu)]; [by left|right; exists 0; split; [lia|done]|].
        right. exists (S i). split; [lia|]. by apply (uncle_at_S _ _ _ _ _ Hcur Hg).
      * intros [?|([|i] & Hi & Hu)]; [by left; left|by left; right|].
        right. exists i. split; [lia|]. by apply (uncle_at_S _ _ _ _ _ Hcur Hg) in Hu.
Qed.

(** When it answers, [uncles] lists exactly the siblings of the target and
    of its next [max_generation - 1] ancestors, stopping at the genesis block;
    in particular no block of the target's own chain is listed as its own
    sibling. *)
Theorem uncles_spec (c : Client) (target : Hash) (max_generation : Z) (us : list Hash) :
  (0 ≤ max_generation ≤ u32_max)%Z →
  uncles c target max_generation = Ok us →
  ∀ u, u ∈ us ↔ ∃ i, (Z.of_nat i < max_generation)%Z ∧
    (∀ j a, j ≤ i → ancestor_at (backend c) j target = Some a →
       a ≠ genesis_hash (bc_info (backend c))) ∧
    ∃ a p, ancestor_at (backend c) i target = Some a ∧
      ancestor_at (backend c) (S i) target = Some p ∧
      u ∈ children_of (backend c) p ∧ u ≠ a.
Proof.
  intros Hg H u. unfold uncles in H. case_decide as Hgen.
  - injection H as <-. split; [by intros ?%elem_of_nil|].
    intros (i & _ & Hn & _). exfalso. apply (Hn 0 target); [lia|done|done].
  - apply obind_Ok in H as (hcur & Hcur & H). apply load_header_Ok in Hcur.
    apply obind_Ok in H as (hanc & Hanc & H). apply load_header_Ok in Hanc.
    rewrite Z.min_l in H by lia.
    rewrite (uncles_loop_spec _ _ _ _ _ _ _ _ (not_eq_sym Hgen) Hcur eq_refl Hanc H).
    split.
    + intros [Hu|(i & Hi & Hu)]; [by apply elem_of_nil in Hu|].
      exists i. split; [lia|exact Hu].
    + intros (i & Hi & Hu). right. exists i. split; [lia|exact Hu].
Qed.
End properties.

(** ** Witnesses *)

#[local] Existing Instance ref_chain.
#[local] Existing Instance ref_types.
#[local] Existing Instance ref_runtime_types.
#[local] Existing Instance ref_runtime_api.
#[local] Existing Instance listeners_reference.
#[local] Existing Instance client_errors_reference.

(** A database that can revert: it reports the best block as reverted. *)
Definition reverting_backend : Backend := {|
  bc_header := bc_header (Backend := ref_backend);
  bc_body := bc_body (Backend := ref_backend);
  bc_justifications := bc_justifications (Backend := ref_backend);
  bc_info := bc_info (Backend := ref_backend);
  bc_status := bc_status (Backend := ref_backend);
  bc_number := bc_number (Backend := ref_backend);
  bc_hash := bc_hash (Backend := ref_backend);
  bc_children := bc_children (Backend := ref_backend);
  bc_last_finalized := bc_last_finalized (Backend := ref_backend);
  bc_expect_header := bc_expect_header (Backend := ref_backend);
  bc_expect_block_number_from_id := bc_expect_block_number_from_id (Backend := ref_backend);
  bc_expect_block_hash_from_id := bc_expect_block_hash_from_id (Backend := ref_backend);
  tree_route := tree_route (Backend := ref_backend);
  state_at := state_at (Backend := ref_backend);
  have_state_at := have_state_at (Backend := ref_backend);
  begin_operation := begin_operation (Backend := ref_backend);
  op_answer := op_answer (Backend := ref_backend);
  genesis_root := genesis_root (Backend := ref_backend);
  commit_operation := commit_operation (Backend := ref_backend);
  revert_blocks db n b := (Ok (1%Z, [db_best db]), db);
|}.
#[local] Existing Instance reverting_backend.

Definition empty_db : DB := {|
  db_blocks := ∅; db_best := 0; db_finalized := 0; db_genesis := 0; db_aux := ∅ |}%Z.

Definition empty_genesis : GenesisStorage := [].

Definition no_listeners : Listeners := [].

Definition genesis_db : DB :=
  (commit_operation empty_db [SetBlockData (genesis_header empty_db empty_genesis) (Some []) None Final]).2.

Lemma client_new_genesis_witness :
  bc_header empty_db (IdNumber 0) = Ok None ∧
  ∃ c, client_new (Ok empty_genesis) None None no_listeners (config sample_client) empty_db = (Ok c, genesis_db) ∧
    is_Some (db_blocks (backend c) !! 0%Z).
Proof.
  split; [vm_compute; reflexivity|].
  destruct (client_new_genesis empty_genesis None None no_listeners (config sample_client) empty_db genesis_db
    (genesis_header empty_db empty_genesis) (Ok empty_genesis) None None no_listeners (config sample_client))
    as [(c & Hc & Hb) _].
  - vm_compute. reflexivity.
  - reflexivity.
  - intros cs x. reflexivity.
  - reflexivity.
  - vm_compute. reflexivity.
  - exists c. split; [exact Hc|]. rewrite Hb. vm_compute. by eexists.
Defined.

Lemma unsafe_revert_blacklists_witness :
  ∃ c', unsafe_revert 1 true sample_client = (Ok 1%Z, c') ∧
    check_block c' {| bcp_hash := 202%Z; bcp_number := 2; bcp_parent_hash := 101%Z;
      bcp_allow_missing_state := false; bcp_import_existing := true |} = Ok KnownBad.
Proof.
  destruct (unsafe_revert_blacklists (BE := reverting_backend) 1 true sample_client 1 [202%Z] (backend sample_client)
    eq_refl) as (c' & Hr & _ & H).
  exists c'. split; [exact Hr|]. apply H. by left.
Defined.

Lemma uncles_spec_witness :
  uncles sample_client 202%Z 1 = Ok [203%Z] ∧
  ∃ i, (Z.of_nat i < 1)%Z ∧ uncle_at (backend sample_client) 202%Z 203%Z i.
Proof.
  assert (uncles sample_client 202%Z 1 = Ok [203%Z]) as H by (vm_compute; reflexivity).
  split; [exact H|].
  destruct (proj1 (uncles_spec (BE := reverting_backend) sample_client 202%Z 1 [203%Z] ltac:(unfold u32_max; lia) H 203%Z))
    as (i & Hi & Hu); [by left|].
  exists i. split; [exact Hi|exact Hu].
Defined.
