(* ===== verification/ClientTraits.v ===== *)
(** * The trait interfaces of the client ([client/service/src/client/client.rs])

    The traits through which the network, consensus and the block builder see
    the client: most methods ask the backend, the block import's own methods,
    or another trait's implementation.  The implementations for [&Client]
    dereference to those for [Client]. *)

From S2P Require Import Prelude Chain BlockRules Notifies VersionCache Reference.
From S2P Require Import Client ClientQueries.

(** [HeaderBackend]: its required methods. *)
Record HeaderBackend `{ChainTypes} := {
  hb_header : BlockId → result (option Header);
  hb_info : Info;
  hb_status : BlockId → result ChainStatus;
  hb_number : Hash → result (option Z);
  hb_hash : Z → result (option Hash);
}.

(** The backend's metadata cache, its value cache, usage and transaction index,
    the provided methods of [HeaderBackend], the block builder and the storage
    event listeners. *)
Class ClientParts `{CT : ChainTypes, BT : BackendTypes, SL : !StorageListeners} := {
  HeaderMetadata : Type;
  bc_header_metadata : DB → Hash → result HeaderMetadata;
  bc_insert_header_metadata : DB → Hash → HeaderMetadata → DB;
  bc_remove_header_metadata : DB → Hash → DB;
  ChainCache : Type;
  bc_cache : DB → option ChainCache;
  UsageInfo : Type;
  bk_usage_info : DB → option UsageInfo;
  bc_indexed_transaction : DB → Hash → result (option Bytes);
  bc_has_indexed_transaction : DB → Hash → result bool;
  block_hash_from_id : HeaderBackend → BlockId → result (option Hash);
  block_number_from_id : HeaderBackend → BlockId → result (option Z);
  BlockBuilder : Type;
  (* parent, its number, whether the proof is recorded, the digests *)
  block_builder_new : DB → Hash → Z → bool → list DigestItem → result BlockBuilder;
  StorageEventStream : Type;
  listen : Listeners → option (list Bytes) → option (list (Bytes * option (list Bytes))) →
    StorageEventStream * Listeners;
}.

Section traits.
Context `{CT : ChainTypes, BT : BackendTypes, BE : !Backend, RT : RuntimeTypes,
  RA : !RuntimeApi, SL : !StorageListeners, CE : ClientErrors, CP : !ClientParts}.

(** The backend's own implementation, which the client forwards to. *)
Definition blockchain (db : DB) : HeaderBackend := {|
  hb_header := bc_header db; hb_info := bc_info db; hb_status := bc_status db;
  hb_number := bc_number db; hb_hash := bc_hash db |}.

(** [HeaderBackend] for [Client] *)
Definition client_header_backend (c : Client) : HeaderBackend := {|
  hb_header := bc_header (backend c); hb_info := bc_info (backend c);
  hb_status := bc_status (backend c); hb_number := bc_number (backend c);
  hb_hash := bc_hash (backend c) |}.

(** [HeaderBackend] for [&Client]: [header] and [info] ask the backend, the
    other methods are those of [Client]. *)
Definition client_ref_header_backend (c : Client) : HeaderBackend := {|
  hb_header := bc_header (backend c); hb_info := bc_info (backend c);
  hb_status := hb_status (client_header_backend c);
  hb_number := hb_number (client_header_backend c);
  hb_hash := hb_hash (client_header_backend c) |}.

(** [Client::import_notification_sinks], [Client::finality_notification_sinks] *)
Definition client_import_sinks (c : Client) : list (Sink BlockImportNotification) :=
  import_notification_sinks (client_notifies c).
Definition client_finality_sinks (c : Client) : list (Sink FinalityNotification) :=
  finality_notification_sinks (client_notifies c).

(** [BlockIdTo] *)
Definition to_hash (c : Client) (block_id : BlockId) : result (option Hash) :=
  block_hash_from_id (client_header_backend c) block_id.
Definition to_number (c : Client) (block_id : BlockId) : result (option Z) :=
  block_number_from_id (client_header_backend c) block_id.

(** [HeaderMetadata]; the cache it changes is the backend's. *)
Definition header_metadata (c : Client) (hash : Hash) : result HeaderMetadata :=
  bc_header_metadata (backend c) hash.
Definition insert_header_metadata (hash : Hash) (metadata : HeaderMetadata) (c : Client) : Client :=
  set_backend (bc_insert_header_metadata (backend c) hash metadata) c.
Definition remove_header_metadata (hash : Hash) (c : Client) : Client :=
  set_backend (bc_remove_header_metadata (backend c) hash) c.

(** [UsageProvider], [ProvideCache] *)
Definition usage_info (c : Client) : Info * option UsageInfo :=
  (chain_info c, bk_usage_info (backend c)).
Definition provide_cache (c : Client) : option ChainCache := bc_cache (backend c).

(** [BlockBackend] beside [block] *)
Definition block_body (c : Client) (id : BlockId) : result (option (list Extrinsic)) :=
  client_body c id.
Definition backend_block_status (c : Client) (id : BlockId) : result BlockStatus :=
  block_status c id.
Definition indexed_transaction (c : Client) (hash : Hash) : result (option Bytes) :=
  bc_indexed_transaction (backend c) hash.
Definition has_indexed_transaction (c : Client) (hash : Hash) : result bool :=
  bc_has_indexed_transaction (backend c) hash.

(** [Chain]: the error is boxed. *)
Definition chain_block_status (c : Client) (id : BlockId) : outcome string BlockStatus :=
  omap_err error_text (block_status c id).

(** [BlockBuilderProvider] *)
Definition new_block_at (c : Client) (parent : BlockId) (inherent_digests : list DigestItem)
    (record_proof : bool) : result BlockBuilder :=
  let? hash := bc_expect_block_hash_from_id (backend c) parent in
  let? number := bc_expect_block_number_from_id (backend c) parent in
  block_builder_new (backend c) hash number record_proof inherent_digests.
Definition new_block (c : Client) (inherent_digests : list DigestItem) : result BlockBuilder :=
  let info := chain_info c in
  block_builder_new (backend c) (best_hash info) (best_number info) false inherent_digests.

(** [BlockchainEvents::storage_changes_notification_stream] *)
Definition storage_changes_notification_stream (filter_keys : option (list Bytes))
    (child_filter_keys : option (list (Bytes * option (list Bytes)))) (c : Client) :
    StorageEventStream * Client :=
  let '(stream, l) := listen (storage_notifications (client_notifies c)) filter_keys
    child_filter_keys in
  (stream, set_notifies {| storage_notifications := l;
     import_notification_sinks := import_notification_sinks (client_notifies c);
     finality_notification_sinks := finality_notification_sinks (client_notifies c) |} c).

(** The implementations for [&Client] of [LockImportRun], [Finalizer],
    [AuxStore], and of [BlockImport] for [Client]: the others' methods. *)
Definition ref_lock_import_and_run {R} (f : Client → M Error ImportState R) : M Error Client R :=
  lock_import_and_run f.
Definition ref_apply_finality (id : BlockId) (justification : option Justification)
    (notify : bool) (self : Client) : M Error ImportState unit :=
  apply_finality id justification notify self.
Definition ref_finalize_block (id : BlockId) (justification : option Justification)
    (notify : bool) : M Error Client unit := finalize_block id justification notify.
Definition owned_import_block (p : BlockImportParams) (new_cache : Cache) :
    Client → outcome ConsensusError ImportResult * Client := import_block p new_cache.
Definition owned_check_block (c : Client) (b : BlockCheckParams) :
    outcome ConsensusError ImportResult := check_block c b.

Context {AA : AuxAccess}.
Definition ref_insert_aux (insert : list (Bytes * Bytes)) (delete : list Bytes) :
    M Error Client unit := client_insert_aux insert delete.
Definition ref_get_aux (c : Client) (key : Bytes) : result (option Bytes) := client_get_aux c key.

(** ** Properties *)

(** A new block is one on the best block, without a proof. *)
Lemma new_block_on_best (c : Client) (digests : list DigestItem) :
  bc_expect_block_hash_from_id (backend c) (IdHash (best_hash (chain_info c))) =
    Ok (best_hash (chain_info c)) →
  bc_expect_block_number_from_id (backend c) (IdHash (best_hash (chain_info c))) =
    Ok (best_number (chain_info c)) →
  new_block c digests = new_block_at c (IdHash (best_hash (chain_info c))) digests false.
Proof.
  intros He He'. unfold new_block_at, new_block. by rewrite He, He'.
Qed.
End traits.

(** ** On the chain of [Reference.v] *)

#[local] Existing Instance ref_chain.
#[local] Existing Instance ref_types.
#[local] Existing Instance ref_backend.
#[local] Existing Instance ref_runtime_types.
#[local] Existing Instance ref_runtime_api.
#[local] Existing Instance listeners_reference.
#[local] Existing Instance client_errors_reference.

Definition parts_reference : ClientParts := {|
  HeaderMetadata := unit; bc_header_metadata _ _ := Ok ();
  bc_insert_header_metadata db _ _ := db; bc_remove_header_metadata db _ := db;
  ChainCache := unit; bc_cache _ := None; UsageInfo := unit; bk_usage_info _ := None;
  bc_indexed_transaction _ _ := Ok None; bc_has_indexed_transaction _ _ := Ok false;
  block_hash_from_id hb id := match id with IdHash h => Ok (Some h) | IdNumber n => hb_hash hb n end;
  block_number_from_id hb id :=
    match id with IdHash h => hb_number hb h | IdNumber n => Ok (Some n) end;
  BlockBuilder := Z * Z; block_builder_new _ h n _ _ := Ok (h, n);
  StorageEventStream := unit; listen l _ _ := ((), l);
|}.
#[local] Existing Instance parts_reference.

Example sample_views :
  to_number sample_client (IdHash 203%Z) = Ok (Some 2%Z) ∧
  to_hash sample_client (IdNumber 2) = Ok (Some 202%Z) ∧
  backend_block_status sample_client (IdHash 999%Z) = Ok UnknownStatus.
Proof. split_and!; vm_compute; reflexivity. Qed.
