(* ===== verification/ChangesTrie.v ===== *)
(** * Changes tries ([client/service/src/client/client.rs])

    [require_changes_trie] and the two queries of [StorageProvider] built on
    it.  The changes trie storage and the search in one trie are parameters
    ([ChangesTries]). *)

From S2P Require Import Prelude Chain BlockRules Notifies VersionCache Reference.
From S2P Require Import Client ClientQueries.

Section changes_trie.
Context `{CT : ChainTypes, BT : BackendTypes, BE : !Backend, RT : RuntimeTypes,
  RA : !RuntimeApi, SL : !StorageListeners, CE : ClientErrors}.

(** [ChangesTrieConfigurationRange] as the storage answers it. *)
Record ConfigRange (C : Type) := {
  cr_zero : Z * Hash;
  cr_end : option (Z * Hash);
  cr_config : option C;
}.
Arguments cr_zero {C}.
Arguments cr_end {C}.
Arguments cr_config {C}.

(** [PrunableStateChangesTrieStorage] and [key_changes] of the state machine:
    the latter with the configuration, its zero block and end, the first block,
    the anchor, the best block and the keys. *)
Class ChangesTries := {
  CTStorage : Type;
  CTConfig : Type;
  changes_trie_storage : DB → option CTStorage;
  configuration_at : CTStorage → BlockId → result (ConfigRange CTConfig);
  oldest_pruned_digest_range_end : CTStorage → Z;
  trie_key_changes : CTConfig → Z → option Z → CTStorage → Z → Hash * Z → Z →
    option Bytes → Bytes → outcome string (list (Z * Z));
}.
Context {TS : ChangesTries}.

Definition TrieConfig : Type := Z * option (Z * Hash) * CTConfig.

(** The loop of [require_changes_trie]; [fuel] bounds its rounds. *)
Fixpoint require_loop (fuel : nat) (db : DB) (storage : CTStorage) (first : Z)
    (fail_if_disabled : bool) (current : Hash) (configs : list TrieConfig) :
    result (list TrieConfig) :=
  match fuel with
  | O => Panic "out of fuel"
  | S fuel =>
      let? config_range := configuration_at storage (IdHash current) in
      match cr_config config_range with
      | Some config =>
          let configs := configs ++ [((cr_zero config_range).1, cr_end config_range, config)] in
          if ((cr_zero config_range).1 <? first)%Z then Ok configs
          else
            let? header := bc_expect_header db (IdHash (cr_zero config_range).2) in
            require_loop fuel db storage first fail_if_disabled (h_parent_hash header) configs
      | None =>
          if negb fail_if_disabled then Ok configs else Err ChangesTriesNotSupported
      end
  end.

(** Rounds enough for the configurations below the one at [last]. *)
Definition require_fuel (storage : CTStorage) (last : Hash) : nat :=
  match configuration_at storage (IdHash last) with
  | Ok r => S (S (Z.to_nat (cr_zero r).1))
  | _ => 1
  end.

(** [Client::require_changes_trie] *)
Definition require_changes_trie (c : Client) (first : Z) (last : Hash)
    (fail_if_disabled : bool) : result (CTStorage * list TrieConfig) :=
  match changes_trie_storage (backend c) with
  | None => Err ChangesTriesNotSupported
  | Some storage =>
      let? configs := require_loop (require_fuel storage last) (backend c) storage first
        fail_if_disabled last [] in
      Ok (storage, configs)
  end.

(** [StorageProvider::max_key_changes_range] *)
Definition max_key_changes_range (c : Client) (first : Z) (last_ : BlockId) :
    result (option (Z * BlockId)) :=
  let? last_number := bc_expect_block_number_from_id (backend c) last_ in
  let? last_hash := bc_expect_block_hash_from_id (backend c) last_ in
  if (last_number <? first)%Z
  then Err (ChangesTrieAccessFailed "Invalid changes trie range")
  else
    match require_changes_trie c first last_hash false with
    | Panic p => Panic p
    | Err _ => Ok None
    | Ok (storage, configs) =>
        match last configs with
        | Some config =>
            let first_available_changes_trie := config.1.1 in
            let oldest_unpruned := oldest_pruned_digest_range_end storage in
            let first := Z.max first_available_changes_trie oldest_unpruned in
            Ok (Some (first, last_))
        | None => Ok None
        end
    end.

(** The anchor of the search in one configuration. *)
Definition range_anchor (last_number : Z) (last_hash : Hash)
    (config_end : option (Z * Hash)) : Hash * Z :=
  match config_end with
  | Some (config_end_number, config_end_hash) =>
      if (config_end_number <? last_number)%Z
      then (config_end_hash, config_end_number) else (last_hash, last_number)
  | None => (last_hash, last_number)
  end.

(** The loop of [key_changes] over the configurations. *)
Fixpoint key_changes_loop (storage : CTStorage) (first last_number : Z) (last_hash : Hash)
    (best_number : Z) (storage_key : option Bytes) (key : Bytes)
    (configs : list TrieConfig) (acc : list (Z * Z)) : result (list (Z * Z)) :=
  match configs with
  | [] => Ok acc
  | (config_zero, config_end, config) :: configs =>
      let range_first := Z.max first (u32_add config_zero 1) in
      let? result_range := omap_err ChangesTrieAccessFailed
        (trie_key_changes config config_zero (fst <$> config_end) storage range_first
           (range_anchor last_number last_hash config_end) best_number storage_key key) in
      key_changes_loop storage first last_number last_hash best_number storage_key key
        configs (acc ++ result_range)
  end.

(** [StorageProvider::key_changes] *)
Definition key_changes (c : Client) (first : Z) (last : BlockId)
    (storage_key : option Bytes) (key : Bytes) : result (list (Z * Z)) :=
  let? last_number := bc_expect_block_number_from_id (backend c) last in
  let? last_hash := bc_expect_block_hash_from_id (backend c) last in
  let? sc := require_changes_trie c first last_hash true in
  let best_number := best_number (bc_info (backend c)) in
  key_changes_loop sc.1 first last_number last_hash best_number storage_key key sc.2 [].

(** ** Properties *)

(** What the code relies on: below a configuration's zero block another one
    was in force, whose zero block is lower. *)
Class ChangesTrieLaws : Prop := {
  zero_nonneg s h r : configuration_at s (IdHash h) = Ok r → (0 ≤ (cr_zero r).1)%Z;
  zero_decreases db s h r hdr r' :
    changes_trie_storage db = Some s →
    configuration_at s (IdHash h) = Ok r →
    bc_expect_header db (IdHash (cr_zero r).2) = Ok hdr →
    configuration_at s (IdHash (h_parent_hash hdr)) = Ok r' →
    ((cr_zero r').1 < (cr_zero r).1)%Z;
  trie_no_panic s h p : configuration_at s (IdHash h) ≠ Panic p;
  header_no_panic db h p : bc_expect_header db (IdHash h) ≠ Panic p;
}.

Definition zeros (l : list TrieConfig) : list Z := (λ x, x.1.1) <$> l.

(** Strictly descending, and every zero block but the last at or above
    [first]. *)
Definition descending (first : Z) (l : list TrieConfig) : Prop :=
  adjacent (λ a b, (b < a)%Z ∧ (first ≤ a)%Z) (zeros l).

Context {TL : ChangesTrieLaws}.

Lemma descending_snoc first l x :
  descending first l →
  (∀ a, last (zeros l) = Some a → (x.1.1 < a)%Z ∧ (first ≤ a)%Z) →
  descending first (l ++ [x]).
Proof.
  intros Hl Hx. unfold descending, zeros in *. rewrite fmap_app.
  by apply adjacent_snoc.
Qed.

Lemma require_loop_spec db s first fail : changes_trie_storage db = Some s →
  ∀ fuel current acc,
  (∀ r, configuration_at s (IdHash current) = Ok r → S (Z.to_nat (cr_zero r).1) < fuel) →
  1 ≤ fuel → descending first acc →
  (∀ r a, configuration_at s (IdHash current) = Ok r → last (zeros acc) = Some a →
     ((cr_zero r).1 < a)%Z ∧ (first ≤ a)%Z) →
  match require_loop fuel db s first fail current acc with
  | Panic _ => False
  | Err _ => True
  | Ok l => descending first l ∧
      (fail = true → ∃ a, last (zeros l) = Some a ∧ (a < first)%Z)
  end.
Proof.
  intros Hs. induction fuel as [|fuel IH]; intros current acc Hfuel H1 Hacc Hlast; [lia|].
  simpl. destruct (configuration_at s (IdHash current)) as [r|e|p] eqn:Hr; simpl;
    [|done|by eapply trie_no_panic].
  destruct (cr_config r) as [config|]; [|by destruct fail].
  set (acc' := acc ++ _).
  assert (descending first acc') as Hacc'
    by (apply descending_snoc; [done|]; intros a Ha; by apply Hlast).
  assert (last (zeros acc') = Some (cr_zero r).1) as Hl
    by (unfold acc', zeros; rewrite fmap_app; simpl; by rewrite last_snoc).
  destruct ((cr_zero r).1 <? first)%Z eqn:Hz.
  - apply Z.ltb_lt in Hz. split; [done|]. intros _. eauto.
  - apply Z.ltb_ge in Hz.
    destruct (bc_expect_header db _) as [hdr|e|p] eqn:Hh; simpl;
      [|done|by eapply header_no_panic].
    specialize (Hfuel r eq_refl).
    apply IH; [| |done|].
    + intros r' Hr'. pose proof (zero_decreases _ _ _ _ _ _ Hs Hr Hh Hr').
      pose proof (zero_nonneg _ _ _ Hr'). lia.
    + lia.
    + intros r' a Hr' Ha. rewrite Hl in Ha. injection Ha as <-.
      pose proof (zero_decreases _ _ _ _ _ _ Hs Hr Hh Hr'). lia.
Qed.

(** C34. Whatever configurations the chain went through, [require_changes_trie]
    ends: the rounds allowed suffice.  The configurations it answers have
    strictly descending zero blocks (so they never overlap), only the last one
    may start below [first], and with [fail_if_disabled] the last one does,
    so that together they cover the whole range. *)
Theorem require_changes_trie_covers (c : Client) (first : Z) (last_hash : Hash) (fail : bool) :
  match require_changes_trie c first last_hash fail with
  | Panic _ => False
  | Err _ => True
  | Ok (storage, configs) =>
      changes_trie_storage (backend c) = Some storage ∧
      (∀ i a b, zeros configs !! i = Some a → zeros configs !! S i = Some b →
         (b < a)%Z ∧ (first ≤ a)%Z) ∧
      (fail = true → ∃ a, last (zeros configs) = Some a ∧ (a < first)%Z)
  end.
Proof.
  unfold require_changes_trie.
  destruct (changes_trie_storage (backend c)) as [s|] eqn:Hs; [|done].
  pose proof (require_loop_spec (backend c) s first fail Hs (require_fuel s last_hash)
    last_hash []) as H.
  destruct (require_loop _ _ _ _ _ _ _) as [l|e|p]; simpl; [|done|].
  - split; [done|]. apply H; try done; unfold require_fuel.
    + intros r Hr. rewrite Hr. lia.
    + destruct (configuration_at _ _); lia.
  - apply H; try done; unfold require_fuel.
    + intros r Hr. rewrite Hr. lia.
    + destruct (configuration_at _ _); lia.
Qed.
End changes_trie.

(** ** Witness: two configurations, from block 0 and from block 2 *)

#[local] Existing Instance ref_chain.
#[local] Existing Instance ref_types.
#[local] Existing Instance ref_backend.
#[local] Existing Instance ref_runtime_types.
#[local] Existing Instance ref_runtime_api.
#[local] Existing Instance listeners_reference.

Definition parent_of (db : DB) (h : Hash) : option Hash :=
  h_parent_hash ∘ rb_header <$> db_blocks db !! h.

Definition ref_configuration (h : Z) : option (Z * Z) :=
  if decide (h = 202)%Z then Some (2, 202)%Z
  else if decide (h = 101 ∨ h = 7)%Z then Some (0, 7)%Z else None.

Definition ref_tries : ChangesTries := {|
  CTStorage := unit; CTConfig := unit;
  changes_trie_storage db :=
    if decide (parent_of db 202%Z = Some 101%Z ∧ parent_of db 7%Z = Some 0%Z)
    then Some () else None;
  configuration_at _ id :=
    match id with
    | IdHash h =>
        match ref_configuration h with
        | Some z => Ok {| cr_zero := z; cr_end := None; cr_config := Some () |}
        | None => Err (UnknownBlock "configuration")
        end
    | IdNumber _ => Err (UnknownBlock "configuration")
    end;
  oldest_pruned_digest_range_end _ := 0%Z;
  trie_key_changes _ _ _ _ _ _ _ _ _ := Ok [];
|}.
#[local] Existing Instance ref_tries.

Lemma ref_tries_laws : ChangesTrieLaws.
Proof.
  split.
  - intros s h r Hr. simpl in Hr. unfold ref_configuration in Hr.
    repeat case_decide; simplify_eq/=; lia.
  - intros db s h r hdr r' Hs Hr Hh Hr'. simpl in Hs.
    destruct (decide _) as [[H202 H7]|]; [|done]. unfold parent_of in *.
    apply fmap_Some in H202 as (b2 & Hb2 & Hp2). apply fmap_Some in H7 as (b7 & Hb7 & Hp7).
    simpl in *. unfold ref_lookup in Hh. simpl in Hh. unfold ref_configuration in *.
    repeat case_decide; simplify_eq/=;
      rewrite ?Hb2, ?Hb7 in Hh; simplify_eq/=; try lia; naive_solver.
  - intros s h p Hp. simpl in Hp. by case_match.
  - intros db h p Hp. simpl in Hp. unfold ok_or in Hp. by case_match.
Qed.

Definition trie_client : Client := set_backend {|
  db_blocks := {[ 7%Z := sample_ref_block 0 7 0 [];
                  101%Z := sample_ref_block 1 1 7 ["a"];
                  202%Z := sample_ref_block 2 2 101 ["b"] ]};
  db_best := 202; db_finalized := 7; db_genesis := 7; db_aux := ∅ |}%Z sample_client.

Lemma require_changes_trie_covers_witness :
  ∃ l, require_changes_trie trie_client 1 202%Z true = Ok ((), l) ∧
    zeros l = [2; 0]%Z ∧ ∃ a, last (zeros l) = Some a ∧ (a < 1)%Z.
Proof.
  pose proof (require_changes_trie_covers (TL := ref_tries_laws) trie_client 1 202%Z true) as H.
  assert (omap_ok (zeros ∘ snd) (require_changes_trie trie_client 1 202%Z true) =
    Ok [2; 0]%Z) as Hz by (vm_compute; reflexivity).
  destruct (require_changes_trie _ _ _ _) as [[[] l]|e|p]; [|discriminate..].
  exists l. split; [reflexivity|]. split; [by injection Hz|]. apply H. reflexivity.
Defined.
