(* ===== verification/CallExecutor.v ===== *)
(** * The call executor and the wasm overrides
    ([client/service/src/client/call_executor.rs], [wasm_override.rs])

    Which code a runtime call runs: the code of the block's state, or a local
    blob whose version matches.  The file system, the wasm executor and the
    state machine are parameters. *)

From Stdlib Require Import Ascii.
From S2P Require Import Prelude Chain Reference.

(** [RuntimeCode], with the code its fetcher answers. *)
Record RuntimeCode := {
  rc_code : Bytes;
  rc_hash : Bytes;
  rc_heap_pages : option Z;
}.

(** ** Wasm blobs ([wasm_override.rs]) *)

Record WasmBlob := { wb_code : Bytes; wb_hash : Bytes }.

(** The directory with the blobs; an entry or a file that cannot be read is an
    error. *)
Class FileSystem := {
  is_dir : string → bool;
  read_dir : string → option (list (option string));
  read_file : string → string → option Bytes; (* in a directory *)
}.

Class CodeRuntime `{RT : RuntimeTypes} := {
  hash_code : Bytes → Bytes;                     (* [DefaultHasher], little endian *)
  blob_version : RuntimeCode → outcome string RuntimeVersion;
}.

Section overrides.
Context `{RT : RuntimeTypes, FS : FileSystem, CR : !CodeRuntime}.

(** [WasmBlob::new], [WasmBlob::runtime_code] *)
Definition wasm_blob_new (code : Bytes) : WasmBlob :=
  let hash := hash_code code in {| wb_code := code; wb_hash := hash |}.
Definition wasm_runtime_code (b : WasmBlob) (heap_pages : option Z) : RuntimeCode :=
  {| rc_code := wb_code b; rc_hash := wb_hash b; rc_heap_pages := heap_pages |}.

(** [FetchRuntimeCode] for [WasmBlob] *)
Definition fetch_runtime_code (b : WasmBlob) : option Bytes := Some (wb_code b).

(** [WasmOverrideError] *)
Inductive WasmOverrideError :=
  | OverrideVersionInvalid (s : string)
  | OverrideIo (path : string)
  | NotADirectory (path : string)
  | DuplicateRuntime (paths : list string).

(** [Path::extension] of a file name: what follows the last dot, unless the
    name has no dot or only a leading one. *)
Fixpoint last_dot (s : string) : option (string * string) :=
  match s with
  | EmptyString => None
  | String c s' =>
      match last_dot s' with
      | Some (stem, ext) => Some (String c stem, ext)
      | None => if decide (c = "."%char) then Some (EmptyString, s') else None
      end
  end.
Definition path_extension (name : string) : option string :=
  match last_dot name with
  | Some (EmptyString, _) | None => None
  | Some (_, ext) => Some ext
  end.

(** [WasmOverride::runtime_version] *)
Definition override_version (code : WasmBlob) (heap_pages : option Z) :
    outcome WasmOverrideError RuntimeVersion :=
  omap_err OverrideVersionInvalid (blob_version (wasm_runtime_code code heap_pages)).

(** The loop of [WasmOverride::scrape_overrides]. *)
Fixpoint scrape_loop (dir : string) (entries : list (option string))
    (overrides : gmap Z WasmBlob) (duplicates : list string) :
    outcome WasmOverrideError (gmap Z WasmBlob * list string) :=
  match entries with
  | [] => Ok (overrides, duplicates)
  | entry :: entries =>
      let? path := ok_or entry (OverrideIo dir) in
      if decide (path_extension path = Some "wasm") then
        let? code := ok_or (read_file dir path) (OverrideIo dir) in
        let wasm := wasm_blob_new code in
        let? version := override_version wasm (Some 128%Z) in
        let duplicates :=
          match overrides !! rv_spec_version version with
          | Some _ => duplicates ++ [path]
          | None => duplicates
          end in
        scrape_loop dir entries (<[rv_spec_version version := wasm]> overrides) duplicates
      else scrape_loop dir entries overrides duplicates
  end.

(** [WasmOverride::scrape_overrides] *)
Definition scrape_overrides (dir : string) : outcome WasmOverrideError (gmap Z WasmBlob) :=
  if negb (is_dir dir) then Err (NotADirectory dir)
  else
    let? entries := ok_or (read_dir dir) (OverrideIo dir) in
    let? r := scrape_loop dir entries ∅ [] in
    if negb (bool_decide (r.2 = [])) then Err (DuplicateRuntime r.2) else Ok r.1.

(** [WasmOverride], its overrides, and [WasmOverride::get] *)
Record WasmOverride := { overrides : gmap Z WasmBlob }.
Definition wasm_override_new (path : string) : outcome WasmOverrideError WasmOverride :=
  let? overrides := scrape_overrides path in Ok {| overrides := overrides |}.
Definition override_get (o : WasmOverride) (spec : Z) (pages : option Z) : option RuntimeCode :=
  (λ w, wasm_runtime_code w pages) <$> overrides o !! spec.

(** ** What a directory provides *)

(** The file [path] of [dir] is a blob for the version [v]. *)
Definition provides (dir path : string) (v : Z) (w : WasmBlob) : Prop :=
  path_extension path = Some "wasm" ∧
  ∃ code version, read_file dir path = Some code ∧ w = wasm_blob_new code ∧
    blob_version (wasm_runtime_code w (Some 128%Z)) = Ok version ∧
    rv_spec_version version = v.

Lemma provides_fun dir path v w v' w' :
  provides dir path v w → provides dir path v' w' → v = v' ∧ w = w'.
Proof.
  intros (_ & c & x & Hc & -> & Hx & <-) (_ & c' & x' & Hc' & -> & Hx' & <-).
  assert (c = c') as -> by congruence. split; [congruence|done].
Qed.

(** No later file among [entries] provides a version of [m]. *)
Lemma scrape_loop_spec dir : ∀ entries m dups m' dups',
  scrape_loop dir entries m dups = Ok (m', dups') →
  (∃ more, dups' = dups ++ more) ∧
  (dups' = dups →
   (∀ v w, m' !! v = Some w ↔ m !! v = Some w ∨
      ∃ path, Some path ∈ entries ∧ provides dir path v w) ∧
   (∀ path v w, Some path ∈ entries → provides dir path v w → m !! v = None)).
Proof.
  induction entries as [|e entries IH]; intros m dups m' dups' H; simpl in H.
  { injection H as <- <-. split; [by exists []; rewrite app_nil_r|]. intros _.
    split; [|by intros path v w ?%elem_of_nil].
    intros v w. split; [by left|]. intros [?|(p & ?%elem_of_nil & _)]; done. }
  destruct e as [path|]; simpl in H; [|done].
  case_decide as Hext.
  - destruct (read_file dir path) as [code|] eqn:Hread; simpl in H; [|done].
    set (blob := wasm_blob_new code) in *. unfold override_version in H.
    destruct (blob_version _) as [version|e|p] eqn:Hv; simpl in H; [|done..].
    set (spec := rv_spec_version version) in *.
    assert (provides dir path spec blob) as Hp
      by (split; [done|]; by exists code, version).
    destruct (m !! spec) as [old|] eqn:Hold; apply IH in H as [[more ->] Hspec].
    + split; [exists ([path] ++ more); by rewrite app_assoc|].
      intros Hd. exfalso. apply (f_equal length) in Hd.
      rewrite !length_app in Hd. simpl in Hd. lia.
    + split; [by eexists|]. intros Hd. destruct (Hspec Hd) as [Hm Hfresh].
      assert (∀ v w, (<[spec:=blob]> m) !! v = Some w ↔
        m !! v = Some w ∨ (v = spec ∧ w = blob)) as Hins.
      { intros v w. rewrite lookup_insert_Some. split; [naive_solver|].
        intros [Hw|[-> ->]]; [right|by left]. split; [congruence|done]. }
      split.
      * intros v w. rewrite Hm, Hins. split.
        -- intros [[?|[-> ->]]|(q & Hq & ?)]; [by left| |]; right;
             [exists path; split; [by left|done]|exists q; split; [by right|done]].
        -- intros [?|(q & [Hq|Hq]%elem_of_cons & Hq')]; [by left; left| |right; eauto].
           injection Hq as ->. left. right. by apply (provides_fun dir path).
      * intros q v w [Hq|Hq]%elem_of_cons Hq'.
        -- injection Hq as ->. by destruct (provides_fun _ _ _ _ _ _ Hq' Hp) as [-> _].
        -- pose proof (Hfresh q v w Hq Hq') as Hn. by apply lookup_insert_None in Hn as [? _].
  - apply IH in H as [Hmore Hspec]. split; [done|]. intros Hd.
    destruct (Hspec Hd) as [Hm Hfresh]. split.
    + intros v w. rewrite Hm. split.
      * intros [?|(q & ? & ?)]; [by left|right]. exists q. split; [by right|done].
      * intros [?|(q & [Hq|Hq]%elem_of_cons & Hq')]; [by left| |right; eauto].
        injection Hq as ->. by destruct Hq' as [? _].
    + intros q v w [Hq|Hq]%elem_of_cons Hq'; [|by eapply Hfresh].
      injection Hq as ->. by destruct Hq' as [? _].
Qed.

(** C33. When the overrides of a directory are accepted, they are exactly what
    its ".wasm" files provide: the blob for a version is the content of a file
    that declares that version, every such file is in, and no two files
    declare the same version (that is refused, as is anything that is not a
    directory). *)
Theorem scrape_overrides_spec (dir : string) (m : gmap Z WasmBlob) :
  scrape_overrides dir = Ok m →
  is_dir dir = true ∧ ∃ entries, read_dir dir = Some entries ∧
  (∀ v w, m !! v = Some w ↔ ∃ path, Some path ∈ entries ∧ provides dir path v w) ∧
  (∀ l1 l2 l3 p q v w w', entries = l1 ++ Some p :: l2 ++ Some q :: l3 →
     provides dir p v w → ¬ provides dir q v w').
Proof.
  unfold scrape_overrides. intros H. destruct (is_dir dir); simpl in H; [|done].
  split; [done|]. destruct (read_dir dir) as [entries|]; simpl in H; [|done].
  exists entries. split; [done|].
  destruct (scrape_loop dir entries ∅ []) as [[m' dups]|e|p] eqn:Hl; simpl in H; [|done..].
  destruct (decide (dups = [])) as [->|Hd]; [|by rewrite bool_decide_false in H by done].
  injection H as <-. split.
  - intros v w. destruct (scrape_loop_spec dir entries ∅ [] m' [] Hl) as [_ Hs].
    destruct (Hs eq_refl) as [-> _]. rewrite lookup_empty. naive_solver.
  - intros l1 l2 l3 p q v w w' -> Hp Hq. clear - Hl Hp Hq.
    assert (∀ l m0 d0 m1 d1, scrape_loop dir (l ++ Some p :: l2 ++ Some q :: l3) m0 d0 = Ok (m1, d1) →
      d1 ≠ d0) as Hno.
    { induction l as [|e l IH]; intros m0 d0 m1 d1 H Heq; subst d1.
      - simpl in H. destruct Hp as (Hext & code & version & Hread & -> & Hv & Hspec).
        rewrite decide_True in H by done. rewrite Hread in H. simpl in H.
        unfold override_version in H. rewrite Hv in H. simpl in H. rewrite Hspec in H.
        apply scrape_loop_spec in H as [[more Hmore] Hs].
        assert (m0 !! v = None) as Hm0.
        { destruct (m0 !! v); [|done]. apply (f_equal length) in Hmore.
          rewrite !length_app in Hmore. simpl in Hmore. lia. }
        rewrite Hm0 in Hs. destruct (Hs eq_refl) as [_ Hfresh].
        pose proof (Hfresh q v w' ltac:(apply elem_of_app; right; by left) Hq) as Hn.
        rewrite lookup_insert_eq in Hn. done.
      - simpl in H. destruct e as [path|]; simpl in H; [|done].
        case_decide; [|by eapply (IH m0 d0 m1 d0)].
        destruct (read_file dir path) as [code|]; simpl in H; [|done].
        destruct (override_version _ _) as [version| |]; simpl in H; [|done..].
        destruct (m0 !! rv_spec_version version); [|by eapply IH].
        apply scrape_loop_spec in H as [[more Hmore] _]. apply (f_equal length) in Hmore.
        rewrite !length_app in Hmore. simpl in Hmore. lia. }
    by apply (Hno l1 ∅ [] m' []).
Qed.
End overrides.

(** ** The call executor ([call_executor.rs]) *)

(** [NativeOrEncoded<R>] and its [into_encoded] *)
Inductive NativeOrEncoded (R : Type) := Native (v : R) | Encoded (b : Bytes).
Arguments Native {R} v.
Arguments Encoded {R} b.
Definition into_encoded {R} (enc : R → Bytes) (n : NativeOrEncoded R) : Bytes :=
  match n with Native v => enc v | Encoded b => b end.

(** The state machine and what a state offers to it. *)
Class StateMachine `{CT : ChainTypes, BT : BackendTypes, RT : RuntimeTypes} := {
  Overlay : Type;                      (* [OverlayedChanges] *)
  overlay_default : Overlay;
  TxCache : Type;                      (* [StorageTransactionCache] *)
  tx_cache_default : TxCache;
  Recorder : Type;
  Manager : Type;                      (* [ExecutionManager] *)
  Extensions : Type;
  extensions_default : Extensions;
  strategy_manager : Z → Manager;      (* [ExecutionStrategy::get_manager] *)
  (* [BackendRuntimeCode::runtime_code] *)
  state_runtime_code : State → outcome string RuntimeCode;
  as_trie_backend : State → option State;
  (* [RuntimeInfo::runtime_version] in the externalities of a state *)
  version_of : State → option ChangesTrieState → RuntimeCode → outcome string RuntimeVersion;
  native_version : RuntimeVersion;
  (* [StateMachine::new(..).execute_using_consensus_failure_handler], with the
     overlay and the transaction cache, if there is one *)
  execute_machine {R : Type} : State → option Recorder → option ChangesTrieState →
    string → Bytes → Extensions → RuntimeCode → Manager → option (result R) →
    M Error (Overlay * option TxCache) (NativeOrEncoded R);
  prove_machine : State → string → Bytes → RuntimeCode →
    M Error Overlay (Bytes * list Bytes);
}.

(** The cells a runtime API object lends to a call: the block it was
    initialized at, the overlay of changes and the transaction cache. *)
Record ApiCells `{StateMachine} := mk_cells {
  ac_initialized_block : option BlockId;
  ac_changes : Overlay;
  ac_storage : TxCache;
}.
Arguments mk_cells {_ _ _ _}.

Section executor.
Context `{CT : ChainTypes, BT : BackendTypes, BE : !Backend, RT : RuntimeTypes,
  CTS : !ChangesTrieStorage, FS : FileSystem, CR : !CodeRuntime, SM : !StateMachine}.
Context (override_error : WasmOverrideError → Error).

(** [LocalCallExecutor] *)
Record LocalCallExecutor := {
  ce_backend : DB;
  ce_wasm_override : option WasmOverride;
}.

(** [LocalCallExecutor::new]; the argument is [wasm_runtime_overrides]. *)
Definition call_executor_new (backend : DB) (wasm_runtime_overrides : option string) :
    result LocalCallExecutor :=
  match wasm_runtime_overrides with
  | Some p =>
      let? o := omap_err override_error (wasm_override_new p) in
      Ok {| ce_backend := backend; ce_wasm_override := Some o |}
  | None => Ok {| ce_backend := backend; ce_wasm_override := None |}
  end.

(** The code of a state, as every method reads it. *)
Definition onchain_code (state : State) : result RuntimeCode :=
  omap_err RuntimeCodeError (state_runtime_code state).

(** [CallExecutor::runtime_version] *)
Definition runtime_version (self : LocalCallExecutor) (id : BlockId) : result RuntimeVersion :=
  let? changes_trie_state := changes_tries_state_at_block (ce_backend self) id in
  let? state := state_at (ce_backend self) id in
  let? runtime_code := onchain_code state in
  omap_err VersionInvalid (version_of state changes_trie_state runtime_code).

(** [CallExecutor::native_runtime_version] *)
Definition native_runtime_version : option RuntimeVersion := Some native_version.

(** [GetRuntimeVersion] for [LocalCallExecutor]; an error becomes its text. *)
Definition get_native_version : RuntimeVersion := native_version.
Definition get_runtime_version (format_error : Error → string) (self : LocalCallExecutor)
    (at_ : BlockId) : outcome string RuntimeVersion :=
  omap_err format_error (runtime_version self at_).

(** [LocalCallExecutor::check_override] *)
Definition check_override (self : LocalCallExecutor) (onchain_code : RuntimeCode)
    (id : BlockId) : result RuntimeCode :=
  match ce_wasm_override self with
  | None => Ok onchain_code
  | Some o =>
      let? version := runtime_version self id in
      let spec := rv_spec_version version in
      Ok (default onchain_code (override_get o spec (rc_heap_pages onchain_code)))
  end.

(** [CallExecutor::call] *)
Definition call (self : LocalCallExecutor) (id : BlockId) (method : string)
    (call_data : Bytes) (strategy : Z) (extensions : option Extensions) : result Bytes :=
  let changes := overlay_default in
  let? changes_trie := changes_tries_state_at_block (ce_backend self) id in
  let? state := state_at (ce_backend self) id in
  let? runtime_code := onchain_code state in
  let? runtime_code := check_override self runtime_code id in
  let? return_data :=
    (execute_machine (R := Empty_set) state None changes_trie method call_data
       (default extensions_default extensions) runtime_code
       (strategy_manager strategy) None (changes, None)).1 in
  Ok (into_encoded (λ v : Empty_set, match v with end) return_data).

(** [InitializeBlock]: skip, or do it unless the cell says it was done. *)
Inductive InitializeBlock := Skip | Do.

Definition needs_initialize (i : InitializeBlock) (init_block : option BlockId)
    (at_ : BlockId) : bool :=
  match i with
  | Do =>
      match init_block with
      | Some id => negb (bool_decide (id = at_))
      | None => true
      end
  | Skip => false
  end.

(** Runs the state machine on the cells, with the transaction cache or not. *)
Definition on_cells {A} (with_cache : bool) (m : M Error (Overlay * option TxCache) A) :
    M Error ApiCells A := λ s,
  let '(r, (changes, cache)) :=
    m (ac_changes s, if with_cache then Some (ac_storage s) else None) in
  (r, mk_cells (ac_initialized_block s) changes (default (ac_storage s) cache)).

(** [CallExecutor::contextual_call]; the references among its arguments are
    the cells. *)
Definition contextual_call {R} (self : LocalCallExecutor)
    (initialize_block_fn : M Error ApiCells unit) (at_ : BlockId) (method : string)
    (call_data : Bytes) (storage_transaction_cache : bool)
    (initialize_block : InitializeBlock) (execution_manager : Manager)
    (native_call : option (result R)) (recorder : option Recorder)
    (extensions : option Extensions) : M Error ApiCells (NativeOrEncoded R) :=
  let! init_block := gets ac_initialized_block in
  let! _ := if needs_initialize initialize_block init_block at_
            then initialize_block_fn else ret () in
  let! changes_trie_state := lift (changes_tries_state_at_block (ce_backend self) at_) in
  let! state := lift (state_at (ce_backend self) at_) in
  match recorder with
  | Some recorder =>
      let! trie_state := lift (ok_or (as_trie_backend state)
        (StateError "UnableToGenerateProof")) in
      let! runtime_code := lift (onchain_code trie_state) in
      let! runtime_code := lift (check_override self runtime_code at_) in
      on_cells false
        (execute_machine trie_state (Some recorder) changes_trie_state method call_data
           (default extensions_default extensions) runtime_code
           execution_manager native_call)
  | None =>
      let! runtime_code := lift (onchain_code state) in
      let! runtime_code := lift (check_override self runtime_code at_) in
      on_cells storage_transaction_cache
        (execute_machine state None changes_trie_state method call_data
           (default extensions_default extensions) runtime_code
           execution_manager native_call)
  end.

(** [CallExecutor::prove_at_trie_state] *)
Definition prove_at_trie_state (trie_state : State) (method : string) (call_data : Bytes) :
    M Error Overlay (Bytes * list Bytes) :=
  let! runtime_code := lift (onchain_code trie_state) in
  prove_machine trie_state method call_data runtime_code.

(** ** Properties *)

(** The code a call at a block runs, given the code and the version of its
    state. *)
Definition effective_code (self : LocalCallExecutor) (code : RuntimeCode) (spec : Z) :
    RuntimeCode :=
  match o ← ce_wasm_override self; overrides o !! spec with
  | Some w => {| rc_code := wb_code w; rc_hash := wb_hash w;
                 rc_heap_pages := rc_heap_pages code |}
  | None => code
  end.

Lemma check_override_effective self id state cts code v :
  changes_tries_state_at_block (ce_backend self) id = Ok cts →
  state_at (ce_backend self) id = Ok state → onchain_code state = Ok code →
  version_of state cts code = Ok v →
  check_override self code id = Ok (effective_code self code (rv_spec_version v)).
Proof.
  intros Hc Hs Hcode Hv. unfold check_override, effective_code.
  destruct (ce_wasm_override self) as [o|]; simpl; [|done].
  unfold runtime_version. rewrite Hc. simpl. rewrite Hs. simpl. rewrite Hcode. simpl.
  rewrite Hv. simpl. unfold override_get. by destruct (overrides o !! _).
Qed.

(** C31. A runtime call at a block runs the code of the block's state, unless the
    executor holds an override for the spec version that this code declares on
    chain: then it runs the override's code with the heap pages set on chain.
    [call] runs it on a fresh overlay that it throws away, and
    [contextual_call] on the caller's, after initializing the block exactly
    when that was asked for and not yet done at this block. *)
Theorem calls_run_effective_code {R} (self : LocalCallExecutor) (id : BlockId)
    (method : string) (data : Bytes) (state : State) (cts : option ChangesTrieState)
    (code : RuntimeCode) (v : RuntimeVersion) (strategy : Z) (ext : option Extensions)
    (init : M Error ApiCells unit) (cache : bool) (ib : InitializeBlock) (mgr : Manager)
    (nc : option (result R)) (s : ApiCells) :
  changes_tries_state_at_block (ce_backend self) id = Ok cts →
  state_at (ce_backend self) id = Ok state → state_runtime_code state = Ok code →
  version_of state cts code = Ok v →
  let run := match ce_wasm_override self with
    | Some ov =>
        match overrides ov !! rv_spec_version v with
        | Some w => {| rc_code := wb_code w; rc_hash := wb_hash w;
                       rc_heap_pages := rc_heap_pages code |}
        | None => code
        end
    | None => code
    end in
  let ext' := default extensions_default ext in
  call self id method data strategy ext =
    omap_ok (into_encoded (λ v : Empty_set, match v with end))
      (execute_machine state None cts method data ext' run (strategy_manager strategy)
         None (overlay_default, None)).1 ∧
  contextual_call self init id method data cache ib mgr nc None ext s =
    match (if needs_initialize ib (ac_initialized_block s) id then init s else (Ok (), s)) with
    | (Ok _, s') =>
        on_cells cache (execute_machine state None cts method data ext' run mgr nc) s'
    | (Err e, s') => (Err e, s')
    | (Panic p, s') => (Panic p, s')
    end.
Proof.
  intros Hc Hs Hcode Hv run ext'.
  assert (onchain_code state = Ok code) as Hon by (unfold onchain_code; by rewrite Hcode).
  assert (check_override self code id = Ok run) as Hover.
  { rewrite (check_override_effective self id state cts code v) by done.
    unfold effective_code, run. by destruct (ce_wasm_override self). }
  split.
  - unfold call. rewrite Hc. simpl. rewrite Hs. simpl. rewrite Hon. simpl. rewrite Hover.
    simpl. by destruct (execute_machine _ _ _ _ _ _ _ _ _ _).1.
  - unfold contextual_call. rewrite (bind_step _ _ _ (ac_initialized_block s) s) by done.
    unfold bind at 1.
    replace ((if needs_initialize ib (ac_initialized_block s) id then init else ret ()) s)
      with (if needs_initialize ib (ac_initialized_block s) id then init s else (Ok (), s))
      by (by destruct (needs_initialize ib (ac_initialized_block s) id)).
    destruct (if needs_initialize ib (ac_initialized_block s) id then init s else (Ok (), s))
      as [[u|e|p] s']; [|done..].
    rewrite Hc, Hs, !bind_lift_Ok, Hon, bind_lift_Ok, Hover, bind_lift_Ok. done.
Qed.
End executor.

(** ** Witnesses *)

#[local] Existing Instance ref_chain.
#[local] Existing Instance ref_types.
#[local] Existing Instance ref_backend.
#[local] Existing Instance ref_runtime_types.
#[local] Existing Instance ref_runtime_api.

(** A directory with two blobs and a readme; a blob of length [n] declares the
    version [n]. *)
Definition fs_reference : FileSystem := {|
  is_dir d := bool_decide (d = "overrides");
  read_dir _ := Some [Some "one.wasm"; Some "README.md"; Some "two.wasm"];
  read_file _ f := if decide (f = "one.wasm") then Some "1" else Some "22";
|}.
#[local] Existing Instance fs_reference.

Definition code_reference : CodeRuntime := {|
  hash_code c := c;
  blob_version c := Ok (Z.of_nat (String.length (rc_code c)));
|}.
#[local] Existing Instance code_reference.

(** An overlay is the log of the methods run, and the logs saved by the open
    transactions, innermost first; a call with the argument "bad" fails. *)
Definition machine_reference : StateMachine := {|
  Overlay := list string * list (list string); overlay_default := ([], []);
  TxCache := unit; tx_cache_default := (); Recorder := unit; Manager := unit;
  Extensions := unit; extensions_default := ();
  strategy_manager _ := ();
  state_runtime_code s := Ok {| rc_code := "c"; rc_hash := "h"; rc_heap_pages := Some 8%Z |};
  as_trie_backend s := Some s;
  version_of _ _ c := Ok (Z.of_nat (String.length (rc_code c)));
  native_version := 1%Z;
  execute_machine R _ _ _ method data _ code _ _ := λ o,
    (if decide (data = "bad") then Err (OtherError "fail") else Ok (Encoded (rc_code code)),
     ((o.1.1 ++ [method], o.1.2), o.2));
  prove_machine _ _ _ code := λ o, (Ok (rc_code code, []), o);
|}.
#[local] Existing Instance machine_reference.

Lemma scrape_overrides_spec_witness :
  ∃ m, scrape_overrides "overrides" = Ok m ∧ wb_code <$> m !! 2%Z = Some "22" ∧
    provides "overrides" "two.wasm" 2 (wasm_blob_new "22").
Proof.
  destruct (scrape_overrides "overrides") as [m| |] eqn:Hm;
    [|exfalso; revert Hm; vm_compute; discriminate..].
  exists m. split; [reflexivity|].
  destruct (scrape_overrides_spec _ _ Hm) as (_ & es & Hes & Hspec & _).
  injection Hes as <-.
  assert (provides "overrides" "two.wasm" 2 (wasm_blob_new "22")) as Hp.
  { split; [vm_compute; reflexivity|]. exists "22", 2%Z. split_and!; reflexivity. }
  split; [|exact Hp].
  rewrite (proj2 (Hspec 2%Z (wasm_blob_new "22"))); [reflexivity|].
  exists "two.wasm". split; [|exact Hp]. do 2 right. left.
Defined.

Definition sample_call_executor : LocalCallExecutor := {|
  ce_backend := sample_db;
  ce_wasm_override := Some {| overrides := {[1%Z := wasm_blob_new "x"]} |} |}.

Definition sample_version : RuntimeVersion := 1%Z.
Definition sample_state : State := ["a"].
Definition sample_manager : Manager := ().
Definition sample_cells : ApiCells := mk_cells None overlay_default tx_cache_default.

Lemma calls_run_effective_code_witness :
  call sample_call_executor
    (IdNumber 1) "m" "" 0 None = Ok "x".
Proof.
  destruct (calls_run_effective_code
    sample_call_executor
    (IdNumber 1) "m" "" sample_state None
    {| rc_code := "c"; rc_hash := "h"; rc_heap_pages := Some 8%Z |} sample_version 0 None
    (ret ()) false Skip sample_manager (None : option (result unit)) sample_cells) as [H _].
  - reflexivity.
  - vm_compute. reflexivity.
  - reflexivity.
  - reflexivity.
  - exact H.
Defined.
