(* ===== verification/RuntimeMock.v ===== *)
(** * The mock runtime API ([archive/runtime/src/mock.rs])

    The archive executes blocks of any chain, so it has no runtime types of its
    own: [MockRuntimeApiImpl] forwards the runtime calls an import needs to the
    wasm code and panics in the others.  Here: the object's cells, its two call
    paths with their storage transactions, [Client::call_api_at] between the
    object and the call executor, and every method of the traits it
    implements. *)

From Stdlib Require Import Ascii.
From S2P Require Import Prelude Chain BlockRules ArchiveCore Notifies Reference.
From S2P Require Import Client ClientQueries CallExecutor.

(** SCALE: [Encode::encode] and [Decode::decode]. *)
Class Encode (T : Type) := scale_encode : T → Bytes.
Class Decode (T : Type) := scale_decode : Bytes → sum string T.

(** [sp_api::ApiError], by the variant the code builds, and the conversions
    between it and the client's errors. *)
Inductive ApiError :=
  | FailedToDecodeReturnValue (function error : string)
  | ApiApplication (e : Error).

Class ApiErrors := {
  into_api_error : Error → ApiError;     (* [Into::into] *)
  runtime_api_error : ApiError → Error;  (* [Error::RuntimeApiError] *)
}.

(** What the runtime's methods exchange. *)
Class ApiTypes := {
  InherentData : Type;
  CheckInherentsResult : Type;
  OpaqueMetadata : Type;
  BabeGenesisConfiguration : Type;
}.

(** The transactions of [OverlayedChanges]; closing one fails when none is
    open. *)
Class OverlayTransactions `{SM : StateMachine} := {
  start_transaction : Overlay → Overlay;
  commit_transaction : Overlay → option Overlay;
  rollback_transaction : Overlay → option Overlay;
  overlay_into_storage_changes : Overlay → State → option ChangesTrieState → Hash →
    TxCache → outcome string StorageChanges;
  version_apis : RuntimeVersion → list (Bytes * Z);       (* [RuntimeVersion::apis] *)
  (* [ExecutionExtensions::manager_and_extensions] *)
  manager_and_extensions : BlockId → ExecutionContext → Manager * Extensions;
}.

(** [TransactionOutcome] and its [into_inner] *)
Inductive TransactionOutcome (R : Type) := Commit (r : R) | Rollback (r : R).
Arguments Commit {R} r.
Arguments Rollback {R} r.
Definition into_inner {R} (o : TransactionOutcome R) : R :=
  match o with Commit r | Rollback r => r end.

Section mock.
Context `{CT : ChainTypes, BT : BackendTypes, BE : !Backend, RT : RuntimeTypes,
  CTS : !ChangesTrieStorage, FS : FileSystem, CR : !CodeRuntime, SM : !StateMachine,
  OT : !OverlayTransactions, SL : !StorageListeners, AE : ApiErrors, AT : ApiTypes}.
Context {EU : Encode unit} {EB : Encode Block} {EH : Encode Header}
  {EI : Encode (Block * InherentData)} {ES : Encode (option Bytes)}
  {DU : Decode unit} {DV : Decode RuntimeVersion} {DM : Decode OpaqueMetadata}
  {DC : Decode CheckInherentsResult} {DG : Decode BabeGenesisConfiguration}
  {DB_ : Decode Bytes}.

(** The parts of the client a runtime call goes through ([Client::executor]
    and the client itself). *)
Record ApiClient := { api_client : Client; api_executor : LocalCallExecutor }.

(** ** The client's side ([client.rs]) *)

(** [Client::runtime_version_at], as [CallApiAt] exposes it *)
Definition runtime_version_at (c : ApiClient) (at_ : BlockId) : outcome ApiError RuntimeVersion :=
  omap_err into_api_error (runtime_version (api_executor c) at_).

(** [Client::call_api_at]; [core_initialize_block] is the method of the object
    [params.core_api], the cells are the references in [params]. *)
Definition call_api_at {R} (c : ApiClient)
    (core_initialize_block : BlockId → Header → M ApiError ApiCells unit)
    (at_ : BlockId) (function : string) (arguments : Bytes)
    (initialize_block : InitializeBlock) (native_call : option (result R))
    (context : ExecutionContext) (recorder : option Recorder) :
    M ApiError ApiCells (NativeOrEncoded R) :=
  let '(manager, extensions) := manager_and_extensions at_ context in
  catch_err into_api_error
    (contextual_call (api_executor c)
       (let! header := lift (prepare_environment_block (api_client c) at_) in
        catch_err runtime_api_error (core_initialize_block at_ header))
       at_ function arguments true initialize_block manager native_call recorder
       (Some extensions)).

(** ** The object *)

(** [construct_runtime_api] *)
Definition construct_runtime_api : ApiCells := mk_cells None overlay_default tx_cache_default.

Definition set_changes (o : Overlay) (s : ApiCells) : ApiCells :=
  mk_cells (ac_initialized_block s) o (ac_storage s).
Definition set_initialized (b : option BlockId) (s : ApiCells) : ApiCells :=
  mk_cells b (ac_changes s) (ac_storage s).

(** [changes.borrow_mut().start_transaction()] *)
Definition start {E} : M E ApiCells unit :=
  modify (λ s, set_changes (start_transaction (ac_changes s)) s).

(** Closing the transaction, with the message of the [expect]. *)
Definition close {E} (f : Overlay → option Overlay) (msg : string) : M E ApiCells unit :=
  let! s := get in
  match f (ac_changes s) with
  | Some o => put (set_changes o s)
  | None => panic msg
  end.

Definition transaction_proof : string :=
  "We only close a transaction when we opened one ourself. Other parts of the runtime that make use of transactions (state-machine) also balance their transactions. The runtime cannot close client initiated transactions. qed".

(** [MockRuntimeApiImpl::commit_or_rollback] *)
Definition commit_or_rollback {E} (commit : bool) : M E ApiCells unit :=
  if commit then close commit_transaction transaction_proof
  else close rollback_transaction transaction_proof.

(** The end of both call paths: commit after a success, else roll back. *)
Definition close_call {E A} (res : outcome E A) : M E ApiCells A :=
  match res with
  | Ok a => let! _ := close commit_transaction "commit error!" in ret a
  | Err e => let! _ := close rollback_transaction "rollback error!" in throw e
  | Panic p => panic p
  end.

(** Runs a call and keeps its result as a value, unless it panics. *)
Definition attempt {E S A} (m : M E S A) : M E S (outcome E A) := λ s,
  match m s with
  | (Panic p, s') => (Panic p, s')
  | (res, s') => (Ok res, s')
  end.

(** [MockRuntimeApiImpl::_call_api_at_native_code] *)
Definition mock_call_api_at_native_code {T} (c : ApiClient)
    (core_initialize_block : BlockId → Header → M ApiError ApiCells unit)
    (method : string) (context : option ExecutionContext) (init_block : bool)
    (at_ : BlockId) (args : Bytes) : M ApiError ApiCells (NativeOrEncoded T) :=
  let execution_context := default OffchainCall context in
  let! _ := start in
  let initialize_block := if negb init_block then Skip else Do in
  let! res := attempt (call_api_at c core_initialize_block at_ method args
    initialize_block None execution_context None) in
  close_call res.

(** [MockRuntimeApiImpl::_call_api_at] *)
Definition mock_call_api_at {T} `{Decode T} (c : ApiClient)
    (core_initialize_block : BlockId → Header → M ApiError ApiCells unit)
    (method : string) (context : option ExecutionContext) (init_block : bool)
    (at_ : BlockId) (args : Bytes) : M ApiError ApiCells T :=
  let execution_context := default OffchainCall context in
  let! _ := start in
  let initialize_block := if negb init_block then Skip else Do in
  let! res := attempt (call_api_at c core_initialize_block at_ method args
    initialize_block None execution_context None) in
  let! res := close_call res in
  match res with
  | Native n => ret n
  | Encoded r =>
      match scale_decode r with
      | inl err => throw (FailedToDecodeReturnValue method err)
      | inr v => ret v
      end
  end.

(** ** [ApiExt] *)

(** [execute_in_transaction] *)
Definition execute_in_transaction {E R} (call : M E ApiCells (TransactionOutcome R)) :
    M E ApiCells R :=
  let! _ := start in
  let! res := call in
  let! _ := commit_or_rollback (match res with Commit _ => true | _ => false end) in
  ret (into_inner res).

(** [has_api] and [has_api_with], for the trait with this id and version *)
Definition has_api (c : ApiClient) (api_id : Bytes) (api_version : Z) (at_ : BlockId) :
    outcome ApiError bool :=
  omap_ok (λ v, rv_has_api_with v api_id (λ v, bool_decide (v = api_version)))
    (runtime_version_at c at_).
Definition has_api_with (c : ApiClient) (api_id : Bytes) (at_ : BlockId) (pred : Z → bool) :
    outcome ApiError bool :=
  omap_ok (λ v, rv_has_api_with v api_id pred) (runtime_version_at c at_).

(** [into_storage_changes] *)
Definition mock_into_storage_changes (st : State) (changes_trie_state : option ChangesTrieState)
    (parent_hash : Hash) : M string ApiCells StorageChanges := λ s,
  (overlay_into_storage_changes (ac_changes s) st changes_trie_state parent_hash (ac_storage s),
   mk_cells None overlay_default tx_cache_default).

(** ** [Core] *)

(** The [Core] API's id, [ID]. *)
Definition ID : Bytes :=
  String.string_of_list_ascii (ascii_of_nat <$> [223; 106; 203; 104; 153; 7; 96; 155]).

(** The name of the method, which older runtimes spell otherwise. *)
Definition initialize_method (version : RuntimeVersion) : string :=
  if existsb (λ sv, bool_decide (sv.1 = ID) && bool_decide (sv.2 < 2)%Z) (version_apis version)
  then "Core_initialise_block" else "Core_initialize_block".

(** [Core::initialize_block], given the one that the object's own call path
    would call back; the block is marked whatever the call's result. *)
Definition initialize_block_with (c : ApiClient)
    (core_initialize_block : BlockId → Header → M ApiError ApiCells unit)
    (at_ : BlockId) (header : Header) : M ApiError ApiCells unit :=
  let! version := lift (runtime_version_at c at_) in
  let args := scale_encode header in
  let method := initialize_method version in
  let! res := attempt (mock_call_api_at c core_initialize_block method None false at_ args) in
  let! _ := modify (set_initialized (Some at_)) in
  lift res.

(** The call path does not call back here ([initialize_block_knot] below), so
    the knot is tied with a method that panics. *)
Definition mock_initialize_block (c : ApiClient) : BlockId → Header → M ApiError ApiCells unit :=
  initialize_block_with c (λ _ _, panic "initialize_block").

Definition mock_version (c : ApiClient) (at_ : BlockId) : M ApiError ApiCells RuntimeVersion :=
  let args := scale_encode () in
  mock_call_api_at c (mock_initialize_block c) "Core_version" None true at_ args.

Definition mock_execute_block (c : ApiClient) (at_ : BlockId) (block : Block) :
    M ApiError ApiCells unit :=
  let args := scale_encode block in
  mock_call_api_at c (mock_initialize_block c) "Core_execute_block" None false at_ args.

(** [params.unwrap()] comes first: without parameters the method panics. *)
Definition Core_execute_block_runtime_api_impl (c : ApiClient) (at_ : BlockId)
    (context : ExecutionContext) (params : option Block) :
    M ApiError ApiCells (NativeOrEncoded unit) :=
  let! params := lift (expect params "called `Option::unwrap()` on a `None` value") in
  let args := scale_encode params in
  mock_call_api_at_native_code c (mock_initialize_block c) "Core_execute_block"
    (Some context) false at_ args.

(** ** [Metadata], and the methods of the other traits that are implemented *)

Definition mock_metadata (c : ApiClient) (at_ : BlockId) : M ApiError ApiCells OpaqueMetadata :=
  let args := scale_encode () in
  mock_call_api_at c (mock_initialize_block c) "Metadata_metadata" None true at_ args.

Definition Metadata_metadata_runtime_api_impl (c : ApiClient) (at_ : BlockId)
    (context : ExecutionContext) : M ApiError ApiCells (NativeOrEncoded OpaqueMetadata) :=
  let args := scale_encode () in
  mock_call_api_at_native_code c (mock_initialize_block c) "Metadata_metadata"
    (Some context) true at_ args.

Definition check_inherents (c : ApiClient) (at_ : BlockId) (block : Block)
    (data : InherentData) : M ApiError ApiCells CheckInherentsResult :=
  let args := scale_encode (block, data) in
  mock_call_api_at c (mock_initialize_block c) "BlockBuilder_check_inherents" None false at_ args.

Definition configuration (c : ApiClient) (at_ : BlockId) :
    M ApiError ApiCells BabeGenesisConfiguration :=
  let args := scale_encode () in
  mock_call_api_at c (mock_initialize_block c) "BabeApi_configuration" None false at_ args.

Definition BabeApi_configuration_runtime_api_impl (c : ApiClient) (at_ : BlockId)
    (context : ExecutionContext) :
    M ApiError ApiCells (NativeOrEncoded BabeGenesisConfiguration) :=
  let args := scale_encode () in
  mock_call_api_at_native_code c (mock_initialize_block c) "BabeApi_configuration"
    (Some context) false at_ args.

Definition generate_session_keys (c : ApiClient) (at_ : BlockId) (seed : option Bytes) :
    M ApiError ApiCells Bytes :=
  let args := scale_encode seed in
  mock_call_api_at c (mock_initialize_block c) "SessionKeys_generate_session_keys"
    None false at_ args.

(** ** The methods that are not implemented *)

Inductive ProofMethod := RecordProof | ExtractProof | ProofRecorder.
Inductive CoreMethod := Core_version_impl | Core_initialize_block_impl.
Inductive BlockBuilderMethod :=
  | Apply_extrinsic | Finalize_block | Inherent_extrinsics
  | Apply_extrinsic_impl | Finalize_block_impl | Inherent_extrinsics_impl
  | Check_inherents_impl.
Inductive GrandpaMethod :=
  | Grandpa_authorities | Grandpa_submit_report | Grandpa_key_ownership
  | Grandpa_authorities_impl | Grandpa_submit_report_impl | Grandpa_key_ownership_impl.
Inductive BabeMethod :=
  | Current_epoch_start | Current_epoch | Next_epoch
  | Babe_key_ownership | Babe_submit_report
  | Current_epoch_start_impl | Current_epoch_impl | Next_epoch_impl
  | Babe_key_ownership_impl | Babe_submit_report_impl.
Inductive SessionMethod :=
  | Decode_session_keys | Generate_session_keys_impl | Decode_session_keys_impl.

(** [unimplemented!()] and [todo!()] *)
Definition unimplemented : string := "not implemented".
Definition todo : string := "not yet implemented".

Definition proof_message (m : ProofMethod) : string := unimplemented.
Definition core_message (m : CoreMethod) : string := unimplemented.
Definition block_builder_message (m : BlockBuilderMethod) : string := unimplemented.
Definition grandpa_message (m : GrandpaMethod) : string :=
  match m with
  | Grandpa_authorities | Grandpa_submit_report | Grandpa_key_ownership => unimplemented
  | Grandpa_authorities_impl | Grandpa_submit_report_impl
  | Grandpa_key_ownership_impl => todo
  end.
Definition babe_message (m : BabeMethod) : string :=
  match m with
  | Current_epoch_start | Current_epoch | Next_epoch
  | Babe_key_ownership | Babe_submit_report => unimplemented
  | Current_epoch_start_impl | Current_epoch_impl | Next_epoch_impl
  | Babe_key_ownership_impl | Babe_submit_report_impl => todo
  end.
Definition session_message (m : SessionMethod) : string :=
  match m with
  | Decode_session_keys => unimplemented
  | Generate_session_keys_impl | Decode_session_keys_impl => todo
  end.

Inductive UnimplementedMethod :=
  | OfApiExt (m : ProofMethod) | OfCore (m : CoreMethod)
  | OfBlockBuilder (m : BlockBuilderMethod) | OfGrandpa (m : GrandpaMethod)
  | OfBabe (m : BabeMethod) | OfSession (m : SessionMethod).

Definition unimplemented_message (m : UnimplementedMethod) : string :=
  match m with
  | OfApiExt m => proof_message m
  | OfCore m => core_message m
  | OfBlockBuilder m => block_builder_message m
  | OfGrandpa m => grandpa_message m
  | OfBabe m => babe_message m
  | OfSession m => session_message m
  end.

(** ** A call of any method, by its result *)

Inductive ApiCall : Type → Type :=
  | CallVersion (at_ : BlockId) : ApiCall RuntimeVersion
  | CallExecuteBlock (at_ : BlockId) (b : Block) : ApiCall unit
  | CallInitializeBlock (at_ : BlockId) (h : Header) : ApiCall unit
  | CallExecuteBlockImpl (at_ : BlockId) (ctx : ExecutionContext) (params : option Block) :
      ApiCall (NativeOrEncoded unit)
  | CallMetadata (at_ : BlockId) : ApiCall OpaqueMetadata
  | CallMetadataImpl (at_ : BlockId) (ctx : ExecutionContext) :
      ApiCall (NativeOrEncoded OpaqueMetadata)
  | CallCheckInherents (at_ : BlockId) (b : Block) (d : InherentData) :
      ApiCall CheckInherentsResult
  | CallConfiguration (at_ : BlockId) : ApiCall BabeGenesisConfiguration
  | CallConfigurationImpl (at_ : BlockId) (ctx : ExecutionContext) :
      ApiCall (NativeOrEncoded BabeGenesisConfiguration)
  | CallGenerateSessionKeys (at_ : BlockId) (seed : option Bytes) : ApiCall Bytes
  | CallUnimplemented (R : Type) (m : UnimplementedMethod) : ApiCall R.

Definition mock_api (c : ApiClient) {R} (call : ApiCall R) : M ApiError ApiCells R :=
  match call with
  | CallVersion at_ => mock_version c at_
  | CallExecuteBlock at_ b => mock_execute_block c at_ b
  | CallInitializeBlock at_ h => mock_initialize_block c at_ h
  | CallExecuteBlockImpl at_ ctx params => Core_execute_block_runtime_api_impl c at_ ctx params
  | CallMetadata at_ => mock_metadata c at_
  | CallMetadataImpl at_ ctx => Metadata_metadata_runtime_api_impl c at_ ctx
  | CallCheckInherents at_ b d => check_inherents c at_ b d
  | CallConfiguration at_ => configuration c at_
  | CallConfigurationImpl at_ ctx => BabeApi_configuration_runtime_api_impl c at_ ctx
  | CallGenerateSessionKeys at_ seed => generate_session_keys c at_ seed
  | CallUnimplemented R m => panic (unimplemented_message m)
  end.

(** ** Transactions

    What [OverlayedChanges] documents: a transaction saves the overlay it was
    started on, committing the innermost one forgets what it saved and rolling
    it back restores it; and the state machine balances the transactions of
    the code it runs, so that a runtime cannot close its caller's. *)
Class OverlayLaws := {
  saved : Overlay → list Overlay;
  saved_start o : saved (start_transaction o) = o :: saved o;
  commit_saved o p ps : saved o = p :: ps →
    ∃ o', commit_transaction o = Some o' ∧ saved o' = ps;
  rollback_saved o p ps : saved o = p :: ps →
    rollback_transaction o = Some p ∧ saved p = ps;
  machine_balanced R st rec cts method data ext code mgr nc oc r oc' :
    execute_machine (R := R) st rec cts method data ext code mgr nc oc = (r, oc') →
    ¬ is_Panic r → saved oc'.1 = saved oc.1;
}.

Context {OL : OverlayLaws}.

(** A call that does not panic keeps this part of the cells. *)
Definition keeps {X E A} (f : ApiCells → X) (m : M E ApiCells A) : Prop :=
  ∀ s r s', m s = (r, s') → ¬ is_Panic r → f s' = f s.

(** The transactions that are open. *)
Definition opened (s : ApiCells) : list Overlay := saved (ac_changes s).

Section keeps.
Context {X : Type} (f : ApiCells → X).

Lemma keeps_pure {E A} (m : outcome E A) : keeps f (lift m).
Proof. intros s r s' H _. by injection H as <- <-. Qed.

Lemma keeps_gets {E A} (g : ApiCells → A) : keeps f (gets (E:=E) g).
Proof. intros s r s' H _. by injection H as <- <-. Qed.

Lemma keeps_ret {E A} (a : A) : keeps f (ret (E:=E) a).
Proof. intros s r s' H _. by injection H as <- <-. Qed.

Lemma keeps_panic {E A} p : keeps f (panic (E:=E) (A:=A) p).
Proof. intros s r s' H Hp. injection H as <- <-. destruct Hp. by eexists. Qed.

Lemma keeps_bind {E A B} (m : M E ApiCells A) (k : A → M E ApiCells B) :
  keeps f m → (∀ a, keeps f (k a)) → keeps f (bind m k).
Proof.
  intros Hm Hk s r s' H Hp. unfold bind in H.
  destruct (m s) as [[a|e|p] s1] eqn:Hs.
  - rewrite (Hk a s1 r s' H Hp). eapply Hm; [exact Hs|]. by intros [].
  - injection H as <- <-. eapply Hm; [exact Hs|]. by intros [].
  - injection H as <- <-. destruct Hp. by eexists.
Qed.

Lemma keeps_catch_err {E F A} (g : E → F) (m : M E ApiCells A) :
  keeps f m → keeps f (catch_err g m).
Proof.
  intros Hm s r s' H Hp. unfold catch_err in H. destruct (m s) as [r0 s0] eqn:Hs.
  injection H as <- <-. eapply Hm; [exact Hs|]. intros [p ->]. destruct Hp. by eexists.
Qed.

Lemma keeps_attempt {E A} (m : M E ApiCells A) : keeps f m → keeps f (attempt m).
Proof.
  intros Hm s r s' H Hp. unfold attempt in H.
  destruct (m s) as [[a|e|p] s0] eqn:Hs; injection H as <- <-;
    (eapply Hm; [exact Hs|]); first [by intros []|intros _; destruct Hp; by eexists].
Qed.

(** What the machine keeps of the cells, for every call path. *)
Context (Hmachine : ∀ b A (m : M Error (Overlay * option TxCache) A),
  (∀ oc r oc', m oc = (r, oc') → ¬ is_Panic r → saved oc'.1 = saved oc.1) →
  keeps f (on_cells b m)).

Lemma keeps_contextual_call {R} ce init at_ method data cache ib mgr nc rec ext :
  (ib = Do → keeps f init) →
  keeps f (contextual_call (R := R) ce init at_ method data cache ib mgr nc rec ext).
Proof.
  intros Hinit. unfold contextual_call.
  apply keeps_bind; [apply keeps_gets|intros b].
  apply keeps_bind.
  { destruct ib; [apply keeps_ret|]. destruct (needs_initialize Do b at_);
      [by apply Hinit|apply keeps_ret]. }
  intros _. do 2 (apply keeps_bind; [apply keeps_pure|intros ?]).
  destruct rec; repeat (apply keeps_bind; [apply keeps_pure|intros ?]);
    apply Hmachine; intros oc res oc'; apply machine_balanced.
Qed.

Lemma keeps_call_api_at {R} c core at_ g args ib nc ctx rec :
  (ib = Do → ∀ at_ h, keeps f (core at_ h)) →
  keeps f (call_api_at (R := R) c core at_ g args ib nc ctx rec).
Proof.
  intros Hcore. unfold call_api_at. destruct (manager_and_extensions at_ ctx).
  apply keeps_catch_err, keeps_contextual_call. intros Hib.
  apply keeps_bind; [apply keeps_pure|intros h]. by apply keeps_catch_err, Hcore.
Qed.
End keeps.

Lemma opened_machine b A (m : M Error (Overlay * option TxCache) A) :
  (∀ oc r oc', m oc = (r, oc') → ¬ is_Panic r → saved oc'.1 = saved oc.1) →
  keeps opened (on_cells b m).
Proof.
  intros Hm s r s' H Hp. unfold on_cells in H.
  destruct (m (ac_changes s, _)) as [r0 [o c]] eqn:Hs. injection H as <- <-.
  exact (Hm _ _ _ Hs Hp).
Qed.

Lemma marked_machine b A (m : M Error (Overlay * option TxCache) A) :
  keeps ac_initialized_block (on_cells b m).
Proof.
  intros s r s' H Hp. unfold on_cells in H.
  destruct (m (ac_changes s, _)) as [r0 [o c]]. by injection H as <- <-.
Qed.

(** Bracketing a call in [start] and [close_call]. *)
Definition bracket {A} (m : M ApiError ApiCells A) : M ApiError ApiCells A :=
  let! _ := start in let! res := attempt m in close_call res.

(** A call is a transaction when the overlay of a failed one is restored,
    except for the errors that come after the commit. *)
Definition transactional {A} (m : M ApiError ApiCells A) (rolled_back : ApiError → Prop) : Prop :=
  ∀ s r s', m s = (r, s') → ¬ is_Panic r →
  opened s' = opened s ∧ ∀ e, r = Err e → rolled_back e → ac_changes s' = ac_changes s.

(** The state in which the bracketed call starts. *)
Lemma start_opened s :
  let s1 := set_changes (start_transaction (ac_changes s)) s in
  start (E := ApiError) s = (Ok (), s1) ∧ opened s1 = ac_changes s :: opened s.
Proof. split; [done|apply saved_start]. Qed.

(** What a balanced call leaves is closed without a panic. *)
Lemma close_call_spec {A} (res : outcome ApiError A) s o os :
  ¬ is_Panic res → opened s = o :: os → saved o = os →
  ∃ s', close_call res s = (res, s') ∧ opened s' = os ∧
    ac_initialized_block s' = ac_initialized_block s ∧
    ∀ e, res = Err e → ac_changes s' = o.
Proof.
  intros Hp Ho Hos. destruct res as [a|e|p]; [| |by destruct Hp; eexists];
    unfold close_call, close, bind, get.
  - destruct (commit_saved _ _ _ Ho) as (o' & -> & Ho'). by eexists.
  - destruct (rollback_saved _ _ _ Ho) as (-> & Ho'). by eexists.
Qed.

Lemma bracket_spec {A} (m : M ApiError ApiCells A) s :
  keeps opened m →
  let s1 := set_changes (start_transaction (ac_changes s)) s in
  (is_Panic (m s1).1 ∧ is_Panic (bracket m s).1) ∨
  (¬ is_Panic (m s1).1 ∧ ∃ s', bracket m s = ((m s1).1, s') ∧ opened s' = opened s ∧
    ac_initialized_block s' = ac_initialized_block (m s1).2 ∧
    ∀ e, (m s1).1 = Err e → ac_changes s' = ac_changes s).
Proof.
  intros Hm s1. destruct (start_opened s) as [Hs Ho]. unfold bracket.
  rewrite (bind_step _ _ _ _ _ Hs). fold s1 in Ho |- *.
  destruct (is_Panic_dec (m s1).1) as [Hp|Hp].
  - left. split; [done|]. unfold bind, attempt.
    destruct (m s1) as [[]]; [by destruct Hp..|done].
  - right. split; [done|]. unfold bind at 1, attempt.
    destruct (m s1) as [r s2] eqn:Hm1. cbn [fst snd] in *.
    assert (opened s2 = ac_changes s :: opened s) as Ho2
      by (rewrite <- Ho; by eapply Hm).
    destruct (close_call_spec r s2 _ _ Hp Ho2) as (s' & Hc & Ho' & Hi & Hr); [done|].
    exists s'. destruct r; [done|done|by destruct Hp; eexists].
Qed.

Lemma transactional_bracket {A} (m : M ApiError ApiCells A) :
  keeps opened m → transactional (bracket m) (λ _, True).
Proof.
  intros Hm s r s' H Hp. destruct (bracket_spec m s Hm) as [[_ Hp']|(_ & s2 & Hb & Ho & _ & Hr)].
  - by rewrite H in Hp'.
  - rewrite Hb in H. injection H as <- <-. split; [done|]. intros e He _. by apply (Hr e).
Qed.

Lemma native_call_transactional {T} c core method ctx ib at_ args :
  (ib = true → ∀ at_ h, keeps opened (core at_ h)) →
  transactional (mock_call_api_at_native_code (T := T) c core method ctx ib at_ args)
    (λ _, True).
Proof.
  intros Hcore. apply transactional_bracket, keeps_call_api_at; [apply opened_machine|].
  destruct ib; [by intros _; apply Hcore|done].
Qed.

(** [_call_api_at] is the native call and the decoding of what it returns. *)
Definition decode_result {T} `{Decode T} (method : string) (res : NativeOrEncoded T) :
    outcome ApiError T :=
  match res with
  | Native n => Ok n
  | Encoded r =>
      match scale_decode r with
      | inl err => Err (FailedToDecodeReturnValue method err)
      | inr v => Ok v
      end
  end.

Lemma mock_call_decodes {T} `{Decode T} c core method ctx ib at_ args s :
  mock_call_api_at (T := T) c core method ctx ib at_ args s =
  (let! res := mock_call_api_at_native_code (T := T) c core method ctx ib at_ args in
   lift (decode_result method res)) s.
Proof.
  unfold mock_call_api_at, mock_call_api_at_native_code.
  rewrite bind_assoc. apply bind_ext; [done|]. intros _ s1.
  rewrite bind_assoc. apply bind_ext; [done|]. intros res s2.
  apply bind_ext; [done|]. intros [n|b] s3; [done|]. unfold decode_result.
  by destruct (scale_decode b).
Qed.

(** The error of a call whose result could not be decoded, which comes after
    the transaction was committed. *)
Definition decode_failure (e : ApiError) : Prop :=
  match e with FailedToDecodeReturnValue _ _ => True | _ => False end.

Lemma mock_call_transactional {T} `{Decode T} c core method ctx ib at_ args :
  (ib = true → ∀ at_ h, keeps opened (core at_ h)) →
  transactional (mock_call_api_at (T := T) c core method ctx ib at_ args)
    (λ e, ¬ decode_failure e).
Proof.
  intros Hcore s r s' Hr Hp. rewrite mock_call_decodes in Hr. unfold bind in Hr.
  destruct (mock_call_api_at_native_code _ _ _ _ _ _ _ s) as [[n|e|p] s1] eqn:Hn;
    apply (native_call_transactional c core) in Hn; try done.
  - destruct Hn as [? _]; [by intros []|]. unfold lift, decode_result in Hr.
    destruct n as [n|b]; [|destruct (scale_decode b)]; injection Hr as <- <-; split; try done.
    intros e' [= <-] He. by destruct He.
  - injection Hr as <- <-. destruct Hn as [? Hc]; [by intros []|]. split; [done|].
    intros e' [= <-] _. by apply (Hc e).
  - injection Hr as <- <-. destruct Hp. by eexists.
Qed.

(** Without [InitializeBlock::Do] the object is not called back: [core] is
    not used, and the knot of [mock_initialize_block] is tied. *)
Lemma initialize_block_knot c core at_ h s :
  mock_initialize_block c at_ h s = initialize_block_with c core at_ h s.
Proof. reflexivity. Qed.

Lemma initialize_block_transactional c at_ h :
  transactional (mock_initialize_block c at_ h) (λ e, ¬ decode_failure e).
Proof.
  intros s r s' Hr Hp. unfold mock_initialize_block, initialize_block_with in Hr.
  destruct (runtime_version_at c at_) as [v|e|p]; unfold bind at 1, lift at 1 in Hr.
  - unfold bind, attempt in Hr.
    destruct (mock_call_api_at _ _ _ _ _ _ _ s) as [[[]|e|p] s1] eqn:Hm;
      apply mock_call_transactional in Hm; try done;
      injection Hr as <- <-; try (destruct Hm as [? Hc]; [by intros []|]).
    + by split.
    + split; [done|]. intros e' [= <-]. by apply Hc.
    + destruct Hp. by eexists.
  - by injection Hr as <- <-.
  - injection Hr as <- <-. destruct Hp. by eexists.
Qed.

Lemma initialize_block_opened c at_ h : keeps opened (mock_initialize_block c at_ h).
Proof.
  intros s r s' Hr Hp. by destruct (initialize_block_transactional c at_ h s r s' Hr Hp).
Qed.

(** The block is marked by every call that gets past the version. *)
Lemma initialize_block_marks c at_ h s r s' :
  is_Ok (runtime_version_at c at_) → mock_initialize_block c at_ h s = (r, s') →
  ¬ is_Panic r → ac_initialized_block s' = Some at_.
Proof.
  intros [v Hv] Hr Hp. unfold mock_initialize_block, initialize_block_with in Hr.
  rewrite Hv, bind_lift_Ok in Hr. unfold bind, attempt in Hr.
  destruct (mock_call_api_at _ _ _ _ _ _ _ s) as [[[]|e|p] s1]; injection Hr as <- <-; try done.
  destruct Hp. by eexists.
Qed.

(** A call that initializes first: the initialization, when needed, and the
    call without. *)
Lemma contextual_call_do {R} ce init at_ method data cache mgr nc rec ext s :
  contextual_call (R := R) ce init at_ method data cache Do mgr nc rec ext s =
  (let! _ := if needs_initialize Do (ac_initialized_block s) at_ then init else ret () in
   contextual_call (R := R) ce init at_ method data cache Skip mgr nc rec ext) s.
Proof. reflexivity. Qed.

Lemma needs_initialize_marked at_ : needs_initialize Do (Some at_) at_ = false.
Proof. simpl. by rewrite bool_decide_true. Qed.

Lemma call_api_at_marked {R} c core at_ g args nc ctx rec s :
  ac_initialized_block s = Some at_ →
  call_api_at (R := R) c core at_ g args Do nc ctx rec s =
  call_api_at (R := R) c core at_ g args Skip nc ctx rec s.
Proof.
  intros Hs. unfold call_api_at. destruct (manager_and_extensions at_ ctx).
  unfold catch_err. by rewrite contextual_call_do, Hs, needs_initialize_marked.
Qed.

Lemma mock_call_marked {T} `{Decode T} c core core' method ctx at_ args s :
  ac_initialized_block s = Some at_ →
  mock_call_api_at (T := T) c core method ctx true at_ args s =
  mock_call_api_at (T := T) c core' method ctx false at_ args s.
Proof.
  intros Hs. unfold mock_call_api_at. destruct (start_opened s) as [Hst _].
  rewrite !(bind_step _ _ _ _ _ Hst). apply bind_ext; [|done].
  unfold attempt. simpl. by rewrite call_api_at_marked.
Qed.

(** Once a call at a block was made, the block is marked, provided that the
    initialization could be tried. *)
Definition can_initialize (c : ApiClient) (at_ : BlockId) : Prop :=
  is_Ok (prepare_environment_block (api_client c) at_) ∧ is_Ok (runtime_version_at c at_).

Lemma call_api_at_marks {R} c at_ g args nc ctx rec s r s' :
  can_initialize c at_ →
  call_api_at (R := R) c (mock_initialize_block c) at_ g args Do nc ctx rec s = (r, s') →
  ¬ is_Panic r → ac_initialized_block s' = Some at_.
Proof.
  intros [[h Hh] Hv]. unfold call_api_at. destruct (manager_and_extensions at_ ctx) as [mgr ext].
  unfold catch_err at 1. rewrite contextual_call_do.
  set (init := bind (lift (prepare_environment_block _ _)) _).
  assert (∀ r1 s1, init s = (r1, s1) → ¬ is_Panic r1 → ac_initialized_block s1 = Some at_)
    as Hinit.
  { intros r1 s1 H Hp. unfold init in H. rewrite Hh, bind_lift_Ok in H. unfold catch_err in H.
    destruct (mock_initialize_block c at_ h s) as [r0 s0] eqn:Hm. injection H as <- <-.
    apply initialize_block_marks in Hm; [done|done|]. intros [p ->]. destruct Hp. by eexists. }
  assert (∀ t, ac_initialized_block t = Some at_ →
    (let '(r, s') := contextual_call (R := R) (api_executor c) init at_ g args true Skip mgr nc
       rec (Some ext) t in (omap_err into_api_error r, s')) = (r, s') →
    ¬ is_Panic r → ac_initialized_block s' = Some at_) as Hgo.
  { intros t Ht H Hp. rewrite <- Ht.
    destruct (contextual_call _ _ _ _ _ _ _ _ _ _ _ t) as [r0 s0] eqn:Hc.
    injection H as <- <-. eapply (keeps_contextual_call ac_initialized_block);
      [intros; apply marked_machine| |exact Hc|]; [done|].
    intros [p ->]. destruct Hp. by eexists. }
  destruct (needs_initialize Do (ac_initialized_block s) at_) eqn:Hn.
  - unfold bind. destruct (init s) as [[u|e|p] s1] eqn:Hi.
    + apply Hgo. eapply Hinit; [done|by intros []].
    + intros [= <- <-] _. eapply Hinit; [done|by intros []].
    + intros [= <- <-] []. by eexists.
  - apply Hgo. simpl in Hn. destruct (ac_initialized_block s) as [b|]; [|done].
    case_bool_decide; [by subst|done].
Qed.

Lemma mock_call_marks {T} {DT : Decode T} c method ctx at_ args s r s' :
  can_initialize c at_ ∨ ac_initialized_block s = Some at_ →
  mock_call_api_at (T := T) c (mock_initialize_block c) method ctx true at_ args s = (r, s') →
  ¬ is_Panic r → ac_initialized_block s' = Some at_.
Proof.
  intros Hcan H Hp.
  rewrite mock_call_decodes in H. unfold bind in H.
  destruct (bracket_spec (call_api_at (R := T) c (mock_initialize_block c) at_ method args Do
    None (default OffchainCall ctx) None) s) as [[_ Hp']|(Hp' & s2 & Hb & _ & Hm & _)].
  { apply keeps_call_api_at; [apply opened_machine|intros _; apply initialize_block_opened]. }
  - change (bracket _ s) with
      (mock_call_api_at_native_code (T := T) c (mock_initialize_block c) method ctx true at_ args s)
      in Hp'.
    destruct (mock_call_api_at_native_code _ _ _ _ _ _ _ s) as [[a|e|p] s1];
      [by destruct Hp'..|]. injection H as <- <-. destruct Hp. by eexists.
  - change (bracket _ s) with
      (mock_call_api_at_native_code (T := T) c (mock_initialize_block c) method ctx true at_ args s)
      in Hb. rewrite Hb in H.
    assert (ac_initialized_block s2 = Some at_) as Hs2.
    { rewrite Hm. destruct (call_api_at _ _ _ _ _ _ _ _ _ _) as [r0 s0] eqn:Hc.
      destruct Hcan as [Hcan|Hs]; [by eapply call_api_at_marks|].
      rewrite call_api_at_marked in Hc by done.
      assert (ac_initialized_block s0 = ac_initialized_block
        (set_changes (start_transaction (ac_changes s)) s)) as Hk; [|exact (eq_trans Hk Hs)].
      eapply (keeps_call_api_at ac_initialized_block);
        [intros; apply marked_machine| |exact Hc|exact Hp']; done. }
    destruct (call_api_at _ _ _ _ _ _ _ _ _ _) as [[n|e|p] s0]; cbn in H; by injection H as <- <-.
Qed.

(** ** Panics *)

(** What the object relies on panics in no call it makes. *)
Class QuietServices := {
  quiet_machine R st rec cts method data ext code mgr oc :
    ¬ is_Panic (execute_machine (R := R) st rec cts method data ext code mgr None oc).1;
  quiet_state_at db id : ¬ is_Panic (state_at db id);
  quiet_changes_tries db id : ¬ is_Panic (changes_tries_state_at_block db id);
  quiet_code st : ¬ is_Panic (state_runtime_code st);
  quiet_version st cts code : ¬ is_Panic (version_of st cts code);
  quiet_hash db id : ¬ is_Panic (bc_expect_block_hash_from_id db id);
  quiet_number db id : ¬ is_Panic (bc_expect_block_number_from_id db id);
}.

Definition quiet {E A} (m : M E ApiCells A) : Prop := ∀ s, ¬ is_Panic (m s).1.

Lemma obind_quiet {E A B} (m : outcome E A) (k : A → outcome E B) :
  ¬ is_Panic m → (∀ a, ¬ is_Panic (k a)) → ¬ is_Panic (obind m k).
Proof. intros Hm Hk. destruct m; [apply Hk|by intros []|intros _; destruct Hm; by eexists]. Qed.

Lemma omap_err_quiet {E F A} (g : E → F) (m : outcome E A) :
  ¬ is_Panic m → ¬ is_Panic (omap_err g m).
Proof. intros Hm [p Hp]. destruct Hm. exists p. destruct m; simpl in Hp; congruence. Qed.

Lemma Ok_quiet {E A} (a : A) : ¬ is_Panic (Ok (E := E) a).
Proof. by intros []. Qed.

Lemma bind_quiet {E A B} (m : M E ApiCells A) (k : A → M E ApiCells B) :
  quiet m → (∀ a, quiet (k a)) → quiet (bind m k).
Proof.
  intros Hm Hk s. unfold bind. pose proof (Hm s) as Hs.
  destruct (m s) as [[a|e|p] s1]; [apply Hk|by intros []|]. simpl in *.
  destruct Hs. by eexists.
Qed.

Lemma lift_quiet {E A} (m : outcome E A) : ¬ is_Panic m → quiet (lift m).
Proof. by intros Hm s. Qed.

Lemma catch_err_quiet {E F A} (g : E → F) (m : M E ApiCells A) : quiet m → quiet (catch_err g m).
Proof.
  intros Hm s. unfold catch_err. specialize (Hm s). destruct (m s) as [r s1].
  by apply omap_err_quiet.
Qed.

Lemma on_cells_quiet {A} b (m : M Error (Overlay * option TxCache) A) :
  (∀ oc, ¬ is_Panic (m oc).1) → quiet (on_cells b m).
Proof.
  intros Hm s. unfold on_cells. pose proof (Hm (ac_changes s, if b then Some (ac_storage s) else None)).
  by destruct (m _) as [r [o c]].
Qed.

Context {QS : QuietServices}.

Lemma onchain_code_quiet st : ¬ is_Panic (onchain_code st).
Proof. apply omap_err_quiet, quiet_code. Qed.

Lemma runtime_version_quiet ce id : ¬ is_Panic (runtime_version ce id).
Proof.
  unfold runtime_version. apply obind_quiet; [apply quiet_changes_tries|intros cts].
  apply obind_quiet; [apply quiet_state_at|intros st].
  apply obind_quiet; [apply onchain_code_quiet|intros code].
  apply omap_err_quiet, quiet_version.
Qed.

Lemma check_override_quiet ce code id : ¬ is_Panic (check_override ce code id).
Proof.
  unfold check_override. destruct (ce_wasm_override ce); [|apply Ok_quiet].
  apply obind_quiet; [apply runtime_version_quiet|intros v; apply Ok_quiet].
Qed.

Lemma prepare_environment_quiet c id : ¬ is_Panic (prepare_environment_block c id).
Proof.
  unfold prepare_environment_block. apply obind_quiet; [apply quiet_hash|intros h].
  apply obind_quiet; [apply quiet_number|intros n]. apply Ok_quiet.
Qed.

Lemma contextual_call_quiet {R} ce init at_ method data cache ib mgr rec ext :
  (ib = Do → quiet init) →
  quiet (contextual_call (R := R) ce init at_ method data cache ib mgr None rec ext).
Proof.
  intros Hinit. unfold contextual_call.
  apply bind_quiet; [intros s; apply Ok_quiet|intros b].
  apply bind_quiet.
  { destruct ib; [intros s; apply Ok_quiet|].
    destruct (needs_initialize Do b at_); [by apply Hinit|intros s; apply Ok_quiet]. }
  intros _. apply bind_quiet; [apply lift_quiet, quiet_changes_tries|intros cts].
  apply bind_quiet; [apply lift_quiet, quiet_state_at|intros st].
  destruct rec as [rec|].
  - apply bind_quiet; [apply lift_quiet; by destruct (as_trie_backend st); intros []|intros t].
    apply bind_quiet; [apply lift_quiet, onchain_code_quiet|intros code].
    apply bind_quiet; [apply lift_quiet, check_override_quiet|intros code'].
    apply on_cells_quiet. intros oc. apply quiet_machine.
  - apply bind_quiet; [apply lift_quiet, onchain_code_quiet|intros code].
    apply bind_quiet; [apply lift_quiet, check_override_quiet|intros code'].
    apply on_cells_quiet. intros oc. apply quiet_machine.
Qed.

Lemma call_api_at_quiet {R} c core at_ g args ib ctx rec :
  (ib = Do → ∀ at_ h, quiet (core at_ h)) →
  quiet (call_api_at (R := R) c core at_ g args ib None ctx rec).
Proof.
  intros Hcore. unfold call_api_at. destruct (manager_and_extensions at_ ctx).
  apply catch_err_quiet, contextual_call_quiet. intros Hib.
  apply bind_quiet; [apply lift_quiet, prepare_environment_quiet|intros h].
  by apply catch_err_quiet, Hcore.
Qed.

(** The [expect]s that close a transaction never fire. *)
Lemma native_call_quiet {T} c core method ctx ib at_ args :
  (ib = true → ∀ at_ h, quiet (core at_ h) ∧ keeps opened (core at_ h)) →
  quiet (mock_call_api_at_native_code (T := T) c core method ctx ib at_ args).
Proof.
  intros Hcore s.
  change (mock_call_api_at_native_code c core method ctx ib at_ args s) with
    (bracket (call_api_at (R := T) c core at_ method args (if negb ib then Skip else Do) None
      (default OffchainCall ctx) None) s).
  destruct (bracket_spec (call_api_at (R := T) c core at_ method args
    (if negb ib then Skip else Do) None (default OffchainCall ctx) None) s)
    as [[Hp _]|(Hp & s' & -> & _)]; [| |done].
  - apply keeps_call_api_at; [apply opened_machine|]. destruct ib; [|done].
    intros _ b h. by apply Hcore.
  - exfalso. revert Hp. apply call_api_at_quiet. destruct ib; [|done].
    intros _ b h. by apply Hcore.
Qed.

Lemma mock_call_quiet {T} {DT : Decode T} c core method ctx ib at_ args :
  (ib = true → ∀ at_ h, quiet (core at_ h) ∧ keeps opened (core at_ h)) →
  quiet (mock_call_api_at (T := T) c core method ctx ib at_ args).
Proof.
  intros Hcore s. rewrite mock_call_decodes.
  apply bind_quiet; [by apply native_call_quiet|intros res]. apply lift_quiet.
  destruct res as [n|b]; simpl; [by intros []|]. by destruct (scale_decode b); intros [].
Qed.

Lemma initialize_block_quiet c at_ h : quiet (mock_initialize_block c at_ h).
Proof.
  unfold mock_initialize_block, initialize_block_with.
  apply bind_quiet; [apply lift_quiet, omap_err_quiet, runtime_version_quiet|intros v].
  intros s. unfold bind, attempt.
  match goal with |- context [mock_call_api_at ?c ?f ?m ?x ?i ?a ?g s] =>
    pose proof (mock_call_quiet (T := unit) c f m x i a g) as Hq end.
  specialize (Hq ltac:(done) s). destruct (mock_call_api_at _ _ _ _ _ _ _ s) as [[u|e|p] s1];
    simpl in *; [by intros []|by intros []|done].
Qed.

(** C22. Every method of the object is a storage transaction: whatever runtime
    call is made, unless the process panics the transactions open before are
    the ones open after, and when the call fails the overlay of changes is the
    one before the call, the changes of a block initialization on the way
    included (only a result that cannot be decoded is an error of a call whose
    changes were already committed). *)
Theorem mock_calls_are_transactions {R} (c : ApiClient) (call : ApiCall R) (s s' : ApiCells)
    (r : outcome ApiError R) :
  mock_api c call s = (r, s') → ¬ is_Panic r →
  saved (ac_changes s') = saved (ac_changes s) ∧
  ∀ e, r = Err e → (∀ f m, e ≠ FailedToDecodeReturnValue f m) → ac_changes s' = ac_changes s.
Proof.
  assert (∀ e, (∀ f m, e ≠ FailedToDecodeReturnValue f m) → ¬ decode_failure e) as Hd
    by (intros [f m|] He; [by destruct (He f m)|by intros []]).
  assert (∀ A (m : M ApiError ApiCells A) P r s', transactional m P →
    (∀ e, (∀ f m, e ≠ FailedToDecodeReturnValue f m) → P e) →
    m s = (r, s') → ¬ is_Panic r → saved (ac_changes s') = saved (ac_changes s) ∧
    ∀ e, r = Err e → (∀ f m, e ≠ FailedToDecodeReturnValue f m) → ac_changes s' = ac_changes s)
    as Hgo.
  { intros A m P r0 s0 Ht HP H Hp. destruct (Ht _ _ _ H Hp) as [Ho He]. split; [done|].
    intros e H1 H2. by apply (He e H1), HP. }
  pose proof (initialize_block_opened c) as Hi.
  destruct call; simpl; try (eapply Hgo; [by apply mock_call_transactional|done]).
  - eapply Hgo; [apply initialize_block_transactional|done].
  - destruct params as [b|]; [|by intros [= <- <-] []; eexists].
    eapply Hgo; [by apply native_call_transactional|done].
  - eapply Hgo; [by apply native_call_transactional|done].
  - eapply Hgo; [by apply native_call_transactional|done].
  - intros [= <- <-] []. by eexists.
Qed.

(** The object initializes a block once: after a metadata call at a block
    the block is marked, and as long as it is marked a metadata call at it is
    the bare runtime call, whatever the object's initialization would do.  The
    mark outlives a rollback: when the call (or the initialization itself)
    fails, the changes of the initialization are undone but the next call will
    not initialize the block again.  [initialize_block] never calls the object
    back, so the knot it ties through the client is well founded. *)
Theorem metadata_initializes_once (c : ApiClient) (at_ : BlockId) (s s' : ApiCells)
    (r : outcome ApiError OpaqueMetadata) :
  is_Ok (prepare_environment_block (api_client c) at_) ∧ is_Ok (runtime_version_at c at_) ∨
    ac_initialized_block s = Some at_ →
  mock_metadata c at_ s = (r, s') → ¬ is_Panic r →
  ac_initialized_block s' = Some at_ ∧
  (∀ e, r = Err e → (∀ f m, e ≠ FailedToDecodeReturnValue f m) → ac_changes s' = ac_changes s) ∧
  (∀ t core, ac_initialized_block t = Some at_ →
     mock_metadata c at_ t =
     mock_call_api_at c core "Metadata_metadata" None false at_ (scale_encode ()) t) ∧
  (∀ b h t, mock_initialize_block c b h t =
     initialize_block_with c (mock_initialize_block c) b h t).
Proof.
  intros Hcan H Hp. split_and!.
  - eapply (mock_call_marks (T := OpaqueMetadata)); [exact Hcan|exact H|done].
  - apply (mock_call_transactional (T := OpaqueMetadata)) in H; [|intros _; apply initialize_block_opened].
    destruct H as [_ He]; [done|]. intros e Hr Hd. apply (He e Hr).
    destruct e; [|by intros []]. by destruct (Hd function error).
  - intros t core Ht. by apply mock_call_marked.
  - done.
Qed.

(** The methods the object implements, and the parameters they accept. *)
Definition supported {R} (call : ApiCall R) : bool :=
  match call with
  | CallUnimplemented _ _ | CallExecuteBlockImpl _ _ None => false
  | _ => true
  end.

(** The object implements exactly the runtime calls an import makes: as long
    as the backend and the executor do not panic, the version, the block
    execution and initialization, the metadata, the inherents, the BABE
    configuration and the session keys always return (in particular the
    [expect]s that close a transaction never fire), and every other method of
    its traits, or a block execution without its block, panics and leaves the
    object's cells alone. *)
Theorem supported_calls_return {R} (c : ApiClient) (call : ApiCall R) (s : ApiCells) :
  if supported call then ¬ is_Panic (mock_api c call s).1
  else is_Panic (mock_api c call s).1 ∧ (mock_api c call s).2 = s.
Proof.
  assert (∀ at_ h, quiet (mock_initialize_block c at_ h) ∧
    keeps opened (mock_initialize_block c at_ h)) as Hi
    by (split; [apply initialize_block_quiet|apply initialize_block_opened]).
  destruct call; simpl; try (by apply mock_call_quiet); try (by apply native_call_quiet).
  - apply initialize_block_quiet.
  - destruct params as [b|]; simpl; [by apply native_call_quiet|].
    by split; [eexists|].
  - by split; [eexists|].
Qed.

(** [execute_in_transaction]: a body that keeps the open transactions (as
    every method of the object does) is run inside one; the transactions open
    before are open after; when the body answers [Rollback] all it changed,
    the calls it committed included, is undone, and its value is returned
    either way. *)
Theorem execute_in_transaction_spec {R} (body : M Empty_set ApiCells (TransactionOutcome R))
    (s : ApiCells) (o : TransactionOutcome R) (s1 : ApiCells) :
  (∀ t r t', body t = (r, t') → ¬ is_Panic r → saved (ac_changes t') = saved (ac_changes t)) →
  body (set_changes (start_transaction (ac_changes s)) s) = (Ok o, s1) →
  ∃ s', execute_in_transaction body s = (Ok (into_inner o), s') ∧
    saved (ac_changes s') = saved (ac_changes s) ∧
    match o with
    | Rollback _ => ac_changes s' = ac_changes s
    | Commit _ => Some (ac_changes s') = commit_transaction (ac_changes s1)
    end.
Proof.
  intros Hkeep Hbody.
  assert (saved (ac_changes s1) = ac_changes s :: saved (ac_changes s)) as Hs1.
  { rewrite (Hkeep _ _ _ Hbody ltac:(by intros [])). apply saved_start. }
  unfold execute_in_transaction.
  rewrite (bind_step _ _ _ () (set_changes (start_transaction (ac_changes s)) s)) by done.
  rewrite (bind_step _ _ _ _ _ Hbody). destruct o; unfold commit_or_rollback, close, bind, get.
  - destruct (commit_saved _ _ _ Hs1) as (o' & -> & Ho'). eexists. by split_and!.
  - destruct (rollback_saved _ _ _ Hs1) as (-> & Ho'). eexists. by split_and!.
Qed.

(** ** The mock as the import's runtime API *)

(** The object as the interface of [Chain.v] that importing a block is proved
    against.  [execute_block_with_context] and the other methods generated by
    [decl_runtime_apis!] decode the answer of the [_runtime_api_impl] ones:
    that code is a parameter. *)
Context (client_of : DB → ApiClient)
  (generated_decode : NativeOrEncoded unit → outcome ApiError unit)
  (metadata_bytes : OpaqueMetadata → Bytes).

Definition mock_runtime_api : RuntimeApi := {|
  Api := ApiClient * ApiCells;
  runtime_api db := (client_of db, construct_runtime_api);
  execute_block api id b :=
    let '(r, s) := mock_execute_block api.1 id b api.2 in
    (omap_err runtime_api_error r, (api.1, s));
  execute_block_with_context api id ctx b :=
    let '(r, s) := (let! res := Core_execute_block_runtime_api_impl api.1 id ctx (Some b) in
                    lift (generated_decode res)) api.2 in
    (omap_err runtime_api_error r, (api.1, s));
  into_storage_changes api st cts parent :=
    let '(r, s) := mock_into_storage_changes st cts parent api.2 in (r, (api.1, s));
  runtime_metadata api id :=
    let '(r, s) := mock_metadata api.1 id api.2 in
    (omap_ok metadata_bytes (omap_err runtime_api_error r), (api.1, s));
  ra_changes_tries := CTS;
|}.

(** Taking the storage changes of the object empties it, and a block whose
    execution failed in a new object contributes nothing to them: they are the
    changes of the empty overlay. *)
Theorem mock_discards_failed_execution (db : DB) (id : BlockId) (b : Block) (st : State)
    (cts : option ChangesTrieState) (parent : Hash) (e : ApiError) (s : ApiCells) :
  mock_execute_block (client_of db) id b construct_runtime_api = (Err e, s) →
  (∀ f m, e ≠ FailedToDecodeReturnValue f m) →
  let api := @runtime_api _ _ _ mock_runtime_api db in
  let '(r, api') := @execute_block _ _ _ mock_runtime_api api id b in
  r = Err (runtime_api_error e) ∧
  @into_storage_changes _ _ _ mock_runtime_api api' st cts parent =
    (overlay_into_storage_changes overlay_default st cts parent (ac_storage s), api).
Proof.
  intros H He. simpl. rewrite H. split; [done|]. unfold mock_into_storage_changes. simpl.
  apply (mock_call_transactional (T := unit)) in H; [|done].
  destruct H as [_ H]; [by intros []|]. rewrite (H e eq_refl); [done|].
  destruct e; [|by intros []]. by destruct (He function error).
Qed.
End mock.

(** ** Witnesses *)

#[local] Existing Instance ref_chain.
#[local] Existing Instance ref_types.
#[local] Existing Instance ref_backend.
#[local] Existing Instance ref_runtime_types.
#[local] Existing Instance ref_runtime_api.
#[local] Existing Instance fs_reference.
#[local] Existing Instance code_reference.
#[local] Existing Instance machine_reference.
#[local] Existing Instance listeners_reference.

Definition overlay_reference : OverlayTransactions := {|
  start_transaction o := (o.1, o.1 :: o.2);
  commit_transaction o := match o.2 with [] => None | _ :: st => Some (o.1, st) end;
  rollback_transaction o := match o.2 with [] => None | c :: st => Some (c, st) end;
  overlay_into_storage_changes o _ _ _ _ :=
    Ok {| main_storage_changes := (λ k, (k, None)) <$> o.1; child_storage_changes := [];
          offchain_storage_changes := (); transaction := []; transaction_storage_root := 0%Z;
          changes_trie_transaction := None; transaction_index_changes := () |};
  version_apis v := [(ID, v)];
  manager_and_extensions _ _ := ((), ());
|}.
#[local] Existing Instance overlay_reference.

Definition api_errors_reference : ApiErrors :=
  {| into_api_error e := ApiApplication e; runtime_api_error e := RuntimeApiError "api" |}.
#[local] Existing Instance api_errors_reference.

Definition api_types_reference : ApiTypes := {|
  InherentData := unit; CheckInherentsResult := unit; OpaqueMetadata := string;
  BabeGenesisConfiguration := unit |}.
#[local] Existing Instance api_types_reference.

#[local] Instance encode_unit_reference : Encode unit := λ _, "".
#[local] Instance encode_block_reference : Encode Block :=
  λ b, if decide ("bad" ∈ b_extrinsics b) then "bad" else "block".
#[local] Instance encode_header_reference : Encode Header := λ h, pretty (h_number h).
#[local] Instance encode_inherents_reference : Encode (Block * InherentData) := λ _, "block".
#[local] Instance encode_seed_reference : Encode (option Bytes) := λ s, default "" s.
#[local] Instance decode_unit_reference : Decode unit := λ _, inr ().
#[local] Instance decode_version_reference : Decode RuntimeVersion := λ _, inr 1%Z.
#[local] Instance decode_bytes_reference : Decode Bytes := λ b, inr b.

(** The logs an overlay saved, each with the ones saved before it. *)
Fixpoint saved_logs (st : list (list string)) : list (list string * list (list string)) :=
  match st with
  | [] => []
  | c :: st => (c, st) :: saved_logs st
  end.

#[local] Instance overlay_laws_reference : OverlayLaws.
Proof.
  refine {| saved := λ o : Overlay, saved_logs o.2 |}.
  - by intros [c st].
  - intros [c [|d st]] p ps; simpl; [done|]. intros [= <- <-]. by eexists.
  - intros [c [|d st]] p ps; simpl; [done|]. by intros [= <- <-].
  - intros R st rec cts method data ext code mgr nc oc r oc'. simpl.
    by intros [= <- <-] _.
Defined.

#[local] Instance quiet_reference : QuietServices.
Proof.
  split; intros; try (by intros []).
  - simpl. by case_decide; intros [].
  - simpl. unfold ok_or. by destruct (_ ≫= _); intros [].
  - simpl. by destruct (ref_resolve db id); intros [].
  - simpl. by destruct (ref_resolve db id ≫= ref_number db); intros [].
Defined.

Definition sample_api_client : ApiClient :=
  {| api_client := sample_client; api_executor := sample_call_executor |}.
Definition bad_block : Block := new_block (sample_header 3 0 202) ["bad"].
Definition logged (l : list string) : ApiCells := mk_cells None (l, []) ().

Lemma mock_calls_are_transactions_witness :
  ∃ s, mock_api sample_api_client (CallExecuteBlock (IdNumber 2) bad_block) (logged ["x"]) =
    (Err (ApiApplication (OtherError "fail")), s) ∧ ac_changes s = (["x"], []).
Proof.
  eexists. split; [vm_compute; reflexivity|].
  refine (proj2 (mock_calls_are_transactions sample_api_client
    (CallExecuteBlock (IdNumber 2) bad_block) (logged ["x"]) _
    (Err (ApiApplication (OtherError "fail"))) _ _) _ eq_refl _).
  - vm_compute. reflexivity.
  - intros []. discriminate.
  - discriminate.
Defined.

Lemma metadata_initializes_once_witness :
  ∃ s, mock_metadata sample_api_client (IdNumber 2) construct_runtime_api = (Ok "x", s) ∧
    ac_changes s = (["Core_initialise_block"; "Metadata_metadata"], []) ∧
    ac_initialized_block s = Some (IdNumber 2).
Proof.
  eexists. split; [vm_compute; reflexivity|]. split; [reflexivity|].
  refine (proj1 (metadata_initializes_once sample_api_client (IdNumber 2)
    construct_runtime_api _ (Ok "x") _ _ _)).
  - left. split; eexists; vm_compute; reflexivity.
  - vm_compute. reflexivity.
  - intros []. discriminate.
Defined.

Lemma supported_calls_return_witness :
  ¬ is_Panic (mock_api sample_api_client (CallMetadata (IdNumber 7)) construct_runtime_api).1.
Proof.
  exact (supported_calls_return sample_api_client (CallMetadata (IdNumber 7))
    construct_runtime_api).
Defined.

Definition good_block : Block := new_block (sample_header 3 0 202) ["a"].

Definition executed_overlay : Overlay := (["x"; "Core_execute_block"], [["x"]]).
(** A block executed in a transaction that is given up. *)
Definition rolled_back_body : M Empty_set ApiCells (TransactionOutcome unit) := λ s,
  (Ok (Rollback ()), (mock_execute_block sample_api_client (IdNumber 2) good_block s).2).

Lemma execute_in_transaction_spec_witness :
  ∃ s, execute_in_transaction rolled_back_body (logged ["x"]) = (Ok (), s) ∧
    ac_changes s = (["x"], []).
Proof.
  destruct (execute_in_transaction_spec rolled_back_body (logged ["x"]) (Rollback ())
    (mk_cells None executed_overlay ())) as (s & H & _ & Hs).
  - intros t r t' H _. injection H as <- <-.
    destruct (mock_execute_block _ _ _ t) as [r t'] eqn:E.
    unfold mock_execute_block in E. refine (proj1 (mock_call_transactional (T := unit) _ _ _ _ _ _ _ _ _ _ _ E _)); [done|].
    change r with (r, t').1. rewrite <- E. by apply (mock_call_quiet (T := unit)).
  - vm_compute. reflexivity.
  - exists s. split; [exact H|exact Hs].
Defined.

Lemma mock_discards_failed_execution_witness :
  ∃ s, mock_execute_block sample_api_client (IdNumber 2) bad_block construct_runtime_api =
    (Err (ApiApplication (OtherError "fail")), s) ∧
  let mock := mock_runtime_api (λ _, sample_api_client) (λ _, Ok ()) id in
  (@into_storage_changes _ _ _ mock
     (@execute_block _ _ _ mock (@runtime_api _ _ _ mock sample_db) (IdNumber 2) bad_block).2
     sample_state None 202%Z).1 =
  overlay_into_storage_changes overlay_default sample_state None 202%Z tx_cache_default.
Proof.
  eexists. split; [vm_compute; reflexivity|].
  pose proof (mock_discards_failed_execution (λ _, sample_api_client) (λ _, Ok ()) id
    sample_db (IdNumber 2) bad_block sample_state None 202%Z
    (ApiApplication (OtherError "fail")) construct_runtime_api
    ltac:(vm_compute; reflexivity) ltac:(discriminate)) as H.
  cbv zeta in H |- *. destruct (execute_block _ _ _) as [r api']. destruct H as [_ H].
  cbn [snd]. rewrite H. reflexivity.
Defined.
