(* ===== verification/WasmArchive.v ===== *)
(** * The archive on the mock runtime API

    [BlockExecutor.v] archives blocks against the runtime API interface of
    [Chain.v], [RuntimeMock.v] implements that interface on the call executor of
    [CallExecutor.v].  Here the three are joined: what a request publishes is
    described by one run of the chain's wasm code, and the path through the
    object's cells, its storage transactions and the client's call is proved to
    come to that.  No further code is modelled. *)

From S2P Require Import Prelude Chain Postgres Kafka ArchiveCore VersionCache Reference.
From S2P Require Import BlockExecutor Steps.
From S2P Require Import Notifies Client ClientQueries CallExecutor RuntimeMock.

Section wasm.
Context `{CT : ChainTypes, BT : BackendTypes, BE : !Backend, RT : RuntimeTypes,
  CTS : !ChangesTrieStorage, FS : FileSystem, CR : !CodeRuntime, SM : !StateMachine,
  OT : !OverlayTransactions, SL : !StorageListeners, AE : ApiErrors, AT : ApiTypes}.
Context {EU : Encode unit} {EB : Encode Block} {EH : Encode Header}
  {EI : Encode (Block * InherentData)} {ES : Encode (option Bytes)}
  {DU : Decode unit} {DV : Decode RuntimeVersion} {DM : Decode OpaqueMetadata}
  {DC : Decode CheckInherentsResult} {DG : Decode BabeGenesisConfiguration}
  {DB_ : Decode Bytes}.
Context {OL : OverlayLaws}.
Context {VA : VersionApi} {JT : JsonTypes} {C : Type} {AC : ArchiveCore C}.
Context (client_of : DB → ApiClient)
  (generated_decode : NativeOrEncoded unit → outcome ApiError unit)
  (metadata_bytes : OpaqueMetadata → Bytes).

#[local] Instance mock_instance : RuntimeApi :=
  mock_runtime_api client_of generated_decode metadata_bytes.

(** ** The specification: one run of the wasm code *)

(** The code of the block's state, or the override of its version. *)
Definition wasm_code (ce : LocalCallExecutor) (id : BlockId) :
    result (option ChangesTrieState * State * RuntimeCode) :=
  let? cts := changes_tries_state_at_block (ce_backend ce) id in
  let? state := state_at (ce_backend ce) id in
  let? code := onchain_code state in
  let? code := check_override ce code id in
  Ok (cts, state, code).

(** What executing a block writes: the overlay of the run if it succeeds, and
    nothing if it fails or could not be started. *)
Definition wasm_writes (ce : LocalCallExecutor) (ctx : ExecutionContext) (id : BlockId)
    (b : Block) : outcome string (Overlay * TxCache) :=
  let '(mgr, ext) := manager_and_extensions id ctx in
  match wasm_code ce id with
  | Panic p => Panic p
  | Err _ => Ok (overlay_default, tx_cache_default)
  | Ok (cts, state, code) =>
      let '(r, (o, cache)) :=
        execute_machine (R := unit) state None cts "Core_execute_block" (scale_encode b) ext code
          mgr None (start_transaction overlay_default, Some tx_cache_default) in
      match r with
      | Panic p => Panic p
      | Err _ => Ok (overlay_default, default tx_cache_default cache)
      | Ok _ => Ok (default o (commit_transaction o), default tx_cache_default cache)
      end
  end.

(** ** The path through the object *)

(** A call without initialization, as the client runs it. *)
Lemma call_api_at_wasm {R} c core id f args ctx s :
  call_api_at (R := R) c core id f args Skip None ctx None s =
  let '(mgr, ext) := manager_and_extensions id ctx in
  match wasm_code (api_executor c) id with
  | Panic p => (Panic p, s)
  | Err e => (Err (into_api_error e), s)
  | Ok (cts, state, code) =>
      let '(r, (o, cache)) :=
        execute_machine (R := R) state None cts f args ext code mgr None
          (ac_changes s, Some (ac_storage s)) in
      (omap_err into_api_error r,
       mk_cells (ac_initialized_block s) o (default (ac_storage s) cache))
  end.
Proof.
  unfold call_api_at, wasm_code, catch_err. destruct (manager_and_extensions id ctx) as [mgr ext].
  unfold contextual_call, bind, gets, ret, lift, on_cells. simpl.
  destruct (changes_tries_state_at_block _ _) as [cts|e|p]; simpl; [|done..].
  destruct (state_at _ _) as [state|e|p]; simpl; [|done..].
  destruct (onchain_code state) as [code|e|p]; simpl; [|done..].
  destruct (check_override _ _ _) as [code'|e|p]; simpl; [|done..].
  by destruct (execute_machine _ _ _ _ _ _ _ _ _ _) as [r [o cache]].
Qed.

(** The object executes the block in a transaction, which it closes. *)
Lemma native_execute_block_wasm c core ctx id b :
  let '(r, s) := mock_call_api_at_native_code (T := unit) c core "Core_execute_block" (Some ctx)
    false id (scale_encode b) construct_runtime_api in
  match wasm_writes (api_executor c) ctx id b with
  | Panic p => r = Panic p
  | Err _ => False
  | Ok (o, cache) => ¬ is_Panic r ∧ ac_changes s = o ∧ ac_storage s = cache
  end.
Proof.
  unfold mock_call_api_at_native_code, bind, attempt. simpl.
  rewrite call_api_at_wasm. unfold wasm_writes.
  destruct (manager_and_extensions id ctx) as [mgr ext].
  pose proof (saved_start overlay_default) as Hsaved.
  destruct (rollback_saved _ _ _ Hsaved) as [Hback _].
  destruct (wasm_code (api_executor c) id) as [[[cts state] code]|e|p]; simpl; [| |done].
  2: { unfold close, bind, get. simpl. rewrite Hback. split; [by intros []|done]. }
  destruct (execute_machine _ _ _ _ _ _ _ _ _ _) as [r [o cache]] eqn:Hrun.
  assert (¬ is_Panic r → saved o = overlay_default :: saved overlay_default) as Ho
    by (intros Hp; rewrite <- Hsaved; exact (machine_balanced _ _ _ _ _ _ _ _ _ _ _ _ _ Hrun Hp)).
  destruct r as [res|e|p]; simpl; [| |done]; specialize (Ho ltac:(by intros []));
    unfold close, bind, get; simpl.
  - destruct (commit_saved _ _ _ Ho) as (o' & -> & _). split; [by intros []|done].
  - destruct (rollback_saved _ _ _ Ho) as [-> _]. split; [by intros []|done].
Qed.

Lemma mock_execute_block_wasm c id b :
  let '(r, s) := mock_execute_block c id b construct_runtime_api in
  match wasm_writes (api_executor c) OffchainCall id b with
  | Panic p => r = Panic p
  | Err _ => False
  | Ok (o, cache) => ¬ is_Panic r ∧ ac_changes s = o ∧ ac_storage s = cache
  end.
Proof.
  unfold mock_execute_block. rewrite mock_call_decodes.
  pose proof (native_execute_block_wasm c (mock_initialize_block c) OffchainCall id b) as H.
  change (mock_call_api_at_native_code c ?core ?m None) with
    (mock_call_api_at_native_code (T := unit) c core m (Some OffchainCall)).
  unfold bind, lift. destruct (mock_call_api_at_native_code _ _ _ _ _ _ _ _) as [r s].
  destruct (wasm_writes _ _ _ _) as [[o cache]|e|p]; [|done|by subst r].
  destruct H as [Hp H]. destruct r as [[n|bytes]|e|p]; simpl; [split; [by intros []|done]| | |].
  - destruct (scale_decode bytes); (split; [by intros []|done]).
  - split; [by intros []|done].
  - destruct Hp. by eexists.
Qed.

(** ** What the archive publishes *)

(** The storage changes of a block, as the specification sees them. *)
Definition wasm_changes (self : BlockExecutor (C := C)) (sb : SignedBlock) (st : State) :
    outcome string StorageChanges :=
  let? writes := wasm_writes (api_executor (client_of (ex_client self))) OffchainCall
    (IdHash (parent_of sb)) (unsealed sb) in
  overlay_into_storage_changes writes.1 st None (parent_of sb) writes.2.

Lemma execute_block_wasm (self : BlockExecutor (C := C)) n sb st :
  get_block (archive_core self) n = Ok (Some sb) →
  get_state (archive_core self) (IdHash (parent_of sb)) = Ok st →
  execute_block_and_into_storage_changes self n =
  match wasm_changes self sb st with
  | Panic p => Panic p
  | Err _ => Ok None
  | Ok ch => Ok (Some (ch, sb))
  end.
Proof.
  intros Hb Hst. unfold execute_block_and_into_storage_changes. rewrite Hb. simpl.
  unfold parent_of in Hst. rewrite Hst. fold (parent_of sb) (unsealed sb).
  unfold wasm_changes.
  pose proof (mock_execute_block_wasm (client_of (ex_client self)) (IdHash (parent_of sb))
    (unsealed sb)) as H.
  destruct (mock_execute_block _ _ _ _) as [r s].
  destruct (wasm_writes _ _ _ _) as [[o cache]|e|p]; simpl; [|done|].
  - destruct H as (Hp & <- & <-). unfold mock_into_storage_changes. simpl.
    destruct r as [u|e|p]; simpl; [done|done|]. destruct Hp. by eexists.
  - by subst r.
Qed.

(** C13. The archive publishes what the chain's own code writes.  A request for a
    block runs [Core_execute_block] once, on a fresh overlay, with the code of
    the parent's state or the override of its version, in the client's
    database; the message holds the changes of that run if it succeeds and
    those of an empty overlay if it fails (its error, and whether its result
    could be decoded, change nothing), under the version an uncached read
    gives for the number.  Nothing is sent when the changes cannot be taken
    (but for the number 0) or no version is found: then the task panics. *)
Theorem archive_publishes_wasm_writes (self : BlockExecutor (C := C)) (n : Z) (s : ExecutorState)
    (sb : SignedBlock) (st : State) :
  cache_inv (vc_backend self) (ex_cache s) → no_collision (vc_backend self) →
  get_block (archive_core self) n = Ok (Some sb) →
  get_state (archive_core self) (IdHash (parent_of sb)) = Ok st →
  let '(r, s') := executor_archive self n s in
  match wasm_changes self sb st, fresh_version (vc_backend self) (IdNumber n) with
  | Ok ch, Ok (Some v) =>
      let m := storages_map self n (main_storage_changes ch) in
      r = Ok () ∧ comparer_send s' = comparer_send s ++ [n] ∧
      archiver_send s' = archiver_send s ++
        [(block_model n (rv_spec_version v) sb m, block_payload (rv_spec_version v) sb m)]
  | Err _, _ =>
      archiver_send s' = archiver_send s ∧
      if decide (n = 0)%Z then r = Ok () ∧ comparer_send s' = comparer_send s ++ [n]
      else is_Panic r ∧ comparer_send s' = comparer_send s
  | _, _ => is_Panic r ∧ archiver_send s' = archiver_send s ∧ comparer_send s' = comparer_send s
  end.
Proof.
  intros I Hcol Hb Hst. pose proof (executor_archive_refines self n s I Hcol) as H.
  unfold executor_answer in H. rewrite (execute_block_wasm self n sb st Hb Hst) in H.
  destruct (executor_archive self n s) as [r s']. destruct H as [_ H].
  destruct (wasm_changes self sb st) as [ch|e|p]; simpl in H.
  - destruct (fresh_version _ _) as [[v|]|e|p]; destruct H as [-> [= -> ->]];
      [done|..]; (split; [by eexists|done]).
  - case_decide; destruct H as [-> [= -> ->]]; simpl; rewrite ?app_nil_r; split_and!; try done.
    by eexists.
  - destruct H as [-> [= -> ->]]. split; [by eexists|done].
Qed.
End wasm.

(** ** Witness: block 2, and a block whose execution fails *)

#[local] Existing Instance ref_chain.
#[local] Existing Instance ref_types.
#[local] Existing Instance ref_backend.
#[local] Existing Instance ref_runtime_types.
#[local] Existing Instance ref_version_api.
#[local] Existing Instance ref_json.
#[local] Existing Instance machine_reference.
#[local] Existing Instance overlay_reference.
#[local] Existing Instance api_errors_reference.
#[local] Existing Instance api_types_reference.
#[local] Existing Instance overlay_laws_reference.
#[local] Existing Instance fs_reference.
#[local] Existing Instance code_reference.
#[local] Existing Instance listeners_reference.
#[local] Existing Instance encode_unit_reference.
#[local] Existing Instance encode_block_reference.
#[local] Existing Instance encode_header_reference.
#[local] Existing Instance encode_inherents_reference.
#[local] Existing Instance encode_seed_reference.
#[local] Existing Instance decode_unit_reference.
#[local] Existing Instance decode_version_reference.
#[local] Existing Instance decode_bytes_reference.
#[local] Instance wasm_tries_reference : ChangesTrieStorage :=
  {| changes_tries_state_at_block db id := Ok None |}.

Definition wasm_api : RuntimeApi :=
  mock_runtime_api (λ _, sample_api_client) (λ _, Ok ()) id.
#[local] Existing Instance wasm_api.

Definition wasm_executed (self : BlockExecutor (C := LocalBackendCore)) (n : Z) :
    outcome Error unit * ExecutorState := executor_archive self n sample_executor_state.
Definition failing_block : SignedBlock :=
  {| sb_block := new_block (sample_header 1 1 0) ["bad"]; sb_justifications := None |}.
Definition upgrading_block : SignedBlock :=
  {| sb_block := new_block (sample_header 2 2 101) ["upgrade"]; sb_justifications := None |}.
(** The changes of an overlay with these entries ([overlay_reference]). *)
Definition written (keys : list string) : StorageChanges :=
  {| main_storage_changes := (λ k, (k, None)) <$> keys; child_storage_changes := [];
     offchain_storage_changes := (); transaction := []; transaction_storage_root := 0%Z;
     changes_trie_transaction := None; transaction_index_changes := () |}.

Lemma archive_publishes_wasm_writes_witness :
  let published n self := (λ msg, (bp_spec_version msg.2, bp_main_changes msg.2)) <$>
    archiver_send (wasm_executed self n).2 in
  published 2%Z sample_executor = [(2%Z, {["Core_execute_block" := None]})] ∧
  published 1%Z bad_executor = [(1%Z, ∅)].
Proof.
  assert (∀ self n sb st ch v, get_block (archive_core self) n = Ok (Some sb) →
    get_state (archive_core self) (IdHash (parent_of sb)) = Ok st →
    wasm_changes (λ _, sample_api_client) self sb st = Ok ch →
    fresh_version (vc_backend self) (IdNumber n) = Ok (Some v) →
    (λ msg, (bp_spec_version msg.2, bp_main_changes msg.2)) <$>
      archiver_send (wasm_executed self n).2 =
    [(rv_spec_version v, storages_map self n (main_storage_changes ch))]) as Hgo.
  { intros self n sb st ch v Hb Hst Hch Hv.
    pose proof (archive_publishes_wasm_writes (λ _, sample_api_client) (λ _, Ok ()) id
      self n sample_executor_state sb st (version_cache_new_inv _) (sample_no_collision _) Hb Hst) as H.
    change (executor_archive self n sample_executor_state) with (wasm_executed self n) in H.
    destruct (wasm_executed self n) as [r s']. rewrite Hch, Hv in H. destruct H as (_ & _ & H).
    simpl. rewrite H. reflexivity. }
  split.
  - rewrite (Hgo sample_executor 2%Z upgrading_block ["a"] (written ["Core_execute_block"]) 2%Z);
      vm_compute; reflexivity.
  - rewrite (Hgo bad_executor 1%Z failing_block [] (written []) 1%Z); vm_compute; reflexivity.
Defined.
