(* ===== verification/WasmReplay.v ===== *)
(** * The mock runtime API replays blocks

    [Replay.v] is proved against a law of the runtime API ([ReplayLaws]).  Here
    the object of [RuntimeMock.v] is shown to keep it, from what Substrate
    promises of its state machine.  No further code is modelled. *)

From S2P Require Import Prelude Chain Postgres Kafka ArchiveCore VersionCache Reference.
From S2P Require Import BlockExecutor Steps Notifies Client Replay.
From S2P Require Import ClientQueries CallExecutor RuntimeMock WasmArchive.

Section wasm.
Context `{CT : ChainTypes, BT : BackendTypes, BE : !Backend, RT : RuntimeTypes,
  CTS : !ChangesTrieStorage, FS : FileSystem, CR : !CodeRuntime, SM : !StateMachine,
  OT : !OverlayTransactions, SL : !StorageListeners, AE : ApiErrors, AT : ApiTypes}.
Context {EU : Encode unit} {EB : Encode Block} {EH : Encode Header}
  {EI : Encode (Block * InherentData)} {ES : Encode (option Bytes)}
  {DU : Decode unit} {DV : Decode RuntimeVersion} {DM : Decode OpaqueMetadata}
  {DC : Decode CheckInherentsResult} {DG : Decode BabeGenesisConfiguration}
  {DB_ : Decode Bytes}.
Context {OL : OverlayLaws}.
Context (client_of : DB → ApiClient)
  (generated_decode : NativeOrEncoded unit → outcome ApiError unit)
  (metadata_bytes : OpaqueMetadata → Bytes).

(** What Substrate promises: executing a block does not depend on the execution
    strategy and the extensions of the caller's context, the code of a block
    is a part of its state, and the changes tries are built beside the main
    changes of an overlay, not into them. *)
Class ContextLaws := {
  machine_context st rec cts data ext ext' code mgr mgr' nc oc :
    execute_machine (R := unit) st rec cts "Core_execute_block" data ext code mgr nc oc =
    execute_machine (R := unit) st rec cts "Core_execute_block" data ext' code mgr' nc oc;
  code_of_state db db' id st : state_at db id = Ok st → state_at db' id = Ok st →
    wasm_code (api_executor (client_of db)) id = wasm_code (api_executor (client_of db')) id;
  changes_of_overlay o st cts parent cache ch :
    overlay_into_storage_changes o st cts parent cache = Ok ch →
    ∃ ch', overlay_into_storage_changes o st None parent cache = Ok ch' ∧
      main_storage_changes ch' = main_storage_changes ch;
}.
Context {CL : ContextLaws}.

(** A block writes the same in every context, on every database with its
    parent's state. *)
Lemma wasm_writes_replays db db' id ctx ctx' b st :
  state_at db id = Ok st → state_at db' id = Ok st →
  wasm_writes (api_executor (client_of db)) ctx id b =
  wasm_writes (api_executor (client_of db')) ctx' id b.
Proof.
  intros H H'. unfold wasm_writes. rewrite (code_of_state db db' id st H H').
  destruct (manager_and_extensions id ctx) as [mgr ext], (manager_and_extensions id ctx') as [mgr' ext'].
  destruct (wasm_code _ _) as [[[cts state] code]|e|p]; [|done..].
  by rewrite (machine_context _ _ _ _ ext ext' code mgr mgr').
Qed.

(** The import's call, with the context it names. *)
Lemma impl_execute_block_wasm c ctx id b r s :
  Core_execute_block_runtime_api_impl c id ctx (Some b) construct_runtime_api = (Ok r, s) →
  wasm_writes (api_executor c) ctx id b = Ok (ac_changes s, ac_storage s).
Proof.
  intros H. pose proof (native_execute_block_wasm c (mock_initialize_block c) ctx id b) as Hw.
  change (mock_call_api_at_native_code c (mock_initialize_block c) "Core_execute_block" (Some ctx)
    false id (scale_encode b) construct_runtime_api = (Ok r, s)) in H.
  rewrite H in Hw. destruct (wasm_writes _ _ _ _) as [[o cache]|e|p]; [|done..].
  by destruct Hw as (_ & -> & ->).
Qed.

#[local] Instance replay_instance : RuntimeApi :=
  mock_runtime_api client_of generated_decode metadata_bytes.

(** The implementation keeps the law of its client. *)
Lemma mock_replays : ReplayLaws.
Proof.
  split. intros db db' id ctx b parent st cts api' ch' Hst Hst' Hx Hch.
  simpl in Hx. unfold bind, lift in Hx.
  destruct (Core_execute_block_runtime_api_impl (client_of db') id ctx (Some b) construct_runtime_api)
    as [[res|e|p] s'] eqn:Hi; [|done..].
  injection Hx as _ <-. apply impl_execute_block_wasm in Hi.
  pose proof (mock_execute_block_wasm (client_of db) id b) as H.
  rewrite (wasm_writes_replays db db' id _ ctx b st Hst Hst'), Hi in H.
  simpl in *. destruct (mock_execute_block _ _ _ _) as [r s]. destruct H as (Hp & Ho & Hc).
  split.
  - destruct r; [by intros []..|]. destruct Hp. by eexists.
  - simpl in *. rewrite Ho, Hc. apply changes_of_overlay in Hch as (ch & Hch & Hm). by exists ch.
Qed.
End wasm.

(** ** The laws hold of the reference machine *)

#[local] Existing Instance ref_chain.
#[local] Existing Instance ref_types.
#[local] Existing Instance ref_backend.
#[local] Existing Instance ref_runtime_types.
#[local] Existing Instance machine_reference.
#[local] Existing Instance overlay_reference.
#[local] Existing Instance api_errors_reference.
#[local] Existing Instance api_types_reference.
#[local] Existing Instance overlay_laws_reference.
#[local] Existing Instance fs_reference.
#[local] Existing Instance code_reference.
#[local] Existing Instance listeners_reference.
#[local] Existing Instance encode_unit_reference.
#[local] Existing Instance encode_block_reference.
#[local] Existing Instance encode_header_reference.
#[local] Existing Instance encode_inherents_reference.
#[local] Existing Instance encode_seed_reference.
#[local] Existing Instance decode_unit_reference.
#[local] Existing Instance decode_version_reference.
#[local] Existing Instance decode_bytes_reference.
#[local] Existing Instance wasm_tries_reference.

Lemma ref_context_laws : ContextLaws (λ _, sample_api_client).
Proof. split; [done|done|]. intros o st cts parent cache ch [= <-]. by eexists. Qed.

(** The object on the reference machine replays what was imported. *)
Example ref_mock_replays : ReplayLaws (RA := wasm_api).
Proof. exact (mock_replays (AT := api_types_reference) _ _ _ (CL := ref_context_laws)). Qed.
