(* ===== verification/WasmMetadata.v ===== *)
(** * Metadata on the mock runtime API

    The archiver asks for the metadata of a new version through the object of
    [RuntimeMock.v], which initializes the block first.  What ends in the tables
    and in Kafka is described here by two runs of the chain's wasm code, and the
    path through the object's cells, its nested storage transactions, the
    client's call and the archiver is proved to come to that.  No further code is
    modelled. *)

From S2P Require Import Prelude Chain Postgres Kafka ArchiveCore VersionCache Reference.
From S2P Require Import BlockExecutor Notifier Steps Pipeline.
From S2P Require Import Notifies Client ClientQueries CallExecutor RuntimeMock WasmArchive.

Section wasm.
Context `{CT : ChainTypes, BT : BackendTypes, BE : !Backend, RT : RuntimeTypes,
  CTS : !ChangesTrieStorage, FS : FileSystem, CR : !CodeRuntime, SM : !StateMachine,
  OT : !OverlayTransactions, SL : !StorageListeners, AE : ApiErrors, AT : ApiTypes}.
Context {EU : Encode unit} {EB : Encode Block} {EH : Encode Header}
  {EI : Encode (Block * InherentData)} {ES : Encode (option Bytes)}
  {DU : Decode unit} {DV : Decode RuntimeVersion} {DM : Decode OpaqueMetadata}
  {DC : Decode CheckInherentsResult} {DG : Decode BabeGenesisConfiguration}
  {DB_ : Decode Bytes}.
Context {OL : OverlayLaws}.

(** ** The specification: two runs of the wasm code *)

(** The answer of one run of the code of a block's state, if it has one, and
    what the run leaves of the overlay and the cache. *)
Definition wasm_answer {R} `{Decode R} (ce : LocalCallExecutor) (id : BlockId) (method : string)
    (args : Bytes) (oc : Overlay * TxCache) : option (R * (Overlay * TxCache)) :=
  let '(mgr, ext) := manager_and_extensions id OffchainCall in
  match wasm_code ce id with
  | Ok (cts, state, code) =>
      match execute_machine (R := R) state None cts method args ext code mgr None
              (oc.1, Some oc.2) with
      | (Ok res, (o, cache)) =>
          match decode_result method res with
          | Ok a => Some (a, (o, default oc.2 cache))
          | _ => None
          end
      | _ => None
      end
  | _ => None
  end.

(** The overlay in which the next block has been initialized on this one, in a
    transaction of its own. *)
Definition wasm_initialized (c : ApiClient) (id : BlockId) (oc : Overlay * TxCache) :
    option (Overlay * TxCache) :=
  match runtime_version (api_executor c) id, prepare_environment_block (api_client c) id with
  | Ok v, Ok header =>
      '(_, (o, cache)) ← wasm_answer (R := unit) (api_executor c) id (initialize_method v)
        (scale_encode header) (start_transaction oc.1, oc.2);
      Some (default o (commit_transaction o), cache)
  | _, _ => None
  end.

(** The metadata that the code of a block's state declares after that. *)
Definition wasm_metadata (c : ApiClient) (id : BlockId) : option OpaqueMetadata :=
  oc ← wasm_initialized c id (start_transaction overlay_default, tx_cache_default);
  fst <$> wasm_answer (api_executor c) id "Metadata_metadata" (scale_encode ()) oc.

(** ** The path through the object *)

(** What a call leaves in the cells. *)
Definition cells_of (s : ApiCells) : Overlay * TxCache := (ac_changes s, ac_storage s).

(** A call has this answer, once it is decoded, or none. *)
Definition answers {R} `{Decode R} (method : string) (answer : option (R * (Overlay * TxCache)))
    (call : outcome ApiError (NativeOrEncoded R) * ApiCells) : Prop :=
  match answer with
  | Some (a, oc) => ∃ res, call.1 = Ok res ∧ decode_result method res = Ok a ∧ cells_of call.2 = oc
  | None => ∀ res, call.1 = Ok res → ¬ is_Ok (decode_result method res)
  end.

(** A call without initialization runs the code once. *)
Lemma call_answer {R} `{Decode R} c core id method args s :
  answers method (wasm_answer (R := R) (api_executor c) id method args (cells_of s))
    (call_api_at (R := R) c core id method args Skip None OffchainCall None s).
Proof.
  unfold answers. rewrite call_api_at_wasm. unfold wasm_answer.
  destruct (manager_and_extensions id OffchainCall) as [mgr ext].
  destruct (wasm_code (api_executor c) id) as [[[cts state] code]|e|p]; [|done..]. simpl.
  destruct (execute_machine _ _ _ _ _ _ _ _ _ _) as [[res|e|p] [o cache]]; [|done..].
  destruct (decode_result method res) as [a|e|p] eqn:Ha; [by eexists|..];
    intros res' [= <-]; rewrite Ha; by intros [].
Qed.

(** A bracketed call commits what it wrote if it succeeds. *)
Lemma bracket_answer {A} (m : M ApiError ApiCells A) s :
  keeps opened m →
  match m (set_changes (start_transaction (ac_changes s)) s) with
  | (Ok a, s2) => bracket m s =
      (Ok a, set_changes (default (ac_changes s2) (commit_transaction (ac_changes s2))) s2)
  | _ => ¬ is_Ok (bracket m s).1
  end.
Proof.
  intros Hm. destruct (start_opened s) as [Hst Ho].
  pose proof (bracket_spec m s Hm) as Hb. cbn zeta in Hb.
  destruct (m (set_changes _ s)) as [[a|e|p] s2] eqn:Hr; simpl in Hb.
  - assert (opened s2 = ac_changes s :: opened s) as Ho2
      by (rewrite <- Ho; eapply Hm; [exact Hr|by intros []]).
    destruct (commit_saved _ _ _ Ho2) as (o' & Hc & _). rewrite Hc.
    unfold bracket. rewrite (bind_step _ _ _ _ _ Hst). unfold bind at 1, attempt. rewrite Hr.
    simpl. unfold close, bind, get. by rewrite Hc.
  - destruct Hb as [[[] _]|(_ & s' & -> & _)]; [done|by intros []].
  - destruct Hb as [[_ [p' ->]]|[[] _]]; [by intros []|by eexists].
Qed.

(** A bracketed call, and what is decoded of it. *)
Lemma bracket_decodes {R} `{Decode R} method (m : M ApiError ApiCells (NativeOrEncoded R)) s o :
  keeps opened m → answers method o (m (set_changes (start_transaction (ac_changes s)) s)) →
  let '(r, s') := (let! res := bracket m in lift (decode_result method res)) s in
  match o with
  | Some (a, (ov, cache)) =>
      r = Ok a ∧ cells_of s' = (default ov (commit_transaction ov), cache)
  | None => ¬ is_Ok r
  end.
Proof.
  intros Hk Hm. pose proof (bracket_answer m s Hk) as Hb. unfold bind, lift.
  destruct (m _) as [[res|e|p] s2].
  1: { rewrite Hb. destruct o as [[a [ov cache]]|]; [|by apply Hm].
       destruct Hm as (res' & [= <-] & Hd & [= <- <-]). by rewrite Hd. }
  all: destruct o as [[a oc]|]; [by destruct Hm as (? & ? & _)|].
  all: destruct (bracket m s) as [[res|e'|p'] s']; [destruct Hb; by eexists|by intros []..].
Qed.

(** The initialization, as a call at a block that is not marked runs it. *)
Definition initialization (c : ApiClient) (id : BlockId) : M Error ApiCells unit :=
  let! header := lift (prepare_environment_block (api_client c) id) in
  catch_err runtime_api_error (mock_initialize_block c id header).

Lemma initialization_answer c id s :
  let '(r, s') := initialization c id s in
  match wasm_initialized c id (cells_of s) with
  | Some oc => r = Ok () ∧ cells_of s' = oc
  | None => ¬ is_Ok r
  end.
Proof.
  unfold initialization, wasm_initialized, mock_initialize_block, initialize_block_with.
  destruct (prepare_environment_block _ _) as [header|e|p];
    [|destruct (runtime_version _ _); by intros []..].
  unfold bind at 1, catch_err, lift at 1. unfold bind at 1, lift at 1, runtime_version_at.
  destruct (runtime_version _ _) as [v|e|p]; [|by intros []..]. simpl.
  set (core := λ _ _, panic _). set (f := initialize_method v). set (a := scale_encode header).
  set (m := call_api_at (R := unit) c core id f a Skip None OffchainCall None).
  assert (keeps opened m) as Hk by (apply keeps_call_api_at; [apply opened_machine|done]).
  pose proof (bracket_decodes f m s _ Hk (call_answer c core id f a _)) as H.
  unfold bind at 1, attempt. rewrite mock_call_decodes.
  change (mock_call_api_at_native_code c core f None false id a) with
    (bracket m).
  change (cells_of (set_changes ?o s)) with (o, ac_storage s) in H. simpl.
  destruct (bind (bracket _) _ s) as [r s'].
  destruct (wasm_answer _ _ _ _ _) as [[[] [o cache]]|]; simpl.
  - by destruct H as [-> ?].
  - destruct r as [u|e|p]; [destruct H; by eexists|by intros []..].
Qed.

(** A call that initializes, on an object that has initialized no block. *)
Lemma call_initializes {R} c id f a s :
  ac_initialized_block s = None →
  call_api_at (R := R) c (mock_initialize_block c) id f a Do None OffchainCall None s =
  let '(r, s1) := initialization c id s in
  match r with
  | Ok _ =>
      call_api_at (R := R) c (mock_initialize_block c) id f a Skip None OffchainCall None s1
  | Err e => (Err (into_api_error e), s1)
  | Panic p => (Panic p, s1)
  end.
Proof.
  intros Hs. unfold call_api_at. destruct (manager_and_extensions id OffchainCall) as [mgr ext].
  unfold catch_err at 1. rewrite contextual_call_do, Hs. simpl.
  change (bind (lift (prepare_environment_block (api_client c) id))
    (λ header, catch_err runtime_api_error (mock_initialize_block c id header)))
    with (initialization c id).
  unfold bind at 1. by destruct (initialization c id s) as [[u|e|p] s1].
Qed.

(** The metadata of a block, asked of a new object. *)
Lemma mock_metadata_wasm c id :
  let '(r, s) := mock_metadata c id construct_runtime_api in
  match wasm_metadata c id with
  | Some metadata => r = Ok metadata
  | None => ¬ is_Ok r
  end.
Proof.
  unfold mock_metadata, wasm_metadata. rewrite mock_call_decodes.
  set (f := "Metadata_metadata"). set (a := scale_encode ()). set (core := mock_initialize_block c).
  set (m := call_api_at (R := OpaqueMetadata) c core id f a Do None OffchainCall None).
  change (mock_call_api_at_native_code c core f None true id a) with (bracket m).
  assert (keeps opened m) as Hk
    by (apply keeps_call_api_at; [apply opened_machine|intros _; apply initialize_block_opened]).
  set (s0 := set_changes (start_transaction overlay_default) construct_runtime_api).
  pose proof (initialization_answer c id s0) as Hi.
  change (cells_of s0) with (start_transaction overlay_default, tx_cache_default) in Hi.
  set (o := oc ← wasm_initialized c id (start_transaction overlay_default, tx_cache_default);
            wasm_answer (R := OpaqueMetadata) (api_executor c) id f a oc).
  assert (answers f o (m s0)) as Hm.
  { unfold m, core, o. rewrite call_initializes by done.
    destruct (initialization c id s0) as [r s1].
    destruct (wasm_initialized _ _ _) as [oc|]; simpl.
    - destruct Hi as [-> <-]. apply call_answer.
    - destruct r as [u|e|p]; [destruct Hi; by eexists|done..]. }
  pose proof (bracket_decodes f m construct_runtime_api o Hk Hm) as H.
  destruct (bind (bracket m) _ construct_runtime_api) as [r s]. unfold o in H.
  destruct (wasm_initialized _ _ _) as [oc|]; simpl in *; [|done].
  destruct (wasm_answer _ _ _ _ _) as [[b [ov cache]]|]; simpl; [by destruct H as [-> _]|done].
Qed.

(** ** A block of a new version, from the request to the topics *)

Context {VA : VersionApi} {JT : JsonTypes} {C : Type} {AC : ArchiveCore C}.
Context `{PG : PgService, KS : KafkaService, PJ : !PayloadJson, AR : ArchiveErrors, PL : !PgLaws}.
Context (client_of : DB → ApiClient)
  (generated_decode : NativeOrEncoded unit → outcome ApiError unit)
  (metadata_bytes : OpaqueMetadata → Bytes).

#[local] Instance metadata_instance : RuntimeApi :=
  mock_runtime_api client_of generated_decode metadata_bytes.

(** The interface's call is the new object's. *)
Lemma runtime_metadata_wasm (db : DB) (id : BlockId) :
  match wasm_metadata (client_of db) id with
  | Some metadata => (runtime_metadata (runtime_api db) id).1 = Ok (metadata_bytes metadata)
  | None => ¬ is_Ok (runtime_metadata (runtime_api db) id).1
  end.
Proof.
  simpl. pose proof (mock_metadata_wasm (client_of db) id) as H.
  destruct (mock_metadata _ _ _) as [r s]. simpl.
  destruct (wasm_metadata _ _) as [m|]; [by rewrite H|].
  destruct r as [a|e|p]; [destruct H; by eexists|by intros []..].
Qed.

(** Without an answer the archiver panics, before it has written anything. *)
Lemma notifier_archive_no_metadata (self : Notifier) (model : BlockModel) (payload : BlockPayload)
    (s : NotifierState) :
  reliable → archivable model →
  metadatas (pg_tables (nt_db s)) !! bm_spec_version model = None →
  ¬ is_Ok (runtime_metadata (runtime_api (nt_client self)) (IdNumber (bm_block_num model))).1 →
  let '(r, s') := notifier_archive self model payload s in
  is_Panic r ∧ pg_tables (nt_db s') = pg_tables (nt_db s) ∧ nt_kafka s' = nt_kafka s.
Proof.
  intros Hr [Hv Hn] Hnew Hm. unfold notifier_archive.
  erewrite with_db_step by (by apply check_exists_reliable).
  rewrite bool_decide_false by (rewrite Hnew; by intros []).
  unfold archive_metadata, fetch_metadata, bind, lift.
  destruct (runtime_metadata _ _).1 as [m|e|p]; [destruct Hm; by eexists|..];
    simpl; (split; [by eexists|done]).
Qed.

(** C14. A block of a new version, from the executor's request to the tables and
    the topics, on the chain's own code.  The version has no metadata in the
    tables yet, fits an [i32] and the block a partition (its number is below
    10,000,000); no two blobs of code have the same hash, the executor's cache
    is faithful, and PostgreSQL and Kafka do not fail.  Then the executor hands
    over the changes that [Core_execute_block] writes on the parent's state,
    under the version that the block's code declares.  If the code of the
    block's own state (or the override of its version), run on a fresh overlay
    in which the next block has been initialized, answers [Metadata_metadata]
    and the two payloads serialize, the archiver stores that answer under this
    version, then the block, and sends the record of each in this order.  If it
    does not answer, the archiver panics with nothing written. *)
Theorem new_version_archived (self : BlockExecutor (C := C)) (nt : Notifier) (n : Z)
    (es : ExecutorState) (s : NotifierState) (sb : SignedBlock) (st : State)
    (ch : StorageChanges) (v : RuntimeVersion) :
  cache_inv (vc_backend self) (ex_cache es) → no_collision (vc_backend self) →
  get_block (archive_core self) n = Ok (Some sb) →
  get_state (archive_core self) (IdHash (parent_of sb)) = Ok st →
  wasm_changes client_of self sb st = Ok ch →
  fresh_version (vc_backend self) (IdNumber n) = Ok (Some v) →
  reliable → brokers_ack → (0 ≤ rv_spec_version v ≤ 2147483647)%Z → (0 ≤ n < 10000000)%Z →
  metadatas (pg_tables (nt_db s)) !! rv_spec_version v = None →
  let version := rv_spec_version v in
  let changes := storages_map self n (main_storage_changes ch) in
  let model := block_model n version sb changes in
  let payload := block_payload version sb changes in
  ∃ es', executor_archive self n es = (Ok (), es') ∧
    archiver_send es' = archiver_send es ++ [(model, payload)] ∧
    let '(r, s') := notifier_archive nt model payload s in
    match wasm_metadata (client_of (nt_client nt)) (IdNumber n) with
    | Some answer => ∀ mtext btext,
        let meta := metadata_bytes answer in
        json_metadata_payload (metadata_payload model payload meta) = Some mtext →
        json_block_payload payload = Some btext →
        r = Ok () ∧
        metadatas (pg_tables (nt_db s')) =
          <[version := metadata_model model payload meta]> (metadatas (pg_tables (nt_db s))) ∧
        blocks (pg_tables (nt_db s')) = <[n := model]> (blocks (pg_tables (nt_db s))) ∧
        k_log (nt_kafka s') = k_log (nt_kafka s) ++
          [metadata_record (nt_producer nt) mtext version;
           block_record (nt_producer nt) btext (bp_block_num payload)]
    | None => is_Panic r ∧ pg_tables (nt_db s') = pg_tables (nt_db s) ∧ nt_kafka s' = nt_kafka s
    end.
Proof.
  intros I Hcol Hb Hst Hch Hv Hr Hk Hver Hn Hnew version changes model payload.
  pose proof (executor_archive_refines self n es I Hcol) as H. unfold executor_answer in H.
  pose proof (execute_block_wasm client_of generated_decode metadata_bytes self n sb st Hb Hst) as He.
  change (mock_instance client_of generated_decode metadata_bytes) with metadata_instance in He.
  rewrite He, Hch in H. simpl in H. rewrite Hv in H.
  destruct (executor_archive self n es) as [r es'] eqn:Hex. destruct H as [_ [-> [= Ha Hc]]].
  exists es'. split; [done|]. split; [exact Ha|].
  assert (archivable model) as Harch by done.
  pose proof (runtime_metadata_wasm (nt_client nt) (IdNumber n)) as Hm.
  destruct (wasm_metadata _ _) as [answer|].
  - destruct (notifier_archive nt model payload s) as [r s1] eqn:Hnt. intros mtext btext meta Hmj Hbj.
    destruct (notifier_archive_run nt model payload meta mtext btext s) as (s' & H & Ht & Hl); [done..|].
    rewrite Hnt in H. injection H as -> ->. rewrite Ht, Hl. unfold archived_tables.
    assert (¬ is_Some (metadatas (pg_tables (nt_db s)) !! bm_spec_version model)) as Hns
      by (apply eq_None_not_Some; exact Hnew).
    by rewrite !decide_False by exact Hns.
  - by apply notifier_archive_no_metadata.
Qed.
End wasm.

(** ** Witness: block 2, which declares version 2 *)

#[local] Existing Instance ref_chain.
#[local] Existing Instance ref_types.
#[local] Existing Instance ref_backend.
#[local] Existing Instance ref_runtime_types.
#[local] Existing Instance ref_version_api.
#[local] Existing Instance ref_json.
#[local] Existing Instance ref_payload_json.
#[local] Existing Instance machine_reference.
#[local] Existing Instance overlay_reference.
#[local] Existing Instance api_errors_reference.
#[local] Existing Instance api_types_reference.
#[local] Existing Instance overlay_laws_reference.
#[local] Existing Instance fs_reference.
#[local] Existing Instance code_reference.
#[local] Existing Instance listeners_reference.
#[local] Existing Instance encode_unit_reference.
#[local] Existing Instance encode_block_reference.
#[local] Existing Instance encode_header_reference.
#[local] Existing Instance encode_inherents_reference.
#[local] Existing Instance encode_seed_reference.
#[local] Existing Instance decode_unit_reference.
#[local] Existing Instance decode_version_reference.
#[local] Existing Instance decode_bytes_reference.
#[local] Existing Instance wasm_tries_reference.
#[local] Existing Instance kafka_reference.
#[local] Existing Instance pg_reference.
#[local] Existing Instance errors_reference.

(** The mock object has the metadata of every number of the sample chain, and
    none of a number it does not have. *)
Example mock_has_metadata (n : Z) : (0 ≤ n ≤ best_number (bc_info sample_db))%Z →
  has_metadata (RA := wasm_api) sample_db n.
Proof.
  assert (best_number (bc_info sample_db) = 2%Z) as -> by (vm_compute; reflexivity).
  intros Hn. assert (n = 0 ∨ n = 1 ∨ n = 2)%Z as [->|[->| ->]] by lia;
    exists "x"; vm_compute; reflexivity.
Qed.

Example mock_lacks_metadata : ¬ has_metadata (RA := wasm_api) sample_db 7.
Proof. intros [m Hm]. vm_compute in Hm. discriminate Hm. Qed.

Definition new_version_run : outcome Error unit * NotifierState :=
  let changes := storages_map sample_executor 2 (main_storage_changes (written ["Core_execute_block"])) in
  notifier_archive (RA := wasm_api) sample_notifier (block_model 2 2 upgrading_block changes)
    (block_payload 2 upgrading_block changes) notifier_start.

Lemma new_version_archived_witness :
  wasm_metadata sample_api_client (IdNumber 2) = Some "x" ∧
  new_version_run.1 = Ok () ∧
  (mm_meta <$> metadatas (pg_tables (nt_db new_version_run.2)) !! 2%Z) = Some "x" ∧
  (r_payload <$> k_log (nt_kafka new_version_run.2)) = ["metadata 2"; "block 2"].
Proof.
  assert (wasm_metadata sample_api_client (IdNumber 2) = Some "x") as Hm by (vm_compute; reflexivity).
  split; [exact Hm|].
  destruct (new_version_archived (PL := reference_laws) (AT := api_types_reference) (λ _, sample_api_client)
    (λ _, Ok ()) id sample_executor sample_notifier 2 sample_executor_state notifier_start upgrading_block ["a"]
    (written ["Core_execute_block"]) 2%Z (version_cache_new_inv _) (sample_no_collision _))
    as (es' & _ & _ & H);
    [vm_compute; reflexivity|vm_compute; reflexivity|vm_compute; reflexivity|vm_compute; reflexivity
    |exact reference_reliable|exact (λ n, eq_refl)|split; discriminate|split; [discriminate|reflexivity]
    |reflexivity|].
  rewrite Hm in H.
  match type of H with context [notifier_archive ?a ?b ?c ?d] =>
    change (notifier_archive a b c d) with new_version_run in H end.
  destruct new_version_run as [r s'].
  destruct (H "metadata 2" "block 2") as (-> & Ht & _ & Hl); [reflexivity..|].
  split; [reflexivity|]. split; [simpl; rewrite Ht; reflexivity|simpl; rewrite Hl; reflexivity].
Defined.
