(* ===== verification/LightProofs.v ===== *)
(** * Proofs for light clients ([client/service/src/client/client.rs])

    [ProofProvider] and the functions it is built on: proofs of headers and of
    changes trie roots against canonical hash tries (CHTs), proofs of key
    changes with a storage that records the roots it was asked for, and proofs
    of reads and executions.  The CHT functions, the state machine's provers
    and [StorageProof] are parameters.

    The state machine's [key_changes_proof] is given an object of the trait
    [ChangesTrieRootsStorage] and calls back its [root].  It is modelled by
    what it does with the answers: a finite tree of questions ([Asks]), which
    is run against a storage. *)

From stdpp Require Import sorting.
From S2P Require Import Prelude Chain BlockRules Notifies VersionCache Reference.
From S2P Require Import Client ClientQueries ChangesTrie.

(** [ChangesTrieAnchorBlockId] *)
Record Anchor `{ChainTypes} := { an_hash : Hash; an_number : Z }.

(** A computation that asks for changes trie roots. *)
Inductive Asks `{ChainTypes} (R : Type) :=
  | Answer (r : outcome string R)
  | AskRoot (anchor : Anchor) (block : Z) (k : outcome string (option Hash) → Asks R).
Arguments Answer {_ R}.
Arguments AskRoot {_ R}.

(** Runs the computation against an implementation of [root]. *)
Fixpoint run_asks `{ChainTypes} {R S} (root : Anchor → Z → M string S (option Hash))
    (t : Asks R) : M string S R := λ s,
  match t with
  | Answer r => (r, s)
  | AskRoot anchor block k => let '(r, s) := root anchor block s in run_asks root (k r) s
  end.

Section light.
Context `{CT : ChainTypes, BT : BackendTypes, BE : !Backend, RT : RuntimeTypes,
  RA : !RuntimeApi, SL : !StorageListeners, CE : ClientErrors, TS : !ChangesTries}.

(** [StorageProof], and the trie nodes of a changes proof. *)
Class Proofs := {
  StorageProof : Type;
  merge : list StorageProof → StorageProof;
  (* [cht] *)
  cht_size : Z;
  block_to_cht_number : Z → Z → option Z;
  start_number : Z → Z → Z;
  (* size, number, the blocks to prove and the sequence of values *)
  build_proof : Z → Z → list Z → (nat → result (option Hash)) → result StorageProof;
  for_each_cht_group {S} : Z → list Z → (Z → list Z → M Error S unit) → M Error S unit;
  (* [ChangesTrieRootsStorage::root] of the backend's storage *)
  storage_root : CTStorage → Anchor → Z → outcome string (option Hash);
  (* [key_changes_proof] of the state machine *)
  trie_key_changes_proof : CTConfig → Z → option Z → CTStorage → Z → Anchor → Z →
    option Bytes → Bytes → Asks (list Bytes);
  (* [prove_read], [prove_child_read], [prove_execution] *)
  ChildInfo_ : Type;
  prove_read : State → list Bytes → result StorageProof;
  prove_child_read : State → ChildInfo_ → list Bytes → result StorageProof;
  prove_execution : DB → State → Header → string → Bytes → result (Bytes * StorageProof);
}.
Context {PR : Proofs}.

(** ** CHT proofs *)

(** The numbers [from_fn] yields: [current_num] is stepped at every call. *)
Definition cht_range (cht_start : Z) (i : nat) : Z :=
  Nat.iter i (λ current_num, u32_add current_num 1) cht_start.

(** [Client::header_proof_with_cht_size] *)
Definition header_proof_with_cht_size (c : Client) (id : BlockId) (cht_size : Z) :
    result (Header * StorageProof) :=
  let? header := bc_expect_header (backend c) id in
  let block_num := h_number header in
  let? cht_num := ok_or (block_to_cht_number cht_size block_num)
    (BackendError "Failed to generate header proof") in
  let cht_start := start_number cht_size cht_num in
  let? proof := build_proof cht_size cht_num [block_num]
    (λ i, block_hash c (cht_range cht_start i)) in
  Ok (header, proof).

(** The closure [roots] of [Client::changes_trie_roots_proof_at_cht]. *)
Definition header_changes_trie_root (c : Client) (num : Z) : result (option Hash) :=
  omap_ok (λ block, header ← block; head (omap as_changes_trie_root (h_digest header)))
    (client_header c (IdNumber num)).

(** [Client::changes_trie_roots_proof_at_cht] *)
Definition changes_trie_roots_proof_at_cht (c : Client) (cht_size cht_num : Z)
    (blocks : list Z) : result StorageProof :=
  let cht_start := start_number cht_size cht_num in
  build_proof cht_size cht_num blocks
    (λ i, header_changes_trie_root c (cht_range cht_start i)).

(** [Client::changes_trie_roots_proof]; the state is the vector [proofs]. *)
Definition changes_trie_roots_proof (c : Client) (cht_size : Z) (blocks : list Z) :
    result StorageProof :=
  let '(r, proofs) := for_each_cht_group cht_size blocks
    (λ cht_num cht_blocks,
       let! cht_proof := lift (changes_trie_roots_proof_at_cht c cht_size cht_num cht_blocks) in
       modify (λ proofs, proofs ++ [cht_proof])) [] in
  let? _ := r in
  Ok (merge proofs).

(** ** Key changes proofs *)

(** [AccessedRootsRecorder::root]; the state is [required_roots_proofs]. *)
Definition recorder_root (storage : CTStorage) (min : Z) (anchor : Anchor) (block : Z) :
    M string (gmap Z Hash) (option Hash) :=
  let! root := lift (storage_root storage anchor block) in
  let! _ := if (block <? min)%Z
    then match root with
         | Some root => modify (λ roots, <[block := root]> roots)
         | None => ret ()
         end
    else ret () in
  ret root.

(** [BTreeMap] iterates by ascending keys. *)
Definition key_le {V} (a b : Z * V) : Prop := (a.1 ≤ b.1)%Z.
#[local] Instance key_le_dec {V} (a b : Z * V) : Decision (key_le a b).
Proof. unfold key_le. apply _. Defined.
Definition btree {V} (m : gmap Z V) : list (Z * V) := merge_sort key_le (map_to_list m).

(** [ChangesProof] *)
Record ChangesProof := {
  cp_max_block : Z;
  cp_proof : list Bytes;
  cp_roots : list (Z * Hash);
  cp_roots_proof : StorageProof;
}.

(** The search in one configuration. *)
Definition config_asks (storage : CTStorage) (first_number last_number : Z) (last : Hash)
    (max_number : Z) (storage_key : option Bytes) (key : Bytes) (config : TrieConfig) :
    Asks (list Bytes) :=
  let '(config_zero, config_end, config) := config in
  trie_key_changes_proof config config_zero (fst <$> config_end) storage first_number
    {| an_hash := last; an_number := last_number |} max_number storage_key key.

(** The loop over the configurations, against an implementation of [root]. *)
Fixpoint proof_loop {S} (db : DB) (root : Anchor → Z → M string S (option Hash))
    (storage : CTStorage) (first_number : Z) (last : Hash) (max_number : Z)
    (storage_key : option Bytes) (key : Bytes) (configs : list TrieConfig)
    (proof : list Bytes) : M Error S (list Bytes) :=
  match configs with
  | [] => ret proof
  | config :: configs =>
      let! last_number := lift (bc_expect_block_number_from_id db (IdHash last)) in
      let! proof_range := catch_err ChangesTrieAccessFailed (run_asks root
        (config_asks storage first_number last_number last max_number storage_key key config)) in
      proof_loop db root storage first_number last max_number storage_key key configs
        (proof ++ proof_range)
  end.

(** [Client::key_changes_proof_with_cht_size] *)
Definition key_changes_proof_with_cht_size (c : Client) (first last min max : Hash)
    (storage_key : option Bytes) (key : Bytes) (cht_size : Z) : result ChangesProof :=
  let db := backend c in
  let? first_number := bc_expect_block_number_from_id db (IdHash first) in
  let? sc := require_changes_trie c first_number last true in
  let '(storage, configs) := sc in
  let? min_number := bc_expect_block_number_from_id db (IdHash min) in
  let best := best_number (bc_info db) in
  let? max_of := bc_expect_block_number_from_id db (IdHash max) in
  let max_number := Z.min best max_of in
  let '(proof, roots) := proof_loop db (recorder_root storage min_number) storage first_number
    last max_number storage_key key configs [] ∅ in
  let? proof := proof in
  let? roots_proof := changes_trie_roots_proof c cht_size (btree roots).*1 in
  Ok {| cp_max_block := max_number; cp_proof := proof; cp_roots := btree roots;
        cp_roots_proof := roots_proof |}.

(** ** [ProofProvider] *)

Definition HEAP_PAGES : Bytes := ":heappages".

Definition read_proof (c : Client) (id : BlockId) (keys : list Bytes) : result StorageProof :=
  let? state := client_state_at c id in prove_read state keys.
Definition read_child_proof (c : Client) (id : BlockId) (child_info : ChildInfo_)
    (keys : list Bytes) : result StorageProof :=
  let? state := client_state_at c id in prove_child_read state child_info keys.
Definition execution_proof (c : Client) (id : BlockId) (method : string) (call_data : Bytes) :
    result (Bytes * StorageProof) :=
  let? code_proof := read_proof c id [CODE; HEAP_PAGES] in
  let? state := client_state_at c id in
  let? header := prepare_environment_block c id in
  let? rp := prove_execution (backend c) state header method call_data in
  Ok (rp.1, merge [rp.2; code_proof]).
Definition header_proof (c : Client) (id : BlockId) : result (Header * StorageProof) :=
  header_proof_with_cht_size c id cht_size.
Definition key_changes_proof (c : Client) (first last min max : Hash)
    (storage_key : option Bytes) (key : Bytes) : result ChangesProof :=
  key_changes_proof_with_cht_size c first last min max storage_key key cht_size.

(** ** Properties *)

(** What the code relies on in the CHT functions: a CHT covers [size] blocks
    from its start on and block 0 is in none; a proof reads the values of its
    own blocks only; grouping ascending blocks calls the function once per CHT
    with the blocks of that CHT, and refuses block 0 before anything else. *)
Class ChtLaws : Prop := {
  cht_number_spec size n : (0 < size)%Z → (0 ≤ n)%Z →
    match block_to_cht_number size n with
    | Some k => (0 < start_number size k ≤ n ∧ n < start_number size k + size)%Z
    | None => n = 0%Z
    end;
  build_proof_ext size k bs f g :
    (∀ i, (Z.of_nat i < size)%Z → f i = g i) → build_proof size k bs f = build_proof size k bs g;
  cht_groups size blocks : (0 < size)%Z → Sorted Z.le blocks → Forall (Z.le 0) blocks →
    (∃ groups : list (Z * list Z), concat groups.*2 = blocks ∧
       StronglySorted Z.lt groups.*1 ∧
       Forall (λ g, Forall (λ b, block_to_cht_number size b = Some g.1) g.2) groups ∧
       ∀ S (f : Z → list Z → M Error S unit) s,
         for_each_cht_group size blocks f s = for_each (λ g, f g.1 g.2) groups s) ∨
    (∀ S (f : Z → list Z → M Error S unit) s, ∃ e, for_each_cht_group size blocks f s = (Err e, s));
}.

Lemma cht_range_spec start i :
  (0 ≤ start)%Z → (start + Z.of_nat i ≤ u32_max)%Z → cht_range start i = (start + Z.of_nat i)%Z.
Proof.
  intros Hs. induction i as [|i IH]; intros Hi; [simpl; lia|].
  unfold cht_range in *. simpl. rewrite IH by lia.
  rewrite u32_add_exact by lia. lia.
Qed.

(** A header proof is the header with a CHT proof of its number, over the
    hashes of exactly the blocks of the CHT that contains it, as long as the
    CHT's numbers fit in [u32]; the genesis block has no proof. *)
Theorem header_proof_spec `{CL : ChtLaws} (c : Client) (id : BlockId) (size : Z) (hdr : Header) :
  bc_expect_header (backend c) id = Ok hdr → (0 < size)%Z → (0 ≤ h_number hdr)%Z →
  if decide (h_number hdr = 0)%Z
  then header_proof_with_cht_size c id size = Err (BackendError "Failed to generate header proof")
  else ∃ k, let start := start_number size k in
    (start ≤ h_number hdr < start + size)%Z ∧
    ((start + size - 1 ≤ u32_max)%Z →
     header_proof_with_cht_size c id size =
       omap_ok (λ proof, (hdr, proof)) (build_proof size k [h_number hdr]
         (λ i, block_hash c (start + Z.of_nat i)))).
Proof.
  intros Hh Hsize Hn. pose proof (cht_number_spec size (h_number hdr) Hsize Hn) as Hk.
  unfold header_proof_with_cht_size. rewrite Hh. simpl.
  destruct (block_to_cht_number size (h_number hdr)) as [k|].
  - rewrite decide_False by lia. exists k. split; [lia|]. intros Hmax. simpl.
    rewrite (build_proof_ext _ _ _ _ (λ i, block_hash c (start_number size k + Z.of_nat i))).
    + by destruct (build_proof _ _ _ _).
    + intros i Hi. by rewrite cht_range_spec by lia.
  - by rewrite decide_True.
Qed.

(** Two implementations of [root] related by a function on their states. *)
Definition root_sim {S T} (φ : T → S) (root1 : Anchor → Z → M string S (option Hash))
    (root2 : Anchor → Z → M string T (option Hash)) : Prop :=
  ∀ a b t, root1 a b (φ t) = ((root2 a b t).1, φ (root2 a b t).2).

Lemma run_asks_sim {R S T} (φ : T → S) root1 root2 (q : Asks R) :
  root_sim φ root1 root2 →
  ∀ t, run_asks root1 q (φ t) = ((run_asks root2 q t).1, φ (run_asks root2 q t).2).
Proof.
  intros Hsim. induction q as [r|a b k IH]; intros t; simpl; [done|].
  rewrite Hsim. destruct (root2 a b t) as [r t']. simpl. apply IH.
Qed.

Lemma proof_loop_sim {S T} (φ : T → S) db root1 root2 storage first last max sk key :
  root_sim φ root1 root2 → ∀ configs acc t,
  proof_loop db root1 storage first last max sk key configs acc (φ t) =
  ((proof_loop db root2 storage first last max sk key configs acc t).1,
   φ (proof_loop db root2 storage first last max sk key configs acc t).2).
Proof.
  intros Hsim. induction configs as [|config configs IH]; intros acc t; simpl; [done|].
  unfold bind, lift, catch_err. destruct (bc_expect_block_number_from_id _ _) as [n|e|p];
    [|done..].
  rewrite (run_asks_sim φ _ root2) by done.
  destruct (run_asks root2 _ t) as [[l|e|p] t']; simpl; [apply IH|done..].
Qed.

Lemma run_asks_preserves {R S} (I : S → Prop) root (q : Asks R) :
  (∀ a b, preserves I (root a b)) → preserves I (run_asks root q).
Proof.
  intros Hr. induction q as [r|a b k IH]; intros s Hs; simpl; [done|].
  pose proof (Hr a b s Hs) as H. destruct (root a b s) as [r s']. by apply IH.
Qed.

Lemma proof_loop_preserves {S} (I : S → Prop) db root storage first last max sk key :
  (∀ a b, preserves I (root a b)) → ∀ configs acc,
  preserves I (proof_loop db root storage first last max sk key configs acc).
Proof.
  intros Hr. induction configs as [|config configs IH]; intros acc; simpl; [apply preserves_ret|].
  apply preserves_bind; [apply preserves_lift|]. intros n. apply preserves_bind; [|done].
  intros s Hs. unfold catch_err.
  pose proof (run_asks_preserves I root (config_asks storage first n last max sk key config) Hr
    s Hs) as H. by destruct (run_asks _ _ s).
Qed.

(** The storage without a recorder, and one that keeps every root it gave. *)
Definition plain_root (storage : CTStorage) (a : Anchor) (b : Z) : M string unit (option Hash) :=
  lift (storage_root storage a b).
Definition traced_root (storage : CTStorage) (a : Anchor) (b : Z) :
    M string (list (Z * Hash)) (option Hash) := λ trace,
  (storage_root storage a b,
   trace ++ match storage_root storage a b with Ok (Some r) => [(b, r)] | _ => [] end).

Lemma traced_nonneg storage :
  (∀ s a b r, storage_root s a b = Ok (Some r) → (0 ≤ b)%Z) →
  ∀ a b, preserves (Forall (λ br : Z * Hash, 0 ≤ br.1)%Z) (traced_root storage a b).
Proof.
  intros Hnn a b t Ht. unfold traced_root. simpl. apply Forall_app. split; [done|].
  destruct (storage_root storage a b) as [[r|]|e|p] eqn:Hr; try constructor; [|constructor].
  simpl. by eapply Hnn.
Qed.

(** What the recorder keeps of such a trace. *)
Definition recorded (min : Z) (trace : list (Z * Hash)) : gmap Z Hash :=
  collect_map (filter (λ br, (br.1 < min)%Z) trace).

Lemma plain_sim storage : root_sim (λ _, tt) (plain_root storage) (traced_root storage).
Proof. by intros a b t. Qed.

Lemma recorder_sim storage min :
  root_sim (recorded min) (recorder_root storage min) (traced_root storage).
Proof.
  intros a b t. unfold recorder_root, traced_root, bind, lift, recorded. simpl.
  destruct (storage_root storage a b) as [[r|]|e|p]; simpl; rewrite ?app_nil_r; try done.
  - rewrite filter_app. destruct (b <? min)%Z eqn:Hb.
    + apply Z.ltb_lt in Hb. rewrite filter_cons_True, filter_nil by done. simpl.
      unfold collect_map. by rewrite foldl_snoc.
    + apply Z.ltb_ge in Hb. rewrite filter_cons_False, filter_nil, app_nil_r by (simpl; lia). done.
  - by destruct (b <? min)%Z.
Qed.

(** ** The map of the recorder, in order *)

Lemma btree_elem {V} (m : gmap Z V) n v : (n, v) ∈ btree m ↔ m !! n = Some v.
Proof. unfold btree. by rewrite merge_sort_Permutation, elem_of_map_to_list. Qed.

#[local] Instance key_le_total {V} : Total (key_le (V := V)).
Proof. intros a b. unfold key_le. lia. Qed.

Lemma btree_sorted {V} (m : gmap Z V) : Sorted Z.le (btree m).*1 ∧ NoDup (btree m).*1.
Proof.
  unfold btree. split.
  - pose proof (Sorted_merge_sort key_le (map_to_list m)) as H.
    induction H as [|x l Hs IH Hd]; [constructor|]. rewrite fmap_cons. constructor; [done|].
    destruct Hd; constructor; done.
  - rewrite merge_sort_Permutation. apply NoDup_fst_map_to_list.
Qed.

Lemma recorded_lookup min trace n r :
  recorded min trace !! n = Some r ↔
  (n < min)%Z ∧ last (filter (λ br, br.1 = n) trace) = Some (n, r).
Proof.
  unfold recorded. rewrite collect_map_lookup, list_filter_filter. simpl.
  destruct (decide (n < min)%Z) as [Hn|Hn].
  - rewrite (list_filter_iff _ (λ br : Z * Hash, br.1 = n)) by (intros [b x]; simpl; lia).
    assert (∀ br, last (filter (λ br : Z * Hash, br.1 = n) trace) = Some br → br.1 = n) as Hl.
    { intros br Hbr. apply last_Some_elem_of in Hbr. by apply list_elem_of_filter in Hbr as [? _]. }
    destruct (last _) as [[b x]|]; simpl; [|split; [done|by intros [_ [=]]]].
    pose proof (Hl _ eq_refl) as Hb. simpl in Hb. subst b. split.
    + by intros [= ->].
    + by intros [_ [= ->]].
  - split; [|tauto]. rewrite (list_filter_iff _ (λ _ : Z * Hash, False))
      by (intros [b x]; simpl; lia).
    intros H. exfalso. clear Hn. revert H. induction trace as [|y l IH]; [done|].
    by rewrite filter_cons_False by tauto.
Qed.

(** ** The CHT proofs of the recorded roots *)

Lemma push_loop {A} (F : A → result StorageProof) l : ∀ acc u acc',
  for_each (λ x, let! p := lift (F x) in modify (λ ps, ps ++ [p])) l acc = (Ok u, acc') →
  ∃ ps, acc' = acc ++ ps ∧ Forall2 (λ x p, F x = Ok p) l ps.
Proof.
  induction l as [|x l IH]; intros acc u acc' H; simpl in H.
  - injection H as _ <-. exists []. by rewrite app_nil_r.
  - apply bind_Ok in H as (u1 & s1 & H1 & H). apply bind_Ok in H1 as (p & s2 & Hp & H1).
    injection Hp as Hp <-. injection H1 as _ <-. apply IH in H as (ps & -> & Hps).
    exists (p :: ps). rewrite <- app_assoc. split; [done|]. by constructor.
Qed.

Lemma changes_trie_roots_proof_Ok `{CL : ChtLaws} c size blocks proof :
  (0 < size)%Z → Sorted Z.le blocks → Forall (Z.le 0) blocks →
  changes_trie_roots_proof c size blocks = Ok proof →
  ∃ groups ps, concat groups.*2 = blocks ∧ StronglySorted Z.lt groups.*1 ∧
    Forall (λ g, Forall (λ b, block_to_cht_number size b = Some g.1) g.2) groups ∧
    Forall2 (λ g p, changes_trie_roots_proof_at_cht c size g.1 g.2 = Ok p) groups ps ∧
    proof = merge ps.
Proof.
  intros Hs Hsort Hpos. unfold changes_trie_roots_proof.
  destruct (cht_groups size blocks Hs Hsort Hpos) as [(groups & Hc & Hss & Hg & Hf)|Hf].
  - rewrite Hf. destruct (for_each _ groups []) as [[u|e|p] ps] eqn:Hl; simpl; [|done..].
    intros [= <-]. apply (push_loop (λ g, changes_trie_roots_proof_at_cht c size g.1 g.2))
      in Hl as (ps' & -> & Hps). by exists groups, ps'.
  - edestruct Hf as [e ->]. done.
Qed.

(** C35. A key changes proof carries exactly what its search touched.  Its proof
    is the one the search gives on the plain storage: recording the accessed
    roots does not change it.  Its roots are, in ascending order and once per
    block, the last root the search was given for each block below [min];
    the blocks it proves to the client are these, grouped by CHT, each group
    against the roots of its CHT.  Its last block is the requested one or the
    best one, whichever is lower. *)
Theorem key_changes_proof_spec `{CL : ChtLaws} (c : Client) (first last_ min max : Hash)
    (storage_key : option Bytes) (key : Bytes) (size : Z) (p : ChangesProof) :
  (0 < size)%Z → (∀ s a b r, storage_root s a b = Ok (Some r) → (0 ≤ b)%Z) →
  key_changes_proof_with_cht_size c first last_ min max storage_key key size = Ok p →
  ∃ first_number min_number max_number storage configs trace,
    bc_expect_block_number_from_id (backend c) (IdHash first) = Ok first_number ∧
    bc_expect_block_number_from_id (backend c) (IdHash min) = Ok min_number ∧
    bc_expect_block_number_from_id (backend c) (IdHash max) = Ok max_number ∧
    require_changes_trie c first_number last_ true = Ok (storage, configs) ∧
    cp_max_block p = Z.min (best_number (bc_info (backend c))) max_number ∧
    (proof_loop (backend c) (plain_root storage) storage first_number last_ (cp_max_block p)
       storage_key key configs [] tt).1 = Ok (cp_proof p) ∧
    (proof_loop (backend c) (traced_root storage) storage first_number last_ (cp_max_block p)
       storage_key key configs [] []).2 = trace ∧
    (∀ n r, (n, r) ∈ cp_roots p ↔
       (n < min_number)%Z ∧ last (filter (λ br, br.1 = n) trace) = Some (n, r)) ∧
    Sorted Z.le (cp_roots p).*1 ∧ NoDup (cp_roots p).*1 ∧
    ∃ groups ps, concat groups.*2 = (cp_roots p).*1 ∧ StronglySorted Z.lt groups.*1 ∧
      Forall (λ g, Forall (λ b, block_to_cht_number size b = Some g.1) g.2) groups ∧
      Forall2 (λ g q, changes_trie_roots_proof_at_cht c size g.1 g.2 = Ok q) groups ps ∧
      cp_roots_proof p = merge ps.
Proof.
  intros Hsize Hnn. unfold key_changes_proof_with_cht_size.
  destruct (bc_expect_block_number_from_id _ (IdHash first)) as [fn|e|m]; simpl; [|done..].
  destruct (require_changes_trie _ _ _ _) as [[storage configs]|e|m] eqn:Hreq; simpl; [|done..].
  destruct (bc_expect_block_number_from_id _ (IdHash min)) as [mn|e|m]; simpl; [|done..].
  destruct (bc_expect_block_number_from_id _ (IdHash max)) as [mx|e|m]; simpl; [|done..].
  remember (Z.min (best_number (bc_info (backend c))) mx) as mxn eqn:Hmxn.
  change (∅ : gmap Z Hash) with (recorded mn []).
  rewrite (proof_loop_sim (recorded mn) (backend c) (recorder_root storage mn)
    (traced_root storage) storage fn last_ mxn storage_key key (recorder_sim storage mn)).
  pose proof (proof_loop_sim (λ _, tt) (backend c) (plain_root storage) (traced_root storage)
    storage fn last_ mxn storage_key key (plain_sim storage) configs [] []) as Hplain.
  pose proof (proof_loop_preserves (Forall (λ br, 0 ≤ br.1)%Z) (backend c) (traced_root storage)
    storage fn last_ mxn storage_key key (traced_nonneg storage Hnn) configs [] []
    (Forall_nil_2 _)) as Hpos.
  destruct (proof_loop (backend c) (traced_root storage) _ _ _ _ _ _ _ _ _) as [r trace]
    eqn:Htr. simpl in *. destruct r as [proof|e|m]; simpl; [|done..].
  destruct (changes_trie_roots_proof c size _) as [rp|e|m] eqn:Hrp; simpl; [|done..].
  intros [= <-]. simpl. exists fn, mn, mx, storage, configs, trace.
  destruct (btree_sorted (recorded mn trace)) as [Hsort Hnd].
  split_and!; try done.
  - by rewrite Hplain.
  - by rewrite Htr.
  - intros n r. by rewrite btree_elem, recorded_lookup.
  - apply changes_trie_roots_proof_Ok; try done. apply Forall_forall.
    intros n ([? r] & -> & Hn)%list_elem_of_fmap.
    apply btree_elem, recorded_lookup in Hn as [_ Hn]. apply last_Some_elem_of in Hn.
    apply list_elem_of_filter in Hn as [_ Hn]. rewrite Forall_forall in Hpos.
    by apply (Hpos _ Hn).
Qed.
End light.

(** ** Witnesses: a proof over the two configurations of [ChangesTrie.v] *)

#[local] Existing Instance ref_chain.
#[local] Existing Instance ref_types.
#[local] Existing Instance ref_backend.
#[local] Existing Instance ref_runtime_types.
#[local] Existing Instance ref_runtime_api.
#[local] Existing Instance listeners_reference.
#[local] Existing Instance ref_tries.

Definition cht_number (size n : Z) : option Z :=
  if decide (n = 0)%Z then None else Some ((n - 1) / size)%Z.

(** The groups of ascending blocks, [None] when there is a block 0. *)
Fixpoint ref_groups (size : Z) (blocks : list Z) : option (list (Z * list Z)) :=
  match blocks with
  | [] => Some []
  | b :: blocks =>
      gs ← ref_groups size blocks; k ← cht_number size b;
      match gs with
      | (k', bs) :: gs' =>
          if decide (k = k') then Some ((k, b :: bs) :: gs') else Some ((k, [b]) :: gs)
      | [] => Some [(k, [b])]
      end
  end.

(** The search asks for the roots of the block before the anchor and of the
    anchor. *)
Definition ref_proofs : Proofs := {|
  StorageProof := list (Z * list Z * list (result (option Z)));
  merge l := concat l;
  cht_size := 2; block_to_cht_number := cht_number; start_number size k := (k * size + 1)%Z;
  build_proof size k bs f := Ok [(k, bs, f <$> seq 0 (Z.to_nat size))];
  for_each_cht_group S size blocks f := λ s,
    match ref_groups size blocks with
    | Some groups => for_each (λ g, f g.1 g.2) groups s
    | None => (Err (BackendError "cht"), s)
    end;
  storage_root _ _ b := Ok (if decide (0 ≤ b)%Z then Some (10 * b)%Z else None);
  trie_key_changes_proof _ zero _ _ first anchor _ _ _ :=
    AskRoot anchor (an_number anchor - 1) (λ r1,
      AskRoot anchor (an_number anchor) (λ r2,
        Answer (match r1, r2 with Ok (Some _), Ok (Some _) => Ok ["node"] | _, _ => Err "root" end)));
  ChildInfo_ := unit; prove_read _ _ := Ok []; prove_child_read _ _ _ := Ok [];
  prove_execution _ _ _ _ _ := Ok (EmptyString, []);
|}.
#[local] Existing Instance ref_proofs.

Lemma cht_number_le size a b k k' :
  (0 < size)%Z → (a ≤ b)%Z → cht_number size a = Some k → cht_number size b = Some k' → (k ≤ k')%Z.
Proof.
  unfold cht_number. intros Hs Hab. repeat case_decide; try done. intros [= <-] [= <-].
  apply Z.div_le_mono; lia.
Qed.

Lemma ref_groups_spec size blocks : (0 < size)%Z → StronglySorted Z.le blocks →
  ∀ gs, ref_groups size blocks = Some gs →
  concat gs.*2 = blocks ∧ StronglySorted Z.lt gs.*1 ∧
  Forall (λ g, Forall (λ b, cht_number size b = Some g.1) g.2 ∧ g.2 ≠ []) gs.
Proof.
  intros Hs. induction blocks as [|b blocks IH]; intros Hsort gs H; simpl in H.
  { injection H as <-. split_and!; constructor. }
  inversion Hsort as [|? ? Hsort' Hle]; subst.
  apply bind_Some in H as (gs1 & Hgs & H). apply bind_Some in H as (k & Hk & H).
  destruct (IH Hsort' gs1 Hgs) as (Hc & Hss & Hall). clear IH Hsort.
  destruct gs1 as [|[k' bs] gs1]; simpl in *.
  - injection H as <-. simpl. rewrite <- Hc. split_and!; repeat constructor; done.
  - apply Forall_cons in Hall as [[Hbs Hne] Hall]. simpl in *.
    inversion Hss as [|? ? Hss' Hlt]; subst.
    assert (k ≤ k')%Z as Hkk.
    { destruct bs as [|b' bs]; [done|]. apply Forall_cons in Hbs as [Hb' _].
      apply (cht_number_le size b b'); try done. rewrite Forall_forall in Hle. apply Hle.
      by left. }
    case_decide as Hd; injection H as <-; simpl.
    + subst k'. split_and!; [done|by constructor|]. constructor; [|done]. simpl.
      split; [by constructor|done].
    + split_and!; [done| |].
      * constructor; [by constructor|]. constructor; [lia|].
        eapply Forall_impl; [exact Hlt|]. simpl. intros x ?. lia.
      * constructor; [simpl; split; [by constructor|done]|]. by constructor.
Qed.

Lemma ref_cht_laws : ChtLaws.
Proof.
  split.
  - intros size n Hs Hn. simpl. unfold cht_number. case_decide as Hd; [done|].
    pose proof (Z.div_mod (n - 1) size ltac:(lia)). pose proof (Z.mod_pos_bound (n - 1) size Hs).
    pose proof (Z.div_pos (n - 1) size ltac:(lia) Hs). nia.
  - intros size k bs f g Hfg. simpl. do 3 f_equal. apply list_fmap_ext.
    intros i x Hx. apply Hfg. apply lookup_seq in Hx as [-> Hi]. lia.
  - intros size blocks Hs Hsort Hpos. simpl.
    destruct (ref_groups size blocks) as [gs|] eqn:Hg; [left|right].
    + assert (StronglySorted Z.le blocks) as Hss by (apply Sorted_StronglySorted; [apply _|done]).
      destruct (ref_groups_spec size blocks Hs Hss gs Hg) as (Hc & Hlt & Hall).
      exists gs. split_and!; try done. eapply Forall_impl; [exact Hall|]. by intros g [? _].
    + intros S f s. by eexists.
Qed.

Lemma header_proof_spec_witness :
  header_proof trie_client (IdNumber 2) =
  Ok (sample_header 2 2 101, [(0, [2], [Ok (Some 101); Ok (Some 202)])])%Z.
Proof.
  destruct (header_proof_spec (CL := ref_cht_laws) trie_client (IdNumber 2) 2
    (sample_header 2 2 101)) as (k & Hk & H); [vm_compute; reflexivity|lia|simpl; lia|].
  assert (k = 0)%Z as -> by (simpl in Hk; lia).
  change (header_proof trie_client (IdNumber 2)) with
    (header_proof_with_cht_size trie_client (IdNumber 2) 2).
  rewrite H by (unfold u32_max; simpl; lia).
  vm_compute. reflexivity.
Defined.

Definition sample_changes_proof : result ChangesProof :=
  LightProofs.key_changes_proof trie_client 101%Z 202%Z 202%Z 202%Z None "k".

Lemma key_changes_proof_spec_witness :
  ∃ p, sample_changes_proof = Ok p ∧ cp_proof p = ["node"; "node"] ∧
    ∃ trace, (∀ n r, (n, r) ∈ cp_roots p ↔
       (n < 2)%Z ∧ last (filter (λ br, br.1 = n) trace) = Some (n, r)).
Proof.
  assert (match sample_changes_proof with Ok p => cp_proof p | _ => [] end = ["node"; "node"])
    as Hn by (vm_compute; reflexivity).
  destruct sample_changes_proof as [p|e|m] eqn:Hp; [|discriminate Hn..].
  exists p. split; [reflexivity|]. split; [exact Hn|].
  destruct (key_changes_proof_spec (CL := ref_cht_laws) trie_client 101%Z 202%Z 202%Z 202%Z None "k"
    2 p) as (fn & mn & mx & st & configs & trace & _ & Hmn & _ & _ & _ & _ & _ & Hr & _).
  - lia.
  - intros s a b r Hr. simpl in Hr. case_decide; [done|discriminate].
  - exact Hp.
  - assert (bc_expect_block_number_from_id (backend trie_client) (IdHash 202%Z) = Ok 2%Z) as H2
      by (vm_compute; reflexivity).
    rewrite H2 in Hmn. injection Hmn as <-.
    exists trace. exact Hr.
Defined.
