(* ===== verification/Network.v ===== *)
(** * The network task ([client/service/src/lib.rs], [build_network] of
    [builder.rs])

    The task "network-worker": it waits for the start signal, subscribes to
    the client's import and finality streams, and then loops, telling the
    network what was imported and finalized.  The network worker is a
    parameter: it is the list of the calls made on it. *)

From S2P Require Import Prelude Chain Notifies VersionCache Reference Client.

(** What the network worker does by itself in one poll, the status sinks of
    [sp_utils] and the two reports of the worker. *)
Class NetworkTypes := {
  Progress : Type;
  NetworkStatus : Type;
  NetworkState : Type;
  StatusSinks : Type → Type;
  status_sinks_new {T} : StatusSinks T;
  status_sinks_push {T} : Z → StatusSinks T → StatusSinks T;   (* an interval *)
  (* the sink whose timer fired is sent an element *)
  status_sinks_send {T} : nat → T → StatusSinks T → StatusSinks T;
}.

(** The result of polling a stream. *)
Inductive Polled (T : Type) := Pending | Ready (x : option T).
Arguments Pending {T}.
Arguments Ready {T} x.

(** [poll_next] of the receiver whose queue is [q]; it ends once every sender
    is gone, which are [alive] with the client. *)
Definition poll_next {T} (alive : bool) (q : list T) : Polled T * list T :=
  match q with
  | x :: q => (Ready (Some x), q)
  | [] => (if alive then Pending else Ready None, [])
  end.

(** The closure of [stream::poll_fn]: it takes what is ready and keeps the
    last item. *)
Fixpoint poll_last {T} (last : option T) (q : list T) : Polled T * list T :=
  match q with
  | item :: q => poll_last (Some item) q
  | [] => (match last with Some last => Ready (Some last) | None => Pending end, [])
  end.

Section network.
Context `{CT : ChainTypes, BT : BackendTypes, BE : !Backend, SL : !StorageListeners,
  NT : NetworkTypes}.

(** The calls on the network worker and on its service. *)
Inductive NetCall :=
  | AnnounceBlock (h : Hash) (data : option Bytes)
  | NewBestBlockImported (h : Hash) (n : Z)
  | OnBlockFinalized (h : Hash) (header : Header)
  | WorkerPolled (p : Progress).

Class NetworkReports := {
  network_status : list NetCall → NetworkStatus;
  network_state : list NetCall → NetworkState;
}.
Context {NR : NetworkReports}.

(** [NetworkStatusSinks]; its clones share the sinks. *)
Record NetworkStatusSinks := {
  nss_status : StatusSinks NetworkStatus;
  nss_state : StatusSinks NetworkState;
}.
Definition network_status_sinks_new : NetworkStatusSinks :=
  {| nss_status := status_sinks_new; nss_state := status_sinks_new |}.
(** [NetworkStatusSinks::status_stream], [NetworkStatusSinks::state_stream] *)
Definition status_stream (interval : Z) (s : NetworkStatusSinks) : NetworkStatusSinks :=
  {| nss_status := status_sinks_push interval (nss_status s); nss_state := nss_state s |}.
Definition state_stream (interval : Z) (s : NetworkStatusSinks) : NetworkStatusSinks :=
  {| nss_status := nss_status s; nss_state := status_sinks_push interval (nss_state s) |}.

(** What [build_network_future] owns: the calls its network received, the
    queues of its two receivers, and the flag. *)
Record NetFuture := {
  nf_network : list NetCall;
  nf_imported : list BlockImportNotification;
  nf_finality : list FinalityNotification;
  nf_announce : bool;               (* [announce_imported_blocks] *)
}.

(** The branches of [select!]. *)
Inductive Branch :=
  | BImported | BFinalized | BNetwork (p : Progress) | BStatus (sink : nat) | BState (sink : nat).

(** The body of the first branch. *)
Definition handle_imported (announce_imported_blocks : bool)
    (notification : BlockImportNotification) : list NetCall :=
  (if announce_imported_blocks then [AnnounceBlock (in_hash notification) None] else []) ++
  (if in_is_new_best notification
   then [NewBestBlockImported (in_hash notification) (h_number (in_header notification))]
   else []).

Inductive LoopResult :=
  | NotReady | Return | Continue (f : NetFuture) (sinks : NetworkStatusSinks).

(** One round of the loop of [build_network_future], which takes the branch
    [b] when it is ready. *)
Definition loop_round (alive : bool) (f : NetFuture) (sinks : NetworkStatusSinks) (b : Branch) :
    LoopResult :=
  match b with
  | BImported =>
      match poll_next alive (nf_imported f) with
      | (Pending, _) => NotReady
      | (Ready None, _) => Return
      | (Ready (Some notification), q) =>
          Continue {| nf_network := nf_network f ++ handle_imported (nf_announce f) notification;
                      nf_imported := q; nf_finality := nf_finality f;
                      nf_announce := nf_announce f |} sinks
      end
  | BFinalized =>
      match poll_last None (nf_finality f) with
      | (Ready (Some notification), q) =>
          Continue {| nf_network := nf_network f ++
                        [OnBlockFinalized (fn_hash notification) (fn_header notification)];
                      nf_imported := nf_imported f; nf_finality := q;
                      nf_announce := nf_announce f |} sinks
      | _ => NotReady
      end
  | BNetwork p =>
      Continue {| nf_network := nf_network f ++ [WorkerPolled p];
                  nf_imported := nf_imported f; nf_finality := nf_finality f;
                  nf_announce := nf_announce f |} sinks
  | BStatus sink =>
      Continue f {| nss_status := status_sinks_send sink (network_status (nf_network f))
                                    (nss_status sinks);
                    nss_state := nss_state sinks |}
  | BState sink =>
      Continue f {| nss_status := nss_status sinks;
                    nss_state := status_sinks_send sink (network_state (nf_network f))
                                   (nss_state sinks) |}
  end.

(** ** The task "network-worker" and its surroundings *)

(** The task: before the signal (which is the fate of [NetworkStarter]), in
    the loop, or over. *)
Inductive NetTask :=
  | AwaitStart (signal : option bool) (announce : bool)
  | Looping (f : NetFuture)
  | Over.

Record NetNode := {
  nn_arcs : nat;              (* the [Arc]s to the client outside the task *)
  nn_task : NetTask;
  nn_sinks : NetworkStatusSinks;
}.

(** The end of [build_network]: the task is spawned, and owns a clone of the
    client. *)
Definition spawn_network (announce_block : bool) (arcs : nat) : NetNode :=
  {| nn_arcs := arcs; nn_task := AwaitStart None announce_block;
     nn_sinks := network_status_sinks_new |}.

(** The client lives as long as something holds it; the arguments of an
    [async fn] are dropped when its body ends. *)
Definition task_holds_client (t : NetTask) : bool :=
  match t with Over => false | _ => true end.
Definition client_alive (s : NetNode) : bool :=
  (0 <? nn_arcs s) || task_holds_client (nn_task s).

Inductive NetEvent :=
  | StartNetwork                     (* [NetworkStarter::start_network] *)
  | DropStarter
  | WakeTask                         (* the spawned task is polled after the signal *)
  | Imported_ (n : BlockImportNotification)
  | Finalized_ (n : FinalityNotification)
  | Round (b : Branch)
  | OpenStatusStream (interval : Z)
  | OpenStateStream (interval : Z)
  | CloneClient
  | DropClient.

Definition set_task (t : NetTask) (s : NetNode) : NetNode :=
  {| nn_arcs := nn_arcs s; nn_task := t; nn_sinks := nn_sinks s |}.
Definition set_arcs (n : nat) (s : NetNode) : NetNode :=
  {| nn_arcs := n; nn_task := nn_task s; nn_sinks := nn_sinks s |}.
Definition set_sinks (x : NetworkStatusSinks) (s : NetNode) : NetNode :=
  {| nn_arcs := nn_arcs s; nn_task := nn_task s; nn_sinks := x |}.

(** The receivers [build_network_future] makes when it is first polled. *)
Definition net_future_new (announce : bool) : NetFuture :=
  {| nf_network := []; nf_imported := []; nf_finality := []; nf_announce := announce |}.

Definition push_imported (n : BlockImportNotification) (f : NetFuture) : NetFuture :=
  {| nf_network := nf_network f; nf_imported := nf_imported f ++ [n];
     nf_finality := nf_finality f; nf_announce := nf_announce f |}.
Definition push_finality (n : FinalityNotification) (f : NetFuture) : NetFuture :=
  {| nf_network := nf_network f; nf_imported := nf_imported f;
     nf_finality := nf_finality f ++ [n]; nf_announce := nf_announce f |}.

(** One event; [None] when it cannot happen.  A dropped starter ends the task
    with a warning. *)
Definition net_step (e : NetEvent) (s : NetNode) : option NetNode :=
  match e, nn_task s with
  | StartNetwork, AwaitStart None a => Some (set_task (AwaitStart (Some true) a) s)
  | DropStarter, AwaitStart None a => Some (set_task (AwaitStart (Some false) a) s)
  | WakeTask, AwaitStart (Some true) a => Some (set_task (Looping (net_future_new a)) s)
  | WakeTask, AwaitStart (Some false) _ => Some (set_task Over s)
  | Imported_ n, t =>
      if client_alive s
      then Some (match t with Looping f => set_task (Looping (push_imported n f)) s | _ => s end)
      else None
  | Finalized_ n, t =>
      if client_alive s
      then Some (match t with Looping f => set_task (Looping (push_finality n f)) s | _ => s end)
      else None
  | Round b, Looping f =>
      match loop_round (client_alive s) f (nn_sinks s) b with
      | NotReady => None
      | Return => Some (set_task Over s)
      | Continue f sinks => Some (set_sinks sinks (set_task (Looping f) s))
      end
  | OpenStatusStream i, _ => Some (set_sinks (status_stream i (nn_sinks s)) s)
  | OpenStateStream i, _ => Some (set_sinks (state_stream i (nn_sinks s)) s)
  | CloneClient, _ => if 0 <? nn_arcs s then Some (set_arcs (S (nn_arcs s)) s) else None
  | DropClient, _ =>
      match nn_arcs s with S n => Some (set_arcs n s) | O => None end
  | _, _ => None
  end.

(** [NetworkStarter::start_network] *)
Definition start_network (s : NetNode) : NetNode := default s (net_step StartNetwork s).

Fixpoint net_run (es : list NetEvent) (s : NetNode) : option NetNode :=
  match es with
  | [] => Some s
  | e :: es => s ← net_step e s; net_run es s
  end.

(** ** What the loop was sent and what it did *)

Definition sent_imported (es : list NetEvent) : list BlockImportNotification :=
  omap (λ e, match e with Imported_ n => Some n | _ => None end) es.
Definition sent_finality (es : list NetEvent) : list FinalityNotification :=
  omap (λ e, match e with Finalized_ n => Some n | _ => None end) es.

Definition is_import_call (c : NetCall) : bool :=
  match c with AnnounceBlock _ _ | NewBestBlockImported _ _ => true | _ => false end.
Definition import_calls (l : list NetCall) : list NetCall := filter is_import_call l.
Definition finality_calls (l : list NetCall) : list FinalityNotification :=
  omap (λ c, match c with
             | OnBlockFinalized h hdr => Some {| fn_header := hdr; fn_hash := h |}
             | _ => None
             end) l.

(** The events from the first poll of [build_network_future] on. *)
Fixpoint after_wake (es : list NetEvent) : list NetEvent :=
  match es with
  | [] => []
  | WakeTask :: es => es
  | _ :: es => after_wake es
  end.

(** ** Properties *)

Lemma import_calls_handle a n : import_calls (handle_imported a n) = handle_imported a n.
Proof. unfold handle_imported, import_calls. by destruct a, (in_is_new_best n). Qed.
Lemma finality_calls_handle a n : finality_calls (handle_imported a n) = [].
Proof. unfold handle_imported, finality_calls. by destruct a, (in_is_new_best n). Qed.

Lemma poll_last_spec {T} (q : list T) : ∀ x,
  poll_last (Some x) q = (Ready (Some (default x (last q))), []).
Proof.
  induction q as [|y q IH]; intros x; [done|]. simpl poll_last. rewrite IH, last_cons.
  by destruct (last q).
Qed.

(** What holds of the loop after it was sent [imps] and [fins]. *)
Definition loop_inv (a : bool) (imps : list BlockImportNotification)
    (fins : list FinalityNotification) (f : NetFuture) : Prop :=
  nf_announce f = a ∧
  (∃ taken, imps = taken ++ nf_imported f ∧
     import_calls (nf_network f) = concat (handle_imported a <$> taken)) ∧
  (∃ taken, fins = taken ++ nf_finality f ∧
     sublist (finality_calls (nf_network f)) taken ∧
     last (finality_calls (nf_network f)) = last taken).

Lemma loop_round_inv a imps fins f sinks b :
  loop_inv a imps fins f →
  match loop_round true f sinks b with
  | NotReady => True
  | Return => False
  | Continue f' _ => loop_inv a imps fins f'
  end.
Proof.
  intros (Ha & (t & Hi & Hc) & (u & Hf & Hs & Hl)). destruct b; simpl.
  - destruct (nf_imported f) as [|n q] eqn:Hq; simpl; [done|]. split; [done|].
    unfold import_calls, finality_calls in *. simpl. rewrite filter_app, omap_app.
    change (omap _ (handle_imported _ n)) with (finality_calls (handle_imported (nf_announce f) n)).
    change (filter _ (handle_imported _ n)) with (import_calls (handle_imported (nf_announce f) n)).
    rewrite import_calls_handle, finality_calls_handle, app_nil_r.
    split; [|by exists u]. exists (t ++ [n]). split; [by rewrite <- app_assoc|].
    rewrite fmap_app, concat_app, Hc, Ha. simpl. by rewrite app_nil_r.
  - destruct (nf_finality f) as [|n q] eqn:Hq; simpl; [done|].
    rewrite poll_last_spec. split; [done|]. unfold import_calls, finality_calls in *. simpl.
    rewrite filter_app, omap_app. simpl. rewrite app_nil_r. split; [by exists t|].
    exists (u ++ n :: q). split; [by rewrite app_nil_r|]. set (x := default n (last q)).
    assert (∃ p, n :: q = p ++ [x]) as [p Hp].
    { unfold x. destruct q as [|y q] using rev_ind; [by exists []|].
      exists (n :: q). by rewrite last_snoc. }
    rewrite Hp. replace {| fn_header := fn_header x; fn_hash := fn_hash x |} with x
      by (by destruct x). split.
    + apply sublist_app; [done|]. by apply sublist_inserts_l.
    + by rewrite !last_snoc, app_assoc, last_snoc.
  - split; [done|]. unfold import_calls, finality_calls in *. simpl.
    rewrite filter_app, omap_app. simpl. rewrite !app_nil_r. split; [by exists t|by exists u].
  - split; [done|]. split; [by exists t|by exists u].
  - split; [done|]. split; [by exists t|by exists u].
Qed.

Lemma loop_inv_new a : loop_inv a [] [] (net_future_new a).
Proof. split; [done|]. split; by exists []. Qed.

Lemma loop_inv_push_imported a imps fins f n :
  loop_inv a imps fins f → loop_inv a (imps ++ [n]) fins (push_imported n f).
Proof.
  intros (Ha & (t & -> & Hc) & Hf). split; [done|]. split; [|done].
  exists t. by rewrite <- app_assoc.
Qed.
Lemma loop_inv_push_finality a imps fins f n :
  loop_inv a imps fins f → loop_inv a imps (fins ++ [n]) (push_finality n f).
Proof.
  intros (Ha & Hi & (t & -> & Hc)). split; [done|]. split; [done|].
  exists t. by rewrite <- app_assoc.
Qed.

(** A step of a node whose task loops. *)
Lemma loop_step e s s' a imps fins f :
  nn_task s = Looping f → loop_inv a imps fins f → net_step e s = Some s' →
  ∃ f', nn_task s' = Looping f' ∧
    loop_inv a (imps ++ sent_imported [e]) (fins ++ sent_finality [e]) f'.
Proof.
  intros Ht Hi Hs. assert (client_alive s = true) as Hal
    by (unfold client_alive; rewrite Ht; apply orb_true_r).
  destruct e as [| | |n|n|b|i|i| |]; simpl in Hs; rewrite ?Ht, ?Hal in Hs; simpl in *;
    rewrite ?app_nil_r.
  1-3: done.
  - injection Hs as <-. eexists. split; [done|]. by apply loop_inv_push_imported.
  - injection Hs as <-. eexists. split; [done|]. by apply loop_inv_push_finality.
  - pose proof (loop_round_inv a imps fins f (nn_sinks s) b Hi) as Hr.
    destruct (loop_round _ _ _ _) as [| |f' sinks]; [done|done|]. injection Hs as <-.
    by exists f'.
  - injection Hs as <-. by exists f.
  - injection Hs as <-. by exists f.
  - case_match; [|done]. injection Hs as <-. by exists f.
  - case_match; [done|]. injection Hs as <-. by exists f.
Qed.

Lemma sent_imported_app es es' : sent_imported (es ++ es') = sent_imported es ++ sent_imported es'.
Proof. apply omap_app. Qed.
Lemma sent_finality_app es es' : sent_finality (es ++ es') = sent_finality es ++ sent_finality es'.
Proof. apply omap_app. Qed.

Lemma after_wake_app es es' : WakeTask ∈ es → after_wake (es ++ es') = after_wake es ++ es'.
Proof.
  induction es as [|e es IH]; intros Hw; [by apply elem_of_nil in Hw|].
  apply elem_of_cons in Hw as [<-|Hw]; [done|]. destruct e; simpl; auto.
Qed.
Lemma after_wake_None es es' : WakeTask ∉ es → after_wake (es ++ WakeTask :: es') = es'.
Proof.
  induction es as [|e es IH]; intros Hw; [done|]. apply not_elem_of_cons in Hw as [He Hw].
  destruct e; simpl; auto; done.
Qed.

(** What a run says of the task: nothing is heard before it is woken. *)
Definition task_inv (a : bool) (es : list NetEvent) (t : NetTask) : Prop :=
  match t with
  | AwaitStart sg a' => a' = a ∧ (WakeTask ∉ es) ∧ (sg = Some false → DropStarter ∈ es)
  | Looping f => WakeTask ∈ es ∧
      loop_inv a (sent_imported (after_wake es)) (sent_finality (after_wake es)) f
  | Over => DropStarter ∈ es
  end.

Lemma waiting_step a es e s s' sg a' :
  nn_task s = AwaitStart sg a' → task_inv a es (AwaitStart sg a') → net_step e s = Some s' →
  task_inv a (es ++ [e]) (nn_task s').
Proof.
  intros Ht (-> & Hw & Hd) Hs. destruct e as [| | |n|n|b|i|i| |]; simpl in Hs; rewrite ?Ht in Hs;
    repeat (case_match; try done); simplify_eq/=; rewrite ?Ht; simpl;
    rewrite ?elem_of_app, ?list_elem_of_singleton; try naive_solver.
  rewrite after_wake_None by done. split; [by right|]. apply loop_inv_new.
Qed.

Lemma task_step a es e s s' :
  task_inv a es (nn_task s) → net_step e s = Some s' → task_inv a (es ++ [e]) (nn_task s').
Proof.
  intros Hi Hs. destruct (nn_task s) as [sg a'|f|] eqn:Ht.
  - by eapply waiting_step.
  - destruct Hi as [Hw Hi]. destruct (loop_step _ _ _ _ _ _ _ Ht Hi Hs) as (f' & -> & Hi').
    simpl. rewrite after_wake_app, sent_imported_app, sent_finality_app by done.
    rewrite elem_of_app. auto.
  - destruct e; simpl in Hs; rewrite ?Ht in Hs; repeat (case_match; try done); simplify_eq/=;
      rewrite ?Ht; simpl in *; rewrite elem_of_app; auto.
Qed.

Lemma net_run_snoc es e s : net_run (es ++ [e]) s = net_run es s ≫= net_step e.
Proof.
  revert s. induction es as [|x es IH]; intros s; simpl.
  - by destruct (net_step e s).
  - destruct (net_step x s); simpl; [apply IH|done].
Qed.

Lemma task_run a arcs es s :
  net_run es (spawn_network a arcs) = Some s → task_inv a es (nn_task s).
Proof.
  revert s. induction es as [|e es IH] using rev_ind; intros s Hr.
  - injection Hr as <-. split; [done|]. split; [apply not_elem_of_nil|done].
  - rewrite net_run_snoc in Hr. destruct (net_run es _) as [s1|] eqn:Hr1; [|done].
    apply (task_step _ _ _ s1); [by apply IH|exact Hr].
Qed.

(** C29. Under any order of imports, finalizations, polls and starts, the network
    is told of the imports sent since the task was woken, each once and in
    order: an announcement if blocks are announced, then the new best block if
    it is one; those not told yet are exactly what is still queued, and with
    an empty queue nothing is missing. *)
Theorem network_relays_imports (a : bool) (arcs : nat) (es : list NetEvent) (s : NetNode)
    (f : NetFuture) :
  net_run es (spawn_network a arcs) = Some s → nn_task s = Looping f →
  ∃ taken, sent_imported (after_wake es) = taken ++ nf_imported f ∧
    import_calls (nf_network f) = concat (handle_imported a <$> taken) ∧
    (loop_round (client_alive s) f (nn_sinks s) BImported = NotReady →
     import_calls (nf_network f) =
       concat (handle_imported a <$> sent_imported (after_wake es))).
Proof.
  intros Hr Ht. pose proof (task_run _ _ _ _ Hr) as Hi. rewrite Ht in Hi.
  destruct Hi as (_ & _ & (taken & Hs & Hc) & _). exists taken. split; [done|]. split; [done|].
  intros Hn. rewrite Hs. simpl in Hn.
  destruct (nf_imported f); simpl in Hn; [by rewrite app_nil_r|done].
Qed.

(** The finalized blocks the network is told of are a subsequence of the
    finality notifications sent since the task was woken, in their order; items
    that are ready together are merged into the last, and when nothing is left
    to take the network's last finalized block is the last one finalized. *)
Theorem network_finality_latest (a : bool) (arcs : nat) (es : list NetEvent) (s : NetNode)
    (f : NetFuture) :
  net_run es (spawn_network a arcs) = Some s → nn_task s = Looping f →
  sublist (finality_calls (nf_network f)) (sent_finality (after_wake es)) ∧
  (loop_round (client_alive s) f (nn_sinks s) BFinalized = NotReady →
   last (finality_calls (nf_network f)) = last (sent_finality (after_wake es))).
Proof.
  intros Hr Ht. pose proof (task_run _ _ _ _ Hr) as Hi. rewrite Ht in Hi.
  destruct Hi as (_ & _ & _ & (taken & -> & Hs & Hl)). split.
  - by apply sublist_inserts_r.
  - simpl. intros Hn. destruct (nf_finality f) as [|n q]; [by rewrite app_nil_r|].
    simpl in Hn. by rewrite poll_last_spec in Hn.
Qed.

(** The loop is never left: the task holds the client, so the import stream
    it polls cannot end, whoever else drops the client; the task is over only
    if the starter was dropped before the start. *)
Theorem network_future_never_ends (a : bool) (arcs : nat) (es : list NetEvent) (s : NetNode) :
  net_run es (spawn_network a arcs) = Some s →
  (nn_task s = Over → DropStarter ∈ es) ∧
  (∀ f b, nn_task s = Looping f → loop_round (client_alive s) f (nn_sinks s) b ≠ Return).
Proof.
  intros Hr. pose proof (task_run _ _ _ _ Hr) as Hi. split.
  - intros Ht. by rewrite Ht in Hi.
  - intros f b Ht. rewrite Ht in Hi. destruct Hi as [_ Hi].
    assert (client_alive s = true) as ->
      by (unfold client_alive; rewrite Ht; apply orb_true_r).
    pose proof (loop_round_inv _ _ _ f (nn_sinks s) b Hi) as H.
    intros Hret. by rewrite Hret in H.
Qed.
End network.

(** ** Witness: two imports and two finalizations after a late start *)

#[local] Existing Instance ref_chain.
#[local] Existing Instance ref_types.
#[local] Existing Instance ref_backend.
#[local] Existing Instance listeners_reference.

#[local] Instance network_reference : NetworkTypes := {|
  Progress := unit; NetworkStatus := nat; NetworkState := nat;
  StatusSinks T := list (Z * list T);
  status_sinks_new T := [];
  status_sinks_push T i l := l ++ [(i, [])];
  status_sinks_send T i x l := alter (λ p, (p.1, p.2 ++ [x])) i l;
|}.
#[local] Instance reports_reference : NetworkReports :=
  {| network_status := length; network_state := length |}.

Definition sample_import (n : Z) (best : bool) : BlockImportNotification := {|
  in_hash := header_hash (sample_header n n (n - 1)); in_origin := NetworkBroadcast;
  in_header := sample_header n n (n - 1); in_is_new_best := best; in_tree_route := None |}.
Definition sample_finality (n : Z) : FinalityNotification :=
  {| fn_header := sample_header n n (n - 1); fn_hash := header_hash (sample_header n n (n - 1)) |}.

(** Block 1 is imported before the task is woken. *)
Definition sample_events : list NetEvent :=
  [Imported_ (sample_import 1 true); StartNetwork; DropClient; WakeTask;
   OpenStatusStream 5; Imported_ (sample_import 2 true); Round BImported; Round (BNetwork ());
   Imported_ (sample_import 3 false); Finalized_ (sample_finality 1);
   Finalized_ (sample_finality 2); Round BFinalized; Round (BStatus 0); Round BImported].

Definition sample_network : NetNode := {|
  nn_arcs := 0;
  nn_task := Looping {|
    nf_network := [AnnounceBlock 202 None; NewBestBlockImported 202 2; WorkerPolled ();
      OnBlockFinalized 202 (sample_header 2 2 1); AnnounceBlock 303 None];
    nf_imported := []; nf_finality := []; nf_announce := true |};
  nn_sinks := {| nss_status := [(5, [4%nat])]; nss_state := [] |} |}%Z.

Example sample_events_run : net_run sample_events (spawn_network true 1) = Some sample_network.
Proof. vm_compute. reflexivity. Qed.

Definition sample_future : NetFuture :=
  match nn_task sample_network with Looping f => f | _ => net_future_new true end.

Lemma network_relays_imports_witness :
  import_calls (nf_network sample_future) =
    [AnnounceBlock 202 None; NewBestBlockImported 202 2; AnnounceBlock 303 None]%Z /\
  import_calls (nf_network sample_future) =
    concat (handle_imported true <$> [sample_import 2 true; sample_import 3 false]).
Proof.
  split; [reflexivity|].
  destruct (network_relays_imports true 1 sample_events sample_network sample_future)
    as (taken & _ & _ & H); [vm_compute; reflexivity|reflexivity|].
  apply H. reflexivity.
Defined.

Lemma network_finality_latest_witness :
  last (finality_calls (nf_network sample_future)) = Some (sample_finality 2).
Proof.
  destruct (network_finality_latest true 1 sample_events sample_network sample_future)
    as [_ H]; [vm_compute; reflexivity|reflexivity|].
  rewrite H by reflexivity. reflexivity.
Defined.

Lemma network_future_never_ends_witness :
  loop_round (client_alive sample_network) sample_future (nn_sinks sample_network) BImported
    ≠ Return.
Proof.
  destruct (network_future_never_ends true 1 sample_events sample_network) as [_ H];
    [vm_compute; reflexivity|]. apply H. reflexivity.
Defined.
