(* ===== verification/Relay.v ===== *)
(** * From the client to the network

    The streams join the client ([notifies.rs], [client.rs]) to the network
    task ([lib.rs]): the queue of a sink the client writes to is the queue of
    the receiver that [build_network_future] polls.  This file composes the
    two; it models no further code. *)

From S2P Require Import Prelude Chain BlockRules Notifies VersionCache Reference Client ClientQueries Network.

Section relay.
Context `{CT : ChainTypes, BT : BackendTypes, BE : !Backend, RT : RuntimeTypes,
  RA : !RuntimeApi, SL : !StorageListeners, CE : ClientErrors, NT : NetworkTypes,
  NR : !NetworkReports}.

(** The notification of an imported block. *)
Definition notification_of (i : ImportSummary) : BlockImportNotification := {|
  in_hash := is_hash i; in_origin := is_origin i; in_header := is_header i;
  in_is_new_best := is_is_new_best i; in_tree_route := is_tree_route i |}.

(** The newest sink of either kind is open and holds these notifications. *)
Definition hears (c : Client) (imps : list BlockImportNotification)
    (fins : list FinalityNotification) : Prop :=
  last (import_notification_sinks (client_notifies c)) = Some (mk_sink false imps) ∧
  last (finality_notification_sinks (client_notifies c)) = Some (mk_sink false fins).

(** Successful operations under the import lock, with what each announces. *)
Inductive client_run (c : Client) :
    list (option ImportSummary * list Hash) → Client → Prop :=
  | client_run_nil : client_run c [] c
  | client_run_snoc outs c1 R (f : Client → M Error ImportState R) r c2 :
      client_run c outs c1 → lock_import_and_run f c1 = (Ok r, c2) →
      let s := (f c1 (start_import c1)).2 in
      client_run c (outs ++ [(op_notify_imported s, op_notify_finalized s)]) c2.

Lemma last_delivered {T} (ns q : list T) sinks :
  last sinks = Some (mk_sink false q) → last (delivered ns sinks) = Some (mk_sink false (q ++ ns)).
Proof.
  intros (init & ->)%last_Some. unfold delivered, retain_open.
  rewrite filter_app, fmap_app. apply last_snoc.
Qed.

Lemma retain_send_last {T} (x : T) q sinks :
  last sinks = Some (mk_sink false q) → last (retain_send x sinks) = Some (mk_sink false (q ++ [x])).
Proof. rewrite retain_send_delivered. apply last_delivered. Qed.

Lemma retain_open_last {T} (q : list T) sinks :
  last sinks = Some (mk_sink false q) → last (retain_open sinks) = Some (mk_sink false q).
Proof. rewrite <- delivered_nil. intros H%(last_delivered []). by rewrite app_nil_r in H. Qed.

Lemma notify_loop_last db hs : ∀ n n' q,
  for_each (notify_one_finalized db) hs n = (Ok (), n') →
  last (finality_notification_sinks n) = Some (mk_sink false q) →
  import_notification_sinks n' = import_notification_sinks n ∧
  ∃ ns, fn_hash <$> ns = hs ∧ last (finality_notification_sinks n') = Some (mk_sink false (q ++ ns)).
Proof.
  induction hs as [|h hs IH]; intros n n' q H Hq; simpl in H.
  - injection H as <-. split; [done|]. exists []. by rewrite app_nil_r.
  - apply bind_Ok in H as (u & n1 & H1 & H). unfold notify_one_finalized in H1.
    apply bind_Ok in H1 as (o & n2 & Ho & H1). apply bind_Ok in H1 as (hdr & n3 & Hh & H1).
    injection Ho as _ <-. injection Hh as _ <-. injection H1 as _ <-.
    destruct (IH _ n' (q ++ [{| fn_header := hdr; fn_hash := h |}]) H) as (Hi & ns & Hns & Hl);
      [by apply retain_send_last|].
    split; [done|]. exists ({| fn_header := hdr; fn_hash := h |} :: ns). split; [by rewrite <- Hns|].
    by rewrite <- app_assoc in Hl.
Qed.

Lemma notify_finalized_last db hs n n' q :
  notify_finalized db hs n = (Ok (), n') →
  last (finality_notification_sinks n) = Some (mk_sink false q) →
  import_notification_sinks n' = import_notification_sinks n ∧
  ∃ ns, fn_hash <$> ns = hs ∧ last (finality_notification_sinks n') = Some (mk_sink false (q ++ ns)).
Proof.
  unfold notify_finalized. destruct hs as [|h hs]; [|apply notify_loop_last].
  intros [= <-] Hq. split; [done|]. exists []. rewrite app_nil_r. split; [done|].
  by apply retain_open_last.
Qed.

Lemma notify_imported_last i n n' q :
  notify_imported i n = (Ok (), n') →
  last (import_notification_sinks n) = Some (mk_sink false q) →
  finality_notification_sinks n' = finality_notification_sinks n ∧
  last (import_notification_sinks n') =
    Some (mk_sink false (q ++ option_list (notification_of <$> i))).
Proof.
  unfold notify_imported. destruct i as [i|]; simpl.
  - intros H Hq. apply bind_Ok in H as (u & n1 & H1 & H). injection H as <-.
    assert (import_notification_sinks n1 = import_notification_sinks n ∧
      finality_notification_sinks n1 = finality_notification_sinks n) as [Hi Hf].
    { destruct (is_storage_changes i); by injection H1 as _ <-. }
    split; [done|]. simpl. rewrite Hi. by apply retain_send_last.
  - intros [= <-] Hq. rewrite app_nil_r. split; [done|]. by apply retain_open_last.
Qed.

(** What one successful operation adds to the two queues. *)
Lemma lock_hears {R} (f : Client → M Error ImportState R) c r c' imps fins :
  lock_import_and_run f c = (Ok r, c') → hears c imps fins →
  let s := (f c (start_import c)).2 in
  ∃ ns, fn_hash <$> ns = op_notify_finalized s ∧
    hears c' (imps ++ option_list (notification_of <$> op_notify_imported s)) (fins ++ ns).
Proof.
  intros H [Hi Hf]. unfold lock_import_and_run, query, zoom in H.
  match type of H with (let '(result, c) := ?m in _) = _ => destruct m as [res c1] eqn:Hm end.
  destruct res as [r'|e|m]; [|done|done]. injection H as -> <-.
  apply bind_Ok in Hm as (u & c2 & Hb & Hm). injection Hb as Hb <-.
  apply bind_Ok in Hm as ([r' s] & c3 & Hs & Hm).
  unfold start_import. destruct (f c _) as [ro so] eqn:Hfc. injection Hs as Hs <-.
  destruct ro as [r1|e|m]; simpl in Hs; [|done..]. injection Hs as <- <-. simpl in *.
  apply bind_Ok in Hm as (u1 & c4 & Hc & Hm).
  destruct (commit_operation _ _) as [rc db]. injection Hc as -> <-. simpl in Hm.
  apply bind_Ok in Hm as (u2 & c5 & Hn & Hm). simpl in Hn.
  destruct (notify_finalized _ _ _) as [rn n1] eqn:Hnf. injection Hn as -> <-. destruct u2.
  apply bind_Ok in Hm as (u3 & c6 & Hn & Hm). simpl in Hn.
  destruct (notify_imported _ _) as [ri n2] eqn:Hni. injection Hn as -> <-. destruct u3.
  injection Hm as _ <-. simpl.
  destruct (notify_finalized_last _ _ _ _ _ Hnf Hf) as (Hi1 & ns & Hns & Hl).
  rewrite <- Hi1 in Hi. destruct (notify_imported_last _ _ _ _ Hni Hi) as [Hf1 Hl1].
  exists ns. split; [done|]. split; [exact Hl1|]. simpl. by rewrite Hf1.
Qed.

Lemma run_hears c outs c' : client_run c outs c' → hears c [] [] →
  ∃ fins, fn_hash <$> fins = concat outs.*2 ∧ hears c' (notification_of <$> omap fst outs) fins.
Proof.
  intros Hr Hc. induction Hr as [|outs c1 R f r c2 Hr IH Hl]; [by exists []|].
  destruct IH as (fins & Hfins & Hh). destruct (lock_hears f c1 r c2 _ _ Hl Hh) as (ns & Hns & H).
  exists (fins ++ ns). split.
  - rewrite fmap_app, Hfins, Hns, fmap_app, concat_app. simpl. by rewrite app_nil_r.
  - rewrite omap_app, fmap_app. simpl. destruct (op_notify_imported _); simpl in *; exact H.
Qed.

(** ** The loop on what it was sent *)

Definition looping (arcs : nat) (sinks : NetworkStatusSinks) (f : NetFuture) : NetNode :=
  {| nn_arcs := arcs; nn_task := Looping f; nn_sinks := sinks |}.

Lemma net_run_app es1 : ∀ es2 s,
  net_run (es1 ++ es2) s = net_run es1 s ≫= net_run es2.
Proof.
  induction es1 as [|e es1 IH]; intros es2 s; [done|]. simpl.
  destruct (net_step e s); [apply IH|done].
Qed.

Lemma client_alive_looping arcs sinks f : client_alive (looping arcs sinks f) = true.
Proof. apply orb_true_r. Qed.

Lemma drain_imported arcs sinks a fins imps : ∀ calls,
  net_run (Round <$> replicate (length imps) BImported)
    (looping arcs sinks {| nf_network := calls; nf_imported := imps; nf_finality := fins;
                           nf_announce := a |}) =
  Some (looping arcs sinks {| nf_network := calls ++ concat (handle_imported a <$> imps);
                              nf_imported := []; nf_finality := fins; nf_announce := a |}).
Proof.
  induction imps as [|n imps IH]; intros calls; [by rewrite app_nil_r|].
  simpl. change (set_sinks _ _) with (looping arcs sinks {|
    nf_network := calls ++ handle_imported a n; nf_imported := imps; nf_finality := fins;
    nf_announce := a |}).
  by rewrite IH, <- app_assoc.
Qed.

Definition finality_rounds (fins : list FinalityNotification) : list Branch :=
  match fins with [] => [] | _ => [BFinalized] end.
Definition finality_call (n : FinalityNotification) : NetCall :=
  OnBlockFinalized (fn_hash n) (fn_header n).

Lemma drain_finality arcs sinks a fins calls :
  net_run (Round <$> finality_rounds fins)
    (looping arcs sinks {| nf_network := calls; nf_imported := []; nf_finality := fins;
                           nf_announce := a |}) =
  Some (looping arcs sinks {| nf_network := calls ++ option_list (finality_call <$> last fins);
                              nf_imported := []; nf_finality := []; nf_announce := a |}).
Proof.
  destruct fins as [|n fins]; simpl; [by rewrite app_nil_r|].
  rewrite poll_last_spec, last_cons. simpl. by destruct (last fins).
Qed.

(** C30. What the client announces reaches the network.  Once the network has
    subscribed, whatever operations succeed under the import lock, its two
    queues hold one notification per imported block and per finalized hash, in
    order; and from there the loop tells the network of every import in order
    (announced if the node announces blocks, as the new best block if it is
    one) and of the last finalized block, and leaves nothing queued. *)
Theorem network_hears_client (a : bool) (arcs : nat) (sinks : NetworkStatusSinks)
    (c c' : Client) (outs : list (option ImportSummary * list Hash)) :
  client_run (finality_notification_stream (import_notification_stream c)) outs c' →
  let imps := notification_of <$> omap fst outs in
  ∃ fins, hears c' imps fins ∧ fn_hash <$> fins = concat outs.*2 ∧
    net_run (Round <$> (replicate (length imps) BImported ++ finality_rounds fins))
      (looping arcs sinks {| nf_network := []; nf_imported := imps; nf_finality := fins;
                             nf_announce := a |}) =
    Some (looping arcs sinks {|
      nf_network := concat (handle_imported a <$> imps) ++ option_list (finality_call <$> last fins);
      nf_imported := []; nf_finality := []; nf_announce := a |}).
Proof.
  intros Hr imps. destruct (run_hears _ _ _ Hr) as (fins & Hf & Hh); [by split; apply last_snoc|].
  exists fins. split; [exact Hh|]. split; [exact Hf|].
  rewrite fmap_app, net_run_app, drain_imported. apply drain_finality.
Qed.
End relay.

(** ** Witness: two operations of the client of [Reference.v] *)

#[local] Existing Instance ref_chain.
#[local] Existing Instance ref_types.
#[local] Existing Instance ref_backend.
#[local] Existing Instance ref_runtime_types.
#[local] Existing Instance ref_runtime_api.
#[local] Existing Instance listeners_reference.
#[local] Existing Instance client_errors_reference.
#[local] Existing Instance network_reference.
#[local] Existing Instance reports_reference.

Definition sample_subscribed : Client :=
  finality_notification_stream (import_notification_stream sample_client).
Definition sample_finality_op : Client → M Error ImportState unit :=
  apply_finality (IdHash 202%Z) None true.
Definition sample_import_op : Client → M Error ImportState ImportResult :=
  apply_block (prepare_block_storage_changes sample_client (sample_params 3 1 202 ["x"])).2 ().
Definition after_finality : Client := (lock_import_and_run sample_finality_op sample_subscribed).2.
Definition after_import : Client := (lock_import_and_run sample_import_op after_finality).2.

(** What the two operations announce. *)
Definition sample_outs : list (option ImportSummary * list Hash) :=
  let s1 := (sample_finality_op sample_subscribed (start_import sample_subscribed)).2 in
  let s2 := (sample_import_op after_finality (start_import after_finality)).2 in
  [(op_notify_imported s1, op_notify_finalized s1);
   (op_notify_imported s2, op_notify_finalized s2)].

Lemma sample_client_run : client_run sample_subscribed sample_outs after_import.
Proof.
  assert ((lock_import_and_run sample_finality_op sample_subscribed).1 = Ok ()) as H1
    by (vm_compute; reflexivity).
  assert ((lock_import_and_run sample_import_op after_finality).1 = Ok (Imported true)) as H2
    by (vm_compute; reflexivity).
  apply (client_run_snoc _ [_] after_finality _ sample_import_op (Imported true));
    [|rewrite <- H2; apply surjective_pairing].
  apply (client_run_snoc _ [] sample_subscribed _ sample_finality_op ()); [constructor|].
  rewrite <- H1. apply surjective_pairing.
Qed.

Lemma network_hears_client_witness :
  ∃ imps fins, hears after_import imps fins ∧ fn_hash <$> fins = [101; 202]%Z ∧
    (h_number ∘ in_header) <$> imps = [3]%Z ∧
    nn_task <$> net_run (Round <$> (replicate (length imps) BImported ++ finality_rounds fins))
      (looping 0 network_status_sinks_new {| nf_network := []; nf_imported := imps;
         nf_finality := fins; nf_announce := true |}) =
    Some (Looping {| nf_network := concat (handle_imported true <$> imps) ++
                       option_list (finality_call <$> last fins);
                     nf_imported := []; nf_finality := []; nf_announce := true |}) ∧
    import_calls (concat (handle_imported true <$> imps)) =
      [AnnounceBlock 301 None; NewBestBlockImported 301 3]%Z.
Proof.
  destruct (network_hears_client true 0 network_status_sinks_new sample_client after_import
    sample_outs sample_client_run) as (fins & Hh & Hf & Hr).
  exists (notification_of <$> omap fst sample_outs), fins. split; [exact Hh|].
  split; [rewrite Hf; vm_compute; reflexivity|].
  split; [vm_compute; reflexivity|]. split; [rewrite Hr; reflexivity|].
  vm_compute. reflexivity.
Defined.
