(* ===== verification/Builder.v ===== *)
(** * The service builder ([client/service/src/builder.rs])

    The client of a full node from the node's configuration, the database
    backend, and the network with its tasks.  The task manager, the native
    executor, the network worker and the request handlers of Substrate are
    parameters; spawning adds a task to the list of the tasks spawned. *)

From S2P Require Import Prelude Chain BlockRules Notifies VersionCache Reference.
From S2P Require Import Client ClientQueries CallExecutor Network.

(** [sc_service::Error] *)
Inductive ServiceError :=
  | SvcClient (e : Error)
  | SvcConsensus (s : string)
  | SvcNetwork (s : string)
  | SvcTelemetry (s : string)
  | SvcPrometheus (s : string)
  | SvcIo (s : string)
  | SvcOther (s : string).

Abbreviation service := (outcome ServiceError) (only parsing).

(** [Role] *)
Inductive Role := FullRole | LightRole | SentryRole | AuthorityRole.
#[export] Instance Role_eq_dec : EqDecision Role.
Proof. solve_decision. Defined.

(** [ExecutionStrategy] and the strategies of [ExecutionStrategies], by
    context: syncing, importing, block construction, offchain, other. *)
Inductive ExecutionStrategy := NativeWhenPossible | AlwaysWasm | Both | NativeElseWasm.
Record ExecutionStrategies := {
  es_syncing : ExecutionStrategy;
  es_importing : ExecutionStrategy;
  es_block_construction : ExecutionStrategy;
  es_offchain_worker : ExecutionStrategy;
  es_other : ExecutionStrategy;
}.

(** [PruningMode] *)
Inductive PruningMode := Constrained | ArchiveAll | ArchiveCanonical.

(** [TransactionStorageMode] *)
Inductive TransactionStorageMode := BlockBody | StorageChain.

(** The tasks the program spawns, by name; the network worker spawns more
    through the closures of its parameters. *)
Inductive TaskName :=
  | TaskArchiver | TaskInitializer | TaskExecutor | TaskComparer | TaskTelemetry
  | TaskBlockRequestHandler | TaskNetworkWorker | TaskGrandpaVoter.
#[export] Instance TaskName_eq_dec : EqDecision TaskName.
Proof. solve_decision. Defined.

Section builder.
Context `{CT : ChainTypes, BT : BackendTypes, BE : !Backend, RT : RuntimeTypes,
  RA : !RuntimeApi, SL : !StorageListeners, CE : ClientErrors,
  FS : FileSystem, CR : !CodeRuntime, NT : NetworkTypes}.
Context (override_error : WasmOverrideError → Error).

(** The chain specification, Substrate's executor and task manager, and the
    sources of a database. *)
Class ServiceTypes := {
  ChainSpec : Type;
  (* [get_extension::<ForkBlocks>], [get_extension::<BadBlocks>] *)
  spec_fork_blocks : ChainSpec → option (option (list (Z * Hash)));
  spec_bad_blocks : ChainSpec → option (option (gset Hash));
  (* [as_storage_builder().build_storage()] *)
  build_storage : ChainSpec → outcome string GenesisStorage;
  protocol_id : ChainSpec → string;
  Registry : Type;
  TaskRunner : Type;                       (* [config.task_executor] *)
  task_manager_new : TaskRunner → option Registry → outcome string unit;
  WasmMethod : Type;
  NativeExecutor : Type;
  native_executor_new : WasmMethod → option Z → Z → NativeExecutor;
  TelemetryEndpoints : Type;
  endpoints_is_empty : TelemetryEndpoints → bool;
  DatabaseSource : Type;
  BootNode : Type;
  PeersSet : Type;
  BlockAnnounceValidator : Type;
  default_validator : BlockAnnounceValidator;
}.
Context {ST : ServiceTypes}.

(** The fields of [Configuration] that are read. *)
Record Configuration := {
  cfg_role : Role;
  cfg_chain_spec : ChainSpec;
  cfg_task_executor : TaskRunner;
  cfg_prometheus : option Registry;
  cfg_wasm_method : WasmMethod;
  cfg_default_heap_pages : option Z;
  cfg_max_runtime_instances : Z;
  cfg_execution_strategies : ExecutionStrategies;
  cfg_offchain_enabled : bool;
  cfg_offchain_indexing : bool;
  cfg_wasm_runtime_overrides : option string;
  cfg_telemetry_endpoints : option TelemetryEndpoints;
  cfg_state_cache_size : Z;
  cfg_state_cache_child_ratio : option Z;
  cfg_state_pruning : PruningMode;
  cfg_database : DatabaseSource;
  cfg_keep_blocks : option Z;
  cfg_transaction_storage : TransactionStorageMode;
  cfg_in_peers : Z;
  cfg_out_peers : Z;
  cfg_boot_nodes : list BootNode;
  cfg_extra_sets : list PeersSet;
  cfg_announce_block : bool;
  cfg_disable_grandpa : bool;
}.

(** [DatabaseSettings] *)
Record DatabaseSettings (Source : Type) := {
  ds_state_cache_size : Z;
  ds_state_cache_child_ratio : option (Z * Z);
  ds_state_pruning : PruningMode;
  ds_source : Source;
  ds_keep_blocks : option Z;
  ds_transaction_storage : TransactionStorageMode;
}.
Arguments ds_state_cache_size {Source}.
Arguments ds_state_cache_child_ratio {Source}.
Arguments ds_state_pruning {Source}.
Arguments ds_source {Source}.
Arguments ds_keep_blocks {Source}.
Arguments ds_transaction_storage {Source}.

Definition CANONICALIZATION_DELAY : Z := 4096.

(** [new_db_backend]; [backend_new] is [Backend::new] with its delay. *)
Definition new_db_backend {Source} (backend_new : DatabaseSettings Source → Z → result DB)
    (settings : DatabaseSettings Source) : result DB :=
  backend_new settings CANONICALIZATION_DELAY.

(** [new_client]; the state is the database, which the call executor and the
    client share. *)
Definition new_client (executor : NativeExecutor) (genesis_storage : outcome string GenesisStorage)
    (fork_blocks : option (list (Z * Hash))) (bad_blocks : option (gset Hash))
    (listeners : Listeners) (config : ClientConfig) :
    M Error DB (Client * LocalCallExecutor) :=
  let! executor := query (λ backend,
    call_executor_new override_error backend (wasm_runtime_overrides config)) in
  let! client := client_new genesis_storage fork_blocks bad_blocks listeners config in
  ret (client, {| ce_backend := backend client;
                  ce_wasm_override := ce_wasm_override executor |}).

(** [new_full_parts]; the task manager starts without tasks. *)
Definition new_full_parts (config : Configuration) (listeners : Listeners) :
    M ServiceError DB (Client * LocalCallExecutor * list TaskName) :=
  let! _ := lift (omap_err SvcPrometheus
    (task_manager_new (cfg_task_executor config) (cfg_prometheus config))) in
  let executor := native_executor_new (cfg_wasm_method config)
    (cfg_default_heap_pages config) (cfg_max_runtime_instances config) in
  let chain_spec := cfg_chain_spec config in
  let fork_blocks := default None (spec_fork_blocks chain_spec) in
  let bad_blocks := default None (spec_bad_blocks chain_spec) in
  let! client := catch_err SvcClient (new_client executor (build_storage chain_spec)
    fork_blocks bad_blocks listeners
    {| offchain_worker_enabled := cfg_offchain_enabled config;
       offchain_indexing_api := cfg_offchain_indexing config;
       wasm_runtime_overrides := cfg_wasm_runtime_overrides config |}) in
  ret (client, []).

(** [new_full_client] *)
Definition new_full_client (config : Configuration) (listeners : Listeners) :
    M ServiceError DB (Client * LocalCallExecutor) :=
  let! parts := new_full_parts config listeners in ret parts.1.

(** ** The network *)

(** The protocol of block requests: outgoing requests only, or a handler that
    serves so many peers too. *)
Inductive BlockRequests := OutgoingOnly (protocol : string) | Serving (protocol : string) (peers : Z).

(** [sc_network::config::Params], what [build_network] computes of it. *)
Record NetworkParams := {
  np_role : Role;
  np_protocol_id : string;
  np_boot_nodes : list BootNode;
  np_extra_sets : list PeersSet;
  np_validator : BlockAnnounceValidator;
  np_block_requests : BlockRequests;
}.

(** The part of [build_network] before the worker: the requests of blocks, and
    the task that serves them. *)
Definition block_requests (config : Configuration) : BlockRequests * list TaskName :=
  let protocol_id := protocol_id (cfg_chain_spec config) in
  match cfg_role config with
  | LightRole => (OutgoingOnly protocol_id, [])
  | _ => (Serving protocol_id (cfg_in_peers config + cfg_out_peers config),
          [TaskBlockRequestHandler])
  end.

(** [build_network]; the state is the list of the tasks spawned, [worker_new]
    is [NetworkWorker::new], and [arcs] counts the clients held elsewhere.
    What it returns is the node of [Network.v], whose task waits for the
    starter. *)
Definition build_network (worker_new : NetworkParams → outcome string unit)
    (config : Configuration) (validator : option BlockAnnounceValidator) (arcs : nat) :
    M ServiceError (list TaskName) NetNode :=
  let block_announce_validator := default default_validator validator in
  let '(block_request_protocol_config, handler) := block_requests config in
  let! _ := modify (λ tasks, tasks ++ handler) in
  let network_params := {|
    np_role := cfg_role config; np_protocol_id := protocol_id (cfg_chain_spec config);
    np_boot_nodes := cfg_boot_nodes config; np_extra_sets := cfg_extra_sets config;
    np_validator := block_announce_validator;
    np_block_requests := block_request_protocol_config |} in
  let! _ := lift (omap_err SvcNetwork (worker_new network_params)) in
  let future := spawn_network (cfg_announce_block config) arcs in
  let! _ := modify (λ tasks, tasks ++ [TaskNetworkWorker]) in
  ret future.

(** ** Properties *)

Lemma client_new_Ok build forks bads l cfg db c db' :
  client_new build forks bads l cfg db = (Ok c, db') →
  backend c = db' ∧ block_rules c = block_rules_new forks bads ∧ config c = cfg ∧
  importing_block c = None.
Proof.
  unfold client_new, query, get. intros H.
  apply bind_Ok in H as (h & s1 & _ & H). apply bind_Ok in H as (u & s2 & _ & H).
  by injection H as <- <-.
Qed.

(** [Client::new] only writes to the database by committing its operation. *)
Lemma client_new_fails build forks bads l cfg db e db' :
  client_new build forks bads l cfg db = (Err e, db') →
  db' = db ∨ ∃ calls, commit_operation db calls = (Err e, db').
Proof.
  unfold client_new, query, get, lift. intros H. unfold bind, ret in H.
  destruct (bc_header db (IdNumber 0)) as [[h|]|e'|p]; [done| |by injection H as _ <-; left|done].
  destruct (genesis_operation db build) as [calls|e'|p];
    [|by injection H as _ <-; left|done].
  destruct (commit_operation db calls) as [[u|e'|p] db1] eqn:Hc; [done| |done].
  injection H as <- <-. right. by exists calls.
Qed.

Lemma new_full_parts_Ok config l db client exec tasks db' :
  new_full_parts config l db = (Ok (client, exec, tasks), db') →
  (∃ f, client_new (build_storage (cfg_chain_spec config))
    (default None (spec_fork_blocks (cfg_chain_spec config)))
    (default None (spec_bad_blocks (cfg_chain_spec config))) l f db = (Ok client, db')) ∧
  call_executor_new override_error (backend client) (cfg_wasm_runtime_overrides config) = Ok exec ∧
  tasks = [].
Proof.
  unfold new_full_parts, catch_err, lift. intros H. unfold bind at 1 in H.
  destruct (omap_err _ (task_manager_new _ _)); [|done|done]. unfold bind at 1 in H.
  destruct (new_client _ _ _ _ _ _ db) as [[[c x]|e|p] db1] eqn:Hn; simpl in H; [|done|done].
  injection H as <- <- <- <-. unfold new_client, query in Hn.
  apply bind_Ok in Hn as (ce & s1 & Hce & Hn). injection Hce as Hce <-.
  apply bind_Ok in Hn as (c' & s2 & Hc & Hn). injection Hn as <- <- <-.
  split; [by eexists|]. split; [|done]. revert Hce. unfold call_executor_new. simpl.
  destruct (cfg_wasm_runtime_overrides config) as [path|].
  - destruct (omap_err _ _); simpl; intros [=]; by subst.
  - intros [=]; by subst.
Qed.

(** A fork rule or a bad hash of the rules makes a block known bad. *)
Lemma check_block_excluded c b :
  (∃ h, forks (block_rules c) !! bcp_number b = Some h ∧ h ≠ bcp_hash b) ∨
  bcp_hash b ∈ bad (block_rules c) →
  check_block c b = Ok KnownBad.
Proof.
  unfold check_block, lookup_rule. intros [(h & -> & Hh)|Hb].
  - by rewrite decide_False.
  - destruct (forks _ !! _) as [h|]; [|by rewrite decide_True].
    destruct (decide (h = bcp_hash b)); [|done]. by rewrite decide_True.
Qed.

(** C28. A client that [new_full_parts] returns obeys its chain specification:
    a block at a height where the specification's last fork rule names another
    hash is known bad, and so is every hash the specification lists as bad.
    The client and its call executor share the database that the creation
    left, nothing is being imported, and no task is spawned. *)
Theorem full_client_obeys_spec (config : Configuration) (l : Listeners) (db db' : DB)
    (client : Client) (exec : LocalCallExecutor) (tasks : list TaskName) :
  new_full_parts config l db = (Ok (client, exec, tasks), db') →
  let fork_rules := default [] (default None (spec_fork_blocks (cfg_chain_spec config))) in
  let bads := default ∅ (default None (spec_bad_blocks (cfg_chain_spec config))) in
  (∀ b h, last_fork fork_rules (bcp_number b) = Some h → h ≠ bcp_hash b →
     check_block client b = Ok KnownBad) ∧
  (∀ b, bcp_hash b ∈ bads → check_block client b = Ok KnownBad) ∧
  backend client = db' ∧ ce_backend exec = db' ∧ importing_block client = None ∧ tasks = [].
Proof.
  intros H. apply new_full_parts_Ok in H as ((f & Hc) & He & ->).
  apply client_new_Ok in Hc as (Hb & Hr & _ & Hi). simpl.
  split_and!; try done.
  - intros b h Hf Hne. apply check_block_excluded. left. exists h. split; [|done].
    rewrite Hr. unfold block_rules_new. simpl. by rewrite collect_map_lookup.
  - intros b Hin. apply check_block_excluded. right. by rewrite Hr.
  - rewrite <- Hb. unfold call_executor_new in He. destruct (cfg_wasm_runtime_overrides _).
    + destruct (omap_err _ _); simpl in He; by simplify_eq.
    + by simplify_eq.
Qed.

(** When the client cannot be made the database is as it was, unless the
    commit of the genesis operation itself failed; in particular overrides
    that are refused leave an empty database without a genesis block. *)
Theorem new_full_parts_error (config : Configuration) (l : Listeners) (db db' : DB)
    (e : ServiceError) :
  new_full_parts config l db = (Err e, db') →
  (db' = db ∨ ∃ calls e', e = SvcClient e' ∧ commit_operation db calls = (Err e', db')) ∧
  (∀ path o, cfg_wasm_runtime_overrides config = Some path → wasm_override_new path = Err o →
     db' = db).
Proof.
  unfold new_full_parts, catch_err, lift. intros H. unfold bind at 1 in H.
  destruct (omap_err _ (task_manager_new _ _)); [|by injection H as _ <-; auto|done].
  unfold bind at 1 in H.
  destruct (new_client _ _ _ _ _ _ db) as [[x|e'|p] db1] eqn:Hn; simpl in H; [done| |done].
  injection H as <- <-. unfold new_client, query in Hn.
  unfold bind at 1, call_executor_new in Hn. simpl in Hn.
  destruct (cfg_wasm_runtime_overrides config) as [path|].
  - destruct (wasm_override_new path) as [o|o|p] eqn:Ho; simpl in Hn; [| |done].
    + split; [|intros ? ? [= <-]; congruence]. apply bind_Err in Hn as [Hn|(c & s1 & _ & Hn)]; [|done].
      destruct (client_new_fails _ _ _ _ _ _ _ _ Hn) as [?|[calls ?]]; [by left|right]. eauto.
    + injection Hn as _ <-. auto.
  - split; [|done]. apply bind_Err in Hn as [Hn|(c & s1 & _ & Hn)]; [|done].
    destruct (client_new_fails _ _ _ _ _ _ _ _ Hn) as [?|[calls ?]]; [by left|right]. eauto.
Qed.

(** [build_network] gives the network the role, peers and protocol of the
    configuration: a light node only asks for blocks, any other one serves as
    many peers as it may have and spawns the handler.  The worker's task is
    spawned, waiting for the starter, exactly when the worker can be made. *)
Theorem build_network_spec (worker_new : NetworkParams → outcome string unit)
    (config : Configuration) (v : option BlockAnnounceValidator) (arcs : nat)
    (tasks : list TaskName) :
  let params := {|
    np_role := cfg_role config; np_protocol_id := protocol_id (cfg_chain_spec config);
    np_boot_nodes := cfg_boot_nodes config; np_extra_sets := cfg_extra_sets config;
    np_validator := default default_validator v;
    np_block_requests :=
      if decide (cfg_role config = LightRole) then OutgoingOnly (protocol_id (cfg_chain_spec config))
      else Serving (protocol_id (cfg_chain_spec config))
             (cfg_in_peers config + cfg_out_peers config) |} in
  let handler := if decide (cfg_role config = LightRole) then [] else [TaskBlockRequestHandler] in
  build_network worker_new config v arcs tasks =
  match worker_new params with
  | Ok _ => (Ok (spawn_network (cfg_announce_block config) arcs),
             tasks ++ handler ++ [TaskNetworkWorker])
  | Err e => (Err (SvcNetwork e), tasks ++ handler)
  | Panic p => (Panic p, tasks ++ handler)
  end.
Proof.
  unfold build_network, block_requests, bind, modify, lift, ret.
  destruct (cfg_role config); simpl;
    (destruct (worker_new _) as [u|e|p]; simpl; [|done|done]; by rewrite <- app_assoc).
Qed.
End builder.

(** ** Witnesses *)

#[local] Existing Instance ref_chain.
#[local] Existing Instance ref_types.
#[local] Existing Instance ref_backend.
#[local] Existing Instance ref_runtime_types.
#[local] Existing Instance ref_runtime_api.
#[local] Existing Instance listeners_reference.
#[local] Existing Instance client_errors_reference.
#[local] Existing Instance fs_reference.
#[local] Existing Instance code_reference.

(** A chain specification is its genesis storage, fork rules and bad hashes. *)
Definition service_reference : ServiceTypes := {|
  ChainSpec := list (Bytes * Bytes) * list (Z * Z) * list Z;
  spec_fork_blocks s := Some (Some s.1.2);
  spec_bad_blocks s := Some (Some (list_to_set s.2));
  build_storage s := Ok s.1.1;
  protocol_id _ := "sup";
  Registry := unit; TaskRunner := unit; task_manager_new _ _ := Ok ();
  WasmMethod := unit; NativeExecutor := unit; native_executor_new _ _ _ := ();
  TelemetryEndpoints := list string; endpoints_is_empty l := bool_decide (l = []);
  DatabaseSource := string; BootNode := string; PeersSet := string;
  BlockAnnounceValidator := unit; default_validator := ();
|}.
#[local] Existing Instance service_reference.

Definition wasm_only : ExecutionStrategies := {|
  es_syncing := AlwaysWasm; es_importing := AlwaysWasm; es_block_construction := AlwaysWasm;
  es_offchain_worker := AlwaysWasm; es_other := AlwaysWasm |}.

Definition sample_spec : ChainSpec := ([("g", "1")], [(2, 202)], [303])%Z.

Definition sample_configuration (path : option string) : Configuration := {|
  cfg_role := FullRole; cfg_chain_spec := sample_spec; cfg_task_executor := tt;
  cfg_prometheus := None; cfg_wasm_method := tt; cfg_default_heap_pages := None;
  cfg_max_runtime_instances := 8; cfg_execution_strategies := wasm_only;
  cfg_offchain_enabled := false; cfg_offchain_indexing := false;
  cfg_wasm_runtime_overrides := path; cfg_telemetry_endpoints := None;
  cfg_state_cache_size := 0; cfg_state_cache_child_ratio := None;
  cfg_state_pruning := ArchiveAll; cfg_database := "db"; cfg_keep_blocks := None;
  cfg_transaction_storage := BlockBody;
  cfg_in_peers := 25; cfg_out_peers := 25; cfg_boot_nodes := []; cfg_extra_sets := [];
  cfg_announce_block := true; cfg_disable_grandpa := false |}%Z.

Definition no_override_error (e : WasmOverrideError) : Error := OtherError "override".

(** A block at the height of the fork rule. *)
Definition forked_block (hash : Hash) (n : Z) : BlockCheckParams := {|
  bcp_hash := hash; bcp_number := n; bcp_parent_hash := hash;
  bcp_allow_missing_state := false; bcp_import_existing := false |}.

Definition sample_full : service (Client * LocalCallExecutor * list TaskName) * DB :=
  new_full_parts no_override_error (sample_configuration None) no_listeners empty_db.

Lemma full_client_obeys_spec_witness :
  match sample_full with
  | (Ok (client, _, _), db) =>
      check_block client (forked_block 203%Z 2) = Ok KnownBad ∧
      check_block client (forked_block 303%Z 3) = Ok KnownBad ∧ is_Some (db_blocks db !! 1%Z)
  | _ => False
  end.
Proof.
  assert (match sample_full.1 with Ok _ => true | _ => false end = true) as Hok
    by (vm_compute; reflexivity).
  assert (bool_decide (is_Some (db_blocks sample_full.2 !! 1%Z)) = true) as Hdb
    by (vm_compute; reflexivity).
  destruct sample_full as [[[[client exec] tasks]|e|p] db'] eqn:Hf; [|discriminate Hok..].
  destruct (full_client_obeys_spec no_override_error (sample_configuration None) no_listeners empty_db db'
    client exec tasks Hf) as (Hforks & Hbads & _).
  split; [|split].
  - apply (Hforks _ 202%Z); [vm_compute; reflexivity|discriminate].
  - apply Hbads. vm_compute. reflexivity.
  - exact (bool_decide_eq_true_1 _ Hdb).
Defined.

Definition refused_full : service (Client * LocalCallExecutor * list TaskName) * DB :=
  new_full_parts no_override_error (sample_configuration (Some "absent")) no_listeners empty_db.

Lemma new_full_parts_error_witness :
  refused_full = (Err (SvcClient (OtherError "override")), empty_db).
Proof.
  assert (match refused_full.1 with Err (SvcClient (OtherError "override")) => true | _ => false end
    = true) as He by (vm_compute; reflexivity).
  destruct refused_full as [[x|e|p] db'] eqn:Hf; [discriminate He| |discriminate He].
  destruct (new_full_parts_error no_override_error _ _ _ _ _ Hf) as [_ H].
  rewrite (H "absent" (NotADirectory "absent")) by reflexivity.
  assert (e = SvcClient (OtherError "override")) as ->; [|reflexivity].
  pose proof (f_equal fst Hf) as Hf'. vm_compute in Hf'. by injection Hf' as <-.
Defined.
