(* ===== verification/NodeRuntime.v ===== *)
(** * The node's own runtime ([runtime/src])

    The constants of [constants.rs] at the widths of their types, and of
    [lib.rs] the version, the block weights and the runtime's API, which hands
    its calls to the pallets.  The pallets, [Executive] and [Perbill]'s
    arithmetic are parameters. *)

From Stdlib Require Import SpecFloat.
From S2P Require Import Prelude Chain.

(** ** Widths *)

Definition as_u64 (z : Z) : Z := (z `mod` 18446744073709551616)%Z.
Definition as_u128 (z : Z) : Z := (z `mod` 340282366920938463463374607431768211456)%Z.
Definition u128_mul (a b : Z) : Z := as_u128 (a * b).
Definition u128_add (a b : Z) : Z := as_u128 (a + b).

Lemma as_u128_id z : (0 ≤ z < 2 ^ 128)%Z → as_u128 z = z.
Proof. intros. unfold as_u128. by apply Z.mod_small. Qed.

(** ** [currency] *)

Definition DOTS : Z := 1000000000000.
Definition DOLLARS : Z := DOTS / 100.
Definition CENTS : Z := DOLLARS / 100.
Definition MILLICENTS : Z := CENTS / 1000.

(** [deposit] and [archive_deposit], in [u128] *)
Definition deposit (items bytes : Z) : Z :=
  u128_add (u128_mul (u128_mul items 20) DOLLARS) (u128_mul (u128_mul bytes 100) MILLICENTS).
Definition archive_deposit (items bytes : Z) : Z :=
  u128_add (u128_mul (u128_mul items 10) CENTS) (u128_mul (u128_mul bytes 10) MILLICENTS).

(** ** [time] *)

Definition MILLISECS_PER_BLOCK : Z := 3000.
Definition SECS_PER_BLOCK : Z := MILLISECS_PER_BLOCK / 1000.
Definition SLOT_DURATION : Z := MILLISECS_PER_BLOCK.
Definition PRIMARY_PROBABILITY : Z * Z := (1, 4)%Z.
Definition MINUTES : Z := 60 / as_u32 SECS_PER_BLOCK.
Definition HOURS : Z := as_u32 (MINUTES * 60).
Definition DAYS : Z := as_u32 (HOURS * 24).
Definition EPOCH_DURATION_IN_BLOCKS : Z := as_u32 (10 * MINUTES).

(** [x as f64] and [x as u64] on IEEE doubles *)
Definition as_f64 (z : Z) : spec_float := binary_normalize 53 1024 z 0 false.
Definition f64_as_u64 (f : spec_float) : Z :=
  match f with
  | S754_finite false m e =>
      Z.min 18446744073709551615
        (if (0 <=? e)%Z then Z.shiftl (Zpos m) e else Z.shiftr (Zpos m) (- e))
  | S754_infinity false => 18446744073709551615
  | _ => 0
  end.

Definition SLOT_FILL_RATE : spec_float :=
  SFdiv 53 1024 (as_f64 MILLISECS_PER_BLOCK) (as_f64 SLOT_DURATION).
Definition EPOCH_DURATION_IN_SLOTS : Z :=
  f64_as_u64 (SFmul 53 1024 (as_f64 EPOCH_DURATION_IN_BLOCKS) SLOT_FILL_RATE).

(** ** [runtime] *)

(** [BabeEpochConfiguration] *)
Inductive AllowedSlots := PrimarySlots | PrimaryAndSecondaryPlainSlots | PrimaryAndSecondaryVRFSlots.
Record BabeEpochConfiguration := { bec_c : Z * Z; bec_allowed_slots : AllowedSlots }.
Definition BABE_GENESIS_EPOCH_CONFIG : BabeEpochConfiguration :=
  {| bec_c := PRIMARY_PROBABILITY; bec_allowed_slots := PrimaryAndSecondaryPlainSlots |}.

(** [parameter_types] of [lib.rs] *)
Definition BlockHashCount : Z := 2400.
Definition EpochDuration : Z := EPOCH_DURATION_IN_SLOTS.
Definition ExpectedBlockTime : Z := MILLISECS_PER_BLOCK.
Definition MinimumPeriod : Z := SLOT_DURATION / 2.
Definition SS58Prefix : Z := 42.

(** The pallets of [construct_runtime], in their order. *)
Inductive Pallet := SystemP | BabeP | TimestampP | GrandpaP | SudoP.
Definition pallets : list Pallet := [SystemP; BabeP; TimestampP; GrandpaP; SudoP].

(** The signed extensions of [SignedExtra], in their order. *)
Inductive SignedExtension :=
  | CheckSpecVersion | CheckTxVersion | CheckGenesis | CheckEra | CheckNonce | CheckWeight.
Definition SignedExtra : list SignedExtension :=
  [CheckSpecVersion; CheckTxVersion; CheckGenesis; CheckEra; CheckNonce; CheckWeight].

(** The version, without the table of the API versions. *)
Record NodeVersion := {
  nv_spec_name : string;
  nv_impl_name : string;
  nv_authoring_version : Z;
  nv_spec_version : Z;
  nv_impl_version : Z;
  nv_transaction_version : Z;
}.
Definition VERSION : NodeVersion := {|
  nv_spec_name := "archive"; nv_impl_name := "patracts-archive"; nv_authoring_version := 10;
  nv_spec_version := 265; nv_impl_version := 1; nv_transaction_version := 2 |}%Z.
Definition native_version_of : NodeVersion := VERSION.

(** ** Weights *)

(** [Perbill] and the weights Substrate fixes. *)
Class Weights := {
  from_percent : Z → Z;                    (* [Perbill::from_percent], its parts *)
  perbill_mul : Z → Z → Z;                 (* [Perbill * Weight] *)
  WEIGHT_PER_SECOND : Z;
  BlockLength : Type;
  max_with_normal_ratio : Z → Z → BlockLength;
  BlockExecutionWeight : Z;
  ExtrinsicBaseWeight : Z;
}.

(** What the code relies on. *)
Class WeightLaws `{Weights} : Prop := {
  from_percent_parts p : (0 ≤ p ≤ 100)%Z → from_percent p = (p * 10000000)%Z;
  perbill_mul_le p w : (0 ≤ p ≤ 1000000000)%Z → (0 ≤ w)%Z → (0 ≤ perbill_mul p w ≤ w)%Z;
  perbill_mul_mono p q w : (p ≤ q)%Z → (0 ≤ w)%Z → (perbill_mul p w ≤ perbill_mul q w)%Z;
  weight_per_second_range : (0 ≤ WEIGHT_PER_SECOND < 2 ^ 62)%Z;
}.

Section runtime.
Context `{WT : Weights}.

Definition AVERAGE_ON_INITIALIZE_RATIO : Z := from_percent 10.
Definition NORMAL_DISPATCH_RATIO : Z := from_percent 75.
Definition MAXIMUM_BLOCK_WEIGHT : Z := as_u64 (2 * WEIGHT_PER_SECOND).

(** The [const_assert!] of [lib.rs]. *)
Definition const_assert : bool := (AVERAGE_ON_INITIALIZE_RATIO <=? NORMAL_DISPATCH_RATIO)%Z.

(** [RuntimeBlockLength] *)
Definition RuntimeBlockLength : BlockLength :=
  max_with_normal_ratio (as_u32 (as_u32 (5 * 1024) * 1024)) NORMAL_DISPATCH_RATIO.

(** The limits of a dispatch class that the builder is given. *)
Record ClassWeights := {
  cw_base_extrinsic : Z;
  cw_max_total : option Z;
  cw_reserved : option Z;
}.
Record BlockWeights := {
  bw_base_block : Z;
  bw_normal : ClassWeights;
  bw_operational : ClassWeights;
  bw_mandatory : ClassWeights;
  bw_avg_initialization : Z;
}.

(** [RuntimeBlockWeights], as it is given to the builder. *)
Definition RuntimeBlockWeights : BlockWeights := {|
  bw_base_block := BlockExecutionWeight;
  bw_normal := {| cw_base_extrinsic := ExtrinsicBaseWeight;
    cw_max_total := Some (perbill_mul NORMAL_DISPATCH_RATIO MAXIMUM_BLOCK_WEIGHT);
    cw_reserved := None |};
  bw_operational := {| cw_base_extrinsic := ExtrinsicBaseWeight;
    cw_max_total := Some MAXIMUM_BLOCK_WEIGHT;
    cw_reserved := Some (as_u64 (MAXIMUM_BLOCK_WEIGHT
                           - perbill_mul NORMAL_DISPATCH_RATIO MAXIMUM_BLOCK_WEIGHT)) |};
  bw_mandatory := {| cw_base_extrinsic := ExtrinsicBaseWeight;
    cw_max_total := None; cw_reserved := None |};
  bw_avg_initialization := AVERAGE_ON_INITIALIZE_RATIO |}.
End runtime.

(** ** The runtime API ([impl_runtime_apis!]) *)

(** The pallets and [Executive]; a call works on the storage [S]. *)
Class PalletCalls `{CT : ChainTypes} (S : Type) := {
  ApplyExtrinsicResult : Type;
  InherentData : Type;
  CheckInherentsResult : Type;
  OpaqueMetadata : Type;
  Executive_execute_block : Block → M string S unit;
  Executive_initialize_block : Header → M string S unit;
  Executive_apply_extrinsic : Extrinsic → M string S ApplyExtrinsicResult;
  Executive_finalize_block : M string S Header;
  Runtime_metadata : OpaqueMetadata;
  create_extrinsics : InherentData → M string S (list Extrinsic);
  check_extrinsics : InherentData → Block → M string S CheckInherentsResult;
  Authority : Type;
  EquivocationProof : Type;
  OpaqueKeyProof : Type;
  KeyOwnerProof : Type;
  decode_key_proof : OpaqueKeyProof → option KeyOwnerProof;
  Grandpa_authorities : M string S (list (Authority * Z));
  Grandpa_submit_report : EquivocationProof → KeyOwnerProof → M string S (option unit);
  Babe_slot_duration : M string S Z;
  Babe_authorities : M string S (list (Authority * Z));
  Babe_randomness : M string S Bytes;
  Babe_current_epoch_start : M string S Z;
  EpochT : Type;
  Babe_current_epoch : M string S EpochT;
  Babe_next_epoch : M string S EpochT;
  Babe_submit_report : EquivocationProof → KeyOwnerProof → M string S (option unit);
  SessionKeys_generate : option Bytes → M string S Bytes;
  KeyTypeId : Type;
  SessionKeys_decode : Bytes → option (list (Bytes * KeyTypeId));
}.

Section api.
Context {S : Type} `{CT : ChainTypes, PC : !PalletCalls S}.

(** [Core] *)
Definition rt_version : M string S NodeVersion := ret VERSION.
Definition rt_execute_block (block : Block) : M string S unit := Executive_execute_block block.
Definition rt_initialize_block (header : Header) : M string S unit :=
  Executive_initialize_block header.

(** [Metadata] *)
Definition rt_metadata : M string S OpaqueMetadata := ret Runtime_metadata.

(** [BlockBuilder] *)
Definition apply_extrinsic (extrinsic : Extrinsic) : M string S ApplyExtrinsicResult :=
  Executive_apply_extrinsic extrinsic.
Definition rt_finalize_block : M string S Header := Executive_finalize_block.
Definition inherent_extrinsics (data : InherentData) : M string S (list Extrinsic) :=
  create_extrinsics data.
Definition rt_check_inherents (block : Block) (data : InherentData) :
    M string S CheckInherentsResult := check_extrinsics data block.

(** [GrandpaApi]; [BabeApi]'s reports go the same way to its pallet. *)
Definition grandpa_authorities : M string S (list (Authority * Z)) := Grandpa_authorities.
Definition submit_report (to_pallet : EquivocationProof → KeyOwnerProof → M string S (option unit))
    (equivocation_proof : EquivocationProof) (key_owner_proof : OpaqueKeyProof) :
    M string S (option unit) :=
  match decode_key_proof key_owner_proof with
  | None => ret None
  | Some key_owner_proof => to_pallet equivocation_proof key_owner_proof
  end.
Definition grandpa_submit_report_equivocation :=
  submit_report Grandpa_submit_report.
Definition babe_submit_report_equivocation :=
  submit_report Babe_submit_report.
Definition generate_key_ownership_proof : M string S (option OpaqueKeyProof) := ret None.

(** [BabeApi] *)
Record BabeGenesisConfiguration := {
  bgc_slot_duration : Z;
  bgc_epoch_length : Z;
  bgc_c : Z * Z;
  bgc_genesis_authorities : list (Authority * Z);
  bgc_randomness : Bytes;
  bgc_allowed_slots : AllowedSlots;
}.
Definition rt_configuration : M string S BabeGenesisConfiguration :=
  let! slot_duration := Babe_slot_duration in
  let! genesis_authorities := Babe_authorities in
  let! randomness := Babe_randomness in
  ret {| bgc_slot_duration := slot_duration; bgc_epoch_length := EpochDuration;
         bgc_c := bec_c BABE_GENESIS_EPOCH_CONFIG;
         bgc_genesis_authorities := genesis_authorities; bgc_randomness := randomness;
         bgc_allowed_slots := bec_allowed_slots BABE_GENESIS_EPOCH_CONFIG |}.
Definition current_epoch_start : M string S Z := Babe_current_epoch_start.
Definition current_epoch : M string S EpochT := Babe_current_epoch.
Definition next_epoch : M string S EpochT := Babe_next_epoch.

(** [SessionKeys] *)
Definition rt_generate_session_keys (seed : option Bytes) : M string S Bytes :=
  SessionKeys_generate seed.
Definition rt_decode_session_keys (encoded : Bytes) : option (list (Bytes * KeyTypeId)) :=
  SessionKeys_decode encoded.

(** Without a key owner proof system every opaque proof fails to decode:
    reports of equivocations never reach a pallet. *)
Lemma reports_ignored e k (s : S) :
  (∀ k, decode_key_proof k = None) →
  grandpa_submit_report_equivocation e k s = (Ok None, s) ∧
  babe_submit_report_equivocation e k s = (Ok None, s).
Proof.
  intros Hk. unfold grandpa_submit_report_equivocation, babe_submit_report_equivocation,
    submit_report. by rewrite Hk.
Qed.
End api.

(** ** Properties *)

(** C40. For all [u32] arguments the deposits are computed in [u128] without
    overflow: they are the prices of the items and of the bytes added up, and
    they grow with both. *)
Theorem deposits_exact (items bytes : Z) :
  is_u32 items → is_u32 bytes →
  deposit items bytes = (items * 20 * DOLLARS + bytes * 100 * MILLICENTS)%Z ∧
  archive_deposit items bytes = (items * 10 * CENTS + bytes * 10 * MILLICENTS)%Z ∧
  (0 ≤ deposit items bytes < 2 ^ 73)%Z ∧
  (∀ items' bytes', is_u32 items' → is_u32 bytes' → (items ≤ items')%Z → (bytes ≤ bytes')%Z →
     (deposit items bytes ≤ deposit items' bytes')%Z ∧
     (archive_deposit items bytes ≤ archive_deposit items' bytes')%Z).
Proof.
  assert (∀ i b, is_u32 i → is_u32 b →
    deposit i b = (i * 20 * DOLLARS + b * 100 * MILLICENTS)%Z ∧
    archive_deposit i b = (i * 10 * CENTS + b * 10 * MILLICENTS)%Z) as Hex.
  { intros i b Hi Hb. unfold is_u32, u32_max in *.
    unfold deposit, archive_deposit, u128_mul, u128_add.
    change DOLLARS with 10000000000%Z. change CENTS with 100000000%Z.
    change MILLICENTS with 100000%Z.
    rewrite (as_u128_id (i * 20)), (as_u128_id (b * 100)), (as_u128_id (i * 10)),
      (as_u128_id (b * 10)) by lia.
    split; by rewrite !(as_u128_id (_ * _)), as_u128_id by lia. }
  intros Hi Hb. destruct (Hex items bytes Hi Hb) as [-> ->].
  split; [done|]. split; [done|].
  change DOLLARS with 10000000000%Z. change CENTS with 100000000%Z.
  change MILLICENTS with 100000%Z. unfold is_u32, u32_max in *. split; [lia|].
  intros i' b' Hi' Hb' ? ?. destruct (Hex i' b' Hi' Hb') as [-> ->].
  change DOLLARS with 10000000000%Z. change CENTS with 100000000%Z.
  change MILLICENTS with 100000%Z. lia.
Qed.

(** The runtime's limits fit together: the [const_assert!] holds; the weight
    reserved for operational transactions and the most that normal ones may
    use add up to the block's weight, with no wrap-around in either; a slot is
    one block, an epoch has as many slots as blocks (the detour over doubles
    is exact) and two minimum periods make a slot. *)
Theorem runtime_limits_consistent `{WL : WeightLaws} :
  const_assert = true ∧
  MAXIMUM_BLOCK_WEIGHT = (2 * WEIGHT_PER_SECOND)%Z ∧
  (∃ normal reserved,
     cw_max_total (bw_normal RuntimeBlockWeights) = Some normal ∧
     cw_reserved (bw_operational RuntimeBlockWeights) = Some reserved ∧
     (0 ≤ normal)%Z ∧ (0 ≤ reserved)%Z ∧ (normal + reserved = MAXIMUM_BLOCK_WEIGHT)%Z ∧
     (perbill_mul AVERAGE_ON_INITIALIZE_RATIO MAXIMUM_BLOCK_WEIGHT ≤ normal)%Z) ∧
  EpochDuration = EPOCH_DURATION_IN_BLOCKS ∧ (DAYS = 144 * EPOCH_DURATION_IN_BLOCKS)%Z ∧
  (2 * MinimumPeriod = SLOT_DURATION)%Z ∧ SLOT_DURATION = ExpectedBlockTime.
Proof.
  pose proof weight_per_second_range as Hw.
  assert (NORMAL_DISPATCH_RATIO = 750000000 ∧ AVERAGE_ON_INITIALIZE_RATIO = 100000000)%Z
    as [Hn Ha].
  { unfold NORMAL_DISPATCH_RATIO, AVERAGE_ON_INITIALIZE_RATIO.
    rewrite !from_percent_parts by lia. done. }
  assert (MAXIMUM_BLOCK_WEIGHT = (2 * WEIGHT_PER_SECOND)%Z) as Hm
    by (unfold MAXIMUM_BLOCK_WEIGHT, as_u64; apply Z.mod_small; lia).
  split; [unfold const_assert; by rewrite Hn, Ha|]. split; [done|].
  split; [|split_and!; vm_compute; reflexivity].
  assert (0 ≤ perbill_mul NORMAL_DISPATCH_RATIO MAXIMUM_BLOCK_WEIGHT ≤ MAXIMUM_BLOCK_WEIGHT)%Z
    by (apply perbill_mul_le; lia).
  assert (perbill_mul AVERAGE_ON_INITIALIZE_RATIO MAXIMUM_BLOCK_WEIGHT ≤
    perbill_mul NORMAL_DISPATCH_RATIO MAXIMUM_BLOCK_WEIGHT)%Z
    by (apply perbill_mul_mono; lia).
  eexists _, _. split; [done|]. split; [done|]. unfold as_u64.
  rewrite Z.mod_small by lia. lia.
Qed.

(** ** Witnesses *)

Lemma deposits_exact_witness :
  deposit 3 1000 = 610000000000%Z ∧ archive_deposit 3 1000 = 4000000000%Z.
Proof.
  destruct (deposits_exact 3 1000) as (H & Ha & _); [split; [done|discriminate]..|].
  rewrite H, Ha. split; reflexivity.
Defined.

Definition weights_reference : Weights := {|
  from_percent p := (p * 10000000)%Z;
  perbill_mul p w := (p * w / 1000000000)%Z;
  WEIGHT_PER_SECOND := 1000000000000;
  BlockLength := Z * Z; max_with_normal_ratio max ratio := (max, ratio); BlockExecutionWeight := 5000000000;
  ExtrinsicBaseWeight := 125000000 |}%Z.

Lemma weights_reference_laws : WeightLaws (H := weights_reference).
Proof.
  split; simpl.
  - done.
  - intros p w Hp Hw. split; [apply Z.div_pos; nia|]. apply Z.div_le_upper_bound; [lia|]. apply Z.mul_le_mono_nonneg_r; lia.
  - intros p q w Hpq Hw. apply Z.div_le_mono; nia.
  - lia.
Qed.

Lemma runtime_limits_consistent_witness :
  cw_max_total (bw_normal (RuntimeBlockWeights (WT := weights_reference))) =
    Some 1500000000000%Z ∧
  ∃ reserved, cw_reserved (bw_operational (RuntimeBlockWeights (WT := weights_reference))) =
    Some reserved ∧ (1500000000000 + reserved = 2000000000000)%Z.
Proof.
  split; [reflexivity|].
  destruct (runtime_limits_consistent (WL := weights_reference_laws))
    as (_ & _ & (n & r & Hn & Hr & _ & _ & Hs & _) & _).
  exists r. split; [exact Hr|]. vm_compute in Hn. injection Hn as <-. exact Hs.
Defined.
