(* ===== verification/Service.v ===== *)
(** * The node: command line and service ([cli/src], [archive/src/config.rs])

    From the environment and the configuration files to the running node:
    loading the chain specification and the archive's configuration, opening
    the databases the strategy asks for, and [new_full_base], which makes the
    client, starts the archive's tasks and joins the network.  Files,
    environment variables, the databases and the consensus crates are
    parameters. *)

From S2P Require Import NodeRuntime.
From S2P Require Import Prelude Chain BlockRules Postgres Kafka ArchiveCore VersionCache.
From S2P Require Import Reference BlockExecutor Notifier Pipeline Notifies Client.
From S2P Require Import ClientQueries CallExecutor Network Builder.

(** ** The development chain ([chain_spec.rs]) *)

(** The parts of [sp_core] and [sp_runtime] that make an account. *)
Class Accounts := {
  AccountId : Type;
  PairT : Type;
  PublicT : Type;
  pair_from_string : string → option PairT;      (* without a password *)
  pair_public : PairT → PublicT;
  into_account : PublicT → AccountId;
}.

(** [GenesisConfig] of the node's runtime, and what [from_genesis] is given. *)
Record GenesisConfig `{Accounts} := {
  system_code : Bytes;
  system_changes_trie_config : option Z;
  sudo_key : AccountId;
  babe_authorities : list (AccountId * Z);
  babe_epoch_config : option BabeEpochConfiguration;
  grandpa_authorities : list (AccountId * Z);
}.

Inductive ChainType := Development | Local | Live.
Record GenesisSpec `{Accounts} := {
  gs_name : string;
  gs_id : string;
  gs_type : ChainType;
  gs_genesis : outcome string GenesisConfig;     (* what the constructor gives *)
  gs_properties : list (string * string);
}.

Section chain_spec.
Context `{AA : Accounts}.

(** [get_from_seed], [get_account_id_from_seed] *)
Definition get_from_seed (seed : string) : outcome string PublicT :=
  let? key := expect (pair_from_string (String.append "//" seed))
    "static values are valid; qed" in
  Ok (pair_public key).
Definition get_account_id_from_seed (seed : string) : outcome string AccountId :=
  let? public := get_from_seed seed in Ok (into_account public).

(** [genesis]; only the first of its arguments is used. *)
Definition genesis (root_key : AccountId) (_endowed_accounts : list AccountId)
    (_enable_println : bool) : GenesisConfig := {|
  system_code := EmptyString; system_changes_trie_config := None;
  sudo_key := root_key;
  babe_authorities := []; babe_epoch_config := Some BABE_GENESIS_EPOCH_CONFIG;
  grandpa_authorities := [] |}.

(** [development_config], given to [from_genesis] *)
Definition development_config : GenesisSpec := {|
  gs_name := "Development"; gs_id := "dev"; gs_type := Development;
  gs_genesis :=
    let? root_key := get_account_id_from_seed "Alice" in
    let? alice := get_account_id_from_seed "Alice" in
    let? bob := get_account_id_from_seed "Bob" in
    let? alice_stash := get_account_id_from_seed "Alice//stash" in
    let? bob_stash := get_account_id_from_seed "Bob//stash" in
    Ok (genesis root_key [alice; bob; alice_stash; bob_stash] true);
  gs_properties := [("ss58Format", "42"); ("tokenDecimals", "10"); ("tokenSymbol", "DOT")] |}.
End chain_spec.

(** ** The environment *)

(** [sc_cli::Error] *)
Inductive CliError := CliInput (s : string) | CliIo (s : string) | CliService (e : ServiceError).

Section service.
Context `{CT : ChainTypes, BT : BackendTypes, BE : !Backend, RT : RuntimeTypes,
  RA : !RuntimeApi, VA : !VersionApi, JT : JsonTypes, PG : PgService, PC : PgConnect,
  KS : KafkaService, PJ : !PayloadJson, AE : ArchiveErrors, SL : !StorageListeners,
  CE : ClientErrors, FS : FileSystem, CR : !CodeRuntime, NT : NetworkTypes,
  NR : !NetworkReports, RD : RocksDb, AC : Accounts}.
Context {ST : ServiceTypes}.
Context (override_error : WasmOverrideError → Error).

(** Environment variables and files; [from_json_file] and [from_genesis] of
    [ArchiveChainSpec]; [toml::from_str]; the runner's configuration, whose
    chain specification is the one [load_spec] gave; the [top] of a storage. *)
Class Environment := {
  env_var : string → option string;
  read_to_string : string → outcome string string;
  toml_from_str : string → option ArchiveConfig;
  from_json_file : string → outcome string ChainSpec;
  from_genesis : GenesisSpec → ChainSpec;
  create_configuration : ChainSpec → outcome string Configuration;
  create_configuration_spec : ∀ spec config,
    create_configuration spec = Ok config → cfg_chain_spec config = spec;
  storage_top : GenesisStorage → gmap Bytes Bytes;
}.
Context {EN : Environment}.

(** [ArchiveCli::init] *)
Definition archive_cli_init : outcome CliError ArchiveConfig :=
  let? config_path := ok_or (env_var "ARCHIVE_CONFIG") (CliInput "env") in
  let? toml_str := omap_err CliIo (read_to_string config_path) in
  ok_or (toml_from_str toml_str) (CliInput "toml").

(** [SubstrateCli::load_spec] *)
Definition load_spec (id : string) : outcome string ChainSpec :=
  match env_var "ARCHIVE_JSON" with
  | Some path => from_json_file path
  | None =>
      if decide (id = "dev") then Ok (from_genesis development_config) else from_json_file id
  end.

(** [gen_genesis_storages] *)
Definition gen_genesis_storages : service GenesisStorage :=
  let? config_path := ok_or (env_var "ARCHIVE_JSON") (SvcOther "env") in
  let? json := unwrap (from_json_file config_path) "generate chain spec from json bytes" in
  let genesis := build_storage json in
  omap_err (λ _, SvcOther "build storage error") genesis.

(** ** [new_full_base] ([service.rs]) *)

(** The consensus crates, which may write to the client's database, the
    telemetry worker and the network worker; every call may fail. *)
Class Consensus := {
  telemetry_worker_new : outcome string unit;
  grandpa_block_import : M Error DB unit;
  babe_config : M Error DB unit;
  babe_block_import : M Error DB unit;
  babe_import_queue : M string DB unit;
  consensus_arcs : nat;                (* the clients these objects hold *)
  grandpa_peers_set : PeersSet;
  network_worker_new : NetworkParams → outcome string unit;
  grandpa_voter : M Error DB unit;     (* [run_grandpa_voter] *)
}.
Context {CO : Consensus}.

(** What the function works on: the main database and the tasks spawned. *)
Record ServiceState := { sv_db : DB; sv_tasks : list TaskName }.

(** [spawn_cond] *)
Definition spawn_cond (name : TaskName) : M ServiceError ServiceState unit :=
  modify (λ s, {| sv_db := sv_db s; sv_tasks := sv_tasks s ++ [name] |}).

(** The node when [new_full_base] returns. *)
Record FullNode := {
  fn_client : Client;
  fn_executor : LocalCallExecutor;
  fn_pipeline : option (PipelineParts * PipelineState);
  fn_network : NetNode;
}.

(** The telemetry's worker, when there are endpoints. *)
Definition make_telemetry (config : Configuration) : service bool :=
  match cfg_telemetry_endpoints config with
  | Some x =>
      if endpoints_is_empty x then Ok false
      else let? _ := omap_err SvcTelemetry telemetry_worker_new in Ok true
  | None => Ok false
  end.

(** The [start_channels] block: the tasks in the order they are spawned. *)
Definition start_channels_block (archive_config : ArchiveConfig) (readonly : option DB)
    (start_channels : bool) (genesis_storage : gmap Bytes Bytes) (store : NotifierState) :
    M ServiceError ServiceState (option (PipelineParts * PipelineState)) :=
  let! s := get in
  let! pipeline := lift (omap_err SvcClient
    (start_pipeline archive_config (sv_db s) (default (sv_db s) readonly) genesis_storage
       start_channels store)) in
  let! _ := match pipeline with
    | Some _ =>
        let! _ := spawn_cond TaskArchiver in
        let! _ := if reset_force (cli archive_config) then ret () else spawn_cond TaskInitializer in
        let! _ := spawn_cond TaskExecutor in
        spawn_cond TaskComparer
    | None => ret ()
    end in
  ret pipeline.

(** The objects of GRANDPA and BABE up to the import queue. *)
Definition make_import_queue : M ServiceError DB unit :=
  let! _ := catch_err SvcClient grandpa_block_import in
  let! _ := catch_err SvcClient babe_config in
  let! _ := catch_err SvcClient babe_block_import in
  catch_err SvcConsensus babe_import_queue.

Definition push_extra_set (set : PeersSet) (c : Configuration) : Configuration := {|
  cfg_role := cfg_role c; cfg_chain_spec := cfg_chain_spec c;
  cfg_task_executor := cfg_task_executor c; cfg_prometheus := cfg_prometheus c;
  cfg_wasm_method := cfg_wasm_method c; cfg_default_heap_pages := cfg_default_heap_pages c;
  cfg_max_runtime_instances := cfg_max_runtime_instances c;
  cfg_execution_strategies := cfg_execution_strategies c;
  cfg_offchain_enabled := cfg_offchain_enabled c;
  cfg_offchain_indexing := cfg_offchain_indexing c;
  cfg_wasm_runtime_overrides := cfg_wasm_runtime_overrides c;
  cfg_telemetry_endpoints := cfg_telemetry_endpoints c;
  cfg_state_cache_size := cfg_state_cache_size c;
  cfg_state_cache_child_ratio := cfg_state_cache_child_ratio c;
  cfg_state_pruning := cfg_state_pruning c; cfg_database := cfg_database c;
  cfg_keep_blocks := cfg_keep_blocks c;
  cfg_transaction_storage := cfg_transaction_storage c; cfg_in_peers := cfg_in_peers c;
  cfg_out_peers := cfg_out_peers c; cfg_boot_nodes := cfg_boot_nodes c;
  cfg_extra_sets := cfg_extra_sets c ++ [set];
  cfg_announce_block := cfg_announce_block c; cfg_disable_grandpa := cfg_disable_grandpa c |}.

Definition zoom_tasks {A} (m : M ServiceError (list TaskName) A) : M ServiceError ServiceState A :=
  zoom sv_tasks (λ t s, {| sv_db := sv_db s; sv_tasks := t |}) m.
Definition zoom_db {A} (m : M ServiceError DB A) : M ServiceError ServiceState A :=
  zoom sv_db (λ d s, {| sv_db := d; sv_tasks := sv_tasks s |}) m.

(** GRANDPA's voter, unless it is disabled. *)
Definition start_voter (config : Configuration) : M ServiceError ServiceState unit :=
  let enable_grandpa := negb (cfg_disable_grandpa config) in
  if enable_grandpa
  then let! _ := zoom_db (catch_err SvcClient grandpa_voter) in spawn_cond TaskGrandpaVoter
  else ret ().

(** [new_full_base]; the state starts with the main backend, which the client
    and its executor share.  [readonly] is the secondary backend, or [None]
    when the archive reads the main one. *)
Definition new_full_base (config : Configuration) (archive_config : ArchiveConfig)
    (readonly : option DB) (start_channels : bool) (genesis_storage : gmap Bytes Bytes)
    (listeners : Listeners) (store : NotifierState) : M ServiceError ServiceState FullNode :=
  let! telemetry := lift (make_telemetry config) in
  let! parts := zoom_db (new_full_parts override_error config listeners) in
  let '(client, executor, _) := parts in
  let! pipeline := start_channels_block archive_config readonly start_channels
    genesis_storage store in
  let! _ := if telemetry then spawn_cond TaskTelemetry else ret () in
  let! _ := zoom_db make_import_queue in
  let config := push_extra_set grandpa_peers_set config in
  let archive_arcs := match pipeline with Some _ => 2 | None => 0 end in
  let! network := zoom_tasks (build_network network_worker_new config None
    (archive_arcs + consensus_arcs)) in
  let! _ := start_voter config in
  let network := start_network network in
  let! s := get in
  ret {| fn_client := set_backend (sv_db s) client;
         fn_executor := {| ce_backend := sv_db s; ce_wasm_override := ce_wasm_override executor |};
         fn_pipeline := pipeline; fn_network := network |}.

(** [new_full] *)
Definition new_full (config : Configuration) (archive_config : ArchiveConfig)
    (readonly : option DB) (start_channels : bool) (genesis_storage : gmap Bytes Bytes)
    (listeners : Listeners) (store : NotifierState) : M ServiceError ServiceState FullNode :=
  new_full_base config archive_config readonly start_channels genesis_storage listeners store.

(** ** [do_work] ([command.rs]) *)

(** What [do_work] sets in the configuration. *)
Definition set_archive_defaults (c : Configuration) : Configuration := {|
  cfg_role := cfg_role c; cfg_chain_spec := cfg_chain_spec c;
  cfg_task_executor := cfg_task_executor c; cfg_prometheus := cfg_prometheus c;
  cfg_wasm_method := cfg_wasm_method c; cfg_default_heap_pages := cfg_default_heap_pages c;
  cfg_max_runtime_instances := cfg_max_runtime_instances c;
  cfg_execution_strategies := {| es_syncing := AlwaysWasm; es_importing := AlwaysWasm;
    es_block_construction := AlwaysWasm; es_offchain_worker := AlwaysWasm;
    es_other := AlwaysWasm |};
  cfg_offchain_enabled := cfg_offchain_enabled c;
  cfg_offchain_indexing := cfg_offchain_indexing c;
  cfg_wasm_runtime_overrides := cfg_wasm_runtime_overrides c;
  cfg_telemetry_endpoints := cfg_telemetry_endpoints c;
  cfg_state_cache_size := cfg_state_cache_size c;
  cfg_state_cache_child_ratio := cfg_state_cache_child_ratio c;
  cfg_state_pruning := ArchiveAll; cfg_database := cfg_database c;
  cfg_keep_blocks := cfg_keep_blocks c;
  cfg_transaction_storage := cfg_transaction_storage c; cfg_in_peers := cfg_in_peers c;
  cfg_out_peers := cfg_out_peers c; cfg_boot_nodes := cfg_boot_nodes c;
  cfg_extra_sets := cfg_extra_sets c; cfg_announce_block := cfg_announce_block c;
  cfg_disable_grandpa := cfg_disable_grandpa c |}.

(** [DatabaseSettingsSrc]: what the command line configured, or the secondary
    instance. *)
Inductive Source := Configured (s : DatabaseSource) | CustomDb (db : Rocks).

Definition database_settings (c : Configuration) (source : Source) : DatabaseSettings Source := {|
  ds_state_cache_size := cfg_state_cache_size c;
  ds_state_cache_child_ratio := (λ v, (v, 100%Z)) <$> cfg_state_cache_child_ratio c;
  ds_state_pruning := cfg_state_pruning c;
  ds_source := source;
  ds_keep_blocks := cfg_keep_blocks c;
  ds_transaction_storage := cfg_transaction_storage c |}.

(** [sc_client_db::Backend::new] *)
Context (backend_new : DatabaseSettings Source → Z → result DB).

(** The strategy's part of [do_work]: whether the tasks start, and the
    secondary database if the archive reads one. *)
Definition do_work_backends (config : Configuration) (archive_config : ArchiveConfig) :
    service (bool * option DB) :=
  let canonicalization_delay := 4096%Z in
  match strategy (cli archive_config) with
  | ReadonlyBackend =>
      let? db := omap_err SvcIo (secondary_open (rocksdb_config archive_config)) in
      let db_config := database_settings config (CustomDb db) in
      let? readonly_backend := omap_err SvcClient (backend_new db_config canonicalization_delay) in
      Ok (true, Some readonly_backend)
  | NoStrategy => Ok (false, None)
  | _ => Ok (true, None)
  end.

(** [do_work]; both runtimes start the same way, and the chosen one is what
    the client calls from then on. *)
Definition do_work (config : Configuration) (archive_config : ArchiveConfig)
    (listeners : Listeners) (store : NotifierState) :
    service FullNode * option ServiceState :=
  let before_start :=
    let? genesis_storages := gen_genesis_storages in
    let config := set_archive_defaults config in
    let db_config := database_settings config (Configured (cfg_database config)) in
    let canonicalization_delay := 4096%Z in
    let? backend := omap_err SvcClient (backend_new db_config canonicalization_delay) in
    let? backends := do_work_backends config archive_config in
    Ok (genesis_storages, config, backend, backends) in
  match before_start with
  | Ok (genesis_storages, config, backend, (start_channels, readonly_backend)) =>
      let '(r, s) := new_full config archive_config readonly_backend start_channels
        (storage_top genesis_storages) listeners store
        {| sv_db := backend; sv_tasks := [] |} in
      (r, Some s)
  | Err e => (Err e, None)
  | Panic p => (Panic p, None)
  end.

(** [run]: the chain identifier is the command line's. *)
Definition run (chain_id : string) (listeners : Listeners) (store : NotifierState) :
    outcome CliError FullNode * option ServiceState :=
  let before_runner :=
    let? archive_config := archive_cli_init in
    let? spec := omap_err CliInput (load_spec chain_id) in
    let? config := omap_err CliInput (create_configuration spec) in
    Ok (archive_config, config) in
  match before_runner with
  | Ok (archive_config, config) =>
      let '(r, s) := do_work config archive_config listeners store in (omap_err CliService r, s)
  | Err e => (Err e, None)
  | Panic p => (Panic p, None)
  end.

(** ** Properties *)

Lemma start_channels_block_Ok ac readonly start g store s p s' :
  start_channels_block ac readonly start g store s = (Ok p, s') →
  start_pipeline ac (sv_db s) (default (sv_db s) readonly) g start store = Ok p ∧
  sv_db s' = sv_db s ∧
  sv_tasks s' = sv_tasks s ++
    (if start then TaskArchiver :: (if reset_force (cli ac) then [] else [TaskInitializer]) ++
                   [TaskExecutor; TaskComparer] else []).
Proof.
  unfold start_channels_block. intros H. unfold bind at 1, get in H.
  apply bind_Ok in H as (q & s1 & Hq & H). injection Hq as Hq <-.
  apply bind_Ok in H as (u & s2 & Hs & H). injection H as <- <-.
  destruct (start_pipeline _ _ _ _ _ _) as [q'|e|m] eqn:Hp; simpl in Hq; [|done..].
  injection Hq as ->. split; [done|].
  assert (start = match q with Some _ => true | None => false end) as ->.
  { unfold start_pipeline in Hp. destruct start; [|by simplify_eq].
    apply obind_Ok in Hp as (k & _ & Hp). apply obind_Ok in Hp as (nt & _ & Hp).
    by injection Hp as <-. }
  destruct q; simpl in Hs.
  - unfold spawn_cond, modify, bind, ret in Hs. destruct (reset_force _); simpl in Hs;
      injection Hs as <- <-; simpl; by rewrite <- !app_assoc.
  - unfold ret in Hs. injection Hs as <- <-. by rewrite app_nil_r.
Qed.

(** The tasks of a started node, in the order they are spawned. *)
Definition node_tasks (config : Configuration) (ac : ArchiveConfig) (start telemetry : bool) :
    list TaskName :=
  (if start then TaskArchiver :: (if reset_force (cli ac) then [] else [TaskInitializer]) ++
                 [TaskExecutor; TaskComparer] else []) ++
  (if telemetry then [TaskTelemetry] else []) ++
  (if decide (cfg_role config = LightRole) then [] else [TaskBlockRequestHandler]) ++
  [TaskNetworkWorker] ++ (if cfg_disable_grandpa config then [] else [TaskGrandpaVoter]).

Lemma build_network_Ok w config v arcs tasks n tasks' :
  build_network w config v arcs tasks = (Ok n, tasks') →
  n = spawn_network (cfg_announce_block config) arcs ∧
  tasks' = tasks ++ (if decide (cfg_role config = LightRole) then [] else [TaskBlockRequestHandler])
             ++ [TaskNetworkWorker].
Proof.
  unfold build_network, block_requests, bind, modify, lift, ret.
  destruct (cfg_role config); simpl; destruct (w _); simpl; intros [= <- <-];
    (split; [done|by rewrite <- ?app_assoc]).
Qed.

(** What [zoom_db] leaves. *)
Lemma zoom_db_Ok {A} (m : M ServiceError DB A) s x s' :
  zoom_db m s = (Ok x, s') → m (sv_db s) = (Ok x, sv_db s') ∧ sv_tasks s' = sv_tasks s.
Proof.
  unfold zoom_db, zoom. destruct (m (sv_db s)) as [r d]. by intros [= -> <-].
Qed.

(** The voter is the last task, when GRANDPA is enabled. *)
Lemma voter_Ok (b : bool) s u s' :
  (if b then let! _ := zoom_db (catch_err SvcClient grandpa_voter) in spawn_cond TaskGrandpaVoter
   else ret ()) s = (Ok u, s') →
  sv_tasks s' = sv_tasks s ++ if b then [TaskGrandpaVoter] else [].
Proof.
  destruct b; intros H.
  - apply bind_Ok in H as (u' & s1 & H1 & H). apply zoom_db_Ok in H1 as [_ Ht].
    injection H as _ <-. simpl. by rewrite Ht.
  - injection H as _ <-. by rewrite app_nil_r.
Qed.

(** The whole of [new_full_base], one lemma per part above. *)
Lemma new_full_base_Ok config ac readonly start g l store db node s' :
  new_full_base config ac readonly start g l store {| sv_db := db; sv_tasks := [] |} =
    (Ok node, s') →
  ∃ telemetry client exec tasks db1,
    make_telemetry config = Ok telemetry ∧
    new_full_parts override_error config l db = (Ok (client, exec, tasks), db1) ∧
    start_pipeline ac db1 (default db1 readonly) g start store = Ok (fn_pipeline node) ∧
    fn_client node = set_backend (sv_db s') client ∧
    ce_backend (fn_executor node) = sv_db s' ∧
    sv_tasks s' = node_tasks config ac start telemetry ∧
    ∃ arcs, fn_network node = start_network (spawn_network (cfg_announce_block config) arcs).
Proof.
  unfold new_full_base. intros H.
  apply bind_Ok in H as (tel & s1 & Ht & H). injection Ht as Ht <-.
  apply bind_Ok in H as ([[c x] ts] & s1 & Hp & H). apply zoom_db_Ok in Hp as [Hp Htasks1].
  exists tel, c, x, ts, (sv_db s1). split; [done|]. split; [exact Hp|].
  apply bind_Ok in H as (p & s2 & Hc & H).
  apply start_channels_block_Ok in Hc as (Hpipe & Hdb & Htasks). simpl in *.
  apply bind_Ok in H as (u & s3 & Htt & H).
  assert (sv_tasks s3 = sv_tasks s2 ++ if tel then [TaskTelemetry] else []) as Htasks3.
  { destruct tel; [by injection Htt as <- <-|]. injection Htt as <- <-. by rewrite app_nil_r. }
  apply bind_Ok in H as (u1 & s4 & Hq & H). apply zoom_db_Ok in Hq as [_ Htasks4].
  apply bind_Ok in H as (n & s5 & Hn & H). unfold zoom_tasks, zoom in Hn.
  destruct (build_network _ _ _ _ _) as [rn tn] eqn:Hnet. injection Hn as -> <-.
  apply build_network_Ok in Hnet as [-> ->].
  apply bind_Ok in H as (u2 & s6 & Hg & H). apply voter_Ok in Hg.
  injection H as <- <-. simpl in *. split_and!; try done; [|by eexists].
  rewrite Hg, Htasks4, Htasks3, Htasks, Htasks1. unfold node_tasks. simpl.
  rewrite <- !app_assoc. by destruct (cfg_disable_grandpa config).
Qed.

(** C24. When [new_full_base] returns, its archive's pipeline is the one
    [start_pipeline] starts on the database as the client's creation left it
    (the comparer and the executor's client read the main backend, the archive
    the secondary one if there is one), so that what holds of started
    pipelines holds of the node; its tasks were spawned archiver first, so no
    channel has a sender without its receiver, the network worker before the
    voter; and the network was given its start signal. *)
Theorem node_started_spec (config : Configuration) (ac : ArchiveConfig) (readonly : option DB)
    (start : bool) (g : gmap Bytes Bytes) (l : Listeners) (store : NotifierState) (db : DB)
    (node : FullNode) (s' : ServiceState) :
  new_full_base config ac readonly start g l store {| sv_db := db; sv_tasks := [] |} =
    (Ok node, s') →
  (∃ client exec db1, new_full_parts override_error config l db = (Ok (client, exec, []), db1) ∧
     backend client = db1 ∧ fn_client node = set_backend (sv_db s') client ∧
     ce_backend (fn_executor node) = sv_db s' ∧
     start_pipeline ac db1 (default db1 readonly) g start store = Ok (fn_pipeline node)) ∧
  (∃ telemetry, make_telemetry config = Ok telemetry ∧
     sv_tasks s' = node_tasks config ac start telemetry) ∧
  nn_task (fn_network node) = AwaitStart (Some true) (cfg_announce_block config).
Proof.
  intros H.
  apply new_full_base_Ok in H as (tel & c & x & ts & db1 & Ht & Hp & Hs & Hc & He & Htasks & arcs & Hn).
  pose proof Hp as Hp'. apply new_full_parts_Ok in Hp' as ((f & Hcl) & _ & ->).
  apply client_new_Ok in Hcl as (Hb & _). split_and!.
  - exists c, x, db1. by split_and!.
  - by exists tel.
  - by rewrite Hn.
Qed.

(** What a successful start of the program went through. *)
Lemma run_Ok chain_id l store node s :
  run chain_id l store = (Ok node, s) →
  ∃ ac path spec g f db client db1 db2 readonly start,
    archive_cli_init = Ok ac ∧ env_var "ARCHIVE_JSON" = Some path ∧
    from_json_file path = Ok spec ∧ load_spec chain_id = Ok spec ∧ build_storage spec = Ok g ∧
    client_new (Ok g) (default None (spec_fork_blocks spec))
      (default None (spec_bad_blocks spec)) l f db = (Ok client, db1) ∧
    fn_client node = set_backend db2 client ∧
    start_pipeline ac db1 (default db1 readonly) (storage_top g) start store =
      Ok (fn_pipeline node).
Proof.
  unfold run. destruct archive_cli_init as [ac|e|m] eqn:Hac; simpl; [|done..].
  destruct (load_spec chain_id) as [spec|e|m] eqn:Hspec; simpl; [|done..].
  destruct (create_configuration spec) as [config|e|m] eqn:Hc; simpl; [|done..].
  apply create_configuration_spec in Hc. unfold do_work, gen_genesis_storages.
  unfold load_spec in Hspec. destruct (env_var "ARCHIVE_JSON") as [path|] eqn:Henv; simpl; [|done].
  rewrite Hspec. simpl. destruct (build_storage spec) as [g|e|m] eqn:Hg; simpl; [|done..].
  destruct (backend_new _ _) as [db|e|m]; simpl; [|done..].
  destruct (do_work_backends _ _) as [[start ro]|e|m]; simpl; [|done..].
  unfold new_full.
  destruct (new_full_base _ _ _ _ _ _ _ _) as [[n|e|m] s'] eqn:Hn; simpl; [|done..].
  intros [= <- _]. apply new_full_base_Ok in Hn as (tel & c & x & ts & db1 & _ & Hp & Hs & Hfc & _).
  apply new_full_parts_Ok in Hp as ((f & Hcl) & _). simpl in Hcl. rewrite Hc, Hg in Hcl.
  assert (load_spec chain_id = Ok spec) as Hload by (unfold load_spec; by rewrite Henv).
  by exists ac, path, spec, g, f, db, c, db1, (sv_db s'), ro, start.
Qed.

(** C25. The archive and the client agree on the genesis: if the program's start
    succeeds, the client was made with the genesis storage of the chain
    specification in [ARCHIVE_JSON] (whatever chain the command line names),
    and the [top] part of that same storage is what the executor publishes as
    the changes of block 0. *)
Theorem node_genesis_agrees (chain_id : string) (l : Listeners) (store : NotifierState)
    (node : FullNode) (s : option ServiceState) :
  run chain_id l store = (Ok node, s) →
  ∃ path spec g, env_var "ARCHIVE_JSON" = Some path ∧ from_json_file path = Ok spec ∧
    load_spec chain_id = Ok spec ∧ build_storage spec = Ok g ∧
    (∃ f db client db' db'', client_new (Ok g) (default None (spec_fork_blocks spec))
       (default None (spec_bad_blocks spec)) l f db = (Ok client, db') ∧
       fn_client node = set_backend db'' client) ∧
    ∀ p s0, fn_pipeline node = Some (p, s0) → ∀ s1 main,
      storages_map (executor_of p s1) 0 main =
        collect_map ((λ kv, (kv.1, Some kv.2)) <$> map_to_list (storage_top g)).
Proof.
  intros (ac & path & spec & g & f & db & c & db1 & db2 & ro & start & _ & Henv & Hj & Hspec &
    Hg & Hcl & Hfc & Hs)%run_Ok.
  exists path, spec, g. split_and!; try done.
  - by exists f, db, c, db1, db2.
  - intros p s0 Hp s1 main. unfold start_pipeline in Hs. rewrite Hp in Hs. destruct start; [|done].
    apply obind_Ok in Hs as (k & _ & Hs). apply obind_Ok in Hs as (nt & _ & Hs).
    by injection Hs as <- <-.
Qed.

(** C20. From the command line to the tables: on a node that started with its
    archive, while PostgreSQL and Kafka do not fail and payloads serialize, when
    the node has the blocks and the metadata of the numbers up to its best one
    and the tables can hold the rows, some run of the tasks hands every number from the first to the
    best one to the archiver once and in order and leaves the executor's row
    for each in the database; with an empty archive the row of block 0 holds
    the genesis storage of the chain specification in [ARCHIVE_JSON]. *)
Theorem node_archives_chain {VL : PgLaws} (chain_id : string) (l : Listeners)
    (store : NotifierState) (node : FullNode) (s : option ServiceState) (ac : ArchiveConfig)
    (p : PipelineParts) (s0 : PipelineState) (msgs : list ArchiveSendMsg) :
  (∀ db, is_u32 (best_number (bc_info db))) →
  run chain_id l store = (Ok node, s) → fn_pipeline node = Some (p, s0) →
  archive_cli_init = Ok ac → is_u32 (cli_block_num (cli ac)) → pg_wf (nt_db store) →
  no_collision (p_readonly s0) → services_ok →
  let n := first_number ac store in
  let best := best_number (bc_info (p_main s0)) in
  (∀ k, (n ≤ k ≤ best)%Z → has_metadata (p_main s0) k) →
  answers p s0 n msgs → Forall (λ msg, archivable msg.1) msgs →
  1 ≤ length msgs → (n + Z.of_nat (length msgs) - 1 = best)%Z →
  ∃ path spec g s', env_var "ARCHIVE_JSON" = Some path ∧ from_json_file path = Ok spec ∧
    build_storage spec = Ok g ∧ caught_up p s0 store n best msgs s' ∧
    (n = 0%Z →
     bm_main_changes <$> blocks (pg_tables (nt_db (p_store s'))) !! 0%Z =
       Some (json_of_changes (collect_map ((λ kv, (kv.1, Some kv.2)) <$>
         map_to_list (storage_top g))))).
Proof.
  intros Hbest (ac' & path & spec & g & _ & _ & _ & db1 & _ & ro & start & Hac & Henv & Hj &
    _ & Hg & _ & _ & Hs)%run_Ok Hp Hac' Hu Hwf Hcol Hok n best Hmeta Hans Ha Hlen Hb.
  assert (ac' = ac) as -> by congruence. rewrite Hp in Hs.
  assert (start = true ∧ p_main s0 = db1 ∧ p_readonly s0 = default db1 ro ∧
    genesis_top (executor_of p s0) = storage_top g) as (-> & Hm & Hr & Ht).
  { unfold start_pipeline in Hs. destruct start; [|done].
    apply obind_Ok in Hs as (k & _ & Hs). apply obind_Ok in Hs as (nt & _ & Hs).
    by injection Hs as <- <-. }
  unfold best in *. rewrite Hr in Hcol. rewrite Hm in Hmeta, Hb |- *.
  destruct (start_catches_up Hbest ac db1 (default db1 ro) (storage_top g) store p s0 msgs)
    as (s' & _ & Hc); try done.
  exists path, spec, g, s'. split_and!; try done. intros Hn.
  destruct Hc as (_ & _ & _ & _ & _ & Hrows). unfold n in *. rewrite Hrows, decide_True by lia.
  rewrite Hn. destruct msgs as [|msg msgs]; [simpl in Hlen; lia|]. simpl.
  pose proof (Hans 0 msg eq_refl) as H0. rewrite Hn in H0.
  apply executor_answer_changes in H0 as (main & ->). unfold storages_map.
  by rewrite decide_True, Ht.
Qed.

(** Without the environment variable [ARCHIVE_JSON] the program never
    starts, although [load_spec] then still answers the development chain or
    the file the command line names: [do_work] fails before it opens a
    database. *)
Theorem start_needs_archive_json (chain_id : string) (l : Listeners) (store : NotifierState) :
  env_var "ARCHIVE_JSON" = None →
  load_spec "dev" = Ok (from_genesis development_config) ∧
  (∀ node, (run chain_id l store).1 ≠ Ok node) ∧ (run chain_id l store).2 = None ∧
  (∀ ac spec config, archive_cli_init = Ok ac → load_spec chain_id = Ok spec →
     create_configuration spec = Ok config →
     run chain_id l store = (Err (CliService (SvcOther "env")), None)).
Proof.
  intros Henv. split; [unfold load_spec; by rewrite Henv|].
  unfold run, do_work, gen_genesis_storages. rewrite Henv. simpl.
  destruct archive_cli_init as [ac|e|m]; simpl; [|by split_and!..].
  destruct (load_spec chain_id) as [spec|e|m] eqn:Hspec; simpl; [|by split_and!..].
  destruct (create_configuration spec) as [config|e|m] eqn:Hc; simpl;
    (split_and!; [done|done|intros; simplify_eq; congruence]).
Qed.
End service.

(** ** Witnesses: a node started on an empty database *)

#[local] Existing Instance ref_chain.
#[local] Existing Instance ref_types.
#[local] Existing Instance ref_backend.
#[local] Existing Instance ref_runtime_types.
#[local] Existing Instance ref_runtime_api.
#[local] Existing Instance ref_version_api.
#[local] Existing Instance ref_json.
#[local] Existing Instance ref_payload_json.
#[local] Existing Instance kafka_reference.
#[local] Existing Instance pg_reference.
#[local] Existing Instance errors_reference.
#[local] Existing Instance connect_reference.
#[local] Existing Instance listeners_reference.
#[local] Existing Instance client_errors_reference.
#[local] Existing Instance fs_reference.
#[local] Existing Instance code_reference.
#[local] Existing Instance network_reference.
#[local] Existing Instance reports_reference.
#[local] Existing Instance service_reference.
#[local] Existing Instance sample_rocks.

Definition accounts_reference : Accounts := {|
  AccountId := string; PairT := string; PublicT := string;
  pair_from_string s := Some s; pair_public s := s; into_account s := s |}.
#[local] Existing Instance accounts_reference.

Definition dev_spec : ChainSpec := ([], [], []).
Definition with_spec (spec : ChainSpec) : Configuration :=
  let c := sample_configuration None in {|
  cfg_role := cfg_role c; cfg_chain_spec := spec; cfg_task_executor := tt;
  cfg_prometheus := None; cfg_wasm_method := tt; cfg_default_heap_pages := None;
  cfg_max_runtime_instances := 8; cfg_execution_strategies := wasm_only;
  cfg_offchain_enabled := false; cfg_offchain_indexing := false;
  cfg_wasm_runtime_overrides := None; cfg_telemetry_endpoints := None;
  cfg_state_cache_size := 0; cfg_state_cache_child_ratio := None;
  cfg_state_pruning := Constrained; cfg_database := cfg_database c; cfg_keep_blocks := None;
  cfg_transaction_storage := BlockBody;
  cfg_in_peers := 25; cfg_out_peers := 25; cfg_boot_nodes := []; cfg_extra_sets := [];
  cfg_announce_block := true; cfg_disable_grandpa := false |}%Z.

Lemma with_spec_spec spec config :
  @Ok string Configuration (with_spec spec) = Ok config → cfg_chain_spec config = spec.
Proof. by intros [= <-]. Qed.

Definition environment_reference (json : option string) : Environment := {|
  env_var v := if decide (v = "ARCHIVE_JSON") then json
               else if decide (v = "ARCHIVE_CONFIG") then Some "archive.toml" else None;
  read_to_string _ := Ok "toml"; toml_from_str _ := Some (sample_config false);
  from_json_file path := if decide (path = "dot.json") then Ok sample_spec else Err "no file";
  from_genesis _ := dev_spec;
  create_configuration spec := Ok (with_spec spec);
  create_configuration_spec := with_spec_spec;
  storage_top g := list_to_map g |}.

Definition consensus_reference : Consensus := {|
  telemetry_worker_new := Ok (); grandpa_block_import := ret (); babe_config := ret ();
  babe_block_import := ret (); babe_import_queue := ret (); consensus_arcs := 3;
  grandpa_peers_set := "grandpa"; network_worker_new _ := Ok (); grandpa_voter := ret () |}.
#[local] Existing Instance consensus_reference.

Definition fresh_backend {S} (_ : DatabaseSettings S) (_ : Z) : result DB := Ok empty_db.

Definition started : outcome CliError FullNode * option ServiceState :=
  run (EN := environment_reference (Some "dot.json")) no_override_error fresh_backend "dev"
    no_listeners notifier_start.

Definition is_ok {E A} (r : outcome E A) : bool := match r with Ok _ => true | _ => false end.

Lemma node_genesis_agrees_witness :
  match started with
  | (Ok node, _) =>
      ∃ p s0, fn_pipeline node = Some (p, s0) ∧
        storages_map (executor_of p s0) 0 [] !! "g" = Some (Some "1")
  | _ => False
  end.
Proof.
  assert (is_ok started.1 = true) as Hok by (vm_compute; reflexivity).
  destruct started as [[node|e|m] s] eqn:Hs; [|discriminate Hok..]. clear Hok.
  assert (is_Some (match started with (Ok n, _) => fn_pipeline n | _ => None end)) as Hp
    by (vm_compute; eexists; reflexivity).
  destruct (node_genesis_agrees no_override_error
    (EN := environment_reference (Some "dot.json")) fresh_backend "dev" no_listeners
    notifier_start node s Hs) as (path & spec & g & Hpath & Hspec & _ & Hg & _ & Hex).
  rewrite Hs in Hp. destruct Hp as [[p s0] Hp]. exists p, s0. split; [exact Hp|].
  rewrite (Hex p s0 Hp s0 []). simpl in Hpath. injection Hpath as <-.
  simpl in Hspec. injection Hspec as <-. simpl in Hg. injection Hg as <-.
  vm_compute. reflexivity.
Defined.

(** The node on a database that holds the chain of [Reference.v]. *)
Definition archiving : outcome CliError FullNode * option ServiceState :=
  run (EN := environment_reference (Some "dot.json")) no_override_error
    (λ _ _, Ok sample_db) "dev" no_listeners notifier_start.

Lemma node_archives_chain_witness :
  ∃ s', reachable sample_parts (sample_start false) s' ∧ p_published s' = [0; 1; 2]%Z ∧
    bm_main_changes <$> blocks (pg_tables (nt_db (p_store s'))) !! 0%Z =
      Some {["g" := Some "1"]}.
Proof.
  destruct sample_msgs_answers as (Hans & Hlen & Harch).
  assert (match archiving with (Ok node, _) => fn_pipeline node | _ => None end =
    Some (sample_parts, sample_start false)) as Hp by (vm_compute; reflexivity).
  destruct archiving as [[node|e|m] s] eqn:Hs; [|discriminate Hp..].
  destruct (node_archives_chain (VL := reference_laws) no_override_error
    (EN := environment_reference (Some "dot.json")) (λ _ _, Ok sample_db) "dev" no_listeners
    notifier_start node s (sample_config false) sample_parts (sample_start false) sample_msgs)
    as (path & spec & g & s' & Hpath & Hspec & Hg & Hc & H0).
  - apply ref_best_u32.
  - exact Hs.
  - exact Hp.
  - reflexivity.
  - split; [done|discriminate].
  - apply empty_tables_wf.
  - apply sample_no_collision.
  - apply sample_services.
  - intros k _. by eexists.
  - exact Hans.
  - exact Harch.
  - rewrite Hlen. lia.
  - rewrite Hlen. vm_compute. reflexivity.
  - destruct Hc as (Hr & _ & _ & Hpub & _ & _). exists s'. split; [exact Hr|].
    split; [rewrite Hpub; vm_compute; reflexivity|]. rewrite (H0 eq_refl).
    simpl in Hpath. injection Hpath as <-. simpl in Hspec. injection Hspec as <-.
    simpl in Hg. injection Hg as <-. vm_compute. reflexivity.
Defined.

Lemma start_needs_archive_json_witness :
  run (EN := environment_reference None) no_override_error fresh_backend "dev" no_listeners
    notifier_start = (Err (CliService (SvcOther "env")), None).
Proof.
  destruct (start_needs_archive_json no_override_error (EN := environment_reference None)
    fresh_backend "dev" no_listeners notifier_start) as (_ & _ & _ & H); [reflexivity|].
  apply (H (sample_config false) dev_spec (with_spec dev_spec)); reflexivity.
Defined.

Definition base_start : service FullNode * ServiceState :=
  new_full_base no_override_error (sample_configuration None) (sample_config false) None true
    {["g" := "1"]} no_listeners notifier_start {| sv_db := empty_db; sv_tasks := [] |}.

Lemma node_started_spec_witness :
  match base_start with
  | (Ok node, s') => sv_tasks s' =
      [TaskArchiver; TaskInitializer; TaskExecutor; TaskComparer; TaskBlockRequestHandler;
       TaskNetworkWorker; TaskGrandpaVoter] ∧
      nn_task (fn_network node) = AwaitStart (Some true) true
  | _ => False
  end.
Proof.
  assert (is_ok base_start.1 = true) as Hok by (vm_compute; reflexivity).
  destruct base_start as [[node|e|m] s'] eqn:Hs; [|discriminate Hok..].
  destruct (node_started_spec no_override_error _ _ _ _ _ _ _ _ _ _ Hs)
    as (_ & (tel & Ht & Htasks) & Hn).
  simpl in Ht. injection Ht as <-. split; [rewrite Htasks; reflexivity|exact Hn].
Defined.
